(* ===== verification/_CoqProject ===== *)
-Q . S2P
Prelude.v
Memory.v
SizeClass.v
Freelist.v
Registry.v
Engine.v
Callsite.v
Os.v
Large.v
Heap.v
Memfd.v
Dll.v
Pool.v
PoolInv.v
PoolFrame.v
PoolRun.v
PoolLists.v
PoolSlab.v
PoolCarve.v
PoolRefill.v
PoolReclaim.v
PoolFlush.v
PoolCount.v
PoolSys.v
PoolOps.v
Tiering.v
Mesh.v
MeshMem.v
MeshOps.v
MeshInv.v
MeshPair.v
MeshCompact.v
Space.v
Background.v
Allocator.v
Api.v
BgLaws.v
ApiInv.v
Locks.v
Profile.v
CTypes.v
ApiStep.v
ApiSmall.v
ApiLarge.v
ApiSpec.v
ApiRealloc.v
Preload.v
MeshView.v
ApiExit.v
ApiInit.v
Process.v
ApiDemo.v
MeshProps.v
ApiProps.v
Demo.v
BgProps.v
PoolProps.v
