(* ===== verification/Prelude.v ===== *)
(** * btmalloc: a verification development

    btmalloc (src/) is a malloc replacement for Linux.  This development translates the
    library's C files into executable functions on an explicit state and proves that, seen
    by a program, they are an allocator: no call faults, blocks are aligned, disjoint and
    keep their bytes, for any program, any number of threads, any link encoding, any owner
    engine and any kernel that keeps the documented laws of mmap; up to the first time the
    kernel moves a resized large object to a page that is not a 2 MiB boundary, which
    large.c does not provide for.

    ** The program

    A small request (at most 16 KiB) maps to one of 36 size classes; the caller's return
    address maps to a partition; the thread's bin of that partition and class gives a slot.
    An empty bin is refilled from the slab pool of the (partition, class), a full one is
    flushed into it.  A pool carves slabs from 2 MiB chunks, which it obtains from and
    disposes to a chunk source that keeps some of them warm and shares the work with a
    maintenance thread.  A larger request is a mapping of its own.  An owner table keyed by
    2 MiB regions tells [free] what a pointer belongs to.  The chunks are anonymous memory,
    or, with BTM_MESH=1, ranges of one memfd, so that sparse slabs can be compacted.

    ** Files and what they model

    - Prelude.v: machine integers, outcomes, the state monad and its tactics.
    - Memory.v: bytes, little-endian words, memset and memcpy.
    - SizeClass.v: size_class.c, and its lookup functions in internal.h.
    - Freelist.v: [btm_fl_get], [btm_fl_set] and the canary of internal.h; interface
      [FlOps]/[FlLaws], discharged by safe linking and by plain pointers.
    - Registry.v, Engine.v: chunk.c and [btm_resolve_owner]; interface
      [OwnerTable]/[OwnerTableLaws] of the radix and the flat table, interface
      [OwnerEngine]/[OwnerEngineLaws] of the three build-time engines.
    - Callsite.v: [btm_partition_of], [btm_intern_slow] and [read_nparts_env].
    - Os.v: the kernel, interface [OS]/[OSLaws], with a first-fit address space.
    - Large.v: large.c.
    - Heap.v, Dll.v: the records of internal.h (chunk header, slab descriptor, pool, bin)
      and the linked lists through them.
    - Pool.v: partition.c, against the interface [ChunkSource].  PoolInv.v has the invariant
      and the laws [ChunkSourceLaws]; PoolFrame, PoolRun, PoolLists, PoolSlab, PoolCarve,
      PoolRefill, PoolReclaim and PoolFlush verify the operations on one pool; PoolCount
      does the counter of the slots out; PoolSys and PoolOps lift them to the array of
      pools; PoolProps.v has the properties.
    - Tiering.v: [btm_pageout_cold] of partition.c.
    - Mesh.v: [btm_compact] of partition.c and [btm_mesh_remap] of background.c, on bytes
      behind a page table; MeshMem, MeshOps, MeshInv, MeshPair and MeshCompact verify it;
      MeshProps.v has its properties.  MeshView.v reads a process in mesh mode, with its
      bytes at their addresses, as compaction sees it, behind a page table.
    - Memfd.v: the memfd of background.c, the allocator of its ranges and what mappings,
      unmappings and holes do to contents; its invariant [shared_ok].
    - Background.v: background.c in both modes, an instance of [ChunkSource]; Space.v,
      BgLaws.v and BgProps.v verify it, sharing the address space and the owner table with
      large objects.
    - Api.v: btmalloc.c and tcache.c, on the state of the whole process.  ApiInv.v has its
      invariant [api_ok] and the program's blocks; ApiStep, ApiSmall, ApiLarge, ApiSpec,
      ApiRealloc, ApiExit and ApiInit verify the operations; ApiProps.v has the properties.
    - Profile.v: [btm_heap_profile] of btmalloc.c.  Preload.v: preload.c.  CTypes.v: the
      fields of the records are values of the types internal.h declares.
    - Locks.v: what every function does to the mutexes of the library, threads interleaving
      these actions, and fork.
    - Allocator.v: the abstract allocator; Process.v: programs run on the library.
    - Demo.v, ApiDemo.v: small concrete processes, on which the theorems are applied.

    A function of the source keeps its name; in Locks.v [f_locks] is what [f] does to the
    locks.  A pointer is an address, 0 is NULL.  The C
    heap is split by type: slot and large-object bytes are a byte memory, chunk headers,
    slab descriptors and large headers are records keyed by their address, pools are keyed
    by (partition, class).  An access to an unmapped chunk, header, bin or byte is [Fault].

    ** What the theorems show

    - ApiProps: the library refines the abstract allocator ([library_refines_allocator]);
      each public call in any state of the invariant; double frees abort; thread exit;
      first use; a failed initialization is not retried and faults; the heap profile is
      exact; cold tiering is invisible and evicts exactly the full idle slabs; the registry
      knows exactly the owners ([owners_exact]); the aligned entry points of preload.c; the
      stored integers fit their C types.
      All of this in both modes.  Without mesh mode programs may fork: the child goes on
      with the heap of the parent; in mesh mode the child has no chunk of its parent
      (MeshView.lost_in_fork_mapped).  In mesh mode a process is in order for compaction,
      and a first one keeps every byte of its slots and accounts for every slab and list
      ([process_compacts]).
    - MeshProps: on any heap, a first compaction keeps every byte in use, whatever the kernel answers to
      the remappings, and leaves every slab in service, its slots free exactly where all
      the slabs it holds were free, or retired and off its list ([compact_correct], through
      the record [merged]); a second one may lose bytes ([compact_twice_loses_data]),
      and a recipient may be left without slots on the partial list
      ([compact_exhausts_recipient]).
    - Locks: the locks have an order that every function keeps, so no interleaving of any
      threads deadlocks, the maintenance thread and its creation inside a call included; a
      forked child may, exactly on the locks its handler forgets.
    - PoolProps: refill, flush and the direct free, among all pools; slots never overlap.
    - BgProps: chunks come and go with every client's bytes kept; the maintenance thread
      may run between any two steps and always comes back to the head of its loop.
    - Large: the three operations, the round trip, and where 64-bit sizes wrap.
    - SizeClass, Freelist, Registry, Callsite: the lookup is the least fitting class; link
      round trip and forgery; insert/remove/lookup, the two tables are equivalent, the region
      cache, its accesses interleaved with those of inserts and removals, never answers what
      a removal that has returned took away; the partition count is a power of two; interning
      under any interleaving gives one partition per call site and terminates.

    ** Bounds and fuel

    Theorems on the API cover requests up to 2^46 bytes and alignments up to 2^40; beyond
    2^64 - 32 the sums of large.c wrap (Large.large_alloc_size_wraps), which the definitions
    reproduce.  User addresses are below 2^47.  Loops over lists take the number of slabs or
    chunks of the heap as fuel, which the invariant makes enough; the doubling loops of
    initialization take 31 steps, enough up to 2^31.  The region cache is transparent while
    fewer than 2^64 removals have been made ([oe_bound]).  mremap aligns to pages only.
    When it moves a large object to a place off the 2 MiB boundaries ([displaced]), that
    [realloc] still keeps every byte ([realloc_correct], [realloc_displaced]), but it
    overwrites the owner words of the regions it lands in and the invariant [api_ok] is
    lost: runs of programs are followed up to this call, and
    Large.large_realloc_steals_region shows what may happen after it.

    ** What is not modelled

    A call of the API, and a critical section of the maintenance thread, is one step of the
    models of data; Locks.v has the locks alone, without the data, and no signals: a
    sleeping thread may wake at any time.  The interning table, which is read
    without its lock, is modelled load by load.  The mappings of the allocator's own tables
    (partition array, interning table, thread blocks) are granted or refused by an argument
    of Api.v, as is the creation of the thread; the leaves of the radix table are assumed to
    be granted.  [btm_compact] is one step, as its caller promises a quiescent heap.

    Compaction works on memory behind a page table, the other operations on memory at its
    addresses; [mesh_view] leads from the second to the first, so a process is followed up
    to its first compaction, and calls on a compacted heap other than [btm_compact] are not
    modelled.  Not modelled either: the text that btm_heap_profile and the double-free report write;
    a fork while another thread is inside a critical section; benchmarks, tests and tools.
    A build with BTM_PARTITIONING=0 has no model of its own: it does what the process with
    BTM_PARTITIONS=1 and without interning does (Callsite.one_partition). *)

From stdpp Require Import prelude gmap.
Local Open Scope Z_scope.

(** ** Fixed-width integers

    C's unsigned arithmetic is arithmetic on [Z] reduced modulo the width. *)

Declare Scope word_scope.
Delimit Scope word_scope with word.

Definition u16 (x : Z) : Z := x mod 2 ^ 16.
Definition u32 (x : Z) : Z := x mod 2 ^ 32.
Definition u64 (x : Z) : Z := x mod 2 ^ 64.
Definition not64 (x : Z) : Z := u64 (Z.lnot x).

Notation "x +% y" := (u64 (x + y)) (at level 50, left associativity) : word_scope.
Notation "x -% y" := (u64 (x - y)) (at level 50, left associativity) : word_scope.
Notation "x *% y" := (u64 (x * y)) (at level 40, left associativity) : word_scope.

#[global] Arguments Z.shiftr : simpl never.
#[global] Arguments Z.shiftl : simpl never.
#[global] Arguments Z.land : simpl never.
#[global] Arguments Z.lxor : simpl never.
#[global] Arguments Z.pow : simpl never.
#[global] Arguments Z.leb : simpl never.
#[global] Arguments Z.ltb : simpl never.
#[global] Arguments Z.eqb : simpl never.
#[global] Arguments Z.add : simpl never.
#[global] Arguments Z.sub : simpl never.
#[global] Arguments Z.mul : simpl never.
#[global] Arguments u64 : simpl never.
#[global] Arguments u32 : simpl never.
#[global] Arguments u16 : simpl never.

(** Geometry of [src/src/internal.h], lines 51 to 64 and 146 to 150. *)
Definition BTM_PAGE_SHIFT : Z := 12.
Definition BTM_PAGE_SIZE : Z := 4096.
Definition BTM_CHUNK_SHIFT : Z := 21.
Definition BTM_CHUNK_SIZE : Z := 2097152.
Definition BTM_PAGES_PER_CHUNK : Z := 512.
Definition BTM_SMALL_MAX_SIZE : Z := 16384.
Definition BTM_NUM_SIZE_CLASSES : Z := 36.
Definition BTM_PAGE_NONE : Z := 65535.
Definition BTM_ALIGNMENT : Z := 16.

(** ** Outcomes and the state monad

    A run of an operation ends with a value and the new state, with a fault (an
    access to memory that is not mapped, or undefined behaviour), with [abort()],
    or runs out of the fuel of one of its loops. *)
Inductive outcome (A : Type) : Type :=
| Ok (a : A)
| Fault
| Aborted
| OutOfFuel.
Arguments Ok {A} a.
Arguments Fault {A}.
Arguments Aborted {A}.
Arguments OutOfFuel {A}.

Definition M (S A : Type) : Type := S → outcome (A * S).

#[export] Instance M_ret (S : Type) : MRet (M S) := λ A a s, Ok (a, s).
#[export] Instance M_bind (S : Type) : MBind (M S) := λ A B f m s,
  match m s with
  | Ok (a, s') => f a s'
  | Fault => Fault
  | Aborted => Aborted
  | OutOfFuel => OutOfFuel
  end.

(** Primitive actions: the only ways an operation stops early. *)
Definition fault {S A : Type} : M S A := λ _, Fault.
Definition aborts {S A : Type} : M S A := λ _, Aborted.
Definition no_fuel {S A : Type} : M S A := λ _, OutOfFuel.
Definition gets {S A : Type} (f : S → A) : M S A := λ s, Ok (f s, s).
Definition modify {S : Type} (f : S → S) : M S unit := λ s, Ok (tt, f s).
Definition of_option {S A : Type} (o : option A) : M S A := λ s,
  match o with Some a => Ok (a, s) | None => Fault end.

(** Run an operation of a component on its part of a larger state. *)
Definition zoom {S T A : Type} (get : S → T) (set : T → S → S) (m : M T A) : M S A := λ s,
  match m (get s) with
  | Ok (a, t) => Ok (a, set t s)
  | Fault => Fault
  | Aborted => Aborted
  | OutOfFuel => OutOfFuel
  end.

(** The value of a run that ends normally. *)
Definition val_of {S A : Type} (o : outcome (A * S)) : option A :=
  match o with Ok (a, _) => Some a | _ => None end.

Lemma val_of_Ok {S A : Type} (o : outcome (A * S)) (a : A) : val_of o = Some a → ∃ s, o = Ok (a, s).
Proof. destruct o as [[b s]| | |]; simpl; [intros [= ->]; eauto|done..]. Qed.

Definition is_fault {A : Type} (o : outcome A) : bool := match o with Fault => true | _ => false end.

Lemma is_fault_spec {A : Type} (o : outcome A) : is_fault o = true → o = Fault.
Proof. by destruct o. Qed.

(** ** Run equations: how a composed operation runs *)
Lemma run_ret {S A : Type} (a : A) (s : S) : (mret a : M S A) s = Ok (a, s).
Proof. done. Qed.

Lemma run_bind {S A B : Type} (m : M S A) (f : A → M S B) (s s' : S) (a : A) :
  m s = Ok (a, s') → (m ≫= f) s = f a s'.
Proof. intros H. unfold mbind, M_bind. by rewrite H. Qed.

Lemma run_bind_inv {S A B : Type} (m : M S A) (f : A → M S B) (s s'' : S) (b : B) :
  (m ≫= f) s = Ok (b, s'') → ∃ a s', m s = Ok (a, s') ∧ f a s' = Ok (b, s'').
Proof. unfold mbind, M_bind. destruct (m s) as [[a s']| | |]; naive_solver. Qed.

Lemma run_gets {S A : Type} (f : S → A) (s : S) : gets f s = Ok (f s, s).
Proof. done. Qed.

Lemma run_modify {S : Type} (f : S → S) (s : S) : modify f s = Ok (tt, f s).
Proof. done. Qed.

Lemma run_zoom {S T A : Type} (get : S → T) (set : T → S → S) (m : M T A) (s : S) (a : A) (t : T) :
  m (get s) = Ok (a, t) → zoom get set m s = Ok (a, set t s).
Proof. intros H. unfold zoom. by rewrite H. Qed.

(** [runs m s Q]: the operation ends normally from [s], with a result and a state in [Q].
    Total correctness: a run that faults, aborts or runs out of fuel is in no [Q]. *)
Definition runs {S A : Type} (m : M S A) (s : S) (Q : A → S → Prop) : Prop := ∃ a s', m s = Ok (a, s') ∧ Q a s'.

Lemma runs_intro {S A : Type} (m : M S A) (s s' : S) (a : A) (Q : A → S → Prop) : m s = Ok (a, s') → Q a s' → runs m s Q.
Proof. intros H HQ. by exists a, s'. Qed.

Lemma runs_ret {S A : Type} (a : A) (s : S) (Q : A → S → Prop) : Q a s → runs (mret a) s Q.
Proof. by exists a, s. Qed.

Lemma runs_bind {S A B : Type} (m : M S A) (f : A → M S B) (s : S) (Q : A → S → Prop) (R : B → S → Prop) :
  runs m s Q → (∀ a s', Q a s' → runs (f a) s' R) → runs (m ≫= f) s R.
Proof.
  intros (a & s1 & Hm & HQ) Hf. destruct (Hf a s1 HQ) as (b & s2 & Hb & HR). exists b, s2.
  split; [by rewrite (run_bind m f s s1 a Hm)|done].
Qed.

Lemma runs_mono {S A : Type} (m : M S A) (s : S) (Q R : A → S → Prop) :
  runs m s Q → (∀ a s', Q a s' → R a s') → runs m s R.
Proof. intros (a & s1 & Hm & HQ) H. exists a, s1. auto. Qed.

(** A step whose run is known. *)
Lemma runs_step {S A B : Type} (m : M S A) (f : A → M S B) (s s' : S) (a : A) (R : B → S → Prop) :
  m s = Ok (a, s') → runs (f a) s' R → runs (m ≫= f) s R.
Proof. intros Hm (b & s2 & Hb & HR). exists b, s2. split; [by rewrite (run_bind m f s s' a Hm)|done]. Qed.

Lemma runs_gets {S A B : Type} (g : S → A) (f : A → M S B) (s : S) (R : B → S → Prop) :
  runs (f (g s)) s R → runs (gets g ≫= f) s R.
Proof. by apply runs_step. Qed.

Lemma runs_modify {S B : Type} (g : S → S) (f : unit → M S B) (s : S) (R : B → S → Prop) :
  runs (f tt) (g s) R → runs (modify g ≫= f) s R.
Proof. by apply runs_step. Qed.

Lemma runs_zoom {S T A : Type} (get : S → T) (set : T → S → S) (m : M T A) (s : S) (Q : A → S → Prop) :
  runs m (get s) (λ a t, Q a (set t s)) → runs (zoom get set m) s Q.
Proof. intros (a & t & Hm & HQ). exists a, (set t s). split; [by apply run_zoom|done]. Qed.

(** Distinct keys of a map are no more than its size: the fuel of the loops over lists. *)
Lemma keys_fuel {A : Type} (m : gmap Z A) (l : list Z) : NoDup l → (∀ y, y ∈ l → is_Some (m !! y)) → (length l ≤ size m)%nat.
Proof.
  intros Hnd Hl. rewrite <-(size_list_to_set (C := gset Z) l) by done. rewrite <-size_dom. apply subseteq_size.
  intros y Hy%elem_of_list_to_set. by apply elem_of_dom, Hl.
Qed.

(** ** Tactics *)

(** Case analysis on the comparisons of the code. *)
Ltac zcase :=
  match goal with
  | |- context [Z.eqb ?x ?y] => destruct (Z.eqb_spec x y)
  | |- context [Z.ltb ?x ?y] => destruct (Z.ltb_spec x y)
  | |- context [Z.leb ?x ?y] => destruct (Z.leb_spec x y)
  end.
Ltac zcases := repeat (zcase; simpl; try lia).

(** [lia] after the geometry constants are unfolded. *)
Ltac unfold_geometry :=
  unfold BTM_PAGE_SHIFT, BTM_PAGE_SIZE, BTM_CHUNK_SHIFT, BTM_CHUNK_SIZE, BTM_PAGES_PER_CHUNK,
    BTM_SMALL_MAX_SIZE, BTM_NUM_SIZE_CLASSES, BTM_PAGE_NONE, BTM_ALIGNMENT in *.
Ltac glia := unfold_geometry; lia.

(** Membership in appended and consed lists, positive goals and disequalities. *)
Ltac list_mem := repeat (rewrite elem_of_app in * || rewrite elem_of_cons in * ).
Ltac in_list := list_mem; tauto.
Ltac ne_list := let E := fresh in intros E; rewrite E in *; list_mem; tauto.

(** Case analysis on the decisions of the goal only. *)
Ltac gcase := match goal with |- context [decide ?P] => destruct (decide P) end.
Ltac gcases := repeat gcase.

(** ** Hint databases *)
Create HintDb word discriminated.
Create HintDb btm discriminated.
Create Rewrite HintDb run.
#[export] Hint Rewrite @run_ret @run_gets @run_modify : run.

(** ** Words *)
Lemma u64_small x : 0 ≤ x < 2 ^ 64 → u64 x = x.
Proof. apply Z.mod_small. Qed.

Lemma u32_small x : 0 ≤ x < 2 ^ 32 → u32 x = x.
Proof. apply Z.mod_small. Qed.

Lemma u16_small x : 0 ≤ x < 2 ^ 16 → u16 x = x.
Proof. apply Z.mod_small. Qed.

Lemma u64_range x : 0 ≤ u64 x < 2 ^ 64.
Proof. apply Z.mod_pos_bound. lia. Qed.

Lemma u32_range x : 0 ≤ u32 x < 2 ^ 32.
Proof. apply Z.mod_pos_bound. lia. Qed.

Lemma land_mask x k : 0 ≤ k → Z.land x (2 ^ k - 1) = x mod 2 ^ k.
Proof. intros. replace (2 ^ k - 1) with (Z.ones k) by (rewrite Z.ones_equiv; lia). by apply Z.land_ones. Qed.

Lemma land_not64 x k :
  0 ≤ x < 2 ^ 64 → 0 ≤ k → Z.land x (not64 (2 ^ k - 1)) = x - x mod 2 ^ k.
Proof.
  intros Hx Hk. unfold not64, u64.
  replace (2 ^ k - 1) with (Z.ones k) by (rewrite Z.ones_equiv; lia).
  rewrite <-Z.land_ones by lia.
  rewrite (Z.land_comm (Z.lnot _)), Z.land_assoc, Z.land_ones, (Z.mod_small x) by lia.
  rewrite <-Z.ldiff_land, Z.ldiff_ones_r, Z.shiftl_mul_pow2, Z.shiftr_div_pow2 by lia.
  pose proof (Z.div_mod x (2 ^ k)). lia.
Qed.

Lemma lor_range n a b : 0 ≤ n → 0 ≤ a < 2 ^ n → 0 ≤ b < 2 ^ n → 0 ≤ Z.lor a b < 2 ^ n.
Proof.
  intros Hn Ha Hb. assert (Hp : 0 ≤ Z.lor a b) by (apply Z.lor_nonneg; lia).
  split; [done|]. rewrite <-(Z.mod_small a (2 ^ n)), <-(Z.mod_small b (2 ^ n)) by done.
  rewrite <-!Z.land_ones, <-Z.land_lor_distr_l, Z.land_ones by done.
  apply Z.mod_pos_bound. lia.
Qed.

Lemma lxor_range n a b : 0 ≤ n → 0 ≤ a < 2 ^ n → 0 ≤ b < 2 ^ n → 0 ≤ Z.lxor a b < 2 ^ n.
Proof.
  intros Hn Ha Hb. assert (0 ≤ Z.lxor a b) by (apply Z.lxor_nonneg; lia).
  split; [done|]. apply Z.bounded_iff_bits_nonneg; [lia..|]. intros i Hi. rewrite Z.lxor_spec.
  rewrite <-(Z.mod_small a (2 ^ n)), <-(Z.mod_small b (2 ^ n)) by lia.
  by rewrite !Z.mod_pow2_bits_high by lia.
Qed.

Lemma shiftr_range n a k : 0 ≤ k → 0 ≤ a < 2 ^ n → 0 ≤ Z.shiftr a k < 2 ^ n.
Proof.
  intros Hk Ha. rewrite Z.shiftr_div_pow2 by lia.
  pose proof (Z.pow_pos_nonneg 2 k). split; [apply Z.div_pos; lia|].
  apply Z.div_lt_upper_bound; [lia|]. nia.
Qed.
#[export] Hint Resolve lxor_range shiftr_range u64_range : word.

(** XOR masks cancel: the algebra behind safe linking. *)
Lemma lxor_cancel a b c : Z.lxor (Z.lxor (Z.lxor (Z.lxor a b) c) b) c = a.
Proof.
  rewrite (Z.lxor_assoc (Z.lxor a b) c b), (Z.lxor_comm c b), <-Z.lxor_assoc.
  rewrite (Z.lxor_assoc a b b), Z.lxor_nilpotent, Z.lxor_0_r.
  by rewrite Z.lxor_assoc, Z.lxor_nilpotent, Z.lxor_0_r.
Qed.

(** ** Lists *)
Lemma seqZ_snoc m n : 0 ≤ n → seqZ m (n + 1) = seqZ m n ++ [m + n].
Proof. intros. rewrite seqZ_app by lia. f_equal. Qed.

(** The head of a list of addresses, [0] standing for [NULL]. *)
Definition hd0 (l : list Z) : Z := match l with [] => 0 | x :: _ => x end.

(** A filter that keeps everything. *)
Lemma filter_all {A : Type} (P : A → Prop) `{!∀ x, Decision (P x)} (l : list A) : (∀ x, x ∈ l → P x) → filter P l = l.
Proof.
  induction l as [|x l IH]; intros HP; [done|]. rewrite filter_cons_True by (apply HP; left). f_equal. apply IH. intros y Hy. apply HP. by right.
Qed.

Lemma hd0_null l : Forall (λ x, x ≠ 0) l → hd0 l = 0 → l = [].
Proof. intros Hl. destruct l; [done|]. apply Forall_cons in Hl as [? _]. simpl. lia. Qed.
