(* ===== verification/Memory.v ===== *)
(** * Memory: the bytes of slots and large objects

    A byte-addressed memory.  A byte that was never written since its page was
    mapped reads as zero, as the pages of an anonymous mapping do.  Loads and stores
    of a [uintptr_t] are little-endian; [memset] and [memcpy] work on byte ranges. *)

From stdpp Require Import prelude gmap.
From S2P Require Import Prelude.
Local Open Scope Z_scope.

Definition byte_at (m : gmap Z Z) (a : Z) : Z := default 0 (m !! a).

Definition load_bytes (m : gmap Z Z) (a n : Z) : list Z := byte_at m <$> seqZ a n.

Fixpoint store_bytes (m : gmap Z Z) (a : Z) (bs : list Z) : gmap Z Z :=
  match bs with
  | [] => m
  | b :: bs' => <[a := b]> (store_bytes m (a + 1) bs')
  end.

Definition load64 (m : gmap Z Z) (a : Z) : Z := little_endian_to_Z 8 (load_bytes m a 8).
Definition store64 (m : gmap Z Z) (a v : Z) : gmap Z Z := store_bytes m a (Z_to_little_endian 8 8 v).

Definition memset (m : gmap Z Z) (p c n : Z) : gmap Z Z :=
  store_bytes m p (replicate (Z.to_nat n) c).
Definition memcpy (m : gmap Z Z) (dst src n : Z) : gmap Z Z :=
  store_bytes m dst (load_bytes m src n).

(** The kernel gives zero pages for the range [a, a + n). *)
Definition zero_range (m : gmap Z Z) (a n : Z) : gmap Z Z :=
  filter (λ kv : Z * Z, ¬ (a ≤ kv.1 < a + n)) m.

(** ** Bytes *)
Lemma byte_at_store_bytes m a bs x :
  byte_at (store_bytes m a bs) x =
  if decide (a ≤ x < a + Z.of_nat (length bs)) then bs !!! Z.to_nat (x - a) else byte_at m x.
Proof.
  revert a. induction bs as [|b bs IH]; intros a; simpl.
  { by case_decide; [lia|]. }
  unfold byte_at at 1. rewrite lookup_insert. case_decide as Hx.
  - subst x. rewrite decide_True by lia. by replace (a - a) with 0 by lia.
  - fold (byte_at (store_bytes m (a + 1) bs) x). rewrite IH.
    repeat case_decide; try lia; try done.
    replace (Z.to_nat (x - a)) with (S (Z.to_nat (x - (a + 1)))) by lia. done.
Qed.

Lemma length_load_bytes m a n : 0 ≤ n → length (load_bytes m a n) = Z.to_nat n.
Proof. intros. unfold load_bytes. by rewrite length_fmap, length_seqZ. Qed.

Lemma load_bytes_ext m1 m2 a n :
  (∀ x, a ≤ x < a + n → byte_at m1 x = byte_at m2 x) → load_bytes m1 a n = load_bytes m2 a n.
Proof.
  intros H. apply list_fmap_ext. intros i x Hx%lookup_seqZ. apply H. lia.
Qed.

Lemma load_store_bytes_same m a bs :
  load_bytes (store_bytes m a bs) a (Z.of_nat (length bs)) = bs.
Proof.
  apply list_eq. intros i. unfold load_bytes. rewrite list_lookup_fmap.
  destruct (decide (i < length bs)%nat) as [Hi|Hi].
  - rewrite lookup_seqZ_lt by lia. simpl. rewrite byte_at_store_bytes, decide_True by lia.
    replace (Z.to_nat (a + Z.of_nat i - a)) with i by lia.
    symmetry. by apply list_lookup_lookup_total_lt.
  - rewrite lookup_seqZ_ge, lookup_ge_None_2 by lia. done.
Qed.

Lemma load_store_bytes_other m a bs b n :
  a + Z.of_nat (length bs) ≤ b ∨ b + n ≤ a →
  load_bytes (store_bytes m a bs) b n = load_bytes m b n.
Proof.
  intros H. apply load_bytes_ext. intros x Hx. rewrite byte_at_store_bytes.
  by rewrite decide_False by lia.
Qed.

(** ** Words *)
Lemma load64_ext m1 m2 a :
  (∀ x, a ≤ x < a + 8 → byte_at m1 x = byte_at m2 x) → load64 m1 a = load64 m2 a.
Proof. intros H. unfold load64. f_equal. by apply load_bytes_ext. Qed.

Lemma load64_store64_same m a v : 0 ≤ v < 2 ^ 64 → load64 (store64 m a v) a = v.
Proof.
  intros Hv. unfold load64, store64.
  pose proof (load_store_bytes_same m a (Z_to_little_endian 8 8 v)) as H.
  rewrite length_Z_to_little_endian in H by lia. change (Z.of_nat (Z.to_nat 8)) with 8 in H.
  rewrite H, little_endian_to_Z_to_little_endian by lia. by apply Z.mod_small.
Qed.

Lemma load64_store64_other m a b v :
  a + 8 ≤ b ∨ b + 8 ≤ a → load64 (store64 m a v) b = load64 m b.
Proof.
  intros H. unfold load64, store64. f_equal. apply load_store_bytes_other.
  rewrite length_Z_to_little_endian by lia. lia.
Qed.

Lemma byte_at_store64_other m a v x :
  x < a ∨ a + 8 ≤ x → byte_at (store64 m a v) x = byte_at m x.
Proof.
  intros H. unfold store64. rewrite byte_at_store_bytes, length_Z_to_little_endian by lia.
  by rewrite decide_False by lia.
Qed.

(** ** memset, memcpy and fresh pages *)
Lemma byte_at_memset m p c n x :
  0 ≤ n → byte_at (memset m p c n) x = if decide (p ≤ x < p + n) then c else byte_at m x.
Proof.
  intros Hn. unfold memset. rewrite byte_at_store_bytes, length_replicate, Z2Nat.id by lia.
  case_decide; [|done]. rewrite lookup_total_replicate_2; [done|lia].
Qed.

Lemma byte_at_memcpy m dst src n x :
  0 ≤ n → byte_at (memcpy m dst src n) x =
    if decide (dst ≤ x < dst + n) then byte_at m (src + (x - dst)) else byte_at m x.
Proof.
  intros Hn. unfold memcpy. rewrite byte_at_store_bytes, length_load_bytes, Z2Nat.id by lia.
  case_decide; [|done]. unfold load_bytes.
  apply list_lookup_total_correct. rewrite list_lookup_fmap, lookup_seqZ_lt by lia. simpl.
  f_equal. f_equal. lia.
Qed.

Lemma byte_at_zero_range m a n x :
  byte_at (zero_range m a n) x = if decide (a ≤ x < a + n) then 0 else byte_at m x.
Proof.
  unfold byte_at, zero_range. rewrite map_lookup_filter. case_decide as Hx.
  - destruct (m !! x); simpl; [|done]. by case_guard.
  - destruct (m !! x); simpl; [|done]. by case_guard.
Qed.
#[export] Hint Resolve load64_store64_same load64_store64_other : btm.
