(* ===== verification/SizeClass.v ===== *)
(** * SizeClass: src/src/size_class.c and the lookup of src/src/internal.h

    The size table, the pages of a slab, the size lookup table and the cache cap are
    the constants of the source.  The theorems show that the lookup gives the least
    class that fits, and the geometry the slab code relies on. *)

From stdpp Require Import prelude gmap.
From S2P Require Import Prelude.
Local Open Scope Z_scope.

(** ** Tables *)
Definition btm_sc_to_size_tbl : list Z :=
  [ 16; 32; 48; 64; 80; 96; 112; 128;
   160; 192; 224; 256; 320; 384; 448; 512;
   640; 768; 896; 1024; 1280; 1536; 1792; 2048;
   2560; 3072; 3584; 4096; 5120; 6144; 7168; 8192;
   10240; 12288; 14336; 16384].

Definition btm_sc_run_pages_tbl : list Z :=
  [ 1; 1; 1; 1; 1; 1; 1; 1; 1; 1; 1; 1;
   2; 2; 2; 2; 4; 4; 4; 4; 8; 8; 8; 8;
   16; 16; 16; 16; 24; 24; 24; 24; 32; 32; 32; 32].

Definition btm_sc_lut : list Z :=
  [ 0; 1; 2; 3; 4; 5; 6; 7; 8; 8; 9; 9; 10; 10; 11; 11; 12; 12; 12; 12; 13; 13; 13; 13; 14; 14; 14; 14; 15; 15; 15; 15;
   16; 16; 16; 16; 16; 16; 16; 16; 17; 17; 17; 17; 17; 17; 17; 17; 18; 18; 18; 18; 18; 18; 18; 18; 19; 19; 19; 19; 19; 19; 19; 19;
   20; 20; 20; 20; 20; 20; 20; 20; 20; 20; 20; 20; 20; 20; 20; 20; 21; 21; 21; 21; 21; 21; 21; 21; 21; 21; 21; 21; 21; 21; 21; 21;
   22; 22; 22; 22; 22; 22; 22; 22; 22; 22; 22; 22; 22; 22; 22; 22; 23; 23; 23; 23; 23; 23; 23; 23; 23; 23; 23; 23; 23; 23; 23; 23;
   24; 24; 24; 24; 24; 24; 24; 24; 24; 24; 24; 24; 24; 24; 24; 24; 24; 24; 24; 24; 24; 24; 24; 24; 24; 24; 24; 24; 24; 24; 24; 24;
   25; 25; 25; 25; 25; 25; 25; 25; 25; 25; 25; 25; 25; 25; 25; 25; 25; 25; 25; 25; 25; 25; 25; 25; 25; 25; 25; 25; 25; 25; 25; 25;
   26; 26; 26; 26; 26; 26; 26; 26; 26; 26; 26; 26; 26; 26; 26; 26; 26; 26; 26; 26; 26; 26; 26; 26; 26; 26; 26; 26; 26; 26; 26; 26;
   27; 27; 27; 27; 27; 27; 27; 27; 27; 27; 27; 27; 27; 27; 27; 27; 27; 27; 27; 27; 27; 27; 27; 27; 27; 27; 27; 27; 27; 27; 27; 27;
   28; 28; 28; 28; 28; 28; 28; 28; 28; 28; 28; 28; 28; 28; 28; 28; 28; 28; 28; 28; 28; 28; 28; 28; 28; 28; 28; 28; 28; 28; 28; 28;
   28; 28; 28; 28; 28; 28; 28; 28; 28; 28; 28; 28; 28; 28; 28; 28; 28; 28; 28; 28; 28; 28; 28; 28; 28; 28; 28; 28; 28; 28; 28; 28;
   29; 29; 29; 29; 29; 29; 29; 29; 29; 29; 29; 29; 29; 29; 29; 29; 29; 29; 29; 29; 29; 29; 29; 29; 29; 29; 29; 29; 29; 29; 29; 29;
   29; 29; 29; 29; 29; 29; 29; 29; 29; 29; 29; 29; 29; 29; 29; 29; 29; 29; 29; 29; 29; 29; 29; 29; 29; 29; 29; 29; 29; 29; 29; 29;
   30; 30; 30; 30; 30; 30; 30; 30; 30; 30; 30; 30; 30; 30; 30; 30; 30; 30; 30; 30; 30; 30; 30; 30; 30; 30; 30; 30; 30; 30; 30; 30;
   30; 30; 30; 30; 30; 30; 30; 30; 30; 30; 30; 30; 30; 30; 30; 30; 30; 30; 30; 30; 30; 30; 30; 30; 30; 30; 30; 30; 30; 30; 30; 30;
   31; 31; 31; 31; 31; 31; 31; 31; 31; 31; 31; 31; 31; 31; 31; 31; 31; 31; 31; 31; 31; 31; 31; 31; 31; 31; 31; 31; 31; 31; 31; 31;
   31; 31; 31; 31; 31; 31; 31; 31; 31; 31; 31; 31; 31; 31; 31; 31; 31; 31; 31; 31; 31; 31; 31; 31; 31; 31; 31; 31; 31; 31; 31; 31;
   32; 32; 32; 32; 32; 32; 32; 32; 32; 32; 32; 32; 32; 32; 32; 32; 32; 32; 32; 32; 32; 32; 32; 32; 32; 32; 32; 32; 32; 32; 32; 32;
   32; 32; 32; 32; 32; 32; 32; 32; 32; 32; 32; 32; 32; 32; 32; 32; 32; 32; 32; 32; 32; 32; 32; 32; 32; 32; 32; 32; 32; 32; 32; 32;
   32; 32; 32; 32; 32; 32; 32; 32; 32; 32; 32; 32; 32; 32; 32; 32; 32; 32; 32; 32; 32; 32; 32; 32; 32; 32; 32; 32; 32; 32; 32; 32;
   32; 32; 32; 32; 32; 32; 32; 32; 32; 32; 32; 32; 32; 32; 32; 32; 32; 32; 32; 32; 32; 32; 32; 32; 32; 32; 32; 32; 32; 32; 32; 32;
   33; 33; 33; 33; 33; 33; 33; 33; 33; 33; 33; 33; 33; 33; 33; 33; 33; 33; 33; 33; 33; 33; 33; 33; 33; 33; 33; 33; 33; 33; 33; 33;
   33; 33; 33; 33; 33; 33; 33; 33; 33; 33; 33; 33; 33; 33; 33; 33; 33; 33; 33; 33; 33; 33; 33; 33; 33; 33; 33; 33; 33; 33; 33; 33;
   33; 33; 33; 33; 33; 33; 33; 33; 33; 33; 33; 33; 33; 33; 33; 33; 33; 33; 33; 33; 33; 33; 33; 33; 33; 33; 33; 33; 33; 33; 33; 33;
   33; 33; 33; 33; 33; 33; 33; 33; 33; 33; 33; 33; 33; 33; 33; 33; 33; 33; 33; 33; 33; 33; 33; 33; 33; 33; 33; 33; 33; 33; 33; 33;
   34; 34; 34; 34; 34; 34; 34; 34; 34; 34; 34; 34; 34; 34; 34; 34; 34; 34; 34; 34; 34; 34; 34; 34; 34; 34; 34; 34; 34; 34; 34; 34;
   34; 34; 34; 34; 34; 34; 34; 34; 34; 34; 34; 34; 34; 34; 34; 34; 34; 34; 34; 34; 34; 34; 34; 34; 34; 34; 34; 34; 34; 34; 34; 34;
   34; 34; 34; 34; 34; 34; 34; 34; 34; 34; 34; 34; 34; 34; 34; 34; 34; 34; 34; 34; 34; 34; 34; 34; 34; 34; 34; 34; 34; 34; 34; 34;
   34; 34; 34; 34; 34; 34; 34; 34; 34; 34; 34; 34; 34; 34; 34; 34; 34; 34; 34; 34; 34; 34; 34; 34; 34; 34; 34; 34; 34; 34; 34; 34;
   35; 35; 35; 35; 35; 35; 35; 35; 35; 35; 35; 35; 35; 35; 35; 35; 35; 35; 35; 35; 35; 35; 35; 35; 35; 35; 35; 35; 35; 35; 35; 35;
   35; 35; 35; 35; 35; 35; 35; 35; 35; 35; 35; 35; 35; 35; 35; 35; 35; 35; 35; 35; 35; 35; 35; 35; 35; 35; 35; 35; 35; 35; 35; 35;
   35; 35; 35; 35; 35; 35; 35; 35; 35; 35; 35; 35; 35; 35; 35; 35; 35; 35; 35; 35; 35; 35; 35; 35; 35; 35; 35; 35; 35; 35; 35; 35;
   35; 35; 35; 35; 35; 35; 35; 35; 35; 35; 35; 35; 35; 35; 35; 35; 35; 35; 35; 35; 35; 35; 35; 35; 35; 35; 35; 35; 35; 35; 35; 35].

Definition btm_cache_max_tbl : list Z :=
  [ 256; 256; 256; 256; 204; 170; 146; 128; 102; 85; 73; 64;
   51; 42; 36; 32; 25; 21; 18; 16; 12; 10; 9; 8;
   8; 8; 8; 8; 8; 8; 8; 8; 8; 8; 8; 8].

Definition btm_sc_to_size (sc : Z) : Z := btm_sc_to_size_tbl !!! Z.to_nat sc.
Definition btm_sc_run_pages (sc : Z) : Z := btm_sc_run_pages_tbl !!! Z.to_nat sc.
Definition btm_cache_max (sc : Z) : Z := btm_cache_max_tbl !!! Z.to_nat sc.

(** ** Lookup *)
Definition btm_size_to_sc (size : Z) : Z :=
  if BTM_SMALL_MAX_SIZE <=? (size -% 1)%word then -1
  else btm_sc_lut !!! Z.to_nat (Z.shiftr (size -% 1)%word 4).

(** Slots of a slab of the class, as [slab_format] computes them. *)
Definition slots_of_class (sc : Z) : Z :=
  btm_sc_run_pages sc * BTM_PAGE_SIZE / btm_sc_to_size sc.

Definition valid_sc (sc : Z) : Prop := 0 ≤ sc < BTM_NUM_SIZE_CLASSES.
#[export] Instance valid_sc_dec sc : Decision (valid_sc sc).
Proof. unfold valid_sc. apply _. Defined.

(** ** Table sweeps

    A property of every class is checked on the 36 classes by evaluation, and a
    property of every size on the 1024 buckets of the lookup table. *)
Lemma sc_sweep (P : Z → Prop) {dec : ∀ sc, Decision (P sc)} :
  forallb (λ sc, bool_decide (P sc)) (seqZ 0 BTM_NUM_SIZE_CLASSES) = true → ∀ sc, valid_sc sc → P sc.
Proof.
  intros H sc Hsc. rewrite forallb_forall in H.
  apply (bool_decide_unpack _), Is_true_true, H.
  apply list_elem_of_In, elem_of_seqZ. unfold valid_sc in Hsc. lia.
Qed.

Definition bucket_ok (i : Z) : Prop :=
  let sc := btm_sc_lut !!! Z.to_nat i in
  valid_sc sc ∧ 16 * (i + 1) ≤ btm_sc_to_size sc ∧ (sc = 0 ∨ btm_sc_to_size (sc - 1) ≤ 16 * i).

Lemma bucket_sweep i : 0 ≤ i < 1024 → bucket_ok i.
Proof.
  intros Hi.
  assert (H : forallb (λ i, bool_decide (bucket_ok i)) (seqZ 0 1024) = true) by (vm_compute; reflexivity).
  rewrite forallb_forall in H. apply (bool_decide_unpack _), Is_true_true, H.
  apply list_elem_of_In, elem_of_seqZ. lia.
Qed.

Ltac sweep_classes :=
  match goal with |- ∀ sc, valid_sc sc → @?P sc => apply (sc_sweep P) end;
  vm_compute; reflexivity.

(** Facts about every class used by the slab code. *)
Lemma sc_size_pos sc : valid_sc sc → 16 ≤ btm_sc_to_size sc ≤ BTM_SMALL_MAX_SIZE.
Proof. revert sc. sweep_classes. Qed.

Lemma sc_size_mod16 sc : valid_sc sc → btm_sc_to_size sc mod 16 = 0.
Proof. revert sc. sweep_classes. Qed.

Lemma sc_pages_range sc : valid_sc sc → 1 ≤ btm_sc_run_pages sc ≤ 32.
Proof. revert sc. sweep_classes. Qed.

Lemma sc_slots_range sc : valid_sc sc → 8 ≤ slots_of_class sc ≤ 256.
Proof. revert sc. sweep_classes. Qed.

Lemma sc_cache_range sc : valid_sc sc → 8 ≤ btm_cache_max sc ≤ 256.
Proof. revert sc. sweep_classes. Qed.

Lemma size_to_sc_small size :
  1 ≤ size ≤ BTM_SMALL_MAX_SIZE →
  btm_size_to_sc size = btm_sc_lut !!! Z.to_nat ((size - 1) / 16).
Proof.
  intros H. unfold btm_size_to_sc. rewrite u64_small by glia.
  replace (BTM_SMALL_MAX_SIZE <=? size - 1) with false by (symmetry; apply Z.leb_gt; lia).
  by rewrite Z.shiftr_div_pow2 by lia.
Qed.

Lemma size_to_sc_bucket size :
  1 ≤ size ≤ BTM_SMALL_MAX_SIZE →
  bucket_ok ((size - 1) / 16) ∧ 16 * ((size - 1) / 16) < size ≤ 16 * ((size - 1) / 16 + 1).
Proof.
  intros H. pose proof (Z.div_mod (size - 1) 16). pose proof (Z.mod_pos_bound (size - 1) 16).
  split; [apply bucket_sweep; glia | lia].
Qed.

(** Decision rule of the fast path: the lookup succeeds exactly on the small sizes. *)
Lemma size_to_sc_valid size :
  1 ≤ size ≤ BTM_SMALL_MAX_SIZE → valid_sc (btm_size_to_sc size) ∧ size ≤ btm_sc_to_size (btm_size_to_sc size).
Proof.
  intros H. rewrite size_to_sc_small by done.
  destruct (size_to_sc_bucket size H) as [(?&?&?) ?]. split; [done|lia].
Qed.

Lemma size_to_sc_none size :
  0 ≤ size < 2 ^ 64 → size = 0 ∨ BTM_SMALL_MAX_SIZE < size → btm_size_to_sc size = -1.
Proof.
  intros Hr H. unfold btm_size_to_sc.
  destruct H as [->|H]; [done|]. rewrite u64_small by glia.
  by replace (BTM_SMALL_MAX_SIZE <=? size - 1) with true by (symmetry; apply Z.leb_le; lia).
Qed.

(** The size table is strictly increasing. *)
Lemma sc_size_above i :
  valid_sc i → Forall (λ j, i < j → btm_sc_to_size i < btm_sc_to_size j) (seqZ 0 BTM_NUM_SIZE_CLASSES).
Proof. revert i. sweep_classes. Qed.

Lemma sc_size_mono i j : valid_sc i → valid_sc j → i < j → btm_sc_to_size i < btm_sc_to_size j.
Proof.
  intros Hi Hj. pose proof (sc_size_above i Hi) as F. rewrite Forall_forall in F.
  apply F, elem_of_seqZ. unfold valid_sc in Hj. lia.
Qed.

(** ** Properties *)

(** C32. The size lookup of the fast path is right: for every small request the table
    gives a valid class whose slots are large enough, and no smaller class would do. *)
Theorem btm_size_to_sc_least size :
  1 ≤ size ≤ BTM_SMALL_MAX_SIZE →
  valid_sc (btm_size_to_sc size) ∧
  size ≤ btm_sc_to_size (btm_size_to_sc size) ∧
  ∀ sc, valid_sc sc → size ≤ btm_sc_to_size sc → btm_size_to_sc size ≤ sc.
Proof.
  intros H. destruct (size_to_sc_valid size H) as [Hv Hs]. split_and!; [done..|].
  intros sc Hsc Hle. destruct (decide (btm_size_to_sc size ≤ sc)) as [|Hlt]; [done|].
  rewrite size_to_sc_small in * by done.
  destruct (size_to_sc_bucket size H) as [(Hvb & _ & [H0|Hprev]) ?]; [unfold valid_sc in *; lia|].
  set (c := btm_sc_lut !!! _) in *.
  assert (btm_sc_to_size sc ≤ btm_sc_to_size (c - 1)); [|lia].
  destruct (decide (sc = c - 1)) as [->|]; [lia|].
  apply Z.lt_le_incl, sc_size_mono; unfold valid_sc in *; lia.
Qed.

Lemma btm_size_to_sc_least_witness :
  btm_size_to_sc 200 = 10 ∧ btm_sc_to_size 10 = 224 ∧
  (∀ sc, valid_sc sc → 200 ≤ btm_sc_to_size sc → btm_size_to_sc 200 ≤ sc).
Proof.
  split; [reflexivity|]. split; [reflexivity|].
  apply (btm_size_to_sc_least 200). vm_compute. split; discriminate.
Defined.

(** The single unsigned compare of the lookup is exact: over all of [size_t] it
    answers [-1] for the size zero and the sizes above 16 KiB, and for no other. *)
Theorem btm_size_to_sc_rejects size :
  0 ≤ size < 2 ^ 64 →
  btm_size_to_sc size = -1 ↔ size = 0 ∨ BTM_SMALL_MAX_SIZE < size.
Proof.
  intros Hr. split; [|by apply size_to_sc_none].
  intros Heq. destruct (decide (1 ≤ size ≤ BTM_SMALL_MAX_SIZE)) as [Hs|]; [|lia].
  destruct (size_to_sc_valid size Hs) as [[? _] _]. lia.
Qed.

Lemma btm_size_to_sc_rejects_witness : btm_size_to_sc (2 ^ 64 - 1) = -1.
Proof. apply (btm_size_to_sc_rejects (2 ^ 64 - 1)); [lia|]. right. glia. Defined.

(** C33. Slab geometry of every class: a run holds at least 8 and at most 256 whole
    slots, it fits the 505 data pages of a chunk, slots stay 16-byte aligned, and the
    cap of a cache bin is the documented clamp of 16 KiB over the slot size. *)
Theorem size_class_geometry sc :
  valid_sc sc →
  8 ≤ slots_of_class sc ≤ 256 ∧
  slots_of_class sc * btm_sc_to_size sc ≤ btm_sc_run_pages sc * BTM_PAGE_SIZE ∧
  btm_sc_run_pages sc ≤ 505 ∧
  btm_sc_to_size sc mod BTM_ALIGNMENT = 0 ∧
  btm_cache_max sc = Z.max 8 (Z.min 256 (BTM_SMALL_MAX_SIZE / btm_sc_to_size sc)).
Proof. revert sc. sweep_classes. Qed.

Lemma size_class_geometry_witness : slots_of_class 28 = 19 ∧ 8 ≤ slots_of_class 35 ≤ 256.
Proof.
  split; [reflexivity|]. apply (size_class_geometry 35). split; vm_compute; [discriminate|reflexivity].
Defined.
