(* ===== verification/Freelist.v ===== *)
(** * Freelist: linking free slots through their own memory

    [btm_fl_get] and [btm_fl_set] of src/src/internal.h, and the secret they use as
    [btm_do_init] of src/src/btmalloc.c draws it.  The build chooses safe
    linking (BTM_HARDENING=1) or plain pointers; the slab and cache code is modelled
    and verified against the interface [FlOps]/[FlLaws], which both discharge. *)

From stdpp Require Import prelude gmap.
From S2P Require Import Prelude Memory.
Local Open Scope Z_scope.

(** ** Interface *)
Class FlOps : Type := {
  btm_fl_get : gmap Z Z → Z → Z;
  btm_fl_set : gmap Z Z → Z → Z → gmap Z Z;
}.

Definition addr_ok (a : Z) : Prop := 0 ≤ a < 2 ^ 64.

(** Two slots whose link words do not overlap. *)
Definition apart (a b : Z) : Prop := a + 8 ≤ b ∨ b + 8 ≤ a.

Class FlLaws (F : FlOps) : Prop := {
  fl_get_set_same m s v : addr_ok s → addr_ok v → btm_fl_get (btm_fl_set m s v) s = v;
  fl_set_outside m s v x : x < s ∨ s + 8 ≤ x → byte_at (btm_fl_set m s v) x = byte_at m x;
  fl_get_ext m1 m2 s :
    (∀ x, s ≤ x < s + 8 → byte_at m1 x = byte_at m2 x) → btm_fl_get m1 s = btm_fl_get m2 s;
}.

(** ** Safe linking (BTM_HARDENING=1) *)
Definition hardened_fl_get (btm_fl_key : Z) (m : gmap Z Z) (slot : Z) : Z :=
  Z.lxor (Z.lxor (load64 m slot) btm_fl_key) (Z.shiftr slot BTM_PAGE_SHIFT).

Definition hardened_fl_set (btm_fl_key : Z) (m : gmap Z Z) (slot next : Z) : gmap Z Z :=
  store64 m slot (Z.lxor (Z.lxor next btm_fl_key) (Z.shiftr slot BTM_PAGE_SHIFT)).

Definition btm_df_canary (btm_fl_key slot : Z) : Z :=
  Z.lxor (Z.lxor slot btm_fl_key) 0xD0FF1EE5DEADC0DE.

Definition hardened_fl (btm_fl_key : Z) : FlOps :=
  {| btm_fl_get := hardened_fl_get btm_fl_key; btm_fl_set := hardened_fl_set btm_fl_key |}.

(** The secret of the links as [btm_do_init] of src/src/btmalloc.c draws it: [random] is
    what getrandom gave, [None] when it failed; the fallback mixes the addresses of the
    secret and of the function with the thread handle. *)
Definition seed_key (random : option Z) (key_addr init_addr self : Z) : Z :=
  let k :=
    match random with
    | Some k => k
    | None =>
        Z.lxor (Z.lxor key_addr (u64 (Z.shiftl init_addr 13))) (u64 (self * 0x9E3779B97F4A7C15))
    end in
  Z.lor k 1.

(** ** Plain links (BTM_HARDENING=0) *)
Definition plain_fl_get (m : gmap Z Z) (slot : Z) : Z := load64 m slot.
Definition plain_fl_set (m : gmap Z Z) (slot next : Z) : gmap Z Z := store64 m slot next.
Definition plain_fl : FlOps := {| btm_fl_get := plain_fl_get; btm_fl_set := plain_fl_set |}.

Lemma page_of_range slot : addr_ok slot → 0 ≤ Z.shiftr slot BTM_PAGE_SHIFT < 2 ^ 64.
Proof. intros H. apply shiftr_range; [glia|done]. Qed.

(** Every secret [btm_do_init] draws fits a word and is never zero, so the
    laws below hold for the links of every started process. *)
Lemma seed_key_range random key_addr init_addr self :
  (∀ k, random = Some k → addr_ok k) → addr_ok key_addr →
  addr_ok (seed_key random key_addr init_addr self) ∧ seed_key random key_addr init_addr self ≠ 0.
Proof.
  intros Hr Ha. unfold seed_key.
  match goal with |- addr_ok (Z.lor ?x 1) ∧ _ => assert (Hx : addr_ok x); [|generalize dependent x] end.
  { destruct random as [k|]; [by apply Hr|].
    repeat apply lxor_range; (lia || done || apply u64_range). }
  intros x Hx. split; [apply lor_range; (lia || done)|].
  intros H0. apply Z.lor_eq_0_iff in H0 as [_ ?]. done.
Qed.

#[export] Instance hardened_fl_laws key : addr_ok key → FlLaws (hardened_fl key).
Proof.
  intros Hk. split; simpl; unfold hardened_fl_get, hardened_fl_set.
  - intros m s v Hs Hv. rewrite load64_store64_same; [apply lxor_cancel|].
    repeat apply lxor_range; (lia || done || by apply page_of_range).
  - intros. by apply byte_at_store64_other.
  - intros m1 m2 s H. do 2 f_equal. by apply load64_ext.
Qed.

#[export] Instance plain_fl_laws : FlLaws plain_fl.
Proof.
  split; simpl; unfold plain_fl_get, plain_fl_set.
  - intros. by apply load64_store64_same.
  - intros. by apply byte_at_store64_other.
  - intros. by apply load64_ext.
Qed.

(** ** Lists of free slots

    [flist m l]: following the links from the head of [l] visits the slots of [l] in
    order and ends with [NULL]. *)
Fixpoint flist `{FlOps} (m : gmap Z Z) (l : list Z) : Prop :=
  match l with
  | [] => True
  | s :: l' => btm_fl_get m s = hd0 l' ∧ flist m l'
  end.

(** The slots of a list can carry links: nonzero, in range, not overlapping. *)
Definition slots_ok (l : list Z) : Prop :=
  NoDup l ∧ (∀ x, x ∈ l → 0 < x ∧ addr_ok x) ∧ (∀ x y, x ∈ l → y ∈ l → x ≠ y → apart x y).

Section lists.
Context {F : FlOps} {FL : FlLaws F}.

Lemma fl_get_set_other m s v x : apart s x → btm_fl_get (btm_fl_set m s v) x = btm_fl_get m x.
Proof.
  intros Hap. apply fl_get_ext. intros y Hy. apply fl_set_outside. unfold apart in Hap. lia.
Qed.

Lemma flist_ext m1 m2 l :
  (∀ s x, s ∈ l → s ≤ x < s + 8 → byte_at m1 x = byte_at m2 x) → flist m1 l → flist m2 l.
Proof.
  induction l as [|s l IH]; simpl; [done|]. intros H [Hg Hl]. split.
  - rewrite <-Hg. symmetry. apply fl_get_ext. intros x Hx. apply (H s); [set_solver|done].
  - apply IH; [|done]. intros s' x Hs' Hx. apply (H s'); [set_solver|done].
Qed.

Lemma flist_set_other m s v l :
  (∀ x, x ∈ l → apart s x) → flist m l → flist (btm_fl_set m s v) l.
Proof.
  intros Hap. apply flist_ext. intros x y Hx Hy. symmetry. apply fl_set_outside.
  specialize (Hap x Hx). unfold apart in Hap. lia.
Qed.

(** Pushing a slot on a list. *)
Lemma flist_push m s l :
  0 < s → addr_ok s → slots_ok l → (∀ x, x ∈ l → apart s x) →
  flist m l → flist (btm_fl_set m s (hd0 l)) (s :: l).
Proof.
  intros Hs Has (_ & Hok & _) Hap Hl. split; [|by apply flist_set_other].
  apply fl_get_set_same; [done|]. destruct l as [|y l]; [split; simpl; lia|].
  apply (Hok y). set_solver.
Qed.

Lemma flist_app_inv m l1 l2 : flist m (l1 ++ l2) → flist m l2.
Proof. induction l1 as [|s l1 IH]; simpl; [done|]. intros [_ H]. by apply IH. Qed.

(** Joining two lists at the last slot of the first. *)
Lemma flist_splice m q t l :
  slots_ok (q ++ t :: l) → flist m (q ++ [t]) → flist m l → flist (btm_fl_set m t (hd0 l)) (q ++ t :: l).
Proof.
  intros Hok. induction q as [|s q IH]; simpl; intros Hq Hl.
  - destruct Hok as (Hnd & Hok & Hap). apply NoDup_cons in Hnd as [Ht Hnd].
    apply flist_push; [apply Hok; by left|apply Hok; by left| | |done].
    + split_and!; [done|intros x Hx; apply Hok; by right|intros x y Hx Hy; apply Hap; by right].
    + intros x Hx. apply Hap; [by left|by right|]. by intros ->.
  - destruct Hq as [Hs Hq]. split.
    + rewrite fl_get_set_other; [rewrite Hs; by destruct q|].
      destruct Hok as (Hnd & _ & Hap). apply NoDup_cons in Hnd as [Hsn _].
      apply Hap; [by right; apply elem_of_app; right; left|by left|]. intros ->. apply Hsn. apply elem_of_app. right. by left.
    + apply IH; [|done..]. destruct Hok as (Hnd & Hok & Hap). apply NoDup_cons in Hnd as [_ Hnd].
      split_and!; [done|intros x Hx; apply Hok; by right|intros x y Hx Hy; apply Hap; by right].
Qed.

End lists.

Lemma slots_ok_nil : slots_ok [].
Proof. split_and!; [constructor|set_solver..]. Qed.

Lemma slots_ok_cons s l :
  0 < s → addr_ok s → s ∉ l → (∀ x, x ∈ l → apart s x) → slots_ok l → slots_ok (s :: l).
Proof.
  intros Hs Ha Hn Hap (Hnd & Hok & Hapl). split_and!.
  - by constructor.
  - intros x [->|Hx]%elem_of_cons; [done|by apply Hok].
  - intros x y [->|Hx]%elem_of_cons [->|Hy]%elem_of_cons Hne; [done|by apply Hap| |by apply Hapl].
    destruct (Hap x Hx); [right|left]; done.
Qed.

Lemma slots_ok_sub l l' : NoDup l' → l' ⊆ l → slots_ok l → slots_ok l'.
Proof. intros Hnd Hsub (_ & Hok & Hap). split_and!; eauto. Qed.

Lemma slots_ok_app l1 l2 : slots_ok (l1 ++ l2) → slots_ok l1 ∧ slots_ok l2.
Proof.
  intros H. pose proof H as [(H1 & _ & H2)%NoDup_app _].
  split; apply (slots_ok_sub (l1 ++ l2)); try done; intros x Hx; apply elem_of_app; tauto.
Qed.

Lemma slots_ok_tail s l : slots_ok (s :: l) → slots_ok l.
Proof. intros H. apply (slots_ok_sub (s :: l)); [by destruct H as [[_ ?]%NoDup_cons _]|set_solver|done]. Qed.

Lemma slots_ok_head s l :
  slots_ok (s :: l) → 0 < s ∧ addr_ok s ∧ (s ∉ l) ∧ (∀ x, x ∈ l → apart s x).
Proof.
  intros (Hnd & Hok & Hap). apply NoDup_cons in Hnd as [Hn Hnd].
  destruct (Hok s) as [? ?]; [set_solver|]. split_and!; [done..|].
  intros x Hx. apply Hap; set_solver.
Qed.
#[export] Hint Resolve slots_ok_nil slots_ok_tail : btm.

(** ** Properties *)

(** Safe linking is a faithful link: whatever the secret, storing a next pointer in
    a free slot and reading it back gives that pointer, and no byte outside the slot's
    first word changes. *)
Theorem safe_linking_roundtrip key m slot next :
  addr_ok key → addr_ok slot → addr_ok next →
  hardened_fl_get key (hardened_fl_set key m slot next) slot = next ∧
  ∀ x, x < slot ∨ slot + 8 ≤ x → byte_at (hardened_fl_set key m slot next) x = byte_at m x.
Proof.
  intros Hk Hs Hn. pose proof (hardened_fl_laws key Hk) as L. split.
  - exact (fl_get_set_same (F := hardened_fl key) m slot next Hs Hn).
  - exact (fl_set_outside (F := hardened_fl key) m slot next).
Qed.

Lemma safe_linking_roundtrip_witness :
  hardened_fl_get 12345 (hardened_fl_set 12345 ∅ 28672 28704) 28672 = 28704.
Proof. apply (safe_linking_roundtrip 12345 ∅ 28672 28704); vm_compute; (split; [discriminate|reflexivity]). Defined.

(** C34. What safe linking promises against an overflow: overwriting the link word of a
    free slot with any value makes the allocator follow a chosen address exactly when
    the secret is one particular value, fixed by the value written, the target and the
    slot's page.  Without the secret the decoded pointer is not under control. *)
Theorem safe_linking_forgery key m slot forged target :
  addr_ok key → addr_ok slot → addr_ok forged → addr_ok target →
  hardened_fl_get key (store64 m slot forged) slot = target ↔
  key = Z.lxor (Z.lxor forged target) (Z.shiftr slot BTM_PAGE_SHIFT).
Proof.
  intros Hk Hs Hf Ht. unfold hardened_fl_get. rewrite load64_store64_same by done.
  set (p := Z.shiftr slot BTM_PAGE_SHIFT). split.
  - intros <-. rewrite (Z.lxor_assoc forged key p), <-Z.lxor_assoc, Z.lxor_nilpotent, Z.lxor_0_l.
    by rewrite Z.lxor_assoc, Z.lxor_nilpotent, Z.lxor_0_r.
  - intros ->. rewrite (Z.lxor_assoc forged target p), <-Z.lxor_assoc, Z.lxor_nilpotent, Z.lxor_0_l.
    by rewrite Z.lxor_assoc, Z.lxor_nilpotent, Z.lxor_0_r.
Qed.

Lemma safe_linking_forgery_witness :
  hardened_fl_get 7 (store64 ∅ 28672 4096) 28672 = 8192 ↔
  7 = Z.lxor (Z.lxor 4096 8192) (Z.shiftr 28672 BTM_PAGE_SHIFT).
Proof. apply safe_linking_forgery; vm_compute; (split; [discriminate|reflexivity]). Defined.
