(* ===== verification/Registry.v ===== *)
(** * Registry: src/src/chunk.c and [btm_resolve_owner] of src/src/internal.h

    The owner table maps a 2 MiB region to the owner word of the object that covers it:
    a chunk base, a large base with bit 0 set, or 0 for memory that is not btmalloc's.
    Three builds are modelled: the two-level radix with a per-thread region cache
    ([registry]), the radix alone ([nocache]), and the flat table ([flat]).  The
    specification is a map from regions to owner words; all three refine it.

    The public calls use resolution and removal as single steps.  The last section takes
    them apart: a thread's resolutions run access by access ([rc_run]) while other threads
    write words and move the generation, where a removal is the clearing of its words under
    the lock and, after the unlock, the move of the generation. *)

From stdpp Require Import prelude gmap.
From S2P Require Import Prelude.
Local Open Scope Z_scope.

Definition region_of (ptr : Z) : Z := Z.shiftr ptr BTM_CHUNK_SHIFT.

(** The regions [first .. last] that the loops of insert and remove visit. *)
Definition first_region (base : Z) : Z := Z.shiftr base BTM_CHUNK_SHIFT.
Definition last_region (base len : Z) : Z := Z.shiftr ((base +% len -% 1)%word) BTM_CHUNK_SHIFT.
Definition regions (base len : Z) : list Z :=
  seqZ (first_region base) (last_region base len - first_region base + 1).

(** ** The radix table *)
Definition BTM_RADIX_L1_BITS : Z := 14.
Definition BTM_RADIX_L2_BITS : Z := 13.
Definition BTM_RADIX_L1_SIZE : Z := 16384.
Definition BTM_RADIX_L2_SIZE : Z := 8192.

(** [btm_registry_gen] counts every removal; the code keeps it in 64 bits, so it reads the
    count modulo 2^64. *)
Record registry := mk_registry {
  radix_l1 : gmap Z (gmap Z Z);
  btm_registry_gen : Z;
}.

Definition radix_i1 (key : Z) : Z :=
  Z.land (u32 (Z.shiftr key BTM_RADIX_L2_BITS)) (BTM_RADIX_L1_SIZE - 1).
Definition radix_i2 (key : Z) : Z := Z.land (u32 key) (BTM_RADIX_L2_SIZE - 1).

Definition radix_owner (r : registry) (key : Z) : Z :=
  match radix_l1 r !! radix_i1 key with
  | None => 0
  | Some leaf => default 0 (leaf !! radix_i2 key)
  end.

Definition btm_registry_lookup (r : registry) (ptr : Z) : Z :=
  let key := Z.shiftr ptr BTM_CHUNK_SHIFT in
  match radix_l1 r !! radix_i1 key with
  | None => 0
  | Some leaf => default 0 (leaf !! radix_i2 key)
  end.

(** [leaf_mmap i1] tells whether the kernel grants the leaf array of entry [i1] when the
    table needs it. *)
Definition registry_set_locked (leaf_mmap : Z → bool) (r : registry) (key owner : Z) : registry :=
  let i1 := radix_i1 key in
  match radix_l1 r !! i1 with
  | Some leaf =>
      mk_registry (<[i1 := <[radix_i2 key := owner]> leaf]> (radix_l1 r)) (btm_registry_gen r)
  | None =>
      if leaf_mmap i1 then
        mk_registry (<[i1 := <[radix_i2 key := owner]> ∅]> (radix_l1 r)) (btm_registry_gen r)
      else r
  end.

Definition btm_registry_insert (leaf_mmap : Z → bool) (r : registry) (base len owner : Z) : registry :=
  foldl (λ r k, registry_set_locked leaf_mmap r k owner) r (regions base len).

(** A removal clears the regions' words one by one, under the lock, and moves the
    generation when the lock is free again: between the two, the words are 0 and the
    generation is still the old one. *)
Definition registry_clear (leaf_mmap : Z → bool) (r : registry) (base len : Z) : registry :=
  foldl (λ r k, registry_set_locked leaf_mmap r k 0) r (regions base len).
Definition registry_bump (r : registry) : registry := mk_registry (radix_l1 r) (btm_registry_gen r + 1).

(** The whole removal, as a caller that nobody overtakes sees it. *)
Definition btm_registry_remove (leaf_mmap : Z → bool) (r : registry) (base len : Z) : registry :=
  registry_bump (registry_clear leaf_mmap r base len).

(** ** The flat table *)
Definition BTM_FLAT_SIZE : Z := 67108864.

(** [None]: the table's own mapping failed at initialization. *)
Definition flat_table : Type := option (gmap Z Z).

Definition flat_lookup (f : flat_table) (ptr : Z) : Z :=
  let region := Z.shiftr ptr BTM_CHUNK_SHIFT in
  match f with
  | None => 0
  | Some t => if BTM_FLAT_SIZE <=? region then 0 else default 0 (t !! region)
  end.

Definition flat_set (f : flat_table) (region owner : Z) : flat_table :=
  match f with
  | None => f
  | Some t => if BTM_FLAT_SIZE <=? region then f else Some (<[region := owner]> t)
  end.

Definition flat_insert (f : flat_table) (base len owner : Z) : flat_table :=
  foldl (λ f k, flat_set f k owner) f (regions base len).

Definition flat_remove (f : flat_table) (base len : Z) : flat_table :=
  foldl (λ f k, flat_set f k 0) f (regions base len).

(** ** The per-thread region cache *)
Definition BTM_RCACHE : Z := 16.

Record btm_rcache_ent := mk_rcache_ent { rc_region : Z; rc_owner : Z; rc_gen : Z }.
#[export] Instance btm_rcache_ent_inhabited : Inhabited btm_rcache_ent := populate (mk_rcache_ent 0 0 0).

(** The cache of a new thread is zero pages. *)
Definition rcache_empty : list btm_rcache_ent := replicate 16 (mk_rcache_ent 0 0 0).

(** The thread's cache is [None] while the thread has no TLS block. *)
Definition btm_resolve_owner (t : option (list btm_rcache_ent)) (r : registry) (ptr : Z)
    : Z * option (list btm_rcache_ent) :=
  match t with
  | None => (btm_registry_lookup r ptr, None)
  | Some rcache =>
      let region := Z.shiftr ptr BTM_CHUNK_SHIFT in
      let gen := u64 (btm_registry_gen r) in
      let i := Z.to_nat (Z.land (u32 region) (BTM_RCACHE - 1)) in
      let e := rcache !!! i in
      if (rc_region e =? region) && (rc_gen e =? gen) && negb (rc_owner e =? 0)
      then (rc_owner e, Some rcache)
      else
        let owner := btm_registry_lookup r ptr in
        if owner =? 0 then (owner, Some rcache)
        else (owner, Some (<[i := mk_rcache_ent region owner gen]> rcache))
  end.

(** ** Specification: a map from regions to owner words *)

(** User addresses: below 2^48 the radix index of a region is one to one. *)
Definition radix_addr (a : Z) : Prop := 0 ≤ a < 2 ^ 48.

Definition in_span (base len region : Z) : Prop :=
  first_region base ≤ region ≤ last_region base len.
#[export] Instance in_span_dec base len region : Decision (in_span base len region).
Proof. unfold in_span. apply _. Defined.

Lemma elem_of_regions base len k : k ∈ regions base len ↔ in_span base len k.
Proof. unfold regions, in_span. rewrite elem_of_seqZ. lia. Qed.

Lemma radix_i1_eq key : 0 ≤ key < 2 ^ 27 → radix_i1 key = key / 8192.
Proof.
  intros H. unfold radix_i1, BTM_RADIX_L1_SIZE, BTM_RADIX_L2_BITS.
  change (16384 - 1) with (2 ^ 14 - 1). rewrite land_mask, Z.shiftr_div_pow2 by lia.
  change (2 ^ 13) with 8192. change (2 ^ 14) with 16384.
  assert (0 ≤ key / 8192 < 16384) by (split; [apply Z.div_pos; lia | apply Z.div_lt_upper_bound; lia]).
  rewrite u32_small by lia. apply Z.mod_small. lia.
Qed.

Lemma radix_i2_eq key : 0 ≤ key < 2 ^ 27 → radix_i2 key = key mod 8192.
Proof.
  intros H. unfold radix_i2, BTM_RADIX_L2_SIZE. change (8192 - 1) with (2 ^ 13 - 1).
  rewrite land_mask, u32_small by lia. done.
Qed.

Lemma radix_index_inj k1 k2 :
  0 ≤ k1 < 2 ^ 27 → 0 ≤ k2 < 2 ^ 27 → radix_i1 k1 = radix_i1 k2 → radix_i2 k1 = radix_i2 k2 → k1 = k2.
Proof.
  intros H1 H2. rewrite !radix_i1_eq, !radix_i2_eq by done. intros E1 E2.
  pose proof (Z.div_mod k1 8192). pose proof (Z.div_mod k2 8192). lia.
Qed.

Lemma region_of_range a : radix_addr a → 0 ≤ region_of a < 2 ^ 27.
Proof.
  intros [? ?]. unfold region_of. unfold_geometry. rewrite Z.shiftr_div_pow2 by lia.
  split; [apply Z.div_pos; lia|]. apply Z.div_lt_upper_bound; lia.
Qed.

Lemma btm_registry_lookup_owner r ptr : btm_registry_lookup r ptr = radix_owner r (region_of ptr).
Proof. done. Qed.

Section radix.
Context (leaf_mmap : Z → bool).

(** Writing [owner] at a region takes effect: the leaf is there, or the kernel grants
    it, or the value is the 0 that a missing leaf reads as. *)
Definition writable (r : registry) (key owner : Z) : Prop :=
  owner = 0 ∨ is_Some (radix_l1 r !! radix_i1 key) ∨ leaf_mmap (radix_i1 key) = true.

Lemma radix_owner_set r k k' o :
  0 ≤ k < 2 ^ 27 → 0 ≤ k' < 2 ^ 27 → writable r k o →
  radix_owner (registry_set_locked leaf_mmap r k o) k' = if decide (k = k') then o else radix_owner r k'.
Proof.
  intros Hk Hk' Hw. unfold registry_set_locked, radix_owner.
  destruct (decide (k = k')) as [->|Hne].
  - destruct (radix_l1 r !! radix_i1 k') as [leaf|] eqn:E; simpl; [by rewrite !lookup_insert_eq; simpl|].
    destruct (leaf_mmap (radix_i1 k')) eqn:Em; simpl; [by rewrite !lookup_insert_eq|].
    rewrite E. destruct Hw as [->|[[? ?]|?]]; congruence.
  - assert (radix_i1 k ≠ radix_i1 k' ∨ radix_i2 k ≠ radix_i2 k') as Hidx.
    { destruct (decide (radix_i1 k = radix_i1 k')), (decide (radix_i2 k = radix_i2 k')); eauto.
      by destruct Hne; apply radix_index_inj. }
    destruct (decide (radix_i1 k = radix_i1 k')) as [E1|E1].
    + destruct Hidx as [|Hi2]; [done|]. rewrite E1.
      destruct (radix_l1 r !! radix_i1 k') as [leaf|] eqn:E; simpl.
      { by rewrite lookup_insert_eq, lookup_insert_ne. }
      destruct (leaf_mmap _); simpl; [by rewrite lookup_insert_eq, lookup_insert_ne|by rewrite E].
    + destruct (radix_l1 r !! radix_i1 k) as [leaf|]; simpl; [by rewrite lookup_insert_ne|].
      destruct (leaf_mmap _); simpl; [by rewrite lookup_insert_ne|done].
Qed.

Lemma writable_set r k o k' o' : writable r k' o' → writable (registry_set_locked leaf_mmap r k o) k' o'.
Proof.
  unfold writable, registry_set_locked. intros [?|[[x Hx]|?]]; [by left| |by right; right].
  right; left. destruct (radix_l1 r !! radix_i1 k) eqn:E.
  - simpl. rewrite lookup_insert. case_decide; eauto.
  - destruct (leaf_mmap _); simpl; [rewrite lookup_insert; case_decide; eauto|eauto].
Qed.

Lemma radix_owner_foldl ks o r k' :
  (∀ k, k ∈ ks → 0 ≤ k < 2 ^ 27 ∧ writable r k o) → 0 ≤ k' < 2 ^ 27 →
  radix_owner (foldl (λ r k, registry_set_locked leaf_mmap r k o) r ks) k' =
  if decide (k' ∈ ks) then o else radix_owner r k'.
Proof.
  revert r. induction ks as [|k ks IH]; intros r Hks Hk'; cbn [foldl].
  { by rewrite decide_False by apply not_elem_of_nil. }
  destruct (Hks k) as [Hk Hw]; [apply elem_of_cons; by left|].
  rewrite IH, radix_owner_set; [|done..| |done].
  - rewrite (decide_ext (k' ∈ k :: ks) (k' = k ∨ k' ∈ ks)) by apply elem_of_cons.
    repeat case_decide; intuition congruence.
  - intros k0 Hk0. destruct (Hks k0) as [? ?]; [apply elem_of_cons; by right|].
    split; [done|by apply writable_set].
Qed.

Lemma foldl_set_gen ks o r :
  btm_registry_gen (foldl (λ r k, registry_set_locked leaf_mmap r k o) r ks) = btm_registry_gen r.
Proof.
  revert r. induction ks as [|k ks IH]; intros r; simpl; [done|]. rewrite IH.
  unfold registry_set_locked. destruct (radix_l1 r !! _); [done|]. by destruct (leaf_mmap _).
Qed.

Lemma remove_gen r base len :
  btm_registry_gen (btm_registry_remove leaf_mmap r base len) = btm_registry_gen r + 1.
Proof. unfold btm_registry_remove, registry_bump, registry_clear. cbn [btm_registry_gen]. by rewrite foldl_set_gen. Qed.

Lemma insert_gen r base len owner :
  btm_registry_gen (btm_registry_insert leaf_mmap r base len owner) = btm_registry_gen r.
Proof. apply foldl_set_gen. Qed.

(** A span of user addresses. *)
Definition span_ok (base len : Z) : Prop := 0 ≤ base ∧ 0 < len ∧ base + len ≤ 2 ^ 48.

Lemma in_span_range base len k : span_ok base len → in_span base len k → 0 ≤ k < 2 ^ 27.
Proof.
  intros (Hb & Hl & He) [H1 H2]. unfold first_region, last_region in *. unfold_geometry.
  rewrite Z.shiftr_div_pow2 in H1, H2 by lia. rewrite !u64_small in H2 by (rewrite ?u64_small; lia).
  assert (0 ≤ base / 2 ^ 21) by (apply Z.div_pos; lia).
  assert ((base + len - 1) / 2 ^ 21 < 2 ^ 27) by (apply Z.div_lt_upper_bound; lia). lia.
Qed.

(** A pointer into the span lies in one of its regions. *)
Lemma in_span_ptr base len p : span_ok base len → base ≤ p < base + len → in_span base len (region_of p).
Proof.
  intros (Hb & Hl & He) Hp. unfold in_span, first_region, last_region, region_of. unfold_geometry.
  rewrite !u64_small by (rewrite ?u64_small; lia). rewrite !Z.shiftr_div_pow2 by lia.
  split; apply Z.div_le_mono; lia.
Qed.

Lemma insert_owner r base len owner k :
  span_ok base len → (∀ k, in_span base len k → writable r k owner) → 0 ≤ k < 2 ^ 27 →
  radix_owner (btm_registry_insert leaf_mmap r base len owner) k =
  if decide (in_span base len k) then owner else radix_owner r k.
Proof.
  intros Hs Hw Hk. unfold btm_registry_insert. rewrite radix_owner_foldl; [|..|done].
  - repeat case_decide; rewrite ?elem_of_regions in *; tauto.
  - intros k0 Hk0%elem_of_regions. split; [by apply (in_span_range base len)|by apply Hw].
Qed.

Lemma remove_owner r base len k :
  span_ok base len → 0 ≤ k < 2 ^ 27 →
  radix_owner (btm_registry_remove leaf_mmap r base len) k =
  if decide (in_span base len k) then 0 else radix_owner r k.
Proof.
  intros Hs Hk. unfold btm_registry_remove, registry_bump, registry_clear.
  change (radix_owner (mk_registry (radix_l1 ?r') _) k) with (radix_owner r' k).
  rewrite radix_owner_foldl; [|..|done].
  - repeat case_decide; rewrite ?elem_of_regions in *; tauto.
  - intros k0 Hk0%elem_of_regions. split; [by apply (in_span_range base len)|by left].
Qed.

End radix.

(** ** The flat engine against the same map *)
Lemma flat_lookup_foldl t ks o p :
  region_of p < BTM_FLAT_SIZE →
  flat_lookup (foldl (λ f k, flat_set f k o) (Some t) ks) p =
  if decide (region_of p ∈ ks) then o else flat_lookup (Some t) p.
Proof.
  intros Hp. revert t. induction ks as [|k ks IH]; intros t; cbn [foldl].
  { by rewrite decide_False by apply not_elem_of_nil. }
  rewrite (decide_ext (region_of p ∈ k :: ks) (region_of p = k ∨ region_of p ∈ ks)) by apply elem_of_cons.
  unfold flat_set at 2. destruct (Z.leb_spec BTM_FLAT_SIZE k).
  { rewrite IH. repeat case_decide; intuition lia. }
  rewrite IH. unfold flat_lookup at 1. fold (region_of p). rewrite lookup_insert.
  destruct (Z.leb_spec BTM_FLAT_SIZE (region_of p)); [lia|].
  repeat case_decide; try intuition congruence.
  unfold flat_lookup. fold (region_of p). by destruct (Z.leb_spec BTM_FLAT_SIZE (region_of p)); [lia|].
Qed.

(** ** The interface the allocator relies on *)

(** Addresses of x86-64 user space. *)
Definition user_addr (a : Z) : Prop := 0 ≤ a < 2 ^ 47.
Definition user_span (base len : Z) : Prop := 0 ≤ base ∧ 0 < len ∧ base + len ≤ 2 ^ 47.

Class OwnerTable (T : Type) : Type := {
  ot_lookup : T → Z → Z;
  ot_insert : T → Z → Z → Z → T;
  ot_remove : T → Z → Z → T;
}.

(** What [free] needs of the table: after an insert exactly the pointers into the
    regions of the span resolve to the new owner, after a remove they are foreign, and
    all other pointers keep their owner. [ot_live] holds of a table that was set up. *)
Class OwnerTableLaws (T : Type) (O : OwnerTable T) : Type := {
  ot_live : T → Prop;
  ot_insert_live t base len o : ot_live t → ot_live (ot_insert t base len o);
  ot_remove_live t base len : ot_live t → ot_live (ot_remove t base len);
  ot_lookup_insert t base len o p :
    ot_live t → user_span base len → user_addr p →
    ot_lookup (ot_insert t base len o) p =
    if decide (in_span base len (region_of p)) then o else ot_lookup t p;
  ot_lookup_remove t base len p :
    ot_live t → user_span base len → user_addr p →
    ot_lookup (ot_remove t base len) p =
    if decide (in_span base len (region_of p)) then 0 else ot_lookup t p;
}.

#[export] Hint Resolve ot_insert_live ot_remove_live : btm.

#[export] Instance radix_table : OwnerTable registry := {|
  ot_lookup := btm_registry_lookup;
  ot_insert := btm_registry_insert (λ _, true);
  ot_remove := btm_registry_remove (λ _, true);
|}.

#[export] Instance flat_owner_table : OwnerTable flat_table := {|
  ot_lookup := flat_lookup;
  ot_insert := flat_insert;
  ot_remove := flat_remove;
|}.

Lemma user_radix a : user_addr a → radix_addr a.
Proof. unfold user_addr, radix_addr. lia. Qed.

Lemma user_flat a : user_addr a → region_of a < BTM_FLAT_SIZE.
Proof.
  intros [? ?]. unfold region_of, BTM_FLAT_SIZE. unfold_geometry.
  rewrite Z.shiftr_div_pow2 by lia. apply Z.div_lt_upper_bound; lia.
Qed.

Lemma user_span_ok base len : user_span base len → span_ok base len.
Proof. unfold user_span, span_ok. lia. Qed.
#[export] Hint Resolve user_radix user_flat user_span_ok : btm.

#[export] Instance radix_table_laws : OwnerTableLaws registry radix_table.
Proof.
  refine {| ot_live := λ _, True |}.
  - intros. exact I.
  - intros. exact I.
  - intros r base len o p _ Hs Hp. apply (insert_owner (λ _, true) r base len o (region_of p)).
    + auto with btm.
    + intros k _. by right; right.
    + by apply region_of_range, user_radix.
  - intros r base len p _ Hs Hp. apply (remove_owner (λ _, true) r base len (region_of p)).
    + auto with btm.
    + by apply region_of_range, user_radix.
Defined.

Lemma flat_foldl_some ks o t : is_Some (foldl (λ f k, flat_set f k o) (Some t) ks).
Proof.
  revert t. induction ks as [|k ks IH]; intros t; cbn [foldl]; [eauto|].
  unfold flat_set at 2. by destruct (BTM_FLAT_SIZE <=? k); apply IH.
Defined.

#[export] Instance flat_table_laws : OwnerTableLaws flat_table flat_owner_table.
Proof.
  refine {| ot_live := λ f : flat_table, is_Some f |}.
  - intros t base len o [f ->]. apply flat_foldl_some.
  - intros t base len [f ->]. apply flat_foldl_some.
  - intros t base len o p [f ->] Hs Hp. etrans; [apply flat_lookup_foldl; auto with btm|].
    apply decide_ext, elem_of_regions.
  - intros t base len p [f ->] Hs Hp. etrans; [apply flat_lookup_foldl; auto with btm|].
    apply decide_ext, elem_of_regions.
Defined.

(** A history of updates of a table. *)
Inductive table_op := TInsert (base len owner : Z) | TRemove (base len : Z).

Definition table_step {T : Type} `{!OwnerTable T} (t : T) (op : table_op) : T :=
  match op with
  | TInsert base len owner => ot_insert t base len owner
  | TRemove base len => ot_remove t base len
  end.

Definition op_in_user_space (op : table_op) : Prop :=
  match op with TInsert base len _ | TRemove base len => user_span base len end.

(** A run of the table in which objects are registered on addresses nobody owns. *)
Fixpoint ops_valid {T : Type} `{!OwnerTable T} (t : T) (ops : list table_op) : Prop :=
  match ops with
  | [] => True
  | op :: ops' =>
      op_in_user_space op ∧
      match op with
      | TInsert base len _ => ∀ p, user_addr p → in_span base len (region_of p) → ot_lookup t p = 0
      | TRemove _ _ => True
      end ∧ ops_valid (table_step t op) ops'
  end.

Definition is_insert (op : table_op) : Prop := match op with TInsert _ _ _ => True | TRemove _ _ => False end.

#[export] Instance is_insert_dec op : Decision (is_insert op).
Proof. destruct op; apply _. Defined.

(** [table_moves grow t t']: valid updates take [t] to [t'], insertions only when [grow]. *)
Definition table_moves {T : Type} `{!OwnerTable T} (grow : bool) (t t' : T) : Prop :=
  ∃ ops, ops_valid t ops ∧ t' = foldl table_step t ops ∧ (grow = true → Forall is_insert ops).
Abbreviation table_evolves := (table_moves false).

Lemma ops_valid_app {T : Type} `{!OwnerTable T} (t : T) ops1 ops2 :
  ops_valid t ops1 → ops_valid (foldl table_step t ops1) ops2 → ops_valid t (ops1 ++ ops2).
Proof. revert t. induction ops1 as [|op ops1 IH]; intros t; simpl; [done|]. intros (H1 & H2 & H3) H. auto. Qed.

#[export] Instance table_moves_preorder {T : Type} `{!OwnerTable T} grow : PreOrder (table_moves (T := T) grow).
Proof.
  split.
  - intros t. exists []. by split_and!.
  - intros t1 t2 t3 (ops1 & V1 & -> & I1) (ops2 & V2 & -> & I2). exists (ops1 ++ ops2).
    split_and!; [by apply ops_valid_app|by rewrite foldl_app|]. intros E. apply Forall_app. auto.
Qed.

Lemma moves_evolves {T : Type} `{!OwnerTable T} grow (t t' : T) : table_moves grow t t' → table_evolves t t'.
Proof. intros (ops & H1 & H2 & _). by exists ops. Qed.

Lemma evolves_insert {T : Type} `{!OwnerTable T} grow (t : T) base len o :
  user_span base len → (∀ p, user_addr p → in_span base len (region_of p) → ot_lookup t p = 0) →
  table_moves grow t (ot_insert t base len o).
Proof. intros H1 H2. exists [TInsert base len o]. split_and!; [done|done|]. by repeat constructor. Qed.

Lemma evolves_remove {T : Type} `{!OwnerTable T} (t : T) base len :
  user_span base len → table_evolves t (ot_remove t base len).
Proof. intros H. by exists [TRemove base len]. Qed.

Lemma table_step_live {T : Type} {O : OwnerTable T} {L : OwnerTableLaws T O} (t : T) op :
  ot_live t → ot_live (table_step t op).
Proof. intros H. destruct op; cbn [table_step]; [by apply ot_insert_live|by apply ot_remove_live]. Defined.

Lemma table_steps_agree {T1 T2 : Type} {O1 : OwnerTable T1} {O2 : OwnerTable T2}
    {L1 : OwnerTableLaws T1 O1} {L2 : OwnerTableLaws T2 O2} ops (t1 : T1) (t2 : T2) :
  ot_live t1 → ot_live t2 → Forall op_in_user_space ops →
  (∀ p, user_addr p → ot_lookup t1 p = ot_lookup t2 p) →
  ∀ p, user_addr p → ot_lookup (foldl table_step t1 ops) p = ot_lookup (foldl table_step t2 ops) p.
Proof.
  revert t1 t2. induction ops as [|op ops IH]; intros t1 t2 Ht1 Ht2 Hops Heq p Hp; cbn [foldl]; [by apply Heq|].
  apply Forall_cons in Hops as [Hop Hops].
  apply IH; [by apply table_step_live..|done| |done].
  intros q Hq. destruct op as [base len o|base len]; cbn [table_step].
  - rewrite !ot_lookup_insert by done. by rewrite Heq.
  - rewrite !ot_lookup_remove by done. by rewrite Heq.
Qed.

(** What is registered stays, while the table only grows. *)
Lemma grow_lookup {T : Type} {O : OwnerTable T} {L : OwnerTableLaws T O} (t t' : T) p :
  table_moves true t t' → ot_live t → user_addr p → ot_lookup t p ≠ 0 → ot_lookup t' p = ot_lookup t p.
Proof.
  intros (ops & Hv & -> & Hi) Hl Hp. specialize (Hi eq_refl). revert t Hv Hl. induction ops as [|op ops IH]; intros t Hv Hl Hne; [done|].
  apply Forall_cons in Hi as [Hop Hi]. cbn [ops_valid foldl] in *. destruct Hv as (Hu & Hfree & Hv).
  destruct op as [base len o|]; [|done]. assert (E : ot_lookup (table_step t (TInsert base len o)) p = ot_lookup t p).
  { cbn [table_step]. rewrite ot_lookup_insert by done. case_decide as Hin; [|done]. by rewrite (Hfree p Hp Hin) in Hne. }
  rewrite IH; [done|done|done|by apply table_step_live|by rewrite E].
Qed.

(** ** The region cache *)
Definition coherent (r : registry) (c : list btm_rcache_ent) : Prop :=
  length c = 16%nat ∧
  ∀ e, e ∈ c → 0 ≤ rc_region e < 2 ^ 27 ∧ rc_gen e ≤ btm_registry_gen r ∧
    (rc_gen e = btm_registry_gen r → rc_owner e ≠ 0 → radix_owner r (rc_region e) = rc_owner e).

Lemma coherent_empty r : 0 ≤ btm_registry_gen r → coherent r rcache_empty.
Proof.
  intros Hg. split; [done|]. intros e [-> _]%elem_of_replicate. cbn. split_and!; [lia..|done].
Qed.

Lemma rcache_index region : (Z.to_nat (Z.land (u32 region) (BTM_RCACHE - 1)) < 16)%nat.
Proof.
  unfold BTM_RCACHE. change (16 - 1) with (2 ^ 4 - 1). rewrite land_mask by lia.
  pose proof (Z.mod_pos_bound (u32 region) (2 ^ 4)). lia.
Qed.

Lemma resolve_coherent r c ptr :
  coherent r c → 0 ≤ btm_registry_gen r < 2 ^ 64 → radix_addr ptr →
  ∃ c', btm_resolve_owner (Some c) r ptr = (btm_registry_lookup r ptr, Some c') ∧ coherent r c'.
Proof.
  intros [Hlen Hc] Hg Hptr. unfold btm_resolve_owner. fold (region_of ptr). rewrite (u64_small (btm_registry_gen r)) by done.
  set (i := Z.to_nat _). set (e := c !!! i).
  assert (Hi : (i < length c)%nat) by (rewrite Hlen; apply rcache_index).
  assert (He : e ∈ c) by (apply list_elem_of_lookup_total_2; done).
  destruct ((rc_region e =? region_of ptr) && (rc_gen e =? btm_registry_gen r) && negb (rc_owner e =? 0)) eqn:Ehit.
  - apply andb_true_iff in Ehit as [[E1%Z.eqb_eq E2%Z.eqb_eq]%andb_true_iff E3%negb_true_iff%Z.eqb_neq].
    exists c. split; [|by split]. destruct (Hc e He) as (_ & _ & Hown).
    rewrite btm_registry_lookup_owner, <-E1, Hown by done. done.
  - destruct (Z.eqb_spec (btm_registry_lookup r ptr) 0) as [E|E]; [by exists c|].
    eexists; split; [done|]. split; [by rewrite length_insert|].
    intros e' He'. apply list_elem_of_lookup in He' as [j Hj].
    apply list_lookup_insert_Some in Hj as [(-> & <- & _)|[_ Hj]].
    + cbn. split_and!; [by apply region_of_range..|lia|done].
    + apply Hc. by eapply list_elem_of_lookup_2.
Qed.

(** Another thread inserts a span none of whose regions is owned. *)
Lemma coherent_insert leaf_mmap r c base len owner :
  coherent r c → span_ok base len → (∀ k, in_span base len k → radix_owner r k = 0) →
  (∀ k, leaf_mmap k = true) →
  coherent (btm_registry_insert leaf_mmap r base len owner) c.
Proof.
  intros [Hlen Hc] Hs Hfree Hleaf. split; [done|]. intros e He.
  rewrite insert_gen. destruct (Hc e He) as (Hreg & Hg & Hown).
  split_and!; [lia..|done|]. intros Hgen Hne. rewrite insert_owner; [|done|by right; right|done].
  case_decide as Hin; [|by apply Hown]. rewrite Hfree in Hown by done. naive_solver.
Qed.

(** Another thread removes a span: the generation moves past every entry. *)
Lemma coherent_remove leaf_mmap r c base len :
  coherent r c → coherent (btm_registry_remove leaf_mmap r base len) c.
Proof.
  intros [Hlen Hc]. split; [done|]. intros e He. rewrite remove_gen.
  destruct (Hc e He) as (? & Hle & _). split_and!; lia.
Qed.

(** ** Properties *)

(** Registering an object makes every pointer into it resolve to its owner word,
    whatever the table held before, and leaves pointers into other regions alone;
    unregistering it makes them foreign again. *)
Theorem registry_insert_remove leaf_mmap r base len owner p :
  span_ok base len → (∀ k, in_span base len k → leaf_mmap (radix_i1 k) = true) → radix_addr p →
  let r1 := btm_registry_insert leaf_mmap r base len owner in
  let r2 := btm_registry_remove leaf_mmap r1 base len in
  (base ≤ p < base + len → btm_registry_lookup r1 p = owner ∧ btm_registry_lookup r2 p = 0) ∧
  (¬ in_span base len (region_of p) →
   btm_registry_lookup r1 p = btm_registry_lookup r p ∧ btm_registry_lookup r2 p = btm_registry_lookup r p).
Proof.
  intros Hs Hleaf Hp r1 r2. pose proof (region_of_range p Hp) as Hk.
  rewrite !btm_registry_lookup_owner. subst r1 r2. rewrite remove_owner, !insert_owner by (try done; by right; right; auto).
  split; intros H; [rewrite !decide_True by (by apply in_span_ptr)|rewrite !decide_False by done]; done.
Qed.

Lemma registry_insert_remove_witness :
  let r0 := mk_registry ∅ 0 in
  btm_registry_lookup (btm_registry_insert (λ _, true) r0 4194304 6291456 4194305) 10000000 = 4194305.
Proof.
  intros r0.
  destruct (registry_insert_remove (λ _, true) r0 4194304 6291456 4194305 10000000) as [H _].
  - vm_compute. split_and!; [discriminate|reflexivity|discriminate].
  - reflexivity.
  - vm_compute. split; [discriminate|reflexivity].
  - apply H. lia.
Defined.

(** C35. The build-time choice of the owner engine is invisible: after any history of
    inserts and removes in user space, the radix table and the flat table give the same
    owner for every user address. *)
Theorem owner_engines_equivalent ops p :
  Forall op_in_user_space ops → user_addr p →
  btm_registry_lookup (foldl table_step (mk_registry ∅ 0) ops) p =
  flat_lookup (foldl table_step (Some ∅ : flat_table) ops) p.
Proof.
  intros Hops Hp.
  refine (table_steps_agree ops (mk_registry ∅ 0) (Some ∅ : flat_table) I (ltac:(by eexists)) Hops _ p Hp).
  intros q Hq. apply user_flat in Hq. cbn [ot_lookup radix_table flat_owner_table].
  unfold btm_registry_lookup, flat_lookup. fold (region_of q).
  destruct (Z.leb_spec BTM_FLAT_SIZE (region_of q)); [lia|]. cbn [radix_l1]. by rewrite !lookup_empty.
Qed.

Lemma owner_engines_equivalent_witness :
  btm_registry_lookup (foldl table_step (mk_registry ∅ 0) [TInsert 4194304 2097152 4194304; TRemove 4194304 2097152]) 4194320 =
  flat_lookup (foldl table_step (Some ∅ : flat_table) [TInsert 4194304 2097152 4194304; TRemove 4194304 2097152]) 4194320.
Proof.
  apply owner_engines_equivalent.
  - repeat constructor; vm_compute; discriminate.
  - vm_compute. split; [discriminate|reflexivity].
Defined.

(** ** Resolution while other threads move the table

    The steps, each one atomic access.  A resolution loads the generation and compares the
    entry of its own cache ([RLoad]); on a miss it loads the leaf pointer ([RLeaf]) and then
    the word ([RWord]), and fills the entry.  Between its steps any thread writes a word, of
    an insert or, with 0, of a removal ([RSet]), or moves the generation ([RBump], the last
    step of a removal). *)
Inductive rc_event := RLoad (ptr : Z) | RLeaf | RWord | RSet (key owner : Z) | RBump.
#[export] Instance rc_event_eq_dec : EqDecision rc_event.
Proof. solve_decision. Defined.

Definition rcache_index_of (region : Z) : nat := Z.to_nat (Z.land (u32 region) (BTM_RCACHE - 1)).

Definition resolve_hit (c : list btm_rcache_ent) (region gen : Z) : option Z :=
  let e := c !!! rcache_index_of region in
  if (rc_region e =? region) && (rc_gen e =? gen) && negb (rc_owner e =? 0) then Some (rc_owner e) else None.

Definition resolve_fill (c : list btm_rcache_ent) (region gen owner : Z) : list btm_rcache_ent :=
  if owner =? 0 then c else <[rcache_index_of region := mk_rcache_ent region owner gen]> c.

(** Where the observed thread is, with the generation it loaded and when. *)
Inductive rc_wait := WIdle | WLeaf (ptr gen : Z) (load : nat) | WWord (ptr gen : Z) (load : nat).

(** An answer, with the times of its first and its last step. *)
Record rc_answer := mk_answer { an_ptr : Z; an_load : nat; an_at : nat; an_owner : Z }.
#[export] Instance rc_answer_eq_dec : EqDecision rc_answer.
Proof. solve_decision. Defined.

Section steps.
Context (leaf_mmap : Z → bool).

Definition rc_table (r : registry) (e : rc_event) : registry :=
  match e with
  | RSet key owner => registry_set_locked leaf_mmap r key owner
  | RBump => registry_bump r
  | _ => r
  end.

Definition rc_observe (n : nat) (r : registry) (w : rc_wait) (c : list btm_rcache_ent) (e : rc_event)
    : option rc_answer * rc_wait * list btm_rcache_ent :=
  match e, w with
  | RLoad ptr, WIdle =>
      let gen := u64 (btm_registry_gen r) in
      match resolve_hit c (region_of ptr) gen with
      | Some owner => (Some (mk_answer ptr n n owner), WIdle, c)
      | None => (None, WLeaf ptr gen n, c)
      end
  | RLeaf, WLeaf ptr gen load =>
      match radix_l1 r !! radix_i1 (region_of ptr) with
      | None => (Some (mk_answer ptr load n 0), WIdle, resolve_fill c (region_of ptr) gen 0)
      | Some _ => (None, WWord ptr gen load, c)
      end
  | RWord, WWord ptr gen load =>
      let owner := radix_owner r (region_of ptr) in
      (Some (mk_answer ptr load n owner), WIdle, resolve_fill c (region_of ptr) gen owner)
  | _, _ => (None, w, c)
  end.

(** The answers of a thread from event [n] on, and the table when [n] events have happened. *)
Fixpoint rc_run (n : nat) (r : registry) (w : rc_wait) (c : list btm_rcache_ent) (evs : list rc_event) : list rc_answer :=
  match evs with
  | [] => []
  | e :: evs' => let '(a, w', c') := rc_observe n r w c e in option_list a ++ rc_run (S n) (rc_table r e) w' c' evs'
  end.

Definition table_at (r : registry) (evs : list rc_event) (n : nat) : registry := foldl rc_table r (take n evs).

(** Undisturbed, the steps are [btm_resolve_owner], [btm_registry_insert] and
    [btm_registry_remove]. *)
Lemma resolve_owner_eq r c ptr :
  btm_resolve_owner (Some c) r ptr =
  match resolve_hit c (region_of ptr) (u64 (btm_registry_gen r)) with
  | Some owner => (owner, Some c)
  | None => let owner := radix_owner r (region_of ptr) in (owner, Some (resolve_fill c (region_of ptr) (u64 (btm_registry_gen r)) owner))
  end.
Proof.
  unfold btm_resolve_owner, resolve_hit, resolve_fill, rcache_index_of. fold (region_of ptr). rewrite btm_registry_lookup_owner.
  destruct (_ && _ && _); [done|]. by destruct (radix_owner r (region_of ptr) =? 0).
Qed.

Lemma resolve_steps_alone r c ptr :
  an_owner <$> rc_run 0 r WIdle c [RLoad ptr; RLeaf; RWord] = [(btm_resolve_owner (Some c) r ptr).1].
Proof.
  rewrite resolve_owner_eq. cbn [rc_run rc_observe rc_table]. destruct (resolve_hit _ _ _) as [o|]; [done|].
  destruct (radix_l1 r !! radix_i1 (region_of ptr)) eqn:E; [done|]. cbn. unfold radix_owner. by rewrite E.
Qed.

Lemma set_steps r ks owner : foldl rc_table r ((λ k, RSet k owner) <$> ks) = foldl (λ r k, registry_set_locked leaf_mmap r k owner) r ks.
Proof. revert r. induction ks as [|k ks IH]; intros r; [done|]. apply IH. Qed.

Lemma insert_steps r base len owner :
  foldl rc_table r ((λ k, RSet k owner) <$> regions base len) = btm_registry_insert leaf_mmap r base len owner.
Proof. apply set_steps. Qed.

Lemma remove_steps r base len :
  foldl rc_table r (((λ k, RSet k 0) <$> regions base len) ++ [RBump]) = btm_registry_remove leaf_mmap r base len.
Proof. rewrite foldl_app, set_steps. done. Qed.

(** The generation only grows, and a bump moves it. *)
Lemma rc_table_gen r e : btm_registry_gen (rc_table r e) = btm_registry_gen r + (if decide (e = RBump) then 1 else 0).
Proof.
  destruct e as [ptr| | |key owner|]; cbn [rc_table]; try (rewrite decide_False by done; lia); [|by rewrite decide_True].
  rewrite decide_False by done. pose proof (foldl_set_gen leaf_mmap [key] owner r) as H. cbn [foldl] in H. lia.
Qed.

Lemma table_at_S r evs n e : evs !! n = Some e → table_at r evs (S n) = rc_table (table_at r evs n) e.
Proof. intros He. unfold table_at. by rewrite (take_S_r _ _ _ He), foldl_snoc. Qed.

Lemma table_at_mono r evs i j : (i ≤ j)%nat → btm_registry_gen (table_at r evs i) ≤ btm_registry_gen (table_at r evs j).
Proof.
  induction 1 as [|j _ IH]; [done|]. destruct (evs !! j) as [e|] eqn:E.
  - rewrite (table_at_S _ _ _ _ E), rc_table_gen. case_decide; lia.
  - apply lookup_ge_None in E. unfold table_at in *. rewrite (take_ge evs j) in IH by lia. by rewrite (take_ge evs (S j)) by lia.
Qed.

Lemma table_at_bump r evs i b j : evs !! b = Some RBump → (i ≤ b < j)%nat →
  btm_registry_gen (table_at r evs i) < btm_registry_gen (table_at r evs j).
Proof.
  intros Hb Hij. pose proof (table_at_mono r evs i b ltac:(lia)). pose proof (table_at_mono r evs (S b) j ltac:(lia)) as Hg.
  rewrite (table_at_S _ _ _ _ Hb), rc_table_gen, decide_True in Hg by done. lia.
Qed.

(** [owner] was the word of [region] at a moment up to [n], when the generation had been [gen]. *)
Definition held r evs (n : nat) (region owner gen : Z) : Prop :=
  ∃ i j, (i ≤ j ≤ n)%nat ∧ gen = btm_registry_gen (table_at r evs i) ∧ owner = radix_owner (table_at r evs j) region.

Definition cache_held r evs n (c : list btm_rcache_ent) : Prop :=
  length c = 16%nat ∧ ∀ e, e ∈ c → rc_owner e ≠ 0 → held r evs n (rc_region e) (rc_owner e) (rc_gen e).

Definition wait_held r evs n (w : rc_wait) : Prop :=
  match w with
  | WIdle => True
  | WLeaf _ gen load | WWord _ gen load => (load ≤ n)%nat ∧ gen = btm_registry_gen (table_at r evs load)
  end.

(** An answer is as recent as every bump before its first step. *)
Definition as_of_bumps r evs (a : rc_answer) : Prop :=
  ∃ j, (j ≤ an_at a)%nat ∧ radix_owner (table_at r evs j) (region_of (an_ptr a)) = an_owner a ∧
    ∀ b, evs !! b = Some RBump → (b < an_load a)%nat → (b < j)%nat.

Lemma held_mono r evs n n' region owner gen : (n ≤ n')%nat → held r evs n region owner gen → held r evs n' region owner gen.
Proof. intros Hn (i & j & H1 & H2 & H3). exists i, j. split; [lia|done]. Qed.

Lemma resolve_hit_held r evs n c region owner :
  cache_held r evs n c → resolve_hit c region (btm_registry_gen (table_at r evs n)) = Some owner →
  ∃ j, (j ≤ n)%nat ∧ radix_owner (table_at r evs j) region = owner ∧ ∀ b, evs !! b = Some RBump → (b < n)%nat → (b < j)%nat.
Proof.
  intros [Hlen Hc]. unfold resolve_hit. set (e := c !!! _). destruct (_ && _ && _) eqn:E; [|done]. intros [= <-].
  apply andb_true_iff in E as [[E1%Z.eqb_eq E2%Z.eqb_eq]%andb_true_iff E3%negb_true_iff%Z.eqb_neq].
  destruct (Hc e) as (i & j & Hij & Hg & Ho); [apply list_elem_of_lookup_total_2; rewrite Hlen; apply rcache_index|done|].
  exists j. split; [lia|]. split; [by rewrite <-E1|]. intros b Hb Hbn. destruct (decide (b < j)%nat); [done|exfalso].
  pose proof (table_at_bump r evs i b n Hb ltac:(lia)). lia.
Qed.

Lemma resolve_fill_held r evs n c region gen load :
  cache_held r evs n c → (load ≤ n)%nat → gen = btm_registry_gen (table_at r evs load) →
  cache_held r evs n (resolve_fill c region gen (radix_owner (table_at r evs n) region)).
Proof.
  intros [Hlen Hc] Hl Hg. unfold resolve_fill. destruct (Z.eqb_spec (radix_owner (table_at r evs n) region) 0); [done|].
  split; [by rewrite length_insert|]. intros e [k Hk]%list_elem_of_lookup He.
  apply list_lookup_insert_Some in Hk as [(_ & <- & _)|[_ Hk]]; [by exists load, n|]. apply Hc; [by apply list_elem_of_lookup_2 with k|done].
Qed.

Lemma observe_held r evs n w c e a w' c' :
  0 ≤ btm_registry_gen (table_at r evs n) < 2 ^ 64 → cache_held r evs n c → wait_held r evs n w →
  rc_observe n (table_at r evs n) w c e = (a, w', c') →
  cache_held r evs n c' ∧ wait_held r evs n w' ∧ ∀ x, a = Some x → as_of_bumps r evs x.
Proof.
  intros Hg Hc Hw. assert (Hnow : ∀ ptr load, (load ≤ n)%nat → as_of_bumps r evs (mk_answer ptr load n (radix_owner (table_at r evs n) (region_of ptr)))).
  { intros ptr load Hl. exists n. split; [done|]. split; [done|]. cbn. intros b _ Hb. lia. }
  assert (Hsame : (None, w, c) = (a, w', c') → cache_held r evs n c' ∧ wait_held r evs n w' ∧ ∀ x, a = Some x → as_of_bumps r evs x).
  { intros [= <- <- <-]. split; [exact Hc|]. split; [exact Hw|]. intros x [=]. }
  destruct e as [ptr| | |key owner|], w as [|ptr' gen load|ptr' gen load]; cbn [rc_observe]; try exact Hsame.
  - rewrite u64_small by exact Hg. destruct (resolve_hit _ _ _) as [o|] eqn:E; intros [= <- <- <-].
    2: { split; [exact Hc|]. split; [split; reflexivity|]. intros x [=]. }
    split; [exact Hc|]. split; [exact I|]. intros x [= <-]. destruct (resolve_hit_held r evs n c (region_of ptr) o Hc E) as (j & H1 & H2 & H3). by exists j.
  - destruct (radix_l1 _ !! _) eqn:E; intros [= <- <- <-].
    { split; [exact Hc|]. split; [exact Hw|]. intros x [=]. }
    split; [exact Hc|]. split; [exact I|]. intros x [= <-]. specialize (Hnow ptr' load (proj1 Hw)). unfold radix_owner in Hnow at 1. by rewrite E in Hnow.
  - intros [= <- <- <-]. split; [apply (resolve_fill_held r evs n c _ gen load Hc); apply Hw|]. split; [exact I|]. intros x [= <-]. apply Hnow, Hw.
Qed.

Lemma rc_run_held r evs pre suf n w c :
  evs = pre ++ suf → n = length pre → (∀ k, 0 ≤ btm_registry_gen (table_at r evs k) < 2 ^ 64) →
  cache_held r evs n c → wait_held r evs n w → Forall (as_of_bumps r evs) (rc_run n (table_at r evs n) w c suf).
Proof.
  intros -> -> Hg. revert pre w c Hg. induction suf as [|e suf IH]; intros pre w c Hg Hc Hw; cbn [rc_run]; [constructor|].
  set (evs := pre ++ e :: suf) in *. set (n := length pre) in *. destruct (rc_observe _ _ _ _ _) as [[a w'] c'] eqn:E.
  destruct (observe_held r evs n w c e a w' c' (Hg n) Hc Hw E) as (Hc' & Hw' & Ha). apply Forall_app. split.
  - destruct a as [x|]; [|constructor]. constructor; [by apply Ha|constructor].
  - assert (He : evs !! n = Some e) by (by apply list_lookup_middle). rewrite <-(table_at_S _ _ _ _ He).
    assert (En : S n = length (pre ++ [e])) by (rewrite length_app; cbn; lia). assert (Ev : evs = (pre ++ [e]) ++ suf) by (by rewrite <-app_assoc).
    specialize (IH (pre ++ [e]) w' c'). rewrite <-En, <-Ev in IH. apply IH; [done| |].
    + destruct Hc' as [H1 H2]. split; [done|]. intros x Hx Hx0. apply (held_mono r evs n); [lia|]. by apply H2.
    + destruct w'; cbn in *; [done|..]; (split; [lia|apply Hw']).
Qed.
End steps.

(** C36. A resolution never answers what a removal took away before it began.  A thread
    resolves, starting with a fresh region cache, while other threads write the words of the
    table and move its generation, in any order of the single steps: with the 64-bit
    generation not wrapped, every answer is a word that the pointer's region held, at a
    moment up to the answer and later than every bump of the generation that came before the
    resolution's first step.  So when the words of a region have been cleared and the
    generation moved, that is when the removal has returned, a resolution that begins
    later answers 0 unless the region was registered again.  In between, while the words
    are cleared and the generation is still the old one, a cached owner is answered: the
    guarantee starts when the removal returns. *)
Theorem resolve_as_of_removal leaf_mmap r evs :
  (∀ n, 0 ≤ btm_registry_gen (table_at leaf_mmap r evs n) < 2 ^ 64) →
  ∀ a, a ∈ rc_run leaf_mmap 0 r WIdle rcache_empty evs →
    (∃ j, (j ≤ an_at a)%nat ∧ radix_owner (table_at leaf_mmap r evs j) (region_of (an_ptr a)) = an_owner a ∧
      ∀ b, evs !! b = Some RBump → (b < an_load a)%nat → (b < j)%nat) ∧
    (∀ b, evs !! b = Some RBump → (b < an_load a)%nat →
      (∀ j, (b < j ≤ an_at a)%nat → radix_owner (table_at leaf_mmap r evs j) (region_of (an_ptr a)) = 0) → an_owner a = 0).
Proof.
  intros Hg a Ha. assert (HF : Forall (as_of_bumps leaf_mmap r evs) (rc_run leaf_mmap 0 r WIdle rcache_empty evs)).
  { apply (rc_run_held leaf_mmap r evs [] evs 0 WIdle rcache_empty); [done..| |done]. split; [done|]. intros e [-> _]%elem_of_replicate. by intros []. }
  rewrite Forall_forall in HF. destruct (HF a Ha) as (j & Hj & Ho & Hb). split; [by exists j|]. intros b Hb1 Hb2 Hz. rewrite <-Ho. apply Hz. split; [by apply Hb|done].
Qed.

(** The object at 4 MiB is resolved, then removed: between the clearing of its word and the
    bump a resolution still answers it, after the bump none does. *)
Definition removal_events : list rc_event :=
  [RSet 2 4194304; RLoad 4194320; RLeaf; RWord; RSet 2 0; RLoad 4194320; RBump; RLoad 4194320; RLeaf; RWord].

Lemma resolve_as_of_removal_witness :
  rc_run (λ _, true) 0 (mk_registry ∅ 0) WIdle rcache_empty removal_events =
    [mk_answer 4194320 1 3 4194304; mk_answer 4194320 5 5 4194304; mk_answer 4194320 7 9 0] ∧
  ∃ j, (j ≤ 5)%nat ∧ radix_owner (table_at (λ _, true) (mk_registry ∅ 0) removal_events j) (region_of 4194320) = 4194304 ∧
    ∀ b, removal_events !! b = Some RBump → (b < 5)%nat → (b < j)%nat.
Proof.
  split; [vm_compute; reflexivity|]. refine (proj1 (resolve_as_of_removal (λ _, true) (mk_registry ∅ 0) removal_events _ (mk_answer 4194320 5 5 4194304) _)).
  - intros n. do 11 (destruct n as [|n]; [vm_compute; split; [discriminate|reflexivity]|]). vm_compute. split; [discriminate|reflexivity].
  - apply (bool_decide_unpack _). vm_compute. done.
Defined.
