(* ===== verification/Engine.v ===== *)
(** * Engine: how a pointer is resolved to its owner

    [BTM_OWNER_ENGINE] of src/src/internal.h chooses how [btm_resolve_owner] finds the
    owner of a pointer: through the thread's region cache in front of the radix table, or
    straight from the radix or the flat table.  The API is modelled against the interface
    [OwnerEngine], whose laws the three engines discharge.  A cached resolution is only as
    good as the cache's generation counter, so the laws follow the table through its
    updates since the process started. *)

From stdpp Require Import prelude gmap.
From S2P Require Import Prelude Registry.
Local Open Scope Z_scope.

(** [oe_new]: the cache of a new thread, zero pages; a thread without a TLS block resolves
    with no cache.  [oe_sizeof]: bytes of the cache in [btm_tls_t]. *)
Class OwnerEngine (T : Type) {OT : OwnerTable T} : Type := {
  oe_cache : Type;
  oe_sizeof : Z;
  oe_new : oe_cache;
  oe_table0 : T;
  oe_resolve : option oe_cache → T → Z → Z * option oe_cache;
}.

(** What an engine promises while the table moves by valid updates from the empty one:
    [oe_ok t c]: the cache [c] can be trusted at [t]; [oe_bound t]: a stale entry can still
    be told from a valid one. *)
Class OwnerEngineLaws (T : Type) (OT : OwnerTable T) (OE : OwnerEngine T) : Type := {
  oe_laws :: OwnerTableLaws T OT;
  oe_bound : T → Prop;
  oe_ok : T → oe_cache → Prop;
  oe_live0 : ot_live oe_table0;
  oe_empty p : user_addr p → ot_lookup oe_table0 p = 0;
  oe_new_ok t : table_evolves oe_table0 t → oe_ok t oe_new;
  oe_grow t t' c : table_evolves t t' → oe_ok t c → oe_ok t' c;
  oe_bound_back t t' : table_evolves t t' → oe_bound t' → oe_bound t;
  oe_bound_grow t t' : table_moves true t t' → oe_bound t → oe_bound t';
  oe_resolve_none t p : oe_resolve None t p = (ot_lookup t p, None);
  oe_resolve_some t c p : oe_bound t → oe_ok t c → user_addr p →
    ∃ c', oe_resolve (Some c) t p = (ot_lookup t p, Some c') ∧ oe_ok t c';
}.

Lemma ops_valid_app_inv {T : Type} {OT : OwnerTable T} (t : T) ops1 ops2 :
  ops_valid t (ops1 ++ ops2) → ops_valid t ops1 ∧ ops_valid (foldl table_step t ops1) ops2.
Proof.
  revert t. induction ops1 as [|op ops1 IH]; intros t; simpl; [done|]. intros (H1 & H2 & H3).
  destruct (IH _ H3). done.
Qed.

Lemma evolves_live {T : Type} {OT : OwnerTable T} {TL : OwnerTableLaws T OT} (t t' : T) : table_evolves t t' → ot_live t → ot_live t'.
Proof.
  intros (ops & _ & -> & _). revert t. induction ops as [|op ops IH]; intros t Ht; simpl; [done|]. by apply IH, table_step_live.
Qed.

(** ** BTM_OWNER_NOCACHE and BTM_OWNER_FLAT: no cache at all *)
Definition direct_engine {T : Type} {OT : OwnerTable T} (t0 : T) : OwnerEngine T := {|
  oe_cache := unit;
  oe_sizeof := 8;
  oe_new := tt;
  oe_table0 := t0;
  oe_resolve c t p := (ot_lookup t p, c);
|}.

Definition direct_laws {T : Type} {OT : OwnerTable T} {TL : OwnerTableLaws T OT} (t0 : T)
    (Hlive : ot_live t0) (Hempty : ∀ p, user_addr p → ot_lookup t0 p = 0) : OwnerEngineLaws T OT (direct_engine t0).
Proof.
  refine {| oe_bound _ := True; oe_ok _ _ := True |}; try done.
  intros t [] p _ _ _. by exists tt.
Defined.

Definition nocache_engine : OwnerEngine registry := direct_engine (mk_registry ∅ 0).
Definition flat_engine : OwnerEngine flat_table := direct_engine (Some ∅).

Lemma radix_empty p : ot_lookup (mk_registry ∅ 0) p = 0.
Proof. cbn. unfold btm_registry_lookup. cbn. by rewrite lookup_empty. Qed.

Lemma flat_empty p : ot_lookup (Some ∅ : flat_table) p = 0.
Proof. cbn. unfold flat_lookup. case_match; [done|]. by rewrite lookup_empty. Qed.

Definition nocache_laws : OwnerEngineLaws registry radix_table nocache_engine :=
  direct_laws (mk_registry ∅ 0) I (λ p _, radix_empty p).
Definition flat_laws : OwnerEngineLaws flat_table flat_owner_table flat_engine :=
  direct_laws (Some ∅ : flat_table) (@mk_is_Some _ (Some ∅) ∅ eq_refl) (λ p _, flat_empty p).

(** ** BTM_OWNER_REGISTRY: the default *)
#[export] Instance registry_engine : OwnerEngine registry := {|
  oe_cache := list btm_rcache_ent;
  oe_sizeof := 16 * 24;
  oe_new := rcache_empty;
  oe_table0 := mk_registry ∅ 0;
  oe_resolve := btm_resolve_owner;
|}.

(** The generation counts the removals. *)
Lemma step_gen (t : registry) op :
  btm_registry_gen (table_step t op) = btm_registry_gen t + (if decide (is_insert op) then 0 else 1).
Proof.
  destruct op as [base len o|base len]; cbn [table_step].
  - rewrite decide_True by done. rewrite Z.add_0_r. apply insert_gen.
  - rewrite decide_False by (by intros []). apply remove_gen.
Qed.

Lemma steps_gen ops (t : registry) :
  btm_registry_gen t ≤ btm_registry_gen (foldl table_step t ops) ∧
  (Forall is_insert ops → btm_registry_gen (foldl table_step t ops) = btm_registry_gen t).
Proof.
  revert t. induction ops as [|op ops IH]; intros t; cbn [foldl]; [done|].
  destruct (IH (table_step t op)) as [H1 H2]. pose proof (step_gen t op) as Hs. split.
  - rewrite Hs in H1. case_decide; lia.
  - intros [Ho Hf]%Forall_cons. rewrite H2 by done. rewrite Hs, decide_True by done. lia.
Qed.

(** A table of 2^47 addresses only has regions below 2^27, all of them of user space. *)
Lemma free_regions (t : registry) base len k :
  user_span base len → (∀ p, user_addr p → in_span base len (region_of p) → ot_lookup t p = 0) →
  in_span base len k → radix_owner t k = 0.
Proof.
  intros Hs Hf Hk. assert (Hp : user_addr (k * 2 ^ 21) ∧ region_of (k * 2 ^ 21) = k).
  { destruct Hs as (Hb & Hl & He). pose proof Hk as [K1 K2]. unfold first_region, last_region in K1, K2. unfold_geometry.
    rewrite Z.shiftr_div_pow2 in K1, K2 by lia. rewrite (u64_small (base + len)), u64_small in K2 by lia.
    assert (0 ≤ base / 2 ^ 21) by (apply Z.div_pos; lia).
    assert ((base + len - 1) / 2 ^ 21 < 2 ^ 26) by (apply Z.div_lt_upper_bound; lia).
    unfold user_addr, region_of. unfold_geometry. rewrite Z.shiftr_div_pow2, Z.div_mul by lia. split; [lia|done]. }
  destruct Hp as [Hp Er]. specialize (Hf _ Hp). rewrite Er in Hf. specialize (Hf Hk).
  cbn in Hf. by rewrite btm_registry_lookup_owner, Er in Hf.
Qed.

Lemma coherent_step (t : registry) c op :
  coherent t c → ops_valid t [op] → coherent (table_step t op) c.
Proof.
  intros Hc (H1 & H2 & _). destruct op as [base len o|base len]; cbn [table_step op_in_user_space] in *.
  - apply (coherent_insert (λ _, true) t c base len o); [done|by apply user_span_ok| |done].
    intros k. by apply (free_regions t base len k).
  - by apply (coherent_remove (λ _, true)).
Qed.

Lemma coherent_steps ops (t : registry) c : coherent t c → ops_valid t ops → coherent (foldl table_step t ops) c.
Proof.
  revert t. induction ops as [|op ops IH]; intros t Hc Hv; cbn [foldl]; [done|]. change (op :: ops) with ([op] ++ ops) in Hv.
  apply ops_valid_app_inv in Hv as [Hv1 Hv2]. apply IH; [by apply coherent_step|done].
Qed.

#[export] Program Instance registry_laws : OwnerEngineLaws registry radix_table registry_engine := {|
  oe_bound t := btm_registry_gen t < 2 ^ 64;
  oe_ok t c := 0 ≤ btm_registry_gen t ∧ coherent t c;
|}.
Next Obligation. done. Qed.
Next Obligation. intros p _. apply radix_empty. Qed.
Next Obligation.
  intros t (ops & _ & -> & _). destruct (steps_gen ops oe_table0) as [Hg _]. cbn in Hg. split; [done|by apply coherent_empty].
Qed.
Next Obligation.
  intros t t' c (ops & Hv & -> & _) [Hg Hc]. destruct (steps_gen ops t) as [Hg' _]. split; [lia|by apply coherent_steps].
Qed.
Next Obligation. intros t t' (ops & _ & -> & _). destruct (steps_gen ops t) as [Hg _]. cbv beta. lia. Qed.
Next Obligation. intros t t' (ops & _ & -> & Hi). destruct (steps_gen ops t) as [_ Hg]. cbv beta. by rewrite (Hg (Hi eq_refl)). Qed.
Next Obligation. done. Qed.
Next Obligation.
  intros t c p Hb [Hg Hc] Hp. destruct (resolve_coherent t c p Hc (conj Hg Hb) (user_radix p Hp)) as (c' & Hrun & Hc').
  by exists c'.
Qed.
