(* ===== verification/Callsite.v ===== *)
(** * Callsite: from a return address to a partition

    [btm_partition_of] of src/src/internal.h, the interning table and the partition
    count of src/src/btmalloc.c.  The interning table is shared by all threads without a
    lock on its read path; it is modelled by a step of one thread against the shared
    table, so that every interleaving of threads is covered. *)

From stdpp Require Import prelude gmap.
From S2P Require Import Prelude.
Local Open Scope Z_scope.

(** ** Number of partitions *)

(** [while (np < p) np <<= 1] on [unsigned]; [None] when the fuel runs out. *)
Fixpoint np_loop (fuel : nat) (p np : Z) : option Z :=
  if np <? p then
    match fuel with
    | O => None
    | S fuel' => np_loop fuel' p (u32 (np * 2))
    end
  else Some np.

(** [env] is the value [atol] gives for BTM_PARTITIONS, [None] when the variable is unset
    or empty. *)
Definition read_nparts_env (fuel : nat) (env : option Z) : option Z :=
  let p := match env with
           | Some v => if 1 <=? v then u32 v else 64
           | None => 64
           end in
  np ← np_loop fuel p 1;
  Some (if 4096 <? np then 4096 else np).

(** ** Hash mode *)
Definition btm_hash_ra (ra : Z) : Z :=
  let x := ra in
  let x := Z.lxor x (Z.shiftr x 33) in
  let x := (x *% 0xff51afd7ed558ccd)%word in
  Z.lxor x (Z.shiftr x 29).

(** ** Intern mode *)
Record btm_intern_ent := mk_intern_ent { ie_ra : Z; ie_id : Z }.
#[export] Instance btm_intern_ent_inhabited : Inhabited btm_intern_ent := populate (mk_intern_ent 0 0).

(** The shared table, its capacity (a power of two) and the next id. *)
Record intern_state := mk_intern {
  intern_tbl : list btm_intern_ent;
  intern_next : Z;
}.
Definition intern_cap (s : intern_state) : Z := Z.of_nat (length (intern_tbl s)).

Definition intern_hash (key : Z) : Z := (Z.shiftr key 4 *% 0x9E3779B97F4A7C15)%word.

Definition intern_start (cap key : Z) : Z := Z.land (u32 (Z.shiftr (intern_hash key) 40)) (cap - 1).

Definition intern_at (s : intern_state) (i : Z) : btm_intern_ent := intern_tbl s !!! Z.to_nat i.

(** Claim the empty slot [i]: the critical section of the source. *)
Definition intern_claim (s : intern_state) (i key : Z) : intern_state :=
  mk_intern (<[Z.to_nat i := mk_intern_ent key (intern_next s)]> (intern_tbl s)) (u32 (intern_next s + 1)).

(** Where a thread stands in [btm_intern_slow]: about to load slot [i] at its probe
    number; about to take the lock after it saw the slot empty; or done with an id, or
    with the hash fallback of a full table. *)
Inductive intern_pc :=
| IProbe (probe i : Z)
| ILock (probe i : Z)
| IDone (id : Z)
| IFull.

Definition intern_advance (cap probe i : Z) : intern_pc :=
  if probe + 1 <? cap then IProbe (probe + 1) (Z.land (i + 1) (cap - 1)) else IFull.

(** One atomic action of a thread: the acquire load of a slot, or the locked section
    (with the compare that follows it, on the value read under the lock). *)
Definition intern_step (s : intern_state) (key : Z) (pc : intern_pc) : intern_state * intern_pc :=
  let cap := intern_cap s in
  match pc with
  | IProbe probe i =>
      let e := intern_at s i in
      if ie_ra e =? key then (s, IDone (ie_id e))
      else if ie_ra e =? 0 then (s, ILock probe i)
      else (s, intern_advance cap probe i)
  | ILock probe i =>
      let e := intern_at s i in
      if ie_ra e =? 0 then (intern_claim s i key, IDone (intern_next s))
      else if ie_ra e =? key then (s, IDone (ie_id e))
      else (s, intern_advance cap probe i)
  | IDone id => (s, IDone id)
  | IFull => (s, IFull)
  end.

Definition intern_entry (s : intern_state) (key : Z) : intern_pc :=
  if 0 <? intern_cap s then IProbe 0 (intern_start (intern_cap s) key) else IFull.

(** Run one thread alone to its end. *)
Fixpoint intern_run (fuel : nat) (s : intern_state) (key : Z) (pc : intern_pc) : intern_state * intern_pc :=
  match fuel with
  | O => (s, pc)
  | S fuel' => let '(s', pc') := intern_step s key pc in intern_run fuel' s' key pc'
  end.

(** The partition a thread takes from its final state. *)
Definition intern_partition (nparts key : Z) (pc : intern_pc) : option Z :=
  match pc with
  | IDone id => Some (Z.land id (nparts - 1))
  | IFull => Some (Z.land (u32 (Z.shiftr (intern_hash key) 40)) (nparts - 1))
  | _ => None
  end.

(** The per-thread one-entry cache in front of the table. *)
Record intern_tls := mk_intern_tls { btm_tls_intern_ra : Z; btm_tls_intern_part : Z }.

Definition btm_intern_slow (nparts : Z) (s : intern_state) (ra : Z)
    : option (Z * intern_state * intern_tls) :=
  let '(s', pc) := intern_run (2 * length (intern_tbl s)) s ra (intern_entry s ra) in
  part ← intern_partition nparts ra pc;
  Some (part, s', mk_intern_tls ra part).

Definition btm_partition_of (intern_mode : bool) (nparts : Z) (s : intern_state) (t : intern_tls) (ra : Z)
    : option (Z * intern_state * intern_tls) :=
  if intern_mode then
    if ra =? btm_tls_intern_ra t then Some (btm_tls_intern_part t, s, t)
    else btm_intern_slow nparts s ra
  else Some (Z.land (u32 (btm_hash_ra ra)) (nparts - 1), s, t).

(** Capacity chosen by [btm_do_init] for [np] partitions. *)
Definition intern_init (fuel : nat) (np : Z) : option intern_state :=
  cap ← np_loop fuel (u32 (np * 8)) 1;
  let cap := if cap <? 1024 then 1024 else cap in
  Some (mk_intern (replicate (Z.to_nat cap) (mk_intern_ent 0 0)) 0).

(** ** The loop that rounds up to a power of two *)
Lemma np_loop_step fuel p np :
  np < p → np_loop (S fuel) p np = np_loop fuel p (u32 (np * 2)).
Proof. intros H. cbn [np_loop]. by rewrite (proj2 (Z.ltb_lt _ _) H). Qed.

Lemma np_loop_stop fuel p np : p ≤ np → np_loop fuel p np = Some np.
Proof. intros H. destruct fuel; cbn [np_loop]; by rewrite (proj2 (Z.ltb_ge _ _) H). Qed.

(** The least power of two above [p] is [2 ^ j]. *)
Definition pow2_above (p j : Z) : Prop := 0 ≤ j ∧ p ≤ 2 ^ j ∧ (j = 0 ∨ 2 ^ (j - 1) < p).

Lemma np_loop_spec fuel p k :
  1 ≤ p ≤ 2 ^ 31 → 0 ≤ k ≤ 31 → 31 - k ≤ Z.of_nat fuel → (k = 0 ∨ 2 ^ (k - 1) < p) →
  ∃ j, np_loop fuel p (2 ^ k) = Some (2 ^ j) ∧ j ≤ 31 ∧ pow2_above p j.
Proof.
  intros Hp. revert k. induction fuel as [|fuel IH]; intros k Hk Hf Hprev.
  { assert (k = 31) as -> by lia. exists 31. rewrite np_loop_stop by lia. split_and!; [done|lia|]. split_and!; [lia..|].
    by destruct Hprev; [lia|right]. }
  destruct (decide (p ≤ 2 ^ k)) as [Hle|Hgt].
  { exists k. rewrite np_loop_stop by done. split_and!; [done|lia|]. by split_and!; [lia| |]. }
  assert (k < 31) by (destruct (decide (k = 31)) as [->|]; lia).
  rewrite np_loop_step by lia.
  replace (2 ^ k * 2) with (2 ^ (k + 1)) by (rewrite Z.pow_add_r by lia; lia).
  assert (2 ^ (k + 1) ≤ 2 ^ 31) by (apply Z.pow_le_mono_r; lia).
  assert (0 < 2 ^ (k + 1)) by (apply Z.pow_pos_nonneg; lia).
  rewrite u32_small by lia. apply IH; [lia..|]. right. by replace (k + 1 - 1) with k by lia; lia.
Qed.

(** The cap at 4096 partitions leaves a power of two. *)
Lemma nparts_cap p j :
  pow2_above p j → ∃ j', 0 ≤ j' ≤ 12 ∧ (if 4096 <? 2 ^ j then 4096 else 2 ^ j) = 2 ^ j' ∧ (p ≤ 4096 → j' = j).
Proof.
  intros (Hj0 & Hle & Hlt). destruct (Z.ltb_spec 4096 (2 ^ j)).
  - exists 12. split_and!; [lia..|done|]. intros Hp4. exfalso.
    destruct (decide (j ≤ 12)) as [Hj12|Hj12]; [assert (2 ^ j ≤ 2 ^ 12) by (apply Z.pow_le_mono_r; lia); lia|].
    assert (2 ^ 12 ≤ 2 ^ (j - 1)) by (apply Z.pow_le_mono_r; lia). lia.
  - exists j. split_and!; [lia| |done|done].
    destruct (decide (j ≤ 12)); [lia|]. assert (2 ^ 13 ≤ 2 ^ j) by (apply Z.pow_le_mono_r; lia). lia.
Qed.

(** What both loops of initialization need of the request. *)
Definition request_ok (env : option Z) : Prop := match env with Some v => u32 v ≤ 2 ^ 31 ∧ (1 ≤ v → 1 ≤ u32 v) | None => True end.

Lemma nparts_run env : request_ok env → ∃ j, 0 ≤ j ≤ 12 ∧ read_nparts_env 31 env = Some (2 ^ j).
Proof.
  intros Hv. set (p := match env with Some v => if 1 <=? v then u32 v else 64 | None => 64 end).
  assert (Hp : 1 ≤ p ≤ 2 ^ 31). { subst p. destruct env as [v|]; [|lia]. cbn in Hv. destruct (Z.leb_spec 1 v); lia. }
  destruct (np_loop_spec 31 p 0 Hp) as (j & E & Hj & Ha); [lia..|by left|].
  destruct (nparts_cap p j Ha) as (j' & Hj' & Ecap & _). exists j'. split; [done|].
  unfold read_nparts_env. change (2 ^ 0) with 1 in E. fold p. rewrite E. cbn. by rewrite Ecap.
Qed.

(** With one partition and no interning every call site is in partition 0: a build without
    partitioning behaves as a process with BTM_PARTITIONS=1. *)
Lemma one_partition s t ra : read_nparts_env 31 (Some 1) = Some 1 ∧ btm_partition_of false 1 s t ra = Some (0, s, t).
Proof. split; [by vm_compute|]. unfold btm_partition_of. change (1 - 1) with 0. by rewrite Z.land_0_r. Qed.

(** The interning table of [2 ^ j] partitions. *)
Lemma intern_init_run j : 0 ≤ j ≤ 12 → ∃ k, 0 ≤ k ≤ 24 ∧ intern_init 31 (2 ^ j) = Some (mk_intern (replicate (Z.to_nat (2 ^ k)) (mk_intern_ent 0 0)) 0).
Proof.
  intros Hj. assert (E8 : 2 ^ j * 8 = 2 ^ (j + 3)) by (rewrite Z.pow_add_r by lia; lia).
  assert (H : 1 ≤ 2 ^ (j + 3) ≤ 2 ^ 15) by (split; [apply (Z.pow_le_mono_r 2 0)|apply Z.pow_le_mono_r]; lia).
  destruct (np_loop_spec 31 (2 ^ (j + 3)) 0) as (i & E & Hi & Hi0 & Hle & Hlt); [lia..|by left|].
  assert (Hi15 : i ≤ 15).
  { destruct Hlt as [->|Hlt]; [lia|]. destruct (decide (i ≤ 15)) as [|Hn]; [done|]. assert (2 ^ 15 ≤ 2 ^ (i - 1)) by (apply Z.pow_le_mono_r; lia). lia. }
  unfold intern_init. rewrite E8, u32_small by lia. change (2 ^ 0) with 1 in E. rewrite E. cbn.
  destruct (2 ^ i <? 1024); [exists 10|exists i]; (split; [lia|done]).
Qed.

Lemma np_loop_diverges fuel p np :
  2 ^ 31 < p → np = 0 ∨ (∃ k, 0 ≤ k ≤ 31 ∧ np = 2 ^ k) → np_loop fuel p np = None.
Proof.
  intros Hp. revert np. induction fuel as [|fuel IH]; intros np Hnp.
  - assert (np < p).
    { destruct Hnp as [->|(k & Hk & ->)]; [lia|]. assert (2 ^ k ≤ 2 ^ 31) by (apply Z.pow_le_mono_r; lia). lia. }
    cbn [np_loop]. by rewrite (proj2 (Z.ltb_lt _ _)).
  - assert (np < p).
    { destruct Hnp as [->|(k & Hk & ->)]; [lia|]. assert (2 ^ k ≤ 2 ^ 31) by (apply Z.pow_le_mono_r; lia). lia. }
    rewrite np_loop_step by done. apply IH. destruct Hnp as [->|(k & Hk & ->)]; [by left|].
    destruct (decide (k = 31)) as [->|]; [by left|]. right. exists (k + 1). split; [lia|].
    replace (2 ^ k * 2) with (2 ^ (k + 1)) by (rewrite Z.pow_add_r by lia; lia).
    assert (2 ^ (k + 1) ≤ 2 ^ 31) by (apply Z.pow_le_mono_r; lia).
    apply u32_small. split; [apply Z.pow_nonneg; lia|lia].
Qed.

(** ** Linear probing *)
Section intern.

(** The capacity is a power of two. *)
Definition cap_ok (s : intern_state) : Prop := ∃ k, 0 ≤ k ≤ 24 ∧ intern_cap s = 2 ^ k.

(** The slot a key visits at probe number [q]. *)
Definition probe_slot (s : intern_state) (key q : Z) : Z :=
  (intern_start (intern_cap s) key + q) mod intern_cap s.

Definition claimed (s : intern_state) (i : Z) : Prop := ie_ra (intern_at s i) ≠ 0.
#[export] Instance claimed_dec s i : Decision (claimed s i).
Proof. unfold claimed. apply _. Defined.

(** The first [n] slots on the path of [key] are taken by other call sites. *)
Definition passed (s : intern_state) (key n : Z) : Prop :=
  ∀ q, 0 ≤ q < n → claimed s (probe_slot s key q) ∧ ie_ra (intern_at s (probe_slot s key q)) ≠ key.

Record intern_inv (s : intern_state) : Prop := {
  inv_cap : cap_ok s;
  inv_next : intern_next s = Z.of_nat (length (filter (λ e, ie_ra e ≠ 0) (intern_tbl s)));
  inv_id i : 0 ≤ i < intern_cap s → claimed s i → 0 ≤ ie_id (intern_at s i) < intern_next s;
  inv_id_inj i j : 0 ≤ i < intern_cap s → 0 ≤ j < intern_cap s → claimed s i → claimed s j →
    ie_id (intern_at s i) = ie_id (intern_at s j) → i = j;
  inv_chain i : 0 ≤ i < intern_cap s → claimed s i →
    let key := ie_ra (intern_at s i) in
    ∃ p, 0 ≤ p < intern_cap s ∧ i = probe_slot s key p ∧ passed s key p;
}.

(** What a thread looking for [key] knows at each point. *)
Definition pc_inv (s : intern_state) (key : Z) (pc : intern_pc) : Prop :=
  match pc with
  | IProbe probe i | ILock probe i =>
      0 ≤ probe < intern_cap s ∧ i = probe_slot s key probe ∧ passed s key probe
  | IDone id => ∃ i, 0 ≤ i < intern_cap s ∧ ie_ra (intern_at s i) = key ∧ ie_id (intern_at s i) = id
  | IFull => passed s key (intern_cap s)
  end.

(** Slots are claimed once and never change again. *)
Definition grows (s s' : intern_state) : Prop :=
  length (intern_tbl s') = length (intern_tbl s) ∧ intern_next s ≤ intern_next s' ∧
  ∀ i, 0 ≤ i < intern_cap s → claimed s i → intern_at s' i = intern_at s i.

#[export] Instance grows_preorder : PreOrder grows.
Proof.
  split.
  - intros s. split_and!; [done|lia|done].
  - intros s1 s2 s3 (L1 & N1 & G1) (L2 & N2 & G2). split_and!; [congruence|lia|].
    intros i Hi Hc. rewrite G2; [by apply G1|unfold intern_cap in *; lia|].
    unfold claimed. by rewrite G1.
Qed.

Lemma cap_pos s : cap_ok s → 0 < intern_cap s ≤ 2 ^ 24.
Proof.
  intros (k & Hk & ->). split; [apply Z.pow_pos_nonneg; lia|apply Z.pow_le_mono_r; lia].
Qed.

Lemma probe_slot_range s key q : cap_ok s → 0 ≤ probe_slot s key q < intern_cap s.
Proof. intros H%cap_pos. apply Z.mod_pos_bound. lia. Qed.

Lemma probe_slot_0 s key : cap_ok s → probe_slot s key 0 = intern_start (intern_cap s) key.
Proof.
  intros H. destruct H as (k & Hk & Ek). unfold probe_slot. rewrite Z.add_0_r.
  unfold intern_start. rewrite Ek, land_mask by lia. apply Z.mod_mod. apply Z.pow_nonzero; lia.
Qed.

Lemma probe_slot_succ s key q :
  cap_ok s → Z.land (probe_slot s key q + 1) (intern_cap s - 1) = probe_slot s key (q + 1).
Proof.
  intros H. pose proof (cap_pos s H). destruct H as (k & Hk & Ek).
  unfold probe_slot. rewrite Ek in *. rewrite land_mask by lia.
  rewrite Zplus_mod_idemp_l. f_equal. lia.
Qed.

(** Over a whole turn the path of a key visits every slot, each once. *)
Lemma probe_slot_inj s key q1 q2 :
  cap_ok s → 0 ≤ q1 < intern_cap s → 0 ≤ q2 < intern_cap s →
  probe_slot s key q1 = probe_slot s key q2 → q1 = q2.
Proof.
  intros Hc H1 H2 E. pose proof (cap_pos s Hc). unfold probe_slot in E.
  set (a := intern_start _ _) in *. set (c := intern_cap s) in *.
  assert (((a + q1) - (a + q2)) mod c = 0) as Hd by (rewrite Zminus_mod, E, Z.sub_diag; apply Z.mod_0_l; lia).
  replace (a + q1 - (a + q2)) with (q1 - q2) in Hd by lia.
  apply Z.mod_divide in Hd as [z Hz]; [|lia].
  assert (-1 < z < 1) by (split; apply (Z.mul_lt_mono_pos_r c); lia).
  assert (z = 0) as -> by lia. lia.
Qed.

Lemma probe_slot_onto s key i :
  cap_ok s → 0 ≤ i < intern_cap s → ∃ q, 0 ≤ q < intern_cap s ∧ i = probe_slot s key q.
Proof.
  intros Hc Hi. pose proof (cap_pos s Hc). set (a := intern_start (intern_cap s) key).
  exists ((i - a) mod intern_cap s). split; [apply Z.mod_pos_bound; lia|].
  unfold probe_slot. fold a. rewrite Zplus_mod_idemp_r.
  replace (a + (i - a)) with i by lia. symmetry. apply Z.mod_small. lia.
Qed.

(** Two claimed slots with the same call site are one slot. *)
Lemma intern_key_inj s i j :
  intern_inv s → 0 ≤ i < intern_cap s → 0 ≤ j < intern_cap s → claimed s i →
  ie_ra (intern_at s i) = ie_ra (intern_at s j) → i = j.
Proof.
  intros Hs Hi Hj Ci E. assert (Cj : claimed s j) by (unfold claimed; congruence).
  destruct (inv_chain s Hs i Hi Ci) as (p & Hp & Ei & Pp).
  destruct (inv_chain s Hs j Hj Cj) as (q & Hq & Ej & Pq).
  rewrite <-E in Ej, Pq. destruct (Z.lt_trichotomy p q) as [Hlt|[Heq|Hlt]].
  - destruct (Pq p) as [_ Hne]; [lia|]. by rewrite <-Ei in Hne.
  - congruence.
  - destruct (Pp q) as [_ Hne]; [lia|]. by rewrite <-Ej, <-E in Hne.
Qed.

Lemma grows_cap s s' : grows s s' → intern_cap s' = intern_cap s.
Proof. intros (L & _ & _). unfold intern_cap. by rewrite L. Qed.

Lemma grows_probe_slot s s' key q : grows s s' → probe_slot s' key q = probe_slot s key q.
Proof. intros G. unfold probe_slot. by rewrite (grows_cap s s' G). Qed.

Lemma grows_passed s s' key n : cap_ok s → grows s s' → passed s key n → passed s' key n.
Proof.
  intros Hc G P q Hq. destruct (P q Hq) as [Cq Nq]. rewrite (grows_probe_slot s s') by done.
  pose proof (probe_slot_range s key q Hc) as Hr. destruct G as (_ & _ & G).
  unfold claimed. by rewrite G.
Qed.

(** What a thread knows stays true when other threads claim slots. *)
Lemma grows_pc_inv s s' key pc : cap_ok s → key ≠ 0 → grows s s' → pc_inv s key pc → pc_inv s' key pc.
Proof.
  intros Hc Hk G. pose proof (grows_cap s s' G) as Ecap.
  destruct pc as [p i|p i|id|]; simpl; rewrite ?Ecap.
  - intros (? & -> & ?). split_and!; [lia..| |by apply (grows_passed s)]. by rewrite (grows_probe_slot s s').
  - intros (? & -> & ?). split_and!; [lia..| |by apply (grows_passed s)]. by rewrite (grows_probe_slot s s').
  - intros (i & Hi & E1 & E2). exists i. destruct G as (_ & _ & G).
    rewrite G; [done|done|]. unfold claimed. congruence.
  - by apply (grows_passed s).
Qed.

(** ** Claiming a slot *)
Lemma intern_at_claim s i j key :
  0 ≤ i < intern_cap s → 0 ≤ j < intern_cap s →
  intern_at (intern_claim s i key) j = if decide (j = i) then mk_intern_ent key (intern_next s) else intern_at s j.
Proof.
  intros Hi Hj. unfold intern_at, intern_claim, intern_cap in *. cbn [intern_tbl].
  rewrite !list_lookup_total_alt. destruct (decide (j = i)) as [->|Hne].
  - by rewrite list_lookup_insert_eq by lia.
  - by rewrite list_lookup_insert_ne by lia.
Qed.

Lemma claim_count (P : btm_intern_ent → Prop) `{!∀ e, Decision (P e)} (l : list btm_intern_ent) i e e' :
  l !! i = Some e → ¬ P e → P e' → length (filter P (<[i := e']> l)) = S (length (filter P l)).
Proof.
  intros Hi He He'. revert i Hi. induction l as [|x l IH]; intros [|i] Hi; simplify_eq/=.
  - rewrite !filter_cons. by rewrite decide_True, decide_False by done.
  - rewrite !filter_cons. case_decide; simpl; by rewrite IH.
Qed.

Lemma claim_next_bound s : intern_inv s → 0 ≤ intern_next s ≤ intern_cap s.
Proof.
  intros Hs. rewrite (inv_next s Hs). unfold intern_cap.
  pose proof (length_filter (λ e, ie_ra e ≠ 0) (intern_tbl s)). lia.
Qed.

Lemma claim_next s i key :
  intern_inv s → key ≠ 0 → 0 ≤ i < intern_cap s → ¬ claimed s i →
  intern_next (intern_claim s i key) = intern_next s + 1 ∧
  intern_next (intern_claim s i key) =
    Z.of_nat (length (filter (λ e, ie_ra e ≠ 0) (intern_tbl (intern_claim s i key)))).
Proof.
  intros Hs Hk Hi Hc. pose proof (claim_next_bound s Hs). pose proof (cap_pos s (inv_cap s Hs)).
  cbn [intern_claim intern_next intern_tbl]. rewrite u32_small by lia. split; [done|].
  rewrite (claim_count _ _ _ (intern_at s i)); [|..|done].
  - rewrite (inv_next s Hs). lia.
  - apply list_lookup_lookup_total_lt. unfold intern_cap in Hi. lia.
  - intros E. by apply Hc.
Qed.

Lemma claim_grows s i key :
  intern_inv s → key ≠ 0 → 0 ≤ i < intern_cap s → ¬ claimed s i → grows s (intern_claim s i key).
Proof.
  intros Hs Hk Hi Hc. split_and!.
  - cbn [intern_claim intern_tbl]. by rewrite length_insert.
  - destruct (claim_next s i key Hs Hk Hi Hc). lia.
  - intros j Hj Cj. rewrite intern_at_claim by done. case_decide; [by subst|done].
Qed.

Lemma claim_inv s key p :
  intern_inv s → key ≠ 0 → 0 ≤ p < intern_cap s → passed s key p →
  ¬ claimed s (probe_slot s key p) → intern_inv (intern_claim s (probe_slot s key p) key).
Proof.
  intros Hs Hk Hp Hpass Hfree. set (i := probe_slot s key p). set (s' := intern_claim s i key).
  assert (Hc : cap_ok s) by apply Hs. assert (Hi : 0 ≤ i < intern_cap s) by by apply probe_slot_range.
  assert (G : grows s s') by by apply claim_grows. pose proof (grows_cap s s' G) as Ecap.
  destruct (claim_next s i key Hs Hk Hi Hfree) as [N1 N2]. fold s' in N1, N2.
  assert (At : ∀ j, 0 ≤ j < intern_cap s → intern_at s' j =
    if decide (j = i) then mk_intern_ent key (intern_next s) else intern_at s j) by (intros; by apply intern_at_claim).
  assert (Cl : ∀ j, 0 ≤ j < intern_cap s → claimed s' j → j ≠ i → claimed s j).
  { intros j Hj Cj Hne. unfold claimed in *. by rewrite At, decide_False in Cj. }
  pose proof (claim_next_bound s Hs) as NB.
  split; rewrite ?Ecap.
  - unfold cap_ok. by rewrite Ecap.
  - done.
  - intros j Hj Cj. rewrite At by done. destruct (decide (j = i)) as [->|Hne]; cbn [ie_id]; [lia|].
    pose proof (inv_id s Hs j Hj (Cl j Hj Cj Hne)). lia.
  - intros j1 j2 H1 H2 C1 C2. rewrite !At by done.
    destruct (decide (j1 = i)) as [->|Hne1], (decide (j2 = i)) as [->|Hne2]; cbn [ie_id]; [done|..].
    + pose proof (inv_id s Hs j2 H2 (Cl j2 H2 C2 Hne2)). lia.
    + pose proof (inv_id s Hs j1 H1 (Cl j1 H1 C1 Hne1)). lia.
    + apply (inv_id_inj s Hs); auto.
  - intros j Hj Cj. rewrite At by done. destruct (decide (j = i)) as [->|Hne]; cbn [ie_ra].
    + exists p. split; [done|]. rewrite (grows_probe_slot s s') by done. split; [done|by apply (grows_passed s)].
    + destruct (inv_chain s Hs j Hj (Cl j Hj Cj Hne)) as (q & Hq & Ej & Pq). exists q. split; [done|].
      rewrite (grows_probe_slot s s') by done. split; [done|by apply (grows_passed s)].
Qed.

(** ** One step of a thread *)
Lemma advance_inv s key p :
  cap_ok s → 0 ≤ p < intern_cap s → passed s key p →
  claimed s (probe_slot s key p) → ie_ra (intern_at s (probe_slot s key p)) ≠ key →
  pc_inv s key (intern_advance (intern_cap s) p (probe_slot s key p)).
Proof.
  intros Hc Hp P C N. assert (P' : passed s key (p + 1)).
  { intros q Hq. destruct (decide (q = p)) as [->|]; [done|apply P; lia]. }
  unfold intern_advance. destruct (Z.ltb_spec (p + 1) (intern_cap s)); simpl.
  - split_and!; [lia..| |done]. by apply probe_slot_succ.
  - by replace (intern_cap s) with (p + 1) by lia.
Qed.

Lemma step_inv s key pc s' pc' :
  intern_inv s → key ≠ 0 → pc_inv s key pc → intern_step s key pc = (s', pc') →
  intern_inv s' ∧ grows s s' ∧ pc_inv s' key pc'.
Proof.
  intros Hs Hk Hpc. assert (Hc : cap_ok s) by apply Hs.
  destruct pc as [p i|p i|id|]; cbn [intern_step]; [..|by intros [= <- <-]|by intros [= <- <-]].
  - destruct Hpc as (Hp & -> & P). set (i := probe_slot s key p).
    destruct (Z.eqb_spec (ie_ra (intern_at s i)) key) as [E|N].
    { intros [= <- <-]. split_and!; [done..|]. exists i. split; [by apply probe_slot_range|done]. }
    destruct (Z.eqb_spec (ie_ra (intern_at s i)) 0) as [E0|N0]; intros [= <- <-].
    + by split_and!; [done..|]; split_and!; [lia..|done|].
    + by split_and!; [done..|]; apply advance_inv.
  - destruct Hpc as (Hp & -> & P). set (i := probe_slot s key p).
    assert (Hi : 0 ≤ i < intern_cap s) by by apply probe_slot_range.
    destruct (Z.eqb_spec (ie_ra (intern_at s i)) 0) as [E0|N0].
    { intros [= <- <-]. assert (¬ claimed s i) by by intros C; apply C.
      split_and!; [by apply claim_inv|by apply claim_grows|]. exists i.
      rewrite (grows_cap s), intern_at_claim, decide_True by (try done; by apply claim_grows). done. }
    destruct (Z.eqb_spec (ie_ra (intern_at s i)) key) as [E|N]; intros [= <- <-].
    + split_and!; [done..|]. by exists i.
    + by split_and!; [done..|]; apply advance_inv.
Qed.

Lemma entry_inv s key : cap_ok s → pc_inv s key (intern_entry s key).
Proof.
  intros Hc. pose proof (cap_pos s Hc). unfold intern_entry.
  destruct (Z.ltb_spec 0 (intern_cap s)); [|lia]. split_and!; [lia..| |].
  - by rewrite probe_slot_0.
  - intros q Hq. lia.
Qed.

End intern.

(** ** A thread that runs alone finishes *)
Definition pc_measure (cap : Z) (pc : intern_pc) : Z :=
  match pc with
  | IProbe p _ => 2 * (cap - p)
  | ILock p _ => 2 * (cap - p) - 1
  | _ => 0
  end.

Definition pc_final (pc : intern_pc) : Prop :=
  match pc with IDone _ | IFull => True | _ => False end.

Lemma step_measure s key pc s' pc' :
  pc_inv s key pc → intern_step s key pc = (s', pc') → pc_final pc' ∨ pc_measure (intern_cap s) pc' < pc_measure (intern_cap s) pc.
Proof.
  assert (Ha : ∀ p i, pc_final (intern_advance (intern_cap s) p i) ∨
    pc_measure (intern_cap s) (intern_advance (intern_cap s) p i) ≤ 2 * (intern_cap s - p) - 2).
  { intros p i. unfold intern_advance. destruct (_ <? _); [right; simpl; lia|by left]. }
  destruct pc as [p i|p i|id|]; cbn [intern_step pc_inv]; [..|by intros _ [= <- <-]; left|by intros _ [= <- <-]; left].
  - intros _. destruct (ie_ra _ =? key); [intros [= <- <-]; by left|].
    destruct (ie_ra _ =? 0); intros [= <- <-]; [right; simpl; lia|].
    destruct (Ha p i); [by left|right; simpl in *; lia].
  - intros _. destruct (ie_ra _ =? 0); [intros [= <- <-]; by left|].
    destruct (ie_ra _ =? key); intros [= <- <-]; [by left|].
    destruct (Ha p i); [by left|right; simpl in *; lia].
Qed.

Lemma run_final fuel s key pc :
  pc_final pc → intern_run fuel s key pc = (s, pc).
Proof. induction fuel; [done|]. by destruct pc. Qed.

Lemma intern_run_ends fuel s key pc :
  intern_inv s → key ≠ 0 → pc_inv s key pc → pc_measure (intern_cap s) pc ≤ Z.of_nat fuel →
  ∃ s' pc', intern_run fuel s key pc = (s', pc') ∧ pc_final pc' ∧ intern_inv s' ∧ grows s s' ∧ pc_inv s' key pc'.
Proof.
  revert s pc. induction fuel as [|fuel IH]; intros s pc Hs Hk Hpc Hm.
  - exists s, pc. split; [done|]. split_and!; [|done..]. destruct pc; simpl in *; [lia..|done|done].
  - cbn [intern_run]. destruct (intern_step s key pc) as [s1 pc1] eqn:E.
    destruct (step_inv s key pc s1 pc1 Hs Hk Hpc E) as (Hs1 & G1 & Hpc1).
    destruct (step_measure s key pc s1 pc1 Hpc E) as [Hfin|Hlt].
    + rewrite run_final by done. by exists s1, pc1.
    + destruct (IH s1 pc1) as (s2 & pc2 & R & F & I2 & G2 & P2); [done..| |].
      { rewrite (grows_cap s s1 G1). lia. }
      exists s2, pc2. split_and!; [done..|by etrans|done].
Qed.

(** All threads that finish with one call site agree on the outcome. *)
Lemma final_agree s key pc1 pc2 :
  intern_inv s → key ≠ 0 → pc_inv s key pc1 → pc_inv s key pc2 → pc_final pc1 → pc_final pc2 → pc1 = pc2.
Proof.
  intros Hs Hk H1 H2 F1 F2.
  assert (Hex : ∀ id, pc_inv s key (IDone id) → passed s key (intern_cap s) → False).
  { intros id (i & Hi & E & _) P. destruct (probe_slot_onto s key i (inv_cap s Hs) Hi) as (q & Hq & ->).
    by destruct (P q Hq). }
  destruct pc1 as [| |id1|], pc2 as [| |id2|]; simpl in F1, F2; try done; [|by destruct (Hex id1)|by destruct (Hex id2)].
  destruct H1 as (i & Hi & E1 & <-), H2 as (j & Hj & E2 & <-).
  rewrite (intern_key_inj s i j); [done|done..| |congruence]. unfold claimed. congruence.
Qed.

Lemma intern_partition_range np key pc part :
  0 ≤ np → intern_partition (2 ^ np) key pc = Some part → 0 ≤ part < 2 ^ np.
Proof.
  intros Hnp. pose proof (Z.pow_pos_nonneg 2 np). destruct pc; simpl; [done|done|..];
    rewrite land_mask by lia; intros [= <-]; apply Z.mod_pos_bound; lia.
Qed.

Lemma intern_slow_run np s ra :
  intern_inv s → ra ≠ 0 →
  ∃ s' pc part, btm_intern_slow np s ra = Some (part, s', mk_intern_tls ra part) ∧
    intern_partition np ra pc = Some part ∧ pc_final pc ∧ intern_inv s' ∧ grows s s' ∧ pc_inv s' ra pc.
Proof.
  intros Hs Hra. destruct (intern_run_ends (2 * length (intern_tbl s)) s ra (intern_entry s ra))
    as (s' & pc & R & F & Hs' & G & P); [done..|by apply entry_inv, Hs| |].
  { unfold intern_entry, intern_cap. destruct (_ <? _); simpl; lia. }
  unfold btm_intern_slow. rewrite R. exists s', pc.
  destruct (intern_partition np ra pc) as [part|] eqn:Ep; [by exists part|by destruct pc].
Qed.

(** ** Many threads *)
Inductive sys_step : intern_state * list (Z * intern_pc) → intern_state * list (Z * intern_pc) → Prop :=
| sys_step_thread s ths n key pc s' pc' :
    ths !! n = Some (key, pc) → intern_step s key pc = (s', pc') →
    sys_step (s, ths) (s', <[n := (key, pc')]> ths).

(** A schedule names the thread of each action; running it is an interleaving. *)
Definition sys_exec1 (c : intern_state * list (Z * intern_pc)) (n : nat) : intern_state * list (Z * intern_pc) :=
  match c.2 !! n with
  | Some (key, pc) => let '(s', pc') := intern_step c.1 key pc in (s', <[n := (key, pc')]> c.2)
  | None => c
  end.

Lemma sys_exec_reach sched c : rtc sys_step c (foldl sys_exec1 c sched).
Proof.
  revert c. induction sched as [|n sched IH]; intros c; cbn [foldl]; [apply rtc_refl|].
  etrans; [|apply IH]. destruct c as [s ths]. unfold sys_exec1. simpl.
  destruct (ths !! n) as [[key pc]|] eqn:E; [|apply rtc_refl].
  destruct (intern_step s key pc) as [s' pc'] eqn:Es. apply rtc_once. by econstructor.
Qed.

Definition sys_inv (c : intern_state * list (Z * intern_pc)) : Prop :=
  intern_inv c.1 ∧ ∀ n key pc, c.2 !! n = Some (key, pc) → key ≠ 0 ∧ pc_inv c.1 key pc.

Lemma sys_step_inv c c' : sys_step c c' → sys_inv c → sys_inv c'.
Proof.
  intros Hst. destruct Hst as [s ths n key pc s' pc' Hn E]. intros [Hs Ht]. simpl in *.
  destruct (Ht n key pc Hn) as [Hk Hpc].
  destruct (step_inv s key pc s' pc' Hs Hk Hpc E) as (Hs' & G & Hpc').
  split; [done|]. simpl. intros m k p [(-> & [= <- <-] & _)|[_ Hm]]%list_lookup_insert_Some; [done|].
  destruct (Ht m k p Hm) as [Hk' Hp]. split; [done|]. apply (grows_pc_inv s); [by apply Hs|done..].
Qed.

Lemma sys_reach_inv c c' : rtc sys_step c c' → sys_inv c → sys_inv c'.
Proof. induction 1 as [|c1 c2 c3 Hst _ IH]; [done|]. intros H. by apply IH, (sys_step_inv c1). Qed.

Lemma intern_inv_empty k :
  0 ≤ k ≤ 24 → intern_inv (mk_intern (replicate (Z.to_nat (2 ^ k)) (mk_intern_ent 0 0)) 0).
Proof.
  intros Hk. set (s := mk_intern _ _).
  assert (Hcap : intern_cap s = 2 ^ k).
  { unfold s, intern_cap. cbn [intern_tbl]. rewrite length_replicate. pose proof (Z.pow_nonneg 2 k). lia. }
  assert (Hno : ∀ i, 0 ≤ i < intern_cap s → ¬ claimed s i).
  { intros i Hi C. apply C. unfold intern_at, s. cbn [intern_tbl].
    rewrite lookup_total_replicate_2; [done|]. rewrite Hcap in Hi. lia. }
  split; [by exists k| |by intros i Hi ?; destruct (Hno i)|by intros i ? Hi ? ?; destruct (Hno i)|by intros i Hi ?; destruct (Hno i)].
  cbn [intern_next intern_tbl s]. generalize (Z.to_nat (2 ^ k)) as n. induction n as [|n IH]; [done|].
  cbn [replicate]. by rewrite filter_cons, decide_False by (simpl; lia).
Qed.

(** ** Properties *)

(** C37. The number of partitions is well formed whenever the environment asks for at
    most 2^31: thirty-one doublings are enough, the result is the least power of two
    that is large enough, capped at 4096. *)
Theorem read_nparts_env_pow2 env :
  request_ok env →
  let p := match env with Some v => if 1 <=? v then u32 v else 64 | None => 64 end in
  ∃ j, 0 ≤ j ≤ 12 ∧ read_nparts_env 31 env = Some (2 ^ j) ∧ (p ≤ 4096 → pow2_above p j).
Proof.
  intros Hv p. assert (Hp : 1 ≤ p ≤ 2 ^ 31).
  { subst p. destruct env as [v|]; [|lia]. cbn in Hv. destruct (Z.leb_spec 1 v); lia. }
  destruct (np_loop_spec 31 p 0 Hp) as (j & E & Hj & Ha); [lia..|by left|].
  destruct (nparts_cap p j Ha) as (j' & Hj' & Ecap & Hsame). exists j'. split; [done|]. split.
  - unfold read_nparts_env. change (2 ^ 0) with 1 in E. fold p. rewrite E. cbn. by rewrite Ecap.
  - intros Hp4. by rewrite Hsame.
Qed.

Lemma read_nparts_env_pow2_witness :
  ∃ j, 0 ≤ j ≤ 12 ∧ read_nparts_env 31 (Some 100) = Some (2 ^ j) ∧ (100 ≤ 4096 → pow2_above 100 j).
Proof. apply (read_nparts_env_pow2 (Some 100)). vm_compute. split; [|intros _]; discriminate. Defined.

(** C38. A request above 2^31 partitions never comes back: the doubling wraps to zero
    and the loop runs forever, so initialization hangs. *)
Theorem read_nparts_env_hangs v :
  1 ≤ v → 2 ^ 31 < u32 v → ∀ fuel, read_nparts_env fuel (Some v) = None.
Proof.
  intros Hv Hu fuel. unfold read_nparts_env. destruct (Z.leb_spec 1 v); [|lia].
  rewrite np_loop_diverges; [done|done|]. right. by exists 0.
Qed.

Lemma read_nparts_env_hangs_witness : read_nparts_env 1000 (Some 3000000000) = None.
Proof. apply read_nparts_env_hangs; vm_compute; [discriminate|reflexivity]. Defined.

(** C39. Interning under every interleaving of threads: two threads that finish have the
    same id exactly when they came from the same call site, and as long as no more ids
    were given out than there are partitions, distinct call sites have distinct
    partitions. *)
Theorem intern_ids_identify_call_sites k np keys s ths a b k1 k2 id1 id2 :
  0 ≤ k ≤ 24 → 0 ≤ np ≤ 31 → Forall (λ key, key ≠ 0) keys →
  let s0 := mk_intern (replicate (Z.to_nat (2 ^ k)) (mk_intern_ent 0 0)) 0 in
  rtc sys_step (s0, (λ key, (key, intern_entry s0 key)) <$> keys) (s, ths) →
  ths !! a = Some (k1, IDone id1) → ths !! b = Some (k2, IDone id2) →
  (id1 = id2 ↔ k1 = k2) ∧
  (intern_next s ≤ 2 ^ np →
   intern_partition (2 ^ np) k1 (IDone id1) = intern_partition (2 ^ np) k2 (IDone id2) ↔ k1 = k2).
Proof.
  intros Hk Hnp Hkeys s0 Hreach Ha Hb. pose proof (intern_inv_empty k Hk) as H0. fold s0 in H0.
  destruct (sys_reach_inv _ _ Hreach) as [Hs Ht].
  { split; [done|]. simpl. intros n key pc Hn. apply list_lookup_fmap_Some in Hn as (key' & [= -> ->] & Hn).
    rewrite Forall_lookup in Hkeys. split; [by eapply Hkeys|]. apply entry_inv, H0. }
  simpl in *. destruct (Ht a k1 _ Ha) as [N1 (i & Hi & <- & <-)]. destruct (Ht b k2 _ Hb) as [N2 (j & Hj & <- & <-)].
  assert (Hid : ie_id (intern_at s i) = ie_id (intern_at s j) ↔ ie_ra (intern_at s i) = ie_ra (intern_at s j)).
  { split; intros E.
    - by rewrite (inv_id_inj s Hs i j Hi Hj N1 N2 E).
    - by rewrite (intern_key_inj s i j Hs Hi Hj N1 E). }
  split; [done|]. intros Hnext. simpl. rewrite !land_mask by lia.
  pose proof (inv_id s Hs i Hi N1). pose proof (inv_id s Hs j Hj N2).
  rewrite !Z.mod_small by lia. rewrite <-Hid. split; [by intros [= ->]|by intros ->].
Qed.

Lemma intern_ids_identify_call_sites_witness :
  let s0 := mk_intern (replicate (Z.to_nat (2 ^ 3)) (mk_intern_ent 0 0)) 0 in
  let c := foldl sys_exec1 (s0, (λ key, (key, intern_entry s0 key)) <$> [64; 80]) [0; 1; 0; 1]%nat in
  c.2 !! 0%nat = Some (64, IDone 0) ∧ c.2 !! 1%nat = Some (80, IDone 1) ∧ (0 = 1 ↔ 64 = 80).
Proof.
  intros s0 c. split; [vm_compute; reflexivity|]. split; [vm_compute; reflexivity|].
  apply (intern_ids_identify_call_sites 3 6 [64; 80] c.1 c.2 0 1 64 80 0 1).
  - lia.
  - lia.
  - repeat constructor; lia.
  - replace (c.1, c.2) with c by (by destruct c). apply sys_exec_reach.
  - vm_compute. reflexivity.
  - vm_compute. reflexivity.
Defined.

(** A thread that runs alone always gets a partition, from any consistent table,
    within two actions per slot, and asking again for the same call site gives the same
    partition. *)
Theorem btm_intern_slow_total_stable np s ra :
  intern_inv s → ra ≠ 0 → 0 ≤ np ≤ 31 →
  ∃ part s' t', btm_intern_slow (2 ^ np) s ra = Some (part, s', t') ∧
    0 ≤ part < 2 ^ np ∧ intern_inv s' ∧ btm_tls_intern_part t' = part ∧
    ∃ s'' t'', btm_intern_slow (2 ^ np) s' ra = Some (part, s'', t'').
Proof.
  intros Hs Hra Hnp. destruct (intern_slow_run (2 ^ np) s ra Hs Hra) as (s' & pc & part & E & Ep & F & Hs' & G & P).
  exists part, s', (mk_intern_tls ra part). split; [done|]. split; [by apply (intern_partition_range np ra pc); [lia|]|]. split; [done|]. split; [done|].
  destruct (intern_slow_run (2 ^ np) s' ra Hs' Hra) as (s2 & pc2 & part2 & E2 & Ep2 & F2 & Hs2 & G2 & P2).
  assert (pc = pc2) as <-.
  { apply (final_agree s2 ra); [done..| |done|done|done]. apply (grows_pc_inv s'); [by apply Hs'|done..]. }
  rewrite Ep in Ep2. injection Ep2 as <-. eauto.
Qed.

Lemma btm_intern_slow_total_stable_witness :
  let s0 := mk_intern (replicate (Z.to_nat (2 ^ 3)) (mk_intern_ent 0 0)) 0 in
  ∃ part s' t', btm_intern_slow (2 ^ 6) s0 4198400 = Some (part, s', t') ∧
    0 ≤ part < 2 ^ 6 ∧ intern_inv s' ∧ btm_tls_intern_part t' = part ∧
    ∃ s'' t'', btm_intern_slow (2 ^ 6) s' 4198400 = Some (part, s'', t'').
Proof. intros s0. apply btm_intern_slow_total_stable; [by apply intern_inv_empty|lia..]. Defined.
