(* ===== verification/Os.v ===== *)
(** * Os: what the allocator assumes of the kernel's address space

    mmap, munmap and mremap are not code of the repository: they are the operations of
    the class [OS], whose laws [OSLaws] state their documented behaviour on page-aligned
    lengths.  [first_fit_os] is an instance, a first-fit address space, on which the
    model runs. *)

From stdpp Require Import prelude gmap.
From S2P Require Import Prelude.
Local Open Scope Z_scope.

(** [k_mapped k x]: the byte at [x] lies in a mapping of the process.  [k_mmap] chooses the
    place, [k_mmap_fixed] replaces what is mapped in the range it is given.
    [k_memfd_create] and [k_ftruncate] tell whether the memfd is created and resized,
    [k_fd_stack] whether [mmap] grants the stack of its free ranges. *)
Class OS : Type := {
  kstate : Type;
  k_mapped : kstate → Z → bool;
  k_mmap : kstate → Z → option Z * kstate;
  k_mmap_fixed : kstate → Z → Z → bool * kstate;
  k_munmap : kstate → Z → Z → kstate;
  k_mremap : kstate → Z → Z → Z → option Z * kstate;
  k_memfd_create : kstate → bool;
  k_ftruncate : kstate → Z → bool;
  k_fd_stack : kstate → Z → bool;
}.

Definition within (a len x : Z) : bool := (a <=? x) && (x <? a + len).

(** A placement the kernel may choose: page aligned, in user space, not the null page. *)
Definition placed (a len : Z) : Prop :=
  0 < a ∧ 0 < len ∧ a mod BTM_PAGE_SIZE = 0 ∧ a + len ≤ 2 ^ 47.

Class OSLaws (O : OS) : Prop := {
  mmap_some k len a k' :
    len mod BTM_PAGE_SIZE = 0 → k_mmap k len = (Some a, k') →
    placed a len ∧ (∀ x, within a len x = true → k_mapped k x = false) ∧
    ∀ x, k_mapped k' x = within a len x || k_mapped k x;
  mmap_none k len k' : k_mmap k len = (None, k') → ∀ x, k_mapped k' x = k_mapped k x;
  mmap_fixed_ok k a len k' :
    a mod BTM_PAGE_SIZE = 0 → len mod BTM_PAGE_SIZE = 0 → k_mmap_fixed k a len = (true, k') →
    ∀ x, k_mapped k' x = within a len x || k_mapped k x;
  mmap_fixed_fail k a len k' : k_mmap_fixed k a len = (false, k') → ∀ x, k_mapped k' x = k_mapped k x;
  munmap_mapped k a len :
    a mod BTM_PAGE_SIZE = 0 → len mod BTM_PAGE_SIZE = 0 →
    ∀ x, k_mapped (k_munmap k a len) x = negb (within a len x) && k_mapped k x;
  mremap_some k a olen nlen b k' :
    olen mod BTM_PAGE_SIZE = 0 → nlen mod BTM_PAGE_SIZE = 0 → k_mremap k a olen nlen = (Some b, k') →
    placed b nlen ∧
    (∀ x, within b nlen x = true → within a olen x = true ∨ k_mapped k x = false) ∧
    ∀ x, k_mapped k' x = within b nlen x || (negb (within a olen x) && k_mapped k x);
  mremap_none k a olen nlen k' :
    k_mremap k a olen nlen = (None, k') → ∀ x, k_mapped k' x = k_mapped k x;
  ftruncate_max k n : k_ftruncate k n = true → n < 2 ^ 63;
}.

Lemma within_spec a len x : within a len x = true ↔ a ≤ x < a + len.
Proof. unfold within. rewrite andb_true_iff, Z.leb_le, Z.ltb_lt. done. Qed.

Lemma within_false a len x : within a len x = false ↔ ¬ (a ≤ x < a + len).
Proof. rewrite <-within_spec. by destruct (within a len x). Qed.

(** ** A first-fit address space *)
Definition ff_base : Z := 4194304.

Definition ff_mapped (k : list (Z * Z)) (x : Z) : bool :=
  existsb (λ r : Z * Z, (r.1 <=? x) && (x <? r.2)) k.

Definition ff_free (k : list (Z * Z)) (a len : Z) : bool :=
  (0 <? a) && (a mod BTM_PAGE_SIZE =? 0) && (a + len <=? 2 ^ 47) &&
  forallb (λ r : Z * Z, (r.2 <=? a) || (a + len <=? r.1)) k.

(** The lowest free place among the base and the ends of the mapped ranges. *)
Definition ff_place (k : list (Z * Z)) (len : Z) : option Z :=
  foldr (λ a best, if ff_free k a len then
                     match best with Some b => Some (Z.min a b) | None => Some a end
                   else best) None (ff_base :: (snd <$> k)).

Definition ff_mmap (k : list (Z * Z)) (len : Z) : option Z * list (Z * Z) :=
  if 0 <? len then
    match ff_place k len with
    | Some a => (Some a, (a, a + len) :: k)
    | None => (None, k)
    end
  else (None, k).

Definition ff_munmap (k : list (Z * Z)) (a len : Z) : list (Z * Z) :=
  flat_map (λ r : Z * Z,
    (if r.1 <? Z.min r.2 a then [(r.1, Z.min r.2 a)] else []) ++
    (if Z.max r.1 (a + Z.max 0 len) <? r.2 then [(Z.max r.1 (a + Z.max 0 len), r.2)] else [])) k.

(** Grow or shrink in place when the pages after the mapping are free, else move. *)
Definition ff_mremap (k : list (Z * Z)) (a olen nlen : Z) : option Z * list (Z * Z) :=
  if 0 <? nlen then
    let k0 := ff_munmap k a olen in
    if ff_free k0 a nlen then (Some a, (a, a + nlen) :: k0)
    else match ff_place k nlen with
         | Some b => (Some b, (b, b + nlen) :: k0)
         | None => (None, k)
         end
  else (None, k).

Definition first_fit_os : OS := {|
  kstate := list (Z * Z);
  k_mapped := ff_mapped;
  k_mmap := ff_mmap;
  k_mmap_fixed := λ k a len, (true, (a, a + len) :: k);
  k_munmap := ff_munmap;
  k_mremap := ff_mremap;
  k_memfd_create _ := true;
  k_ftruncate _ n := n <? 2 ^ 63;
  k_fd_stack _ _ := true;
|}.

Lemma ff_free_spec k a len :
  ff_free k a len = true →
  0 < a ∧ a mod BTM_PAGE_SIZE = 0 ∧ a + len ≤ 2 ^ 47 ∧ ∀ x, within a len x = true → ff_mapped k x = false.
Proof.
  unfold ff_free. rewrite !andb_true_iff, Z.ltb_lt, Z.eqb_eq, Z.leb_le, forallb_forall.
  intros (((? & ?) & ?) & Hr). split_and!; [done..|]. intros x Hx%within_spec.
  apply not_true_is_false. unfold ff_mapped. rewrite existsb_exists. intros (r & Hin & Hb).
  specialize (Hr r Hin). rewrite andb_true_iff, Z.leb_le, Z.ltb_lt in Hb. rewrite orb_true_iff, !Z.leb_le in Hr. lia.
Qed.

Lemma ff_place_free k len a : ff_place k len = Some a → ff_free k a len = true.
Proof.
  unfold ff_place. generalize (ff_base :: (snd <$> k)) as l. intros l. revert a.
  induction l as [|b l IH]; intros a; simpl; [done|].
  destruct (ff_free k b len) eqn:E; [|apply IH].
  destruct (foldr _ _ l) as [c|]; [|by intros [= <-]].
  intros [= <-]. destruct (Z.min_spec b c) as [[_ ->]|[_ ->]]; [done|by apply IH].
Qed.

Lemma ff_mapped_cons r k x : ff_mapped (r :: k) x = (r.1 <=? x) && (x <? r.2) || ff_mapped k x.
Proof. done. Qed.

Lemma ff_mapped_munmap k a len x :
  ff_mapped (ff_munmap k a len) x = negb (within a len x) && ff_mapped k x.
Proof.
  induction k as [|[lo hi] k IH]; simpl; [by rewrite andb_false_r|].
  unfold ff_mapped in *. rewrite existsb_app, IH. simpl. clear IH.
  destruct (existsb _ k); rewrite ?andb_true_r, ?orb_true_r, ?andb_false_r, ?orb_false_r, ?andb_true_r.
  - unfold within. repeat (zcase; simpl); try reflexivity; lia.
  - unfold within. repeat (zcase; simpl); try reflexivity; lia.
Qed.

#[export] Instance first_fit_laws : OSLaws first_fit_os.
Proof.
  split; simpl.
  - intros k len a k' _. unfold ff_mmap. destruct (Z.ltb_spec 0 len); [|done].
    destruct (ff_place k len) as [b|] eqn:E; [|done]. intros [= -> <-].
    apply ff_place_free, ff_free_spec in E as (? & ? & ? & Hf). by split_and!.
  - intros k len k'. unfold ff_mmap. destruct (0 <? len); [|by intros [= <-]].
    destruct (ff_place k len); [done|by intros [= <-]].
  - intros k a len k' _ _ [= <-] x. apply ff_mapped_cons.
  - done.
  - intros k a len _ _ x. apply ff_mapped_munmap.
  - intros k a olen nlen b k' _ _. unfold ff_mremap. destruct (Z.ltb_spec 0 nlen); [|done].
    destruct (ff_free (ff_munmap k a olen) a nlen) eqn:E.
    + intros [= <- <-]. apply ff_free_spec in E as (? & ? & ? & Hf). split; [by split_and!|]. split.
      * intros x Hx. specialize (Hf x Hx). rewrite ff_mapped_munmap in Hf.
        destruct (within a olen x), (ff_mapped k x); auto.
      * intros x. rewrite ff_mapped_cons, ff_mapped_munmap. done.
    + destruct (ff_place k nlen) as [c|] eqn:Ep; [|done]. intros [= -> <-].
      apply ff_place_free, ff_free_spec in Ep as (? & ? & ? & Hf). split; [by split_and!|]. split.
      * intros x Hx. right. by apply Hf.
      * intros x. rewrite ff_mapped_cons, ff_mapped_munmap. done.
  - intros k a olen nlen k'. unfold ff_mremap. destruct (0 <? nlen); [|by intros [= <-]].
    destruct (ff_free _ _ _); [done|]. destruct (ff_place k nlen); [done|by intros [= <-]].
  - intros _ n. apply Z.ltb_lt.
Qed.

(** ** Rounding and trimming

    Both src/src/large.c and src/src/background.c get an aligned range by mapping more
    than they need and unmapping the ends. *)
Definition round_up (v a : Z) : Z := Z.land ((v +% a -% 1)%word) (not64 (a - 1)).

Lemma round_up_spec v k :
  0 ≤ k < 64 → 0 ≤ v → v + 2 ^ k ≤ 2 ^ 64 →
  round_up v (2 ^ k) mod 2 ^ k = 0 ∧ v ≤ round_up v (2 ^ k) < v + 2 ^ k.
Proof.
  intros Hk Hv Hb. pose proof (Z.pow_pos_nonneg 2 k).
  assert (E : ((v +% 2 ^ k -% 1)%word) = v + 2 ^ k - 1).
  { unfold u64. rewrite Zminus_mod_idemp_l. apply Z.mod_small. lia. }
  unfold round_up. rewrite E, land_not64 by lia. set (w := v + 2 ^ k - 1).
  pose proof (Z.mod_pos_bound w (2 ^ k)). split; [|lia].
  rewrite Zminus_mod_idemp_r, Z.sub_diag. apply Z.mod_0_l. lia.
Qed.

Lemma mod_0_weaken v j k : 0 ≤ j ≤ k → v mod 2 ^ k = 0 → v mod 2 ^ j = 0.
Proof.
  intros Hjk H. pose proof (Z.pow_pos_nonneg 2 j). pose proof (Z.pow_pos_nonneg 2 k).
  apply Z.mod_divide in H as [z ->]; [|lia]. apply Z.mod_divide; [lia|].
  exists (z * 2 ^ (k - j)). rewrite <-Z.mul_assoc, <-Z.pow_add_r by lia. do 2 f_equal. lia.
Qed.

Lemma add_mod_0 x y n : n ≠ 0 → x mod n = 0 → y mod n = 0 → (x + y) mod n = 0.
Proof. intros Hn Hx Hy. rewrite Zplus_mod, Hx, Hy. by apply Z.mod_0_l. Qed.

Lemma sub_mod_0 x y n : n ≠ 0 → x mod n = 0 → y mod n = 0 → (x - y) mod n = 0.
Proof. intros Hn Hx Hy. rewrite Zminus_mod, Hx, Hy. by apply Z.mod_0_l. Qed.

Lemma pow2_mod_page b : 12 ≤ b → 2 ^ b mod BTM_PAGE_SIZE = 0.
Proof.
  intros. apply (mod_0_weaken _ 12 b); [lia|]. apply Z.mod_same. apply Z.pow_nonzero; lia.
Qed.


Section trim.
Context {O : OS} {OL : OSLaws O}.

(** Trimming the over-sized mapping leaves exactly the object's pages. *)
Lemma trim_mapped k k1 raw want base total b :
  (∀ x, within raw want x = true → k_mapped k x = false) →
  (∀ x, k_mapped k1 x = within raw want x || k_mapped k x) →
  raw mod BTM_PAGE_SIZE = 0 → base mod BTM_PAGE_SIZE = 0 → total mod BTM_PAGE_SIZE = 0 → b mod BTM_PAGE_SIZE = 0 →
  0 ≤ total → want = total + b → raw ≤ base → base - raw < b →
  let k2 := if base - raw =? 0 then k1 else k_munmap k1 raw (base - raw) in
  ∀ x, k_mapped (k_munmap k2 (base + total) (b - (base - raw))) x = within base total x || k_mapped k x.
Proof.
  intros Hfree Hk1 Hrp Hbp Htp Hb Ht0 Hw Hle Hlt k2 x.
  assert (Hf : (base - raw) mod BTM_PAGE_SIZE = 0) by (apply sub_mod_0; [done..|done]).
  assert (Hk2 : k_mapped k2 x = negb (within raw (base - raw) x) && k_mapped k1 x).
  { unfold k2. destruct (Z.eqb_spec (base - raw) 0) as [E|E]; [|by apply munmap_mapped].
    replace (within raw (base - raw) x) with false; [done|]. symmetry. apply within_false. lia. }
  rewrite munmap_mapped, Hk2, Hk1; [|by apply add_mod_0|by apply sub_mod_0].
  destruct (within raw want x) eqn:Ew.
  - rewrite (Hfree x Ew), orb_false_r, andb_true_r. unfold within in *. lia.
  - destruct (k_mapped k x); rewrite ?orb_true_r, ?andb_true_r, ?orb_false_r, ?andb_false_r; simpl; unfold within in *; lia.
Qed.

End trim.
