(* ===== verification/Large.v ===== *)
(** * Large: src/src/large.c

    Allocations above 16 KiB, and aligned allocations above 16 bytes: one mapping per
    object, a header at its base, the object's regions registered as large. *)

From stdpp Require Import prelude gmap.
From S2P Require Import Prelude Memory Registry Os.
Local Open Scope Z_scope.

Definition BTM_LARGE_MAGIC : Z := 0xB7A110CC1A56A110.

Record btm_large_hdr := mk_large_hdr {
  lh_magic : Z;
  lh_map_len : Z;
  lh_user_off : Z;
  lh_req_size : Z;
}.
Definition sizeof_large_hdr : Z := 32.

Section large.
Context {Krn : OS} {T : Type} {OT : OwnerTable T}.

(** The headers live at the base of each mapping; they are kept apart from the bytes of
    the objects. *)
Record lstate := mk_lstate {
  l_mem : gmap Z Z;
  l_hdrs : gmap Z btm_large_hdr;
  l_reg : T;
  l_kernel : kstate;
}.

(** Write a header at [base]: a fault when the page is not mapped. *)
Definition put_hdr (base : Z) (h : btm_large_hdr) : M lstate unit := λ s,
  if k_mapped (l_kernel s) base
  then Ok (tt, mk_lstate (l_mem s) (<[base := h]> (l_hdrs s)) (l_reg s) (l_kernel s))
  else Fault.

Definition get_hdr (base : Z) : M lstate btm_large_hdr := λ s,
  match l_hdrs s !! base with Some h => Ok (h, s) | None => Fault end.

Definition registry_insert (base len owner : Z) : M lstate unit :=
  modify (λ s, mk_lstate (l_mem s) (l_hdrs s) (ot_insert (l_reg s) base len owner) (l_kernel s)).

Definition registry_remove (base len : Z) : M lstate unit :=
  modify (λ s, mk_lstate (l_mem s) (l_hdrs s) (ot_remove (l_reg s) base len) (l_kernel s)).

(** A fresh anonymous mapping reads as zeros. *)
Definition mmap (len : Z) : M lstate (option Z) := λ s,
  let '(r, k) := k_mmap (l_kernel s) len in
  match r with
  | Some a => Ok (Some a, mk_lstate (zero_range (l_mem s) a len) (l_hdrs s) (l_reg s) k)
  | None => Ok (None, mk_lstate (l_mem s) (l_hdrs s) (l_reg s) k)
  end.

(** The headers in an unmapped range are gone with their pages. *)
Definition munmap (a len : Z) : M lstate unit :=
  modify (λ s, mk_lstate (l_mem s) (filter (λ kv : Z * btm_large_hdr, within a len kv.1 = false) (l_hdrs s))
                         (l_reg s) (k_munmap (l_kernel s) a len)).

(** mremap carries the bytes and the header to the new place; bytes past the old length
    are fresh zero pages. *)
Definition mremap (a olen nlen : Z) : M lstate (option Z) := λ s,
  let '(r, k) := k_mremap (l_kernel s) a olen nlen in
  match r with
  | Some b =>
      let keep := load_bytes (l_mem s) a (Z.min olen nlen) in
      let m := store_bytes (zero_range (l_mem s) b nlen) b keep in
      let hs := match l_hdrs s !! a with
                | Some h => <[b := h]> (delete a (l_hdrs s))
                | None => l_hdrs s
                end in
      Ok (Some b, mk_lstate m hs (l_reg s) k)
  | None => Ok (None, mk_lstate (l_mem s) (l_hdrs s) (l_reg s) k)
  end.

Definition btm_large_alloc (size alignment : Z) : M lstate Z :=
  let alignment := if alignment <? BTM_ALIGNMENT then BTM_ALIGNMENT else alignment in
  let hdr := round_up sizeof_large_hdr alignment in
  let total := round_up ((hdr +% size)%word) BTM_PAGE_SIZE in
  let balign := if BTM_CHUNK_SIZE <? alignment then alignment else BTM_CHUNK_SIZE in
  let want := (total +% balign)%word in
  raw ← mmap want;
  match raw with
  | None => mret 0
  | Some raw =>
      let base := round_up raw balign in
      let front := (base -% raw)%word in
      _ ← (if front =? 0 then mret tt else munmap raw front);
      let back := (want -% front -% total)%word in
      _ ← (if back =? 0 then mret tt else munmap ((base +% total)%word) back);
      _ ← put_hdr base (mk_large_hdr BTM_LARGE_MAGIC total hdr size);
      _ ← registry_insert base total (Z.lor base 1);
      mret ((base +% hdr)%word)
  end.

Definition btm_large_free (base_v : Z) : M lstate unit :=
  h ← get_hdr base_v;
  let total := lh_map_len h in
  _ ← registry_remove base_v total;
  munmap base_v total.

Definition btm_large_usable_size (base ptr : Z) : M lstate Z :=
  h ← get_hdr base;
  mret ((lh_map_len h -% (ptr -% base))%word).

Definition btm_large_realloc (base ptr newsz : Z) : M lstate Z :=
  h ← get_hdr base;
  let user_off := lh_user_off h in
  let old_total := lh_map_len h in
  let new_total := round_up ((user_off +% newsz)%word) BTM_PAGE_SIZE in
  if new_total =? old_total then
    _ ← put_hdr base (mk_large_hdr (lh_magic h) (lh_map_len h) (lh_user_off h) newsz);
    mret ptr
  else
    _ ← registry_remove base old_total;
    nb ← mremap base old_total new_total;
    match nb with
    | None =>
        _ ← registry_insert base old_total (Z.lor base 1);
        mret 0
    | Some newbase =>
        _ ← put_hdr newbase (mk_large_hdr BTM_LARGE_MAGIC new_total user_off newsz);
        _ ← registry_insert newbase new_total (Z.lor newbase 1);
        mret ((newbase +% user_off)%word)
    end.

End large.
Arguments lstate {Krn} T.
Arguments mk_lstate {Krn T} _ _ _ _.

(** The sizes [btm_large_alloc] computes for a power-of-two alignment, free of overflow. *)
Record large_plan (size a hdr total b : Z) : Prop := {
  plan_hdr : 32 ≤ hdr < 32 + 2 ^ Z.max 4 a;
  plan_hdr_align : hdr mod 2 ^ Z.max 4 a = 0;
  plan_total : hdr + size ≤ total < hdr + size + BTM_PAGE_SIZE;
  plan_total_page : total mod BTM_PAGE_SIZE = 0;
  plan_b : b = Z.max 21 (Z.max 4 a);
}.

Lemma large_plan_computed size a :
  0 ≤ a ≤ 40 → 0 ≤ size ≤ 2 ^ 46 →
  let al := if 2 ^ a <? BTM_ALIGNMENT then BTM_ALIGNMENT else 2 ^ a in
  let hdr := round_up sizeof_large_hdr al in
  let total := round_up ((hdr +% size)%word) BTM_PAGE_SIZE in
  al = 2 ^ Z.max 4 a ∧
  (if BTM_CHUNK_SIZE <? al then al else BTM_CHUNK_SIZE) = 2 ^ Z.max 21 (Z.max 4 a) ∧
  large_plan size a hdr total (Z.max 21 (Z.max 4 a)).
Proof.
  intros Ha Hs al hdr total.
  assert (Eal : al = 2 ^ Z.max 4 a).
  { unfold al, BTM_ALIGNMENT. destruct (decide (a < 4)).
    - assert (2 ^ a < 2 ^ 4) by (apply Z.pow_lt_mono_r; lia). rewrite (proj2 (Z.ltb_lt _ _)) by lia.
      by rewrite Z.max_l by lia.
    - assert (2 ^ 4 ≤ 2 ^ a) by (apply Z.pow_le_mono_r; lia). rewrite (proj2 (Z.ltb_ge _ _)) by lia.
      by rewrite Z.max_r by lia. }
  set (a' := Z.max 4 a) in *. assert (Ha' : 4 ≤ a' ≤ 40) by lia.
  assert (2 ^ a' ≤ 2 ^ 40) by (apply Z.pow_le_mono_r; lia).
  assert (2 ^ 4 ≤ 2 ^ a') by (apply Z.pow_le_mono_r; lia).
  destruct (round_up_spec 32 a') as [Hm Hr]; [lia..|].
  assert (Eh : hdr = round_up 32 (2 ^ a')) by (unfold hdr; by rewrite Eal).
  rewrite <-Eh in Hm, Hr.
  assert (Eu : ((hdr +% size)%word) = hdr + size) by (apply u64_small; lia).
  destruct (round_up_spec (hdr + size) 12) as [Hm2 Hr2]; [lia..|].
  assert (Et : total = round_up (hdr + size) (2 ^ 12)) by (unfold total; by rewrite Eu).
  rewrite <-Et in Hm2, Hr2. split; [done|]. split.
  - rewrite Eal. unfold BTM_CHUNK_SIZE. destruct (decide (a' ≤ 21)).
    + assert (2 ^ a' ≤ 2 ^ 21) by (apply Z.pow_le_mono_r; lia). rewrite (proj2 (Z.ltb_ge _ _)) by lia.
      by rewrite Z.max_l by lia.
    + assert (2 ^ 21 < 2 ^ a') by (apply Z.pow_lt_mono_r; lia). rewrite (proj2 (Z.ltb_lt _ _)) by lia.
      by rewrite Z.max_r by lia.
  - split; [done|done| |done|done]. unfold BTM_PAGE_SIZE. lia.
Qed.

Section large_spec.
Context {Krn : OS} {KL : OSLaws Krn} {T : Type} {OT : OwnerTable T} {TL : OwnerTableLaws T OT}.

(** What a successful allocation gives its caller. *)
Record large_obtained (size a : Z) (s : lstate T) (p : Z) (s' : lstate T) (base total hdr : Z) : Prop := {
  lo_base : 0 < base ∧ base mod BTM_CHUNK_SIZE = 0 ∧ base + total ≤ 2 ^ 47;
  lo_ptr : p = base + hdr ∧ 32 ≤ hdr;
  lo_align : p mod 2 ^ a = 0 ∧ p mod BTM_ALIGNMENT = 0;
  lo_room : p + size ≤ base + total;
  lo_hdr : l_hdrs s' !! base = Some (mk_large_hdr BTM_LARGE_MAGIC total hdr size);
  lo_fresh x : base ≤ x < base + total → k_mapped (l_kernel s) x = false;
  lo_mapped x : k_mapped (l_kernel s') x = within base total x || k_mapped (l_kernel s) x;
  lo_owner q : user_addr q → ot_lookup (l_reg s') q =
    if decide (in_span base total (region_of q)) then Z.lor base 1 else ot_lookup (l_reg s) q;
  lo_pages : total mod BTM_PAGE_SIZE = 0;
  lo_table : l_reg s' = ot_insert (l_reg s) base total (Z.lor base 1);
  lo_hdrs b : b ≠ base → k_mapped (l_kernel s) b = true → l_hdrs s' !! b = l_hdrs s !! b;
  lo_hdrs_inv b h : l_hdrs s' !! b = Some h → b = base ∨ l_hdrs s !! b = Some h;
  lo_zero x : p ≤ x < p + size → byte_at (l_mem s') x = 0;
  lo_frame x : k_mapped (l_kernel s) x = true → byte_at (l_mem s') x = byte_at (l_mem s) x;
}.

Lemma lookup_filter_outside (hs : gmap Z btm_large_hdr) a len b :
  within a len b = false → filter (λ kv : Z * btm_large_hdr, within a len kv.1 = false) hs !! b = hs !! b.
Proof.
  intros Hw. rewrite map_lookup_filter. destruct (hs !! b); simpl; [|done]. by rewrite option_guard_True.
Qed.

Lemma large_alloc_run size a s :
  ot_live (l_reg s) → 0 ≤ a ≤ 40 → 0 ≤ size ≤ 2 ^ 46 →
  ∃ p s', btm_large_alloc size (2 ^ a) s = Ok (p, s') ∧
    ((p = 0 ∧ l_mem s' = l_mem s ∧ l_hdrs s' = l_hdrs s ∧ l_reg s' = l_reg s ∧
      ∀ x, k_mapped (l_kernel s') x = k_mapped (l_kernel s) x) ∨
     (0 < p ∧ ∃ base total hdr, large_obtained size a s p s' base total hdr)).
Proof.
  intros Hlv Ha Hs. destruct (large_plan_computed size a Ha Hs) as (Eal & Eb & Hplan).
  unfold btm_large_alloc. cbv zeta in *. rewrite Eb, Eal in *. rewrite ?Eal.
  set (b := Z.max 21 (Z.max 4 a)) in *. set (hdr := round_up sizeof_large_hdr _) in *.
  set (total := round_up _ BTM_PAGE_SIZE) in *. destruct Hplan as [Hh Hha Ht Htp _].
  assert (2 ^ b ≤ 2 ^ 40) by (apply Z.pow_le_mono_r; lia).
  assert (2 ^ 21 ≤ 2 ^ b) by (apply Z.pow_le_mono_r; lia).
  assert (2 ^ Z.max 4 a ≤ 2 ^ 40) by (apply Z.pow_le_mono_r; lia).
  assert (0 < 2 ^ Z.max 4 a) by (apply Z.pow_pos_nonneg; lia).
  assert (HP : BTM_PAGE_SIZE = 4096) by done.
  rewrite (u64_small (total + 2 ^ b)) by lia.
  assert (Hwp : (total + 2 ^ b) mod BTM_PAGE_SIZE = 0) by (apply add_mod_0; [done..|apply pow2_mod_page; lia]).
  unfold mbind at 1, M_bind at 1, mmap at 1.
  destruct (k_mmap (l_kernel s) (total + 2 ^ b)) as [[raw|] k1] eqn:Ek.
  2:{ exists 0. eexists. split; [done|]. left. split_and!; try done. by apply (mmap_none _ _ _ Ek). }
  destruct (mmap_some _ _ _ _ Hwp Ek) as ((Hr0 & _ & Hrp & Hr47) & Hfree & Hk1).
  destruct (round_up_spec raw b) as [Hbm Hbr]; [lia..|]. set (base := round_up raw (2 ^ b)) in *.
  assert (Hbp : base mod BTM_PAGE_SIZE = 0) by (apply (mod_0_weaken base 12 b); [lia|done]).
  rewrite (u64_small (base - raw)), (u64_small (base + total)), (u64_small (base + hdr)) by lia.
  rewrite (u64_small (total + 2 ^ b - (base - raw))) by lia.
  replace (total + 2 ^ b - (base - raw) - total) with (2 ^ b - (base - raw)) by lia.
  rewrite (u64_small (2 ^ b - (base - raw))) by lia.
  pose proof (trim_mapped (l_kernel s) k1 raw (total + 2 ^ b) base total (2 ^ b) Hfree Hk1 Hrp Hbp Htp
    (pow2_mod_page b ltac:(lia)) ltac:(lia) eq_refl ltac:(lia) ltac:(lia)) as Htrim. cbv zeta in Htrim.
  set (k2 := if base - raw =? 0 then k1 else _) in Htrim.
  set (hs2 := if base - raw =? 0 then l_hdrs s
              else filter (λ kv : Z * btm_large_hdr, within raw (base - raw) kv.1 = false) (l_hdrs s)).
  assert (Efront : (if base - raw =? 0 then mret tt else munmap raw (base - raw))
    (mk_lstate (zero_range (l_mem s) raw (total + 2 ^ b)) (l_hdrs s) (l_reg s) k1) =
    Ok (tt, mk_lstate (zero_range (l_mem s) raw (total + 2 ^ b)) hs2 (l_reg s) k2)).
  { unfold k2, hs2. by destruct (base - raw =? 0). }
  rewrite (run_bind _ _ _ _ _ Efront).
  destruct (Z.eqb_spec (2 ^ b - (base - raw)) 0); [lia|].
  erewrite (run_bind (munmap _ _)) by apply run_modify. cbn [l_mem l_hdrs l_reg l_kernel].
  unfold mbind at 1, M_bind at 1, put_hdr at 1. cbn [l_mem l_hdrs l_reg l_kernel]. rewrite Htrim.
  replace (within base total base) with true by (symmetry; apply within_spec; lia). cbn [orb].
  do 2 eexists. split; [reflexivity|]. right. split; [lia|]. exists base, total, hdr.
  assert (Hspan : user_span base total) by (unfold user_span; lia).
  split; cbn [l_mem l_hdrs l_reg l_kernel].
  - split_and!; [lia| |lia]. by apply (mod_0_weaken base 21 b); [lia|].
  - lia.
  - assert (Hp : (base + hdr) mod 2 ^ Z.max 4 a = 0) by (apply add_mod_0; [lia|apply (mod_0_weaken base _ b); [lia|done]|done]).
    split; [by apply (mod_0_weaken _ a (Z.max 4 a)); [lia|]|by apply (mod_0_weaken _ 4 (Z.max 4 a)); [lia|]].
  - lia.
  - by rewrite lookup_insert_eq.
  - intros x Hx. apply Hfree, within_spec. lia.
  - done.
  - intros q Hq. by apply ot_lookup_insert.
  - done.
  - done.
  - intros c Hc Hm. rewrite lookup_insert_ne by done.
    assert (Hkeep : ∀ (hs : gmap Z btm_large_hdr) u w, raw ≤ u → u + w ≤ raw + (total + 2 ^ b) →
      filter (λ kv : Z * btm_large_hdr, within u w kv.1 = false) hs !! c = hs !! c).
    { intros hs u w Hu Hw. apply lookup_filter_outside. apply within_false. intros Hin.
      rewrite (Hfree c) in Hm; [done|]. apply within_spec. lia. }
    rewrite Hkeep by lia. unfold hs2. destruct (base - raw =? 0); [done|]. apply Hkeep; lia.
  - intros c h [[-> _]|[_ Hc]]%lookup_insert_Some; [by left|right]. apply map_lookup_filter_Some in Hc as [Hc _].
    unfold hs2 in Hc. destruct (base - raw =? 0); [done|]. by apply map_lookup_filter_Some in Hc as [Hc _].
  - intros x Hx. rewrite byte_at_zero_range. by rewrite decide_True by lia.
  - intros x Hx. rewrite byte_at_zero_range. destruct (decide (raw ≤ x < raw + (total + 2 ^ b))) as [Hin|]; [|done].
    rewrite (Hfree x) in Hx; [done|]. by apply within_spec.
Qed.

(** A registered large object: its header, its place and its owner words. *)
Record large_live (s : lstate T) (base total hdr : Z) : Prop := {
  ll_hdr : ∃ req, l_hdrs s !! base = Some (mk_large_hdr BTM_LARGE_MAGIC total hdr req);
  ll_place : placed base total;
  ll_pages : total mod BTM_PAGE_SIZE = 0;
  ll_off : 32 ≤ hdr < total;
  ll_owner q : user_addr q → in_span base total (region_of q) → ot_lookup (l_reg s) q = Z.lor base 1;
  ll_mapped x : base ≤ x < base + total → k_mapped (l_kernel s) x = true;
  ll_align : hdr mod BTM_ALIGNMENT = 0;
}.

Lemma ll_span s base total hdr : large_live s base total hdr → user_span base total.
Proof. intros H. destruct (ll_place _ _ _ _ H) as (? & ? & ? & ?). unfold user_span. lia. Qed.

Lemma obtained_live size a s p s' base total hdr :
  0 < size → large_obtained size a s p s' base total hdr → large_live s' base total hdr.
Proof.
  intros Hs [(Hb & Hm & He) (-> & Hh) (_ & Ha) Hroom Hhdr Hfresh Hmap Hown Ht _ _ _ _ _].
  assert (Hbp : base mod BTM_PAGE_SIZE = 0) by (apply (mod_0_weaken base 12 21); [lia|done]).
  split; [by eexists|split_and!; lia|done|lia| | |].
  - intros q Hq Hin. rewrite Hown by done. by rewrite decide_True.
  - intros x Hx. rewrite Hmap. by rewrite (proj2 (within_spec base total x)).
  - assert (Hb16 : base mod BTM_ALIGNMENT = 0) by (apply (mod_0_weaken base 4 21); [lia|done]).
    unfold BTM_ALIGNMENT in *. by rewrite Zplus_mod, Hb16, Z.add_0_l, Z.mod_mod in Ha.
Qed.

Lemma large_free_run s base total hdr :
  ot_live (l_reg s) → large_live s base total hdr →
  ∃ s', btm_large_free base s = Ok (tt, s') ∧
    l_mem s' = l_mem s ∧ (∀ b, l_hdrs s' !! b = if within base total b then None else l_hdrs s !! b) ∧
    l_reg s' = ot_remove (l_reg s) base total ∧
    (∀ x, k_mapped (l_kernel s') x = negb (within base total x) && k_mapped (l_kernel s) x) ∧
    ∀ q, user_addr q → ot_lookup (l_reg s') q =
      if decide (in_span base total (region_of q)) then 0 else ot_lookup (l_reg s) q.
Proof.
  intros Hlv Hl. destruct (ll_hdr _ _ _ _ Hl) as [req Hh]. pose proof (ll_span _ _ _ _ Hl) as Hsp.
  destruct (ll_place _ _ _ _ Hl) as (Hb & Ht & Hp & He).
  eexists. split.
  { unfold btm_large_free, get_hdr. unfold mbind at 1, M_bind at 1. rewrite Hh. reflexivity. }
  cbn [l_mem l_hdrs l_reg l_kernel lh_map_len]. split_and!; [done|..].
  - intros b. destruct (within base total b) eqn:E; [|by apply lookup_filter_outside].
    apply map_lookup_filter_None. right. intros h' _ E'. simpl in E'. congruence.
  - done.
  - intros x. apply munmap_mapped; [done|by apply ll_pages in Hl].
  - intros q Hq. by apply ot_lookup_remove.
Qed.

(** ** Reallocation *)
Record large_resized (s : lstate T) (base total hdr newsz q : Z) (s' : lstate T) (nbase ntotal : Z) : Prop := {
  lr_ptr : q = nbase + hdr;
  lr_room : q + newsz ≤ nbase + ntotal;
  lr_live : large_live s' nbase ntotal hdr;
  lr_copy i : 0 ≤ i < Z.min total ntotal → byte_at (l_mem s') (nbase + i) = byte_at (l_mem s) (base + i);
  lr_hdrs : l_hdrs s' = <[nbase := mk_large_hdr BTM_LARGE_MAGIC ntotal hdr newsz]> (delete base (l_hdrs s));
  lr_table : (l_reg s' = l_reg s ∧ nbase = base ∧ ntotal = total) ∨
             l_reg s' = ot_insert (ot_remove (l_reg s) base total) nbase ntotal (Z.lor nbase 1);
  lr_fresh x : nbase ≤ x < nbase + ntotal → base ≤ x < base + total ∨ k_mapped (l_kernel s) x = false;
  lr_others x : k_mapped (l_kernel s) x = true → ¬ (base ≤ x < base + total) →
    k_mapped (l_kernel s') x = true ∧ byte_at (l_mem s') x = byte_at (l_mem s) x;
  lr_owner p : user_addr p → ot_lookup (l_reg s') p =
    if decide (in_span nbase ntotal (region_of p)) then Z.lor nbase 1
    else if decide (in_span base total (region_of p)) then 0 else ot_lookup (l_reg s) p;
}.

Lemma new_total_spec hdr newsz :
  0 ≤ hdr ≤ 2 ^ 47 → 0 < newsz ≤ 2 ^ 46 →
  let nt := round_up ((hdr +% newsz)%word) BTM_PAGE_SIZE in
  nt mod BTM_PAGE_SIZE = 0 ∧ hdr + newsz ≤ nt.
Proof.
  intros Hh Hn nt. assert (Eu : ((hdr +% newsz)%word) = hdr + newsz) by (apply u64_small; lia).
  destruct (round_up_spec (hdr + newsz) 12) as [Hm Hr]; [lia..|].
  unfold nt. rewrite Eu. change BTM_PAGE_SIZE with (2 ^ 12). split; [done|lia].
Qed.

Lemma large_realloc_same s base total hdr newsz :
  ot_live (l_reg s) → large_live s base total hdr → hdr ≤ 2 ^ 47 → 0 < newsz ≤ 2 ^ 46 →
  round_up ((hdr +% newsz)%word) BTM_PAGE_SIZE = total →
  ∃ s', btm_large_realloc base (base + hdr) newsz s = Ok (base + hdr, s') ∧
    large_resized s base total hdr newsz (base + hdr) s' base total.
Proof.
  intros Hlv Hl Hh Hn E. destruct (ll_hdr _ _ _ _ Hl) as [req Eh].
  destruct (new_total_spec hdr newsz) as [_ Hroom]; [pose proof (ll_off _ _ _ _ Hl); lia|done|]. rewrite E in Hroom.
  assert (Hm : k_mapped (l_kernel s) base = true) by (apply (ll_mapped _ _ _ _ Hl); pose proof (ll_off _ _ _ _ Hl); lia).
  eexists. split.
  { unfold btm_large_realloc, get_hdr, put_hdr. unfold mbind at 1, M_bind at 1. rewrite Eh. cbn [lh_user_off lh_map_len lh_magic].
    rewrite E, Z.eqb_refl. unfold mbind, M_bind. rewrite Hm. reflexivity. }
  split; cbn [l_mem l_hdrs l_reg l_kernel]; [done|lia| |done|by rewrite insert_delete_eq|by left|by left|done|].
  - destruct Hl as [_ P1 P2 P3 P4 P5 P6]. split; cbn [l_mem l_hdrs l_reg l_kernel]; [|done..].
    rewrite lookup_insert_eq. eauto.
  - intros p Hp. case_decide as Hin; [by apply (ll_owner _ _ _ _ Hl)|done].
Qed.

Lemma large_realloc_failed s base total hdr newsz k' :
  ot_live (l_reg s) → large_live s base total hdr → hdr ≤ 2 ^ 47 → 0 < newsz ≤ 2 ^ 46 →
  let nt := round_up ((hdr +% newsz)%word) BTM_PAGE_SIZE in
  nt ≠ total → k_mremap (l_kernel s) base total nt = (None, k') →
  ∃ s', btm_large_realloc base (base + hdr) newsz s = Ok (0, s') ∧
    l_mem s' = l_mem s ∧ l_hdrs s' = l_hdrs s ∧
    (∀ x, k_mapped (l_kernel s') x = k_mapped (l_kernel s) x) ∧
    (∀ q, user_addr q → ot_lookup (l_reg s') q = ot_lookup (l_reg s) q) ∧
    l_reg s' = ot_insert (ot_remove (l_reg s) base total) base total (Z.lor base 1).
Proof.
  intros Hlv Hl Hh Hn nt Hne Ek. destruct (ll_hdr _ _ _ _ Hl) as [req Eh]. pose proof (ll_span _ _ _ _ Hl) as Hsp.
  eexists. split.
  { unfold btm_large_realloc, get_hdr. unfold mbind at 1, M_bind at 1. rewrite Eh. cbn [lh_user_off lh_map_len lh_magic].
    fold nt. destruct (Z.eqb_spec nt total); [done|].
    unfold mbind, M_bind, registry_remove, modify, mremap. cbn [l_mem l_hdrs l_reg l_kernel]. rewrite Ek. reflexivity. }
  cbn [l_mem l_hdrs l_reg l_kernel]. split_and!; [done..| | |done].
  - by apply (mremap_none _ _ _ _ _ Ek).
  - intros q Hq. rewrite ot_lookup_insert, ot_lookup_remove by auto with btm.
    case_decide as Hin; [|done]. symmetry. by apply (ll_owner _ _ _ _ Hl).
Qed.

Lemma large_realloc_moved s base total hdr newsz nbase k' :
  ot_live (l_reg s) → large_live s base total hdr → hdr ≤ 2 ^ 47 → 0 < newsz ≤ 2 ^ 46 →
  let nt := round_up ((hdr +% newsz)%word) BTM_PAGE_SIZE in
  nt ≠ total → k_mremap (l_kernel s) base total nt = (Some nbase, k') →
  ∃ s', btm_large_realloc base (base + hdr) newsz s = Ok (nbase + hdr, s') ∧
    large_resized s base total hdr newsz (nbase + hdr) s' nbase nt.
Proof.
  intros Hlv Hl Hh Hn nt Hne Ek. destruct (ll_hdr _ _ _ _ Hl) as [req Eh]. pose proof (ll_span _ _ _ _ Hl) as Hsp.
  pose proof (ll_off _ _ _ _ Hl) as Hoff. destruct (ll_place _ _ _ _ Hl) as (Hb & _ & Hbp & Hbe).
  destruct (new_total_spec hdr newsz) as [Hnp Hroom]; [lia|done|]. fold nt in Hnp, Hroom.
  destruct (mremap_some _ _ _ _ _ _ (ll_pages _ _ _ _ Hl) Hnp Ek) as ((Hnb & Hnt & Hnbp & Hnbe) & Hfr & Hk').
  assert (Hmap : ∀ x, nbase ≤ x < nbase + nt → k_mapped k' x = true).
  { intros x Hx. rewrite Hk'. by rewrite (proj2 (within_spec nbase nt x)). }
  eexists. split.
  { unfold btm_large_realloc, get_hdr. unfold mbind at 1, M_bind at 1. rewrite Eh. cbn [lh_user_off lh_map_len lh_magic].
    fold nt. destruct (Z.eqb_spec nt total); [done|].
    unfold mbind, M_bind, registry_remove, modify, mremap, put_hdr. cbn [l_mem l_hdrs l_reg l_kernel]. rewrite Ek.
    cbn [l_mem l_hdrs l_reg l_kernel]. rewrite Hmap by lia. rewrite u64_small by lia. reflexivity. }
  assert (Hnsp : user_span nbase nt) by (unfold user_span; lia).
  assert (Hbytes : ∀ x, byte_at (store_bytes (zero_range (l_mem s) nbase nt) nbase (load_bytes (l_mem s) base (total `min` nt))) x =
    if decide (nbase ≤ x < nbase + total `min` nt) then byte_at (l_mem s) (base + (x - nbase))
    else if decide (nbase ≤ x < nbase + nt) then 0 else byte_at (l_mem s) x).
  { intros x. rewrite byte_at_store_bytes, length_load_bytes, Z2Nat.id by lia. rewrite byte_at_zero_range.
    case_decide; [|done]. apply list_lookup_total_correct. unfold load_bytes.
    rewrite list_lookup_fmap, lookup_seqZ_lt by lia. simpl. do 2 f_equal. lia. }
  split; cbn [l_mem l_hdrs l_reg l_kernel]; [done|lia|..].
  - split; cbn [l_mem l_hdrs l_reg l_kernel]; [|by split_and!|done|lia| | |by apply (ll_align _ _ _ _ Hl)].
    + rewrite lookup_insert_eq. eauto.
    + intros q Hq Hin. rewrite ot_lookup_insert by auto with btm. by rewrite decide_True.
    + done.
  - intros i Hi. rewrite Hbytes, decide_True by lia. f_equal. lia.
  - rewrite Eh. by rewrite insert_insert_eq.
  - by right.
  - intros x Hx%within_spec. destruct (Hfr x Hx) as [Hw%within_spec|]; [by left|by right].
  - intros x Hx Hout. rewrite Hk', Hx. assert (within base total x = false) as -> by by apply within_false.
    rewrite orb_true_r. split; [done|]. rewrite Hbytes.
    assert (¬ (nbase ≤ x < nbase + nt)).
    { intros Hin%within_spec. destruct (Hfr x Hin) as [Hw|]; [|congruence]. apply within_spec in Hw. lia. }
    by rewrite !decide_False by lia.
  - intros p Hp. rewrite ot_lookup_insert, ot_lookup_remove by auto with btm. done.
Qed.


(** The length changes, and the kernel gives the place [nbase] to the longer mapping. *)
Definition moves_to (s : lstate T) (base total hdr newsz nbase ntotal : Z) : Prop :=
  ntotal = round_up ((hdr +% newsz)%word) BTM_PAGE_SIZE ∧ ntotal ≠ total ∧
  ∃ k', k_mremap (l_kernel s) base total ntotal = (Some nbase, k').

(** The three outcomes together; a new place is one the kernel chose. *)
Lemma large_realloc_run s base total hdr newsz :
  ot_live (l_reg s) → large_live s base total hdr → hdr ≤ 2 ^ 47 → 0 < newsz ≤ 2 ^ 46 →
  ∃ q s', btm_large_realloc base (base + hdr) newsz s = Ok (q, s') ∧
    ((q = 0 ∧ l_mem s' = l_mem s ∧ l_hdrs s' = l_hdrs s ∧
      (∀ x, k_mapped (l_kernel s') x = k_mapped (l_kernel s) x) ∧
      (∀ p, user_addr p → ot_lookup (l_reg s') p = ot_lookup (l_reg s) p) ∧
      l_reg s' = ot_insert (ot_remove (l_reg s) base total) base total (Z.lor base 1)) ∨
     ∃ nbase ntotal, large_resized s base total hdr newsz q s' nbase ntotal ∧
       (nbase = base ∨ moves_to s base total hdr newsz nbase ntotal)).
Proof.
  intros Hlv Hl Hh Hn. set (nt := round_up ((hdr +% newsz)%word) BTM_PAGE_SIZE).
  destruct (decide (nt = total)) as [E|Hne].
  - destruct (large_realloc_same s base total hdr newsz Hlv Hl Hh Hn E) as (s' & Er & Hr).
    do 2 eexists. split; [done|]. right. exists base, total. split; [done|by left].
  - destruct (k_mremap (l_kernel s) base total nt) as [[nbase|] k'] eqn:Ek.
    + destruct (large_realloc_moved s base total hdr newsz nbase k' Hlv Hl Hh Hn Hne Ek) as (s' & Er & Hr).
      do 2 eexists. split; [done|]. right. exists nbase, nt. split; [done|]. right. split; [done|]. split; [done|]. by exists k'.
    + destruct (large_realloc_failed s base total hdr newsz k' Hlv Hl Hh Hn Hne Ek) as (s' & Er & Hr).
      do 2 eexists. split; [done|]. by left.
Qed.

End large_spec.

(** ** Properties *)
Definition lempty : lstate (Krn := first_fit_os) registry := mk_lstate (Krn := first_fit_os) ∅ ∅ (mk_registry ∅ 0) ([] : list (Z * Z)).

(** C26. A large allocation, for every alignment up to 2^40 and every size up to 2^46,
    returns NULL with nothing changed, or a pointer aligned as asked to [size] fresh zero
    bytes inside a new mapping: exactly the object's pages stay mapped, its base is 2 MiB
    aligned, every pointer of its regions resolves to the tagged base, all other pointers
    keep their owner, and no byte that was mapped before changes. *)
Theorem large_alloc_correct {Krn : OS} {KL : OSLaws Krn} {T : Type} {OT : OwnerTable T} {TL : OwnerTableLaws T OT} size a (s : lstate T) :
  ot_live (l_reg s) → 0 ≤ a ≤ 40 → 0 ≤ size ≤ 2 ^ 46 →
  ∃ p s', btm_large_alloc size (2 ^ a) s = Ok (p, s') ∧
    ((p = 0 ∧ l_mem s' = l_mem s ∧ l_hdrs s' = l_hdrs s ∧ l_reg s' = l_reg s ∧
      ∀ x, k_mapped (l_kernel s') x = k_mapped (l_kernel s) x) ∨
     (0 < p ∧ ∃ base total hdr, large_obtained size a s p s' base total hdr)).
Proof. by apply large_alloc_run. Qed.

Lemma large_alloc_correct_witness :
  ∃ p s', btm_large_alloc 20000 (2 ^ 6) lempty = Ok (p, s') ∧
    ((p = 0 ∧ l_mem s' = l_mem lempty ∧ l_hdrs s' = l_hdrs lempty ∧ l_reg s' = l_reg lempty ∧
      ∀ x, k_mapped (l_kernel s') x = k_mapped (l_kernel lempty) x) ∨
     (0 < p ∧ ∃ base total hdr, large_obtained 20000 6 lempty p s' base total hdr)).
Proof. apply (large_alloc_correct (Krn := first_fit_os) (KL := first_fit_laws)); [done|lia..]. Defined.

(** C28. Allocating and freeing a large object gives back everything: the address space is
    mapped as before, and the owner of every user address is what it was, given that the
    object's regions were unowned. *)
Theorem large_alloc_free_restores {Krn : OS} {KL : OSLaws Krn} {T : Type} {OT : OwnerTable T} {TL : OwnerTableLaws T OT}
    size a (s : lstate T) p s1 base total hdr :
  ot_live (l_reg s) → 0 < size → large_obtained size a s p s1 base total hdr →
  (∀ q, user_addr q → in_span base total (region_of q) → ot_lookup (l_reg s) q = 0) →
  ∃ s2, btm_large_free base s1 = Ok (tt, s2) ∧
    (∀ x, k_mapped (l_kernel s2) x = k_mapped (l_kernel s) x) ∧
    (∀ q, user_addr q → ot_lookup (l_reg s2) q = ot_lookup (l_reg s) q) ∧
    l_hdrs s2 !! base = None.
Proof.
  intros Hlv Hs Ho Hfree. pose proof (obtained_live _ _ _ _ _ _ _ _ Hs Ho) as Hl.
  assert (Hlv1 : ot_live (l_reg s1)) by (rewrite (lo_table _ _ _ _ _ _ _ _ Ho); by apply ot_insert_live).
  destruct (large_free_run s1 base total hdr Hlv1 Hl) as (s2 & E & _ & Hh & _ & Hm & Hq).
  pose proof (ll_off _ _ _ _ Hl). exists s2. split_and!; [done|..|by rewrite Hh, (proj2 (within_spec base total base)) by lia].
  - intros x. rewrite Hm, (lo_mapped _ _ _ _ _ _ _ _ Ho). destruct (within base total x) eqn:Ew; [|done].
    simpl. symmetry. apply (lo_fresh _ _ _ _ _ _ _ _ Ho). by apply within_spec.
  - intros q Hu. rewrite Hq, (lo_owner _ _ _ _ _ _ _ _ Ho) by done.
    case_decide; [|done]. symmetry. by apply Hfree.
Qed.

Definition lafter : lstate (Krn := first_fit_os) registry :=
  match btm_large_alloc 20000 (2 ^ 6) lempty with Ok (_, s) => s | _ => lempty end.

Lemma large_alloc_free_restores_witness :
  ∃ s2, btm_large_free 4194304 lafter = Ok (tt, s2) ∧
    (∀ x, k_mapped (l_kernel s2) x = k_mapped (l_kernel lempty) x) ∧
    (∀ q, user_addr q → ot_lookup (l_reg s2) q = ot_lookup (l_reg lempty) q) ∧
    l_hdrs s2 !! 4194304 = None.
Proof.
  apply (large_alloc_free_restores (Krn := first_fit_os) (KL := first_fit_laws) 20000 6 lempty 4194368 lafter 4194304 20480 64);
    [done|lia| |].
  - destruct (large_alloc_run (Krn := first_fit_os) (KL := first_fit_laws) (TL := radix_table_laws) 20000 6 lempty I ltac:(lia) ltac:(lia))
      as (p & s' & E & [(-> & _)|(_ & base & total & hdr & Ho)]).
    + assert (V : val_of (btm_large_alloc 20000 (2 ^ 6) lempty) = Some 4194368) by (vm_compute; reflexivity).
      rewrite E in V. discriminate V.
    + assert (V : val_of (btm_large_alloc 20000 (2 ^ 6) lempty) = Some 4194368) by (vm_compute; reflexivity).
      assert (Es : s' = lafter) by (unfold lafter; by rewrite E).
      rewrite E in V. injection V as ->. subst s'.
      pose proof (lo_hdr _ _ _ _ _ _ _ _ Ho) as Hh.
      destruct (decide (base = 4194304)) as [->|Hne].
      * assert (Hh' : l_hdrs lafter !! 4194304 = Some (mk_large_hdr BTM_LARGE_MAGIC 20480 64 20000)) by (vm_compute; reflexivity).
        rewrite Hh' in Hh. injection Hh as <- <-. exact Ho.
      * assert (Hd : l_hdrs lafter = {[4194304 := mk_large_hdr BTM_LARGE_MAGIC 20480 64 20000]}) by (vm_compute; reflexivity).
        rewrite Hd, lookup_singleton_ne in Hh by done. discriminate Hh.
  - intros q _ _. reflexivity.
Defined.

(** C27. Resizing a large object keeps its promise: it returns NULL with contents, headers,
    mappings and owners unchanged, or a pointer at the same offset into an object with
    room for the new size that holds the old bytes up to the shorter length; the bytes of
    all other mappings are untouched, every pointer into the new object resolves to it,
    and regions that only the old place used become foreign. *)
Theorem large_realloc_correct {Krn : OS} {KL : OSLaws Krn} {T : Type} {OT : OwnerTable T} {TL : OwnerTableLaws T OT}
    (s : lstate T) base total hdr newsz :
  ot_live (l_reg s) → large_live s base total hdr → hdr ≤ 2 ^ 47 → 0 < newsz ≤ 2 ^ 46 →
  ∃ q s', btm_large_realloc base (base + hdr) newsz s = Ok (q, s') ∧
    ((q = 0 ∧ l_mem s' = l_mem s ∧ l_hdrs s' = l_hdrs s ∧
      (∀ x, k_mapped (l_kernel s') x = k_mapped (l_kernel s) x) ∧
      ∀ p, user_addr p → ot_lookup (l_reg s') p = ot_lookup (l_reg s) p) ∨
     ∃ nbase ntotal, large_resized s base total hdr newsz q s' nbase ntotal).
Proof.
  intros Hlv Hl Hh Hn. destruct (large_realloc_run s base total hdr newsz Hlv Hl Hh Hn) as (q & s' & Er & [(E0 & E1 & E2 & E3 & E4 & _)|(nb & nt & Hr & _)]);
    exists q, s'; (split; [done|]); [by left|right; eauto].
Qed.

(** A state with one live object, for the witness. *)
Definition lone : lstate (Krn := first_fit_os) registry := mk_lstate (Krn := first_fit_os)
  ∅ {[4194304 := mk_large_hdr BTM_LARGE_MAGIC 20480 32 20000]}
  (ot_insert (mk_registry ∅ 0) 4194304 20480 4194305) [(4194304, 4214784)].

Lemma lone_live : large_live lone 4194304 20480 32.
Proof.
  split.
  - eexists. vm_compute. reflexivity.
  - vm_compute. split_and!; (reflexivity || discriminate).
  - reflexivity.
  - lia.
  - intros q Hq Hin. unfold lone. cbn [l_reg]. rewrite ot_lookup_insert; [|done|unfold user_span; lia|done].
    by rewrite decide_True.
  - intros x Hx. unfold lone. cbn [l_kernel k_mapped first_fit_os]. unfold ff_mapped. cbn [existsb fst snd]. lia.
  - reflexivity.
Qed.

Lemma large_realloc_correct_witness :
  ∃ q s', btm_large_realloc 4194304 (4194304 + 32) 40000 lone = Ok (q, s') ∧
    ((q = 0 ∧ l_mem s' = l_mem lone ∧ l_hdrs s' = l_hdrs lone ∧
      (∀ x, k_mapped (l_kernel s') x = k_mapped (l_kernel lone) x) ∧
      ∀ p, user_addr p → ot_lookup (l_reg s') p = ot_lookup (l_reg lone) p) ∨
     ∃ nbase ntotal, large_resized lone 4194304 20480 32 40000 q s' nbase ntotal).
Proof. apply (large_realloc_correct (Krn := first_fit_os) (KL := first_fit_laws)); [done|apply lone_live|lia..]. Defined.

Definition wrapped_request : outcome (Z * Z * lstate (Krn := first_fit_os) registry) :=
  (p ← btm_large_alloc (2 ^ 64 - 16) BTM_ALIGNMENT;
   u ← btm_large_usable_size (p - 32) p;
   mret (p, u)) lempty.

(** C29. The size computation is not checked for overflow: a request of 2^64 - 16 bytes
    wraps to one page, and the caller gets a pointer with 4064 usable bytes instead of
    NULL; one of 2^64 - 32 bytes wraps the mapping to nothing, all pages are trimmed away
    and writing the header faults. *)
Theorem large_alloc_size_wraps :
  (∃ p s', btm_large_alloc (2 ^ 64 - 16) BTM_ALIGNMENT lempty = Ok (p, s') ∧ 0 < p ∧
    btm_large_usable_size (p - 32) p s' = Ok (4064, s')) ∧
  btm_large_alloc (2 ^ 64 - 32) BTM_ALIGNMENT lempty = Fault.
Proof.
  split; [|apply is_fault_spec; vm_compute; reflexivity].
  destruct (val_of_Ok wrapped_request (4194336, 4064)) as [s' E]; [vm_compute; reflexivity|].
  unfold wrapped_request in E. apply run_bind_inv in E as (p & s1 & E1 & E2).
  apply run_bind_inv in E2 as (u & s2 & E2 & E3). injection E3 as -> -> <-.
  exists 4194336, s1. split; [done|]. split; [lia|].
  unfold btm_large_usable_size, get_hdr in *. unfold mbind, M_bind in *.
  destruct (l_hdrs s1 !! (4194336 - 32)) as [h|]; [|done]. by injection E2 as <- <-.
Qed.

(** Two live objects; growing the first makes the kernel move it. *)
Definition realloc_steals : M (lstate (Krn := first_fit_os) registry) (Z * Z * Z * Z) :=
  pa ← btm_large_alloc 100 64;
  pb ← btm_large_alloc 100 64;
  owner_before ← gets (λ s, ot_lookup (l_reg s) pb);
  na ← btm_large_realloc (pa - 64) pa 3145728;
  owner_after ← gets (λ s, ot_lookup (l_reg s) pb);
  mret (pb, na, owner_before, owner_after).

(** C30. The kernel may move a growing object to any page, so its base is no longer 2 MiB
    aligned and it can share a region with another live object: after such a move, a
    pointer of the other object resolves to the moved one, and freeing it would unmap the
    wrong object. *)
Theorem large_realloc_steals_region :
  ∃ s pb na ob oa, realloc_steals lempty = Ok ((pb, na, ob, oa), s) ∧
    ob = Z.lor (pb - 64) 1 ∧ (na - 64) mod BTM_CHUNK_SIZE ≠ 0 ∧ oa = Z.lor (na - 64) 1 ∧ oa ≠ ob.
Proof.
  destruct (val_of_Ok (realloc_steals lempty) (6291520, 6295616, 6291457, 6295553)) as [s E]; [vm_compute; reflexivity|].
  exists s, 6291520, 6295616, 6291457, 6295553. split; [done|]. vm_compute. split_and!; (reflexivity || discriminate).
Qed.
