(* ===== verification/Heap.v ===== *)
(** * Heap: chunks, slab descriptors, pools and cache bins of src/src/internal.h

    The C heap is split by type: the bytes of slots are a byte memory, chunk headers are
    records keyed by the chunk's base, slab descriptors are records keyed by the
    descriptor's address.  Pointers are addresses, 0 is NULL. *)

From stdpp Require Import prelude gmap.
From S2P Require Import Prelude Memory SizeClass.
Local Open Scope Z_scope.

(** A pool is named by its partition index and its size class. *)
Definition pool_ref : Type := Z * Z.

Record btm_chunk := mk_chunk {
  c_magic : Z;
  c_pool : option pool_ref;
  c_sc : Z;
  c_part_idx : Z;
  c_next : Z;
  c_prev : Z;
  next_free_page : Z;
  live_slabs : Z;
  memfd_off : Z;
  page_owner : list Z;
}.
Definition BTM_CHUNK_MAGIC : Z := 0xB7A110C0CB7C7BEE.

Record btm_slab := mk_slab {
  free_head : Z;
  s_next : Z;
  s_prev : Z;
  nslots : Z;
  free_count : Z;
  s_sc : Z;
  npages : Z;
  s_part_idx : Z;
  first_page : Z;
  in_partial : bool;
  decommitted : bool;
  retired : bool;
  paged_out : bool;
  epoch : Z;
}.

(** A descriptor in a chunk that was never carved there: zero pages. *)
Definition zero_slab : btm_slab := mk_slab 0 0 0 0 0 0 0 0 0 false false false false 0.

Record btm_scpool := mk_pool {
  partial : Z;
  empty_warm : Z;
  empty_cold : Z;
  warm_count : Z;
  chunks : Z;
  active : Z;
  nslabs : Z;
  outstanding : Z;
}.
Definition zero_pool : btm_scpool := mk_pool 0 0 0 0 0 0 0 0.

Record btm_tls_bin := mk_bin {
  b_free_head : Z;
  b_pool : option pool_ref;
  b_count : Z;
}.
Definition zero_bin : btm_tls_bin := mk_bin 0 None 0.

(** ** Field assignments *)
Definition slab_set_next (v : Z) (s : btm_slab) : btm_slab :=
  mk_slab (free_head s) v (s_prev s) (nslots s) (free_count s) (s_sc s) (npages s) (s_part_idx s)
    (first_page s) (in_partial s) (decommitted s) (retired s) (paged_out s) (epoch s).
Definition slab_set_prev (v : Z) (s : btm_slab) : btm_slab :=
  mk_slab (free_head s) (s_next s) v (nslots s) (free_count s) (s_sc s) (npages s) (s_part_idx s)
    (first_page s) (in_partial s) (decommitted s) (retired s) (paged_out s) (epoch s).
Definition slab_set_in_partial (v : bool) (s : btm_slab) : btm_slab :=
  mk_slab (free_head s) (s_next s) (s_prev s) (nslots s) (free_count s) (s_sc s) (npages s) (s_part_idx s)
    (first_page s) v (decommitted s) (retired s) (paged_out s) (epoch s).
Definition slab_set_decommitted (v : bool) (s : btm_slab) : btm_slab :=
  mk_slab (free_head s) (s_next s) (s_prev s) (nslots s) (free_count s) (s_sc s) (npages s) (s_part_idx s)
    (first_page s) (in_partial s) v (retired s) (paged_out s) (epoch s).
Definition slab_set_free (head count : Z) (s : btm_slab) : btm_slab :=
  mk_slab head (s_next s) (s_prev s) (nslots s) count (s_sc s) (npages s) (s_part_idx s)
    (first_page s) (in_partial s) (decommitted s) (retired s) (paged_out s) (epoch s).
Definition slab_set_touch (e : Z) (s : btm_slab) : btm_slab :=
  mk_slab (free_head s) (s_next s) (s_prev s) (nslots s) (free_count s) (s_sc s) (npages s) (s_part_idx s)
    (first_page s) (in_partial s) (decommitted s) (retired s) false e.
Definition slab_set_run (first np : Z) (s : btm_slab) : btm_slab :=
  mk_slab (free_head s) (s_next s) (s_prev s) (nslots s) (free_count s) (s_sc s) np (s_part_idx s)
    first (in_partial s) (decommitted s) (retired s) (paged_out s) (epoch s).

Definition chunk_set_next (v : Z) (c : btm_chunk) : btm_chunk :=
  mk_chunk (c_magic c) (c_pool c) (c_sc c) (c_part_idx c) v (c_prev c) (next_free_page c) (live_slabs c)
    (memfd_off c) (page_owner c).
Definition chunk_set_prev (v : Z) (c : btm_chunk) : btm_chunk :=
  mk_chunk (c_magic c) (c_pool c) (c_sc c) (c_part_idx c) (c_next c) v (next_free_page c) (live_slabs c)
    (memfd_off c) (page_owner c).
Definition chunk_set_owner_class (sc part : Z) (c : btm_chunk) : btm_chunk :=
  mk_chunk (c_magic c) (c_pool c) sc part (c_next c) (c_prev c) (next_free_page c) (live_slabs c)
    (memfd_off c) (page_owner c).
Definition chunk_set_live (v : Z) (c : btm_chunk) : btm_chunk :=
  mk_chunk (c_magic c) (c_pool c) (c_sc c) (c_part_idx c) (c_next c) (c_prev c) (next_free_page c) v
    (memfd_off c) (page_owner c).
Definition chunk_set_off (off : Z) (c : btm_chunk) : btm_chunk :=
  mk_chunk (c_magic c) (c_pool c) (c_sc c) (c_part_idx c) (c_next c) (c_prev c) (next_free_page c) (live_slabs c)
    off (page_owner c).
Definition chunk_set_carved (nfp : Z) (owners : list Z) (c : btm_chunk) : btm_chunk :=
  mk_chunk (c_magic c) (c_pool c) (c_sc c) (c_part_idx c) (c_next c) (c_prev c) nfp (live_slabs c)
    (memfd_off c) owners.

Definition pool_set_partial (v : Z) (p : btm_scpool) : btm_scpool :=
  mk_pool v (empty_warm p) (empty_cold p) (warm_count p) (chunks p) (active p) (nslabs p) (outstanding p).
Definition pool_set_warm (v n : Z) (p : btm_scpool) : btm_scpool :=
  mk_pool (partial p) v (empty_cold p) n (chunks p) (active p) (nslabs p) (outstanding p).
Definition pool_set_cold (v : Z) (p : btm_scpool) : btm_scpool :=
  mk_pool (partial p) (empty_warm p) v (warm_count p) (chunks p) (active p) (nslabs p) (outstanding p).
Definition pool_set_chunks (v : Z) (p : btm_scpool) : btm_scpool :=
  mk_pool (partial p) (empty_warm p) (empty_cold p) (warm_count p) v (active p) (nslabs p) (outstanding p).
Definition pool_set_active (v : Z) (p : btm_scpool) : btm_scpool :=
  mk_pool (partial p) (empty_warm p) (empty_cold p) (warm_count p) (chunks p) v (nslabs p) (outstanding p).
Definition pool_set_nslabs (v : Z) (p : btm_scpool) : btm_scpool :=
  mk_pool (partial p) (empty_warm p) (empty_cold p) (warm_count p) (chunks p) (active p) v (outstanding p).
Definition pool_set_outstanding (v : Z) (p : btm_scpool) : btm_scpool :=
  mk_pool (partial p) (empty_warm p) (empty_cold p) (warm_count p) (chunks p) (active p) (nslabs p) v.

(** ** The heap *)
Record heap := mk_heap {
  h_mem : gmap Z Z;
  h_chunks : gmap Z btm_chunk;
  h_slabs : gmap Z btm_slab;
}.

Definition slab_at (h : heap) (d : Z) : btm_slab := default zero_slab (h_slabs h !! d).

Definition heap_set_mem (m : gmap Z Z) (h : heap) : heap := mk_heap m (h_chunks h) (h_slabs h).
(** The pages of slots in [a, a + n) read as zeros. *)
Definition heap_zero (a n : Z) (h : heap) : heap := heap_set_mem (zero_range (h_mem h) a n) h.
Definition heap_set_slab (d : Z) (s : btm_slab) (h : heap) : heap :=
  mk_heap (h_mem h) (h_chunks h) (<[d := s]> (h_slabs h)).
Definition heap_set_chunk (c : Z) (v : btm_chunk) (h : heap) : heap :=
  mk_heap (h_mem h) (<[c := v]> (h_chunks h)) (h_slabs h).

(** ** Addresses *)
Definition sizeof_slab : Z := 48.
Definition BTM_DESC_PAGES : Z := (BTM_PAGES_PER_CHUNK * sizeof_slab + BTM_PAGE_SIZE - 1) / BTM_PAGE_SIZE.
Definition BTM_DATA_START_PAGE : Z := 1 + BTM_DESC_PAGES.

(** The chunk that holds an address: mask off the low 21 bits. *)
Definition chunk_of (p : Z) : Z := Z.land p (not64 (BTM_CHUNK_SIZE - 1)).

(** Descriptor number [page] of the array in chunk [c]. *)
Definition btm_chunk_desc (c page : Z) : Z := c + BTM_PAGE_SIZE + sizeof_slab * page.

(** The descriptor of the slab that owns [ptr], through the chunk's page table. *)
Definition btm_slab_of (h : heap) (c ptr : Z) : option Z :=
  hd ← h_chunks h !! c;
  fp ← page_owner hd !! Z.to_nat (u32 (Z.shiftr ((ptr -% c)%word) BTM_PAGE_SHIFT));
  Some (btm_chunk_desc c fp).

(** First byte of the slab's slots. *)
Definition btm_slab_data (d : Z) (s : btm_slab) : Z := chunk_of d + first_page s * BTM_PAGE_SIZE.

(** ** Geometry facts *)
Lemma data_start_page : BTM_DATA_START_PAGE = 7.
Proof. reflexivity. Qed.

Lemma chunk_of_eq p : 0 ≤ p < 2 ^ 64 → chunk_of p = p - p mod BTM_CHUNK_SIZE.
Proof. intros H. unfold chunk_of. apply (land_not64 p 21); [done|lia]. Qed.

(** A chunk base: 2 MiB aligned, in user space, not the null region. *)
Definition chunk_base (c : Z) : Prop := 0 < c ∧ c mod BTM_CHUNK_SIZE = 0 ∧ c + BTM_CHUNK_SIZE ≤ 2 ^ 47.

Lemma chunk_of_inside c x : chunk_base c → c ≤ x < c + BTM_CHUNK_SIZE → chunk_of x = c.
Proof.
  intros (H0 & Hm & H47) Hx. unfold BTM_CHUNK_SIZE in *. rewrite chunk_of_eq by lia.
  unfold BTM_CHUNK_SIZE. replace x with (c + (x - c)) at 2 by lia.
  rewrite Zplus_mod, Hm, Z.add_0_l, Z.mod_mod, Z.mod_small by lia. lia.
Qed.

Lemma chunk_of_desc c page : chunk_base c → 0 ≤ page < 512 → chunk_of (btm_chunk_desc c page) = c.
Proof.
  intros Hc Hp. apply chunk_of_inside; [done|]. unfold btm_chunk_desc, sizeof_slab. glia.
Qed.

Lemma desc_inj c1 c2 p1 p2 :
  chunk_base c1 → chunk_base c2 → 0 ≤ p1 < 512 → 0 ≤ p2 < 512 →
  btm_chunk_desc c1 p1 = btm_chunk_desc c2 p2 → c1 = c2 ∧ p1 = p2.
Proof.
  intros H1 H2 Hp1 Hp2 E. assert (c1 = c2) as ->.
  { rewrite <-(chunk_of_desc c1 p1), E by done. by apply chunk_of_desc. }
  split; [done|]. unfold btm_chunk_desc, sizeof_slab in E. lia.
Qed.

Lemma slab_at_set h d s y : slab_at (heap_set_slab d s h) y = if decide (y = d) then s else slab_at h y.
Proof.
  unfold slab_at, heap_set_slab. cbn [h_slabs]. rewrite lookup_insert.
  destruct (decide (d = y)), (decide (y = d)); simpl; congruence.
Qed.

Lemma slab_at_set_chunk h c v y : slab_at (heap_set_chunk c v h) y = slab_at h y.
Proof. done. Qed.

Lemma slab_at_set_mem h m y : slab_at (heap_set_mem m h) y = slab_at h y.
Proof. done. Qed.
