(* ===== verification/Memfd.v ===== *)
(** * Memfd: the backing file of mesh mode, src/src/background.c

    In mesh mode every chunk is a shared mapping of a range of one memfd.  First the
    allocator of these ranges: a bump pointer, and a stack of the ranges given back.  Then
    the contents of pages: what a mapping, an unmapping, MADV_DONTNEED and a hole punched
    in the file make of them.  Until compaction remaps pages (Mesh.v), a page of the file
    has one address, and the heap holds the contents of the mapped ranges by address. *)

From stdpp Require Import prelude gmap fin_maps.
From S2P Require Import Prelude Memory Os Heap.
Local Open Scope Z_scope.

Definition UINT64_MAX : Z := 2 ^ 64 - 1.

(** The stack [memfd_free] with its top first; [memfd_free_n] is its length. *)
Record memfd_t := mk_memfd {
  memfd_open : bool;
  memfd_bump : Z;
  memfd_size : Z;
  memfd_free : list Z;
  memfd_free_cap : Z;
}.
Definition memfd_free_n (m : memfd_t) : Z := Z.of_nat (length (memfd_free m)).
Definition memfd0 : memfd_t := mk_memfd false 0 0 [] 0.

Section memfd.
(** The kernel: whether [memfd_create] gives a descriptor, [ftruncate] the size, [mmap] the stack. *)
Context (create_ok : bool) (ftruncate_ok : Z → bool) (stack_ok : Z → bool).

Definition btm_mesh_enable : M memfd_t Z :=
  if create_ok then
    _ ← modify (λ m, mk_memfd true 0 0 (memfd_free m) (memfd_free_cap m));
    mret 1
  else mret 0.

(** The new size of the file: it grows in steps of 256 chunks. *)
Definition memfd_want (size bump : Z) : Z :=
  let want := (size +% 256 * BTM_CHUNK_SIZE)%word in if want <? bump then bump else want.

Definition memfd_alloc_off : M memfd_t Z := λ m,
  match memfd_free m with
  | off :: rest => Ok (off, mk_memfd (memfd_open m) (memfd_bump m) (memfd_size m) rest (memfd_free_cap m))
  | [] =>
      let off := memfd_bump m in
      let bump := (memfd_bump m +% BTM_CHUNK_SIZE)%word in
      if memfd_size m <? bump then
        let want := memfd_want (memfd_size m) bump in
        if ftruncate_ok want then Ok (off, mk_memfd (memfd_open m) bump want [] (memfd_free_cap m))
        else Ok (UINT64_MAX, mk_memfd (memfd_open m) (bump -% BTM_CHUNK_SIZE)%word (memfd_size m) [] (memfd_free_cap m))
      else Ok (off, mk_memfd (memfd_open m) bump (memfd_size m) [] (memfd_free_cap m))
  end.

(** A full stack moves to a mapping twice as large; when there is none the range is dropped. *)
Definition memfd_grow (m : memfd_t) : Z :=
  if memfd_free_n m =? memfd_free_cap m then
    let ncap := if memfd_free_cap m =? 0 then 64 else u32 (memfd_free_cap m * 2) in
    if stack_ok (ncap * 8) then ncap else memfd_free_cap m
  else memfd_free_cap m.

Definition memfd_free_off (off : Z) : M memfd_t unit := λ m,
  let cap := memfd_grow m in
  Ok (tt, mk_memfd (memfd_open m) (memfd_bump m) (memfd_size m)
            (if memfd_free_n m <? cap then off :: memfd_free m else memfd_free m) cap).

(** ** The ranges in use [U] *)
Definition range_ok (m : memfd_t) (o : Z) : Prop := 0 ≤ o ∧ o mod BTM_CHUNK_SIZE = 0 ∧ o + BTM_CHUNK_SIZE ≤ memfd_bump m.

Record memfd_ok (m : memfd_t) (U : gset Z) : Prop := {
  fd_bump : 0 ≤ memfd_bump m ≤ memfd_size m;
  fd_aligned : memfd_bump m mod BTM_CHUNK_SIZE = 0;
  fd_size : memfd_size m < 2 ^ 63;
  fd_free o : o ∈ memfd_free m → range_ok m o ∧ o ∉ U;
  fd_nodup : NoDup (memfd_free m);
  fd_used o : o ∈ U → range_ok m o;
}.

(** [ftruncate] takes a signed size. *)
Context (ftruncate_max : ∀ n, ftruncate_ok n = true → n < 2 ^ 63).

Lemma enable_ok m : memfd_free m = [] → create_ok = true → ∃ m', btm_mesh_enable m = Ok (1, m') ∧ memfd_ok m' ∅.
Proof.
  intros Hf Hc. unfold btm_mesh_enable. rewrite Hc. eexists. split; [reflexivity|]. split; cbn; rewrite ?Hf; try done.
  - intros o Ho. by apply elem_of_nil in Ho.
  - constructor.
Qed.

(** An offset goes out once, inside the file. *)
Lemma alloc_off_ok m U : memfd_ok m U →
  ∃ off m', memfd_alloc_off m = Ok (off, m') ∧
    ((off = UINT64_MAX ∧ memfd_ok m' U) ∨
     (off ≠ UINT64_MAX ∧ (off ∉ U) ∧ off + BTM_CHUNK_SIZE ≤ memfd_size m' ∧ memfd_ok m' ({[off]} ∪ U))).
Proof.
  intros [[B1 B2] B3 B4 B5 B6 B7]. unfold memfd_alloc_off. assert (HC : BTM_CHUNK_SIZE = 2097152) by done.
  destruct (memfd_free m) as [|o q] eqn:Ef.
  - rewrite (u64_small (memfd_bump m + BTM_CHUNK_SIZE)) by lia. set (m1 := mk_memfd _ (memfd_bump m + BTM_CHUNK_SIZE)).
    assert (Hmod : (memfd_bump m + BTM_CHUNK_SIZE) mod BTM_CHUNK_SIZE = 0) by (rewrite <-Z.add_mod_idemp_l, B3 by done; done).
    assert (Hnew : ∀ sz, memfd_bump m + BTM_CHUNK_SIZE ≤ sz < 2 ^ 63 → memfd_ok (m1 sz [] (memfd_free_cap m)) ({[memfd_bump m]} ∪ U)).
    { intros sz Hsz. split; cbn; [lia|done|lia|intros o Ho; by apply elem_of_nil in Ho|constructor|].
      intros o [->%elem_of_singleton|Ho]%elem_of_union; unfold range_ok; cbn; [lia|]. destruct (B7 o Ho) as (? & ? & ?). lia. }
    assert (HnU : memfd_bump m ∉ U) by (intros Ho; destruct (B7 _ Ho) as (? & ? & ?); lia).
    assert (Hmax : memfd_bump m ≠ UINT64_MAX) by (unfold UINT64_MAX; lia).
    case_match eqn:Es.
    + apply Z.ltb_lt in Es. unfold memfd_want. rewrite u64_small by lia. rewrite (proj2 (Z.ltb_ge _ _)) by lia.
      destruct (ftruncate_ok _) eqn:Et.
      * apply ftruncate_max in Et. do 2 eexists. split; [reflexivity|]. right. split_and!; [done|done|cbn; lia|apply Hnew; lia].
      * do 2 eexists. split; [reflexivity|]. left. split; [done|]. rewrite u64_small by lia.
        replace (memfd_bump m + BTM_CHUNK_SIZE - BTM_CHUNK_SIZE) with (memfd_bump m) by lia.
        split; cbn; [lia|done|done|intros o Ho; by apply elem_of_nil in Ho|constructor|exact B7].
    + apply Z.ltb_ge in Es. do 2 eexists. split; [reflexivity|]. right. split_and!; [done|done|cbn; lia|apply Hnew; lia].
  - do 2 eexists. split; [reflexivity|]. right. destruct (B5 o ltac:(left)) as [(O1 & O2 & O3) O4]. apply NoDup_cons in B6 as [N1 N2].
    split_and!; [unfold UINT64_MAX; lia|done|cbn; lia|]. split; cbn; try done.
    + intros x Hx. destruct (B5 x ltac:(by right)) as [R1 R2]. split; [done|]. intros [->%elem_of_singleton|?]%elem_of_union; done.
    + by intros x [->%elem_of_singleton|Hx]%elem_of_union; [|apply B7].
Qed.

(** An offset that comes back is kept for the next chunk, or dropped. *)
Lemma free_off_ok m U off : memfd_ok m U → off ∈ U →
  ∃ m', memfd_free_off off m = Ok (tt, m') ∧ memfd_ok m' (U ∖ {[off]}) ∧
    (memfd_free m' = off :: memfd_free m ∨ memfd_free m' = memfd_free m).
Proof.
  clear create_ok ftruncate_ok ftruncate_max. intros [B1 B3 B4 B5 B6 B7] Ho. eexists. split; [reflexivity|]. destruct (memfd_free_n m <? memfd_grow m); (split; [split; cbn|by auto]); try done.
  - intros x [->|Hx]%elem_of_cons; [split; [by apply B7|set_solver]|]. destruct (B5 x Hx). split; [done|set_solver].
  - apply NoDup_cons. split; [|done]. intros Hin. by apply (B5 off Hin).
  - intros x [Hx _]%elem_of_difference. by apply B7.
  - intros x Hx. destruct (B5 x Hx). split; [done|set_solver].
  - intros x [Hx _]%elem_of_difference. by apply B7.
Qed.

(** The last range freed is the first to go out again. *)
Lemma free_alloc_off off m m1 : memfd_free_off off m = Ok (tt, m1) → memfd_free m1 = off :: memfd_free m →
  ∃ m2, memfd_alloc_off m1 = Ok (off, m2) ∧ memfd_free m2 = memfd_free m ∧ memfd_bump m2 = memfd_bump m.
Proof. intros [= <-] H. cbn in H. unfold memfd_alloc_off. cbn. rewrite H. by eexists. Qed.
End memfd.

(** ** Pages *)

(** The keys in [a, a + n) leave the map, or move to [b, b + n) of another one. *)
Definition clear_keys {A : Type} (a n : Z) (m : gmap Z A) : gmap Z A := filter (λ kv : Z * A, ¬ (a ≤ kv.1 < a + n)) m.
Definition move_keys {A : Type} (a b n : Z) (src dst : gmap Z A) : gmap Z A :=
  kmap (λ x, x - a + b) (filter (λ kv : Z * A, a ≤ kv.1 < a + n) src) ∪ clear_keys b n dst.

(** The bytes and the descriptors in [a, a + n) read as zeros. *)
Definition zap (a n : Z) (h : heap) : heap := mk_heap (zero_range (h_mem h) a n) (h_chunks h) (clear_keys a n (h_slabs h)).

(** All that [a, a + n) held is gone. *)
Definition clear_pages (a n : Z) (h : heap) : heap := mk_heap (clear_keys a n (h_mem h)) (clear_keys a n (h_chunks h)) (clear_keys a n (h_slabs h)).

(** [b, b + n) holds what [a, a + n) of [src] held. *)
Definition move_pages (a b n : Z) (src dst : heap) : heap :=
  mk_heap (move_keys a b n (h_mem src) (h_mem dst)) (move_keys a b n (h_chunks src) (h_chunks dst)) (move_keys a b n (h_slabs src) (h_slabs dst)).

(** A header in zero pages. *)
Definition zero_header : btm_chunk := mk_chunk 0 None 0 0 0 0 0 0 0 (replicate 512 0).
Definition with_header (c : Z) (h : heap) : heap :=
  match h_chunks h !! c with Some _ => h | None => heap_set_chunk c zero_header h end.

(** A fresh anonymous mapping of the chunk [c]: zero pages. *)
Definition fresh_chunk (c : Z) (h : heap) : heap := with_header c (clear_pages c BTM_CHUNK_SIZE h).

(** The memfd: [mf_map] are the offsets the chunks are mapped at, [mf_rest] is what the
    file holds outside them, by offset. *)
Record memfile := mk_memfile {
  btm_mesh_mode : bool;
  mf_fd : memfd_t;
  mf_map : gmap Z Z;
  mf_rest : heap;
}.
Definition memfile0 : memfile := mk_memfile false memfd0 ∅ (mk_heap ∅ ∅ ∅).
Definition mf_set_fd (m : memfd_t) (f : memfile) : memfile := mk_memfile (btm_mesh_mode f) m (mf_map f) (mf_rest f).

(** The chunk [c] shows the range of the file at [off]: a fresh range is zeros, a recycled
    one what was left there. *)
Definition share_heap (c off : Z) (f : memfile) (h : heap) : heap := with_header c (move_pages off c BTM_CHUNK_SIZE (mf_rest f) h).
Definition share_file (c off : Z) (f : memfile) : memfile :=
  mk_memfile (btm_mesh_mode f) (mf_fd f) (<[c := off]> (mf_map f)) (clear_pages off BTM_CHUNK_SIZE (mf_rest f)).

(** The chunk [c] is unmapped; the file keeps its contents. *)
Definition unshare_file (c : Z) (h : heap) (f : memfile) : memfile :=
  match mf_map f !! c with
  | Some off => mk_memfile (btm_mesh_mode f) (mf_fd f) (delete c (mf_map f)) (move_pages c off BTM_CHUNK_SIZE h (mf_rest f))
  | None => f
  end.

(** The place in the file of the byte at [x]. *)
Definition file_addr (mp : gmap Z Z) (x : Z) : option Z :=
  let c := x / BTM_CHUNK_SIZE * BTM_CHUNK_SIZE in off ← mp !! c; Some (off + (x - c)).
Definition in_hole (mp : gmap Z Z) (off len x : Z) : bool :=
  match file_addr mp x with Some o => within off len o | None => false end.

(** FALLOC_FL_PUNCH_HOLE: the pages of slots in [off, off + len) of the file read as zeros,
    at whatever address they are mapped.  No header or descriptor is in such a page. *)
Definition punch_heap (off len : Z) (f : memfile) (h : heap) : heap :=
  heap_set_mem (filter (λ kv : Z * Z, in_hole (mf_map f) off len kv.1 = false) (h_mem h)) h.
Definition punch_file (off len : Z) (f : memfile) : memfile := mk_memfile (btm_mesh_mode f) (mf_fd f) (mf_map f) (heap_zero off len (mf_rest f)).

(** ** What they change *)
#[export] Instance shift_inj a b : Inj (=) (=) (λ x : Z, x - a + b).
Proof. intros x y. lia. Qed.

Lemma clear_keys_lookup {A : Type} a n (m : gmap Z A) x : clear_keys a n m !! x = if decide (a ≤ x < a + n) then None else m !! x.
Proof.
  unfold clear_keys. rewrite map_lookup_filter. destruct (m !! x); cbn; [|by case_decide].
  case_decide as Hx; case_guard as Hg; cbn in *; (done || tauto).
Qed.

Lemma move_keys_lookup {A : Type} a b n (src dst : gmap Z A) x :
  move_keys a b n src dst !! x = if decide (b ≤ x < b + n) then src !! (x - b + a) else dst !! x.
Proof.
  unfold move_keys. rewrite lookup_union, clear_keys_lookup. set (m := filter _ src).
  assert (Hk : (kmap (λ y, y - a + b) m : gmap Z A) !! x = if decide (b ≤ x < b + n) then src !! (x - b + a) else None).
  { replace x with ((x - b + a) - a + b) at 1 by lia. rewrite (lookup_kmap (M1 := gmap Z) (M2 := gmap Z) (λ y, y - a + b)). unfold m. rewrite map_lookup_filter.
    destruct (src !! (x - b + a)); cbn; [|by case_decide]. case_decide; case_guard; cbn in *; (done || lia). }
  rewrite Hk. case_decide; [|by destruct (dst !! x)]. by destruct (src !! _).
Qed.

Lemma slab_at_zap a n h d : slab_at (zap a n h) d = if decide (a ≤ d < a + n) then zero_slab else slab_at h d.
Proof. unfold slab_at, zap. cbn. rewrite clear_keys_lookup. by case_decide. Qed.

Lemma with_header_chunk c h x : h_chunks (with_header c h) !! x =
  if decide (x = c) then Some (default zero_header (h_chunks h !! c)) else h_chunks h !! x.
Proof.
  unfold with_header. destruct (h_chunks h !! c) as [v|] eqn:E; cbn; [case_decide; [by subst|done]|].
  rewrite lookup_insert. case_decide; case_decide; (done || congruence).
Qed.

Lemma with_header_rest c h : h_mem (with_header c h) = h_mem h ∧ h_slabs (with_header c h) = h_slabs h.
Proof. unfold with_header. by case_match. Qed.

(** [h'] is [h] outside the chunk [c]. *)
Record same_outside (c : Z) (h h' : heap) : Prop := {
  ou_mem x : ¬ (c ≤ x < c + BTM_CHUNK_SIZE) → h_mem h' !! x = h_mem h !! x;
  ou_chunks x : ¬ (c ≤ x < c + BTM_CHUNK_SIZE) → h_chunks h' !! x = h_chunks h !! x;
  ou_slabs x : ¬ (c ≤ x < c + BTM_CHUNK_SIZE) → h_slabs h' !! x = h_slabs h !! x;
}.

Lemma clear_outside c h : same_outside c h (clear_pages c BTM_CHUNK_SIZE h).
Proof. split; intros x Hx; cbn; rewrite clear_keys_lookup; by rewrite decide_False. Qed.

Lemma move_outside c off src h : same_outside c h (move_pages off c BTM_CHUNK_SIZE src h).
Proof. split; intros x Hx; cbn; rewrite move_keys_lookup; by rewrite decide_False. Qed.

Lemma header_outside c h h' : same_outside c h h' → same_outside c h (with_header c h').
Proof.
  intros [H1 H2 H3]. destruct (with_header_rest c h') as [E1 E2]. split; intros x Hx; rewrite ?E1, ?E2; auto.
  rewrite with_header_chunk, decide_False; auto. intros ->. unfold BTM_CHUNK_SIZE in Hx. lia.
Qed.

Lemma zap_outside c a n h : c ≤ a → a + n ≤ c + BTM_CHUNK_SIZE → same_outside c h (zap a n h).
Proof.
  intros Ha Hn. split; intros x Hx; cbn; [|done|]; [|rewrite clear_keys_lookup, decide_False by lia; done].
  unfold zero_range. rewrite map_lookup_filter. destruct (h_mem h !! x); cbn; [|done]. case_guard; [done|cbn in *; lia].
Qed.

Lemma zero_outside c a n h : c ≤ a → a + n ≤ c + BTM_CHUNK_SIZE → same_outside c h (heap_zero a n h).
Proof. intros Ha Hn. split; [|done..]. exact (ou_mem _ _ _ (zap_outside c a n h Ha Hn)). Qed.

Lemma set_chunk_outside c v h h' : same_outside c h h' → same_outside c h (heap_set_chunk c v h').
Proof.
  intros [H1 H2 H3]. split; [exact H1| |exact H3]. intros x Hx. cbn. rewrite lookup_insert_ne; [by apply H2|]. intros ->. unfold BTM_CHUNK_SIZE in Hx. lia.
Qed.

(** ** A file on which every chunk has its own range *)

(** [P]: the chunks of the process. *)
Record shared_ok (P : Z → Prop) (hd : Z → Z) (f : memfile) : Prop := {
  sh_fd : memfd_ok (mf_fd f) (map_img (mf_map f));
  sh_inj c1 c2 o : mf_map f !! c1 = Some o → mf_map f !! c2 = Some o → c1 = c2;
  sh_dom c o : mf_map f !! c = Some o → P c;
  sh_off c : P c → mf_map f !! c = Some (hd c);
}.

Lemma img_insert (offs : gmap Z Z) c off : offs !! c = None → map_img (<[c := off]> offs) = ({[off]} ∪ map_img offs : gset Z).
Proof. intros Hc. apply set_eq. intros o. by rewrite map_img_insert_notin. Qed.

Lemma img_delete (offs : gmap Z Z) c off :
  (∀ c1 c2 o, offs !! c1 = Some o → offs !! c2 = Some o → c1 = c2) → offs !! c = Some off →
  map_img (delete c offs) = (map_img offs ∖ {[off]} : gset Z).
Proof.
  intros Hinj Hc. apply set_eq. intros o. rewrite elem_of_difference, !elem_of_map_img, elem_of_singleton. split.
  - intros (x & [Hx Ho]%lookup_delete_Some). split; [by exists x|]. intros ->. by apply Hx, (Hinj c x off).
  - intros [(x & Hx) Hne]. exists x. apply lookup_delete_Some. split; [|done]. intros ->. congruence.
Qed.

Section shared.
Context {P : Z → Prop} {hd : Z → Z} {f : memfile} (HF : shared_ok P hd f).

Lemma shared_range c : P c → range_ok (mf_fd f) (hd c).
Proof. intros Hc. apply (fd_used _ _ (sh_fd _ _ _ HF)), elem_of_map_img. exists c. by apply (sh_off _ _ _ HF). Qed.

Lemma shared_small c : P c → 0 ≤ hd c ∧ hd c + BTM_CHUNK_SIZE < 2 ^ 63.
Proof.
  intros Hc. destruct (shared_range c Hc) as (H0 & _ & Hb). destruct (fd_bump _ _ (sh_fd _ _ _ HF)). pose proof (fd_size _ _ (sh_fd _ _ _ HF)). lia.
Qed.

(** Ranges of distinct chunks are apart. *)
Lemma shared_apart c1 c2 : P c1 → P c2 → c1 ≠ c2 → hd c1 + BTM_CHUNK_SIZE ≤ hd c2 ∨ hd c2 + BTM_CHUNK_SIZE ≤ hd c1.
Proof.
  intros H1 H2 Hne. destruct (shared_range c1 H1) as (_ & E1 & _), (shared_range c2 H2) as (_ & E2 & _).
  assert (hd c1 ≠ hd c2).
  { intros E. apply Hne, (sh_inj _ _ _ HF c1 c2 (hd c1)); [by apply (sh_off _ _ _ HF)|]. rewrite E. by apply (sh_off _ _ _ HF). }
  unfold BTM_CHUNK_SIZE in *. apply Z.mod_divide in E1 as [k1 E1], E2 as [k2 E2]; [|done..]. lia.
Qed.

(** The hole under part of a chunk is that part and nothing else. *)
Lemma in_hole_chunk (Hb : ∀ c, P c → c mod BTM_CHUNK_SIZE = 0) c a n x :
  P c → c ≤ a → a + n ≤ c + BTM_CHUNK_SIZE → in_hole (mf_map f) (hd c + (a - c)) n x = bool_decide (a ≤ x < a + n).
Proof.
  intros Hc Ha Hn. unfold in_hole, file_addr. cbv zeta. set (c' := x / BTM_CHUNK_SIZE * BTM_CHUNK_SIZE).
  assert (HC : BTM_CHUNK_SIZE = 2097152) by done.
  assert (Hx : c' ≤ x < c' + BTM_CHUNK_SIZE).
  { unfold c'. pose proof (Z.div_mod x BTM_CHUNK_SIZE ltac:(done)). pose proof (Z.mod_pos_bound x BTM_CHUNK_SIZE ltac:(done)). lia. }
  assert (Hin : a ≤ x < a + n → c' = c).
  { intros Hxa. pose proof (Hb c Hc) as [k E]%Z.mod_divide; [|done]. unfold c' in *. subst c. rewrite HC in *. lia. }
  destruct (mf_map f !! c') as [o|] eqn:Eo; cbn.
  - pose proof (sh_dom _ _ _ HF c' o Eo) as Hc'. pose proof (sh_off _ _ _ HF c' Hc') as E. assert (o = hd c') as -> by congruence.
    apply eq_true_iff_eq. rewrite bool_decide_eq_true, within_spec. split.
    + intros Hh. destruct (decide (c' = c)) as [Ec|Hne]; [rewrite Ec in *; lia|]. destruct (shared_apart c' c Hc' Hc Hne); lia.
    + intros Hxa. rewrite (Hin Hxa) in *. lia.
  - symmetry. apply bool_decide_eq_false. intros Hxa. rewrite (Hin Hxa), (sh_off _ _ _ HF c Hc) in Eo. done.
Qed.

Lemma punch_zero (Hb : ∀ c, P c → c mod BTM_CHUNK_SIZE = 0) c a n h :
  P c → c ≤ a → a + n ≤ c + BTM_CHUNK_SIZE → punch_heap (hd c + (a - c)) n f h = heap_zero a n h.
Proof.
  intros Hc Ha Hn. unfold punch_heap, heap_zero, zero_range. f_equal. apply map_filter_ext. intros x v _. cbn.
  rewrite (in_hole_chunk Hb c a n x Hc Ha Hn). apply bool_decide_eq_false.
Qed.

Lemma shared_punch off len : shared_ok P hd (punch_file off len f).
Proof. by destruct HF. Qed.

(** A chunk more, on a range nobody uses. *)
Lemma shared_add (P' : Z → Prop) (hd' : Z → Z) m c off :
  ¬ P c → (∀ x, P' x ↔ x = c ∨ P x) → (∀ x, P x → hd' x = hd x) → hd' c = off →
  memfd_ok m ({[off]} ∪ map_img (mf_map f)) → (off ∉ (map_img (mf_map f) : gset Z)) →
  shared_ok P' hd' (share_file c off (mf_set_fd m f)).
Proof.
  intros Hnew HP Hhd Hc Hm Ho. pose proof HF as [S1 S2 S3 S4].
  assert (Hn : mf_map f !! c = None) by (destruct (mf_map f !! c) as [o|] eqn:E; [by destruct Hnew; apply (S3 c o)|done]).
  split; cbn.
  - by rewrite img_insert.
  - intros c1 c2 o [[<- <-]|[N1 H1]]%lookup_insert_Some [[<- E]|[N2 H2]]%lookup_insert_Some; [done| | |by apply (S2 c1 c2 o)].
    + exfalso. apply Ho, elem_of_map_img. by exists c2.
    + exfalso. subst o. apply Ho, elem_of_map_img. by exists c1.
  - intros x o [[<- _]|[_ H]]%lookup_insert_Some; apply HP; [by left|right; by apply (S3 x o)].
  - intros x [->|Hx]%HP; [by rewrite lookup_insert_eq, Hc|]. rewrite lookup_insert_ne by (by intros ->). rewrite Hhd by done. by apply S4.
Qed.

(** A chunk less. *)
Lemma shared_del (P' : Z → Prop) m c h :
  P c → (∀ x, P' x ↔ P x ∧ x ≠ c) → memfd_ok m (map_img (mf_map f) ∖ {[hd c]}) → shared_ok P' hd (mf_set_fd m (unshare_file c h f)).
Proof.
  intros Hc HP Hm. pose proof HF as [S1 S2 S3 S4]. pose proof (S4 c Hc) as Ec. unfold unshare_file. rewrite Ec.
  split; cbn.
  - by rewrite (img_delete _ c (hd c)).
  - intros c1 c2 o [_ H1]%lookup_delete_Some [_ H2]%lookup_delete_Some. by apply (S2 c1 c2 o).
  - intros x o [Hne H]%lookup_delete_Some. apply HP. split; [by apply (S3 x o)|congruence].
  - intros x [Hx Hne]%HP. rewrite lookup_delete_ne by congruence. by apply S4.
Qed.

(** The headers may change as long as the offsets stay. *)
Lemma shared_ext (P' : Z → Prop) (hd' : Z → Z) : (∀ x, P' x ↔ P x) → (∀ x, P x → hd' x = hd x) → shared_ok P' hd' f.
Proof.
  intros HP Hhd. pose proof HF as [S1 S2 S3 S4]. split; [done|done|intros x o H; by apply HP, (S3 x o)|].
  intros x Hx%HP. rewrite Hhd by done. by apply S4.
Qed.

Lemma shared_set_fd m : memfd_ok m (map_img (mf_map f)) → shared_ok P hd (mf_set_fd m f).
Proof. intros Hm. by destruct HF. Qed.
End shared.
