(* ===== verification/Dll.v ===== *)
(** * Dll: doubly and singly linked lists over a store of nodes

    The partial list of a pool (slab descriptors) and its chunk list have the same shape,
    [next]/[prev] fields and a head pointer; the empty lists use [next] alone.  The lemmas
    are stated on the node store as a function, so one library serves both node types. *)

From stdpp Require Import prelude gmap.
From S2P Require Import Prelude.
Local Open Scope Z_scope.

Section dll.
Context {N : Type} (nxt prv : N → Z).

(** [dll g p l]: the nodes of [l] are linked in order, the first one back to [p]. *)
Fixpoint dll (g : Z → N) (p : Z) (l : list Z) : Prop :=
  match l with
  | [] => True
  | x :: l' => prv (g x) = p ∧ nxt (g x) = hd0 l' ∧ dll g x l'
  end.

(** [sll g l]: linked by [next] only. *)
Fixpoint sll (g : Z → N) (l : list Z) : Prop :=
  match l with
  | [] => True
  | x :: l' => nxt (g x) = hd0 l' ∧ sll g l'
  end.

Lemma dll_ext g g' p l :
  (∀ x, x ∈ l → prv (g' x) = prv (g x) ∧ nxt (g' x) = nxt (g x)) → dll g p l → dll g' p l.
Proof.
  revert p. induction l as [|x l IH]; intros p H; simpl; [done|]. intros (Hp & Hn & Hl).
  destruct (H x) as [-> ->]; [by left|]. split_and!; [done..|]. apply IH; [|done].
  intros y Hy. apply H. by right.
Qed.

Lemma sll_ext g g' l : (∀ x, x ∈ l → nxt (g' x) = nxt (g x)) → sll g l → sll g' l.
Proof.
  induction l as [|x l IH]; intros H; simpl; [done|]. intros (Hn & Hl). rewrite H by (by left).
  split; [done|]. apply IH; [|done]. intros y Hy. apply H. by right.
Qed.

(** Push on the front. *)
Lemma dll_push g g' x l :
  x ∉ l → NoDup l → dll g 0 l →
  prv (g' x) = 0 → nxt (g' x) = hd0 l →
  (∀ y, y ∈ l → nxt (g' y) = nxt (g y)) →
  (∀ y, y ∈ l → prv (g' y) = if decide (y = hd0 l) then x else prv (g y)) →
  dll g' 0 (x :: l).
Proof.
  intros Hx Hnd Hl Hp Hn Hnxt Hprv. split_and!; [done..|].
  destruct l as [|y l]; [done|]. destruct Hl as (Hyp & Hyn & Hl). apply NoDup_cons in Hnd as [Hy Hnd].
  split_and!.
  - rewrite Hprv by (by left). by rewrite decide_True.
  - by rewrite Hnxt by (by left).
  - apply (dll_ext g); [|done]. intros z Hz. split.
    + rewrite Hprv by (by right). rewrite decide_False; [done|]. simpl. by intros ->.
    + apply Hnxt. by right.
Qed.

(** In a list, the node after a prefix is linked back to the prefix's last node. *)
Lemma dll_prv g p l1 x l2 : dll g p (l1 ++ x :: l2) → prv (g x) = default p (last l1) ∧ nxt (g x) = hd0 l2.
Proof.
  revert p. induction l1 as [|a l1 IH]; intros p; simpl.
  - by intros (? & ? & _).
  - intros (_ & _ & H). destruct (IH a H) as [-> ->]. split; [|done].
    rewrite last_cons. by destruct (last l1).
Qed.

(** The links after [x] is taken out: its neighbours point at each other. *)
Definition unlinked (g g' : Z → N) (x : Z) (l : list Z) : Prop :=
  ∀ y, y ∈ l → y ≠ x →
    prv (g' y) = (if decide (y = nxt (g x)) then prv (g x) else prv (g y)) ∧
    nxt (g' y) = (if decide (y = prv (g x)) then nxt (g x) else nxt (g y)).

Lemma dll_remove_gen g g' p l1 x l2 :
  NoDup (l1 ++ x :: l2) → (∀ y, y ∈ l1 ++ x :: l2 → y ≠ 0 ∧ y ≠ p) →
  dll g p (l1 ++ x :: l2) → unlinked g g' x (l1 ++ x :: l2) → dll g' p (l1 ++ l2).
Proof.
  revert p. induction l1 as [|a l1 IH]; intros p Hnd Hne Hl Hu; simpl in *.
  - destruct Hl as (Hxp & Hxn & Hl). apply NoDup_cons in Hnd as [Hx Hnd].
    destruct l2 as [|y l2]; [done|]. destruct Hl as (Hyp & Hyn & Hl). apply NoDup_cons in Hnd as [Hy Hnd].
    destruct (Hu y) as [Hp' Hn']; [in_list|ne_list|]. simpl in Hxn.
    destruct (Hne y) as [_ Hyp0]; [in_list|].
    split_and!; [by rewrite Hp', decide_True|by rewrite Hn', decide_False by congruence|].
    apply (dll_ext g); [|done]. intros z Hz. destruct (Hu z) as [Hzp Hzn]; [in_list|ne_list|].
    destruct (Hne z) as [_ Hzp0]; [in_list|].
    rewrite Hzp, Hzn, !decide_False; [done|congruence|]. rewrite Hxn. ne_list.
  - destruct Hl as (Hap & Han & Hl). apply NoDup_cons in Hnd as [Ha Hnd].
    destruct (dll_prv g a l1 x l2 Hl) as [Hxp Hxn].
    destruct (Hu a) as [Hp' Hn']; [in_list|ne_list|].
    assert (a ≠ nxt (g x)).
    { rewrite Hxn. destruct l2 as [|y l2]; simpl; [destruct (Hne a); [in_list|done]|ne_list]. }
    split_and!; [by rewrite Hp', decide_False| |].
    + rewrite Hn', Hxp. destruct l1 as [|b l1]; simpl in *; [by rewrite decide_True|].
      rewrite decide_False; [done|]. rewrite last_cons.
      destruct (last l1) as [z|] eqn:El; simpl; [apply last_Some_elem_of in El|]; ne_list.
    + apply IH; [done| |done|].
      * intros y Hy. split; [apply Hne; by right|]. by intros ->.
      * intros y Hy Hyx. apply Hu; [by right|done].
Qed.

(** Take [x] out of the middle. *)
Lemma dll_remove g g' l1 x l2 :
  NoDup (l1 ++ x :: l2) → (∀ y, y ∈ l1 ++ x :: l2 → y ≠ 0) →
  dll g 0 (l1 ++ x :: l2) → unlinked g g' x (l1 ++ x :: l2) →
  dll g' 0 (l1 ++ l2) ∧
  hd0 (l1 ++ l2) = if decide (prv (g x) = 0) then nxt (g x) else hd0 (l1 ++ x :: l2).
Proof.
  intros Hnd Hne Hl Hu. split.
  - apply (dll_remove_gen g g' 0 l1 x l2); [done| |done|done]. intros y Hy. split; by apply Hne.
  - destruct (dll_prv g 0 l1 x l2 Hl) as [Hp Hn]. destruct l1 as [|a l1]; simpl in *.
    + by rewrite decide_True, Hn by done.
    + rewrite decide_False; [done|]. rewrite Hp, last_cons. destruct (last l1) as [z|] eqn:El; simpl.
      * apply Hne. apply last_Some_elem_of in El. in_list.
      * apply Hne. by left.
Qed.

(** The neighbours of a node: other nodes of the list, distinct unless null. *)
Lemma dll_neighbours g l1 x l2 :
  NoDup (l1 ++ x :: l2) → (∀ y, y ∈ l1 ++ x :: l2 → y ≠ 0) → dll g 0 (l1 ++ x :: l2) →
  prv (g x) ≠ x ∧ nxt (g x) ≠ x ∧ (prv (g x) = nxt (g x) → prv (g x) = 0) ∧
  (prv (g x) ≠ 0 → prv (g x) ∈ l1 ++ l2) ∧ (nxt (g x) ≠ 0 → nxt (g x) ∈ l1 ++ l2).
Proof.
  intros Hnd Hne Hl. destruct (dll_prv g 0 l1 x l2 Hl) as [-> ->].
  assert (Hx : x ≠ 0) by (apply Hne; in_list).
  apply NoDup_app in Hnd as (Hn1 & Hd & [Hx2 Hn2]%NoDup_cons).
  assert (Hp : default 0 (last l1) = 0 ∨ default 0 (last l1) ∈ l1).
  { destruct (last l1) eqn:El; [right; by apply last_Some_elem_of|by left]. }
  assert (Hn : hd0 l2 = 0 ∨ hd0 l2 ∈ l2) by (destruct l2; [by left|right; by left]).
  split_and!.
  - destruct Hp as [Hp|Hp]; [congruence|]. intros Eq. rewrite Eq in Hp. apply (Hd x Hp). by left.
  - destruct Hn as [Hn|Hn]; [congruence|]. intros Eq. by rewrite Eq in Hn.
  - intros Eq. destruct Hp as [|Hp]; [done|]. destruct Hn as [Hn|Hn]; [congruence|].
    destruct (Hd _ Hp). rewrite Eq. by right.
  - intros ?. apply elem_of_app. tauto.
  - intros ?. apply elem_of_app. tauto.
Qed.

(** Unlinking [x] by its predecessor in a singly linked list. *)
Lemma sll_remove g g' l1 x l2 :
  NoDup (l1 ++ x :: l2) → sll g (l1 ++ x :: l2) →
  (∀ y, y ∈ l1 ++ l2 → nxt (g' y) = if decide (last l1 = Some y) then hd0 l2 else nxt (g y)) →
  sll g' (l1 ++ l2).
Proof.
  induction l1 as [|a l1 IH]; cbn [app sll]; intros Hnd Hl Hg.
  - apply (sll_ext g); [|by destruct Hl]. intros y Hy. by rewrite Hg, decide_False.
  - destruct Hl as [Ha Hl]. apply NoDup_cons in Hnd as [Han Hnd]. split.
    + rewrite Hg by (by left). destruct l1 as [|b l1]; [by rewrite decide_True|].
      rewrite decide_False; [done|]. rewrite last_cons_cons. intros El%last_Some_elem_of. apply Han. in_list.
    + apply IH; [done..|]. intros y Hy. rewrite Hg by (by right).
      destruct l1 as [|b l1]; [|by rewrite last_cons_cons].
      rewrite !decide_False; [done..|]. simpl. intros [= ->]. apply Han. simpl in *. by right.
Qed.

End dll.
