(* ===== verification/Pool.v ===== *)
(** * Pool: the slab pools of src/src/partition.c

    Carving, recycling, refill, flush and reclaim.  The code is modelled against two
    interfaces: the link encoding [FlOps], and [ChunkSource], the operations
    [btm_chunk_obtain], [btm_chunk_dispose] and [btm_release_pages] of src/src/background.c.  A pool's lock is
    held across each operation, so an operation is one step on the state. *)

From stdpp Require Import prelude gmap.
From S2P Require Import Prelude Memory SizeClass Freelist Heap Dll.
Local Open Scope Z_scope.

Definition BTM_KEEP_WARM_EMPTY : Z := 2.

(** Where chunks come from and go to; [B] is the state of that component.  [obtain]
    returns 0 when there is no memory; [release] gets an address, its offset in the memfd
    and a length. *)
Class ChunkSource (B : Type) : Type := {
  btm_chunk_obtain : pool_ref → heap → B → outcome (Z * heap * B);
  btm_chunk_dispose : Z → heap → B → outcome (heap * B);
  btm_release_pages : Z → Z → Z → heap → B → heap * B;
}.

Section pool.
Context {F : FlOps} {B : Type} {CS : ChunkSource B}.

Record pstate := mk_pstate {
  p_heap : heap;
  p_pools : gmap pool_ref btm_scpool;
  p_epoch : Z;
  p_src : B;
}.

Definition set_heap (h : heap) (s : pstate) : pstate := mk_pstate h (p_pools s) (p_epoch s) (p_src s).
Definition set_pool (r : pool_ref) (p : btm_scpool) (s : pstate) : pstate :=
  mk_pstate (p_heap s) (<[r := p]> (p_pools s)) (p_epoch s) (p_src s).

(** ** Memory accesses: a fault outside the mapped chunks *)
Definition get_pool (r : pool_ref) : M pstate btm_scpool := λ s,
  match p_pools s !! r with Some p => Ok (p, s) | None => Fault end.
Definition upd_pool (r : pool_ref) (f : btm_scpool → btm_scpool) : M pstate unit := λ s,
  match p_pools s !! r with Some p => Ok (tt, set_pool r (f p) s) | None => Fault end.

Definition get_chunk (c : Z) : M pstate btm_chunk := λ s,
  match h_chunks (p_heap s) !! c with Some v => Ok (v, s) | None => Fault end.
Definition upd_chunk (c : Z) (f : btm_chunk → btm_chunk) : M pstate unit := λ s,
  match h_chunks (p_heap s) !! c with
  | Some v => Ok (tt, set_heap (heap_set_chunk c (f v) (p_heap s)) s)
  | None => Fault
  end.

Definition get_slab (d : Z) : M pstate btm_slab := λ s,
  match h_chunks (p_heap s) !! chunk_of d with
  | Some _ => Ok (slab_at (p_heap s) d, s)
  | None => Fault
  end.
Definition upd_slab (d : Z) (f : btm_slab → btm_slab) : M pstate unit := λ s,
  match h_chunks (p_heap s) !! chunk_of d with
  | Some _ => Ok (tt, set_heap (heap_set_slab d (f (slab_at (p_heap s) d)) (p_heap s)) s)
  | None => Fault
  end.

(** The links of a free slot. *)
Definition fl_get (slot : Z) : M pstate Z := λ s,
  match h_chunks (p_heap s) !! chunk_of slot with
  | Some _ => Ok (btm_fl_get (h_mem (p_heap s)) slot, s)
  | None => Fault
  end.
Definition fl_set (slot next : Z) : M pstate unit := λ s,
  match h_chunks (p_heap s) !! chunk_of slot with
  | Some _ => Ok (tt, set_heap (heap_set_mem (btm_fl_set (h_mem (p_heap s)) slot next) (p_heap s)) s)
  | None => Fault
  end.

Definition slab_of (c ptr : Z) : M pstate Z := λ s,
  match btm_slab_of (p_heap s) c ptr with Some d => Ok (d, s) | None => Fault end.

Definition chunk_obtain (r : pool_ref) : M pstate Z := λ s,
  match btm_chunk_obtain r (p_heap s) (p_src s) with
  | Ok (c, h, b) => Ok (c, mk_pstate h (p_pools s) (p_epoch s) b)
  | Fault => Fault
  | Aborted => Aborted
  | OutOfFuel => OutOfFuel
  end.
Definition chunk_dispose (c : Z) : M pstate unit := λ s,
  match btm_chunk_dispose c (p_heap s) (p_src s) with
  | Ok (h, b) => Ok (tt, mk_pstate h (p_pools s) (p_epoch s) b)
  | Fault => Fault
  | Aborted => Aborted
  | OutOfFuel => OutOfFuel
  end.

(** ** Slabs *)
Definition slab_touch (d : Z) : M pstate unit :=
  e ← gets p_epoch;
  upd_slab d (slab_set_touch e).

Definition release_pages (vaddr off len : Z) : M pstate unit := λ s,
  let '(h, b) := btm_release_pages vaddr off len (p_heap s) (p_src s) in Ok (tt, mk_pstate h (p_pools s) (p_epoch s) b).

Definition slab_decommit (d : Z) : M pstate unit :=
  s ← get_slab d;
  if decommitted s then mret tt
  else
    c ← get_chunk (chunk_of d);
    let off := (memfd_off c +% first_page s * BTM_PAGE_SIZE)%word in
    _ ← release_pages (btm_slab_data d s) off (npages s * BTM_PAGE_SIZE);
    upd_slab d (slab_set_decommitted true).

(** ** The partial list *)
Definition partial_push (r : pool_ref) (d : Z) : M pstate unit :=
  pool ← get_pool r;
  _ ← upd_slab d (slab_set_prev 0);
  _ ← upd_slab d (slab_set_next (partial pool));
  _ ← (if partial pool =? 0 then mret tt else upd_slab (partial pool) (slab_set_prev d));
  _ ← upd_pool r (pool_set_partial d);
  upd_slab d (slab_set_in_partial true).

Definition partial_remove (r : pool_ref) (d : Z) : M pstate unit :=
  s ← get_slab d;
  _ ← (if s_prev s =? 0 then upd_pool r (pool_set_partial (s_next s))
       else upd_slab (s_prev s) (slab_set_next (s_next s)));
  s ← get_slab d;
  _ ← (if s_next s =? 0 then mret tt else upd_slab (s_next s) (slab_set_prev (s_prev s)));
  _ ← upd_slab d (slab_set_prev 0);
  _ ← upd_slab d (slab_set_next 0);
  upd_slab d (slab_set_in_partial false).

(** ** Formatting a slab *)

(** [for (i = nslots; i-- > 0;)]: thread the slots, last first. *)
Fixpoint format_loop (data slot : Z) (i : nat) (next : Z) : M pstate Z :=
  match i with
  | O => mret next
  | S i' =>
      let s := data + Z.of_nat i' * slot in
      _ ← fl_set s next;
      format_loop data slot i' s
  end.

Definition slab_format (d part sc : Z) : M pstate unit :=
  let slot := btm_sc_to_size sc in
  e ← gets p_epoch;
  _ ← upd_slab d (λ s, mk_slab (free_head s) 0 0 (nslots s) (free_count s) (u16 sc) (npages s) (u16 part)
                          (first_page s) false false false false e);
  s ← get_slab d;
  let data := btm_slab_data d s in
  let nslots := u32 (npages s * BTM_PAGE_SIZE / slot) in
  _ ← upd_slab d (λ s, mk_slab (free_head s) (s_next s) (s_prev s) nslots nslots (s_sc s) (npages s) (s_part_idx s)
                          (first_page s) (in_partial s) (decommitted s) (retired s) (paged_out s) (epoch s));
  next ← format_loop data slot (Z.to_nat nslots) 0;
  upd_slab d (λ s, slab_set_free next (free_count s) s).

(** ** Recycle an empty slab or carve a new one *)
Definition slab_recycle (r : pool_ref) : M pstate Z :=
  pool ← get_pool r;
  if negb (empty_warm pool =? 0) then
    s ← get_slab (empty_warm pool);
    _ ← upd_pool r (pool_set_warm (s_next s) (u32 (warm_count pool - 1)));
    mret (empty_warm pool)
  else if negb (empty_cold pool =? 0) then
    s ← get_slab (empty_cold pool);
    _ ← upd_pool r (pool_set_cold (s_next s));
    mret (empty_cold pool)
  else mret 0.

(** The chunk [c] becomes the pool's active chunk, in front of its chunk list. *)
Definition link_active (r : pool_ref) (c : Z) : M pstate unit :=
  let part := r.1 in
  let sc := r.2 in
  _ ← upd_chunk c (chunk_set_owner_class (u16 sc) (u16 part));
  pool ← get_pool r;
  _ ← upd_chunk c (chunk_set_next (chunks pool));
  _ ← upd_chunk c (chunk_set_prev 0);
  _ ← (if chunks pool =? 0 then mret tt else upd_chunk (chunks pool) (chunk_set_prev c));
  _ ← upd_pool r (pool_set_chunks c);
  upd_pool r (pool_set_active c).

(** A new active chunk; [false] without memory. *)
Definition new_active (r : pool_ref) : M pstate bool :=
  c ← chunk_obtain r;
  if c =? 0 then mret false
  else
    _ ← link_active r c;
    mret true.

Definition slab_carve (r : pool_ref) : M pstate Z :=
  let part := r.1 in
  let sc := r.2 in
  let np := btm_sc_run_pages sc in
  pool ← get_pool r;
  let c := active pool in
  hd ← get_chunk c;
  let page := next_free_page hd in
  let owners := foldl (λ o p, <[Z.to_nat p := u16 page]> o) (page_owner hd) (seqZ page np) in
  _ ← upd_chunk c (chunk_set_carved (u32 (page + np)) owners);
  _ ← upd_chunk c (λ v, chunk_set_live (u32 (live_slabs v + 1)) v);
  _ ← upd_pool r (λ p, pool_set_nslabs (u64 (nslabs p + 1)) p);
  let d := btm_chunk_desc c page in
  _ ← upd_slab d (slab_set_run (u16 page) (u16 np));
  _ ← slab_format d part sc;
  mret d.

Definition btm_slab_new (r : pool_ref) : M pstate Z :=
  let part := r.1 in
  let sc := r.2 in
  s ← slab_recycle r;
  if negb (s =? 0) then
    _ ← slab_format s part sc;
    _ ← upd_chunk (chunk_of s) (λ v, chunk_set_live (u32 (live_slabs v + 1)) v);
    mret s
  else
    let np := btm_sc_run_pages sc in
    pool ← get_pool r;
    full ← (if active pool =? 0 then mret true
            else hd ← get_chunk (active pool); mret (BTM_PAGES_PER_CHUNK <? next_free_page hd + np));
    ok ← (if full : bool then new_active r else mret true);
    if ok : bool then slab_carve r else mret 0.

(** ** Reclaim *)
Definition chunk_unlink (r : pool_ref) (c : Z) : M pstate unit :=
  v ← get_chunk c;
  _ ← (if c_prev v =? 0 then upd_pool r (pool_set_chunks (c_next v))
       else upd_chunk (c_prev v) (chunk_set_next (c_next v)));
  v ← get_chunk c;
  _ ← (if c_next v =? 0 then mret tt else upd_chunk (c_next v) (chunk_set_prev (c_prev v)));
  _ ← upd_chunk c (chunk_set_next 0);
  upd_chunk c (chunk_set_prev 0).

(** [*pp] is the head field of the list when [prev] is 0, else the [next] field of the
    slab [prev]. *)
Definition write_pp (r : pool_ref) (warm : bool) (prev v : Z) : M pstate unit :=
  if prev =? 0 then
    if warm then upd_pool r (λ p, pool_set_warm v (warm_count p) p) else upd_pool r (pool_set_cold v)
  else upd_slab prev (slab_set_next v).

(** Unlink the slab [pp] points at, and count it out of the warm list. *)
Definition purge_unlink (r : pool_ref) (warm : bool) (prev nxt : Z) : M pstate unit :=
  _ ← write_pp r warm prev nxt;
  if warm then upd_pool r (λ p, pool_set_warm (empty_warm p) (u32 (warm_count p - 1)) p) else mret tt.

Fixpoint purge_loop (fuel : nat) (r : pool_ref) (c : Z) (warm : bool) (prev cur : Z) : M pstate unit :=
  if cur =? 0 then mret tt
  else
    match fuel with
    | O => no_fuel
    | S fuel' =>
        s ← get_slab cur;
        if chunk_of cur =? c then
          _ ← purge_unlink r warm prev (s_next s);
          purge_loop fuel' r c warm prev (s_next s)
        else purge_loop fuel' r c warm cur (s_next s)
    end.

(** The lists hold distinct descriptors, so their number bounds both loops. *)
Definition purge_empties_of_chunk (r : pool_ref) (c : Z) : M pstate unit :=
  fuel ← gets (λ s, size (h_slabs (p_heap s)));
  pool ← get_pool r;
  _ ← purge_loop fuel r c true 0 (empty_warm pool);
  pool ← get_pool r;
  purge_loop fuel r c false 0 (empty_cold pool).

(** A chunk without live slabs leaves the pool. *)
Definition chunk_release (r : pool_ref) (c : Z) : M pstate unit :=
  pool ← get_pool r;
  _ ← (if c =? active pool then upd_pool r (pool_set_active 0) else mret tt);
  _ ← chunk_unlink r c;
  chunk_dispose c.

(** An empty slab is kept, warm up to [BTM_KEEP_WARM_EMPTY], else without its pages. *)
Definition slab_park (r : pool_ref) (d : Z) : M pstate unit :=
  pool ← get_pool r;
  if warm_count pool <? BTM_KEEP_WARM_EMPTY then
    _ ← upd_slab d (slab_set_next (empty_warm pool));
    upd_pool r (λ p, pool_set_warm d (u32 (warm_count p + 1)) p)
  else
    _ ← slab_decommit d;
    _ ← upd_slab d (slab_set_next (empty_cold pool));
    upd_pool r (pool_set_cold d).

Definition slab_became_free (r : pool_ref) (d : Z) : M pstate unit :=
  _ ← partial_remove r d;
  let c := chunk_of d in
  _ ← upd_chunk c (λ v, chunk_set_live (u32 (live_slabs v - 1)) v);
  v ← get_chunk c;
  if live_slabs v =? 0 then
    _ ← purge_empties_of_chunk r c;
    chunk_release r c
  else slab_park r d.

(** ** Refill *)

(** Take up to [want] slots off the slab's list, stacking them on [local]. *)
Fixpoint refill_loop (want : nat) (d local n : Z) : M pstate (Z * Z) :=
  match want with
  | O => mret (local, n)
  | S want' =>
      sl ← get_slab d;
      if free_head sl =? 0 then mret (local, n)
      else
        let s := free_head sl in
        next ← fl_get s;
        _ ← upd_slab d (λ v, slab_set_free next (free_count v) v);
        _ ← fl_set s local;
        refill_loop want' d s (n + 1)
  end.

(** [for (i = 1; i < n; i++) tail = btm_fl_get(tail)] *)
Fixpoint tail_walk (k : nat) (tail : Z) : M pstate Z :=
  match k with
  | O => mret tail
  | S k' => next ← fl_get tail; tail_walk k' next
  end.

(** Under the lock: take the slots and account for them. *)
Definition refill_take (r : pool_ref) (slab want : Z) : M pstate (Z * Z) :=
  '(local, n) ← refill_loop (Z.to_nat want) slab 0 0;
  _ ← upd_slab slab (λ v, slab_set_free (free_head v) (u32 (free_count v - n)) v);
  _ ← upd_pool r (λ p, pool_set_outstanding (u64 (outstanding p + n)) p);
  _ ← slab_touch slab;
  v ← get_slab slab;
  _ ← (if free_count v =? 0 then partial_remove r slab else mret tt);
  mret (local, n).

(** After the lock: one slot for the caller, the others in front of the bin. *)
Definition refill_cache (local n : Z) (bin : btm_tls_bin) : M pstate (Z * btm_tls_bin) :=
  if n =? 0 then mret (0, bin)
  else
    let p := local in
    local ← fl_get local;
    let n := n - 1 in
    if n =? 0 then mret (p, bin)
    else
      tail ← tail_walk (Z.to_nat (n - 1)) local;
      _ ← fl_set tail (b_free_head bin);
      mret (p, mk_bin local (b_pool bin) (u32 (b_count bin + n))).

Definition btm_pool_refill (r : pool_ref) (bin : btm_tls_bin) (want : Z) : M pstate (Z * btm_tls_bin) :=
  pool ← get_pool r;
  slab ← (if partial pool =? 0 then
            d ← btm_slab_new r;
            _ ← (if d =? 0 then mret tt else partial_push r d);
            mret d
          else mret (partial pool));
  if slab =? 0 then mret (0, bin)
  else
    '(local, n) ← refill_take r slab want;
    refill_cache local n bin.

(** ** Flush *)

(** A slot goes back to the free list of its slab. *)
Definition slot_return (d p : Z) : M pstate unit :=
  sl ← get_slab d;
  _ ← fl_set p (free_head sl);
  _ ← upd_slab d (λ v, slab_set_free p (u32 (free_count v + 1)) v);
  slab_touch d.

(** What a returned slot does to the lists: nothing for a meshed slab, reclaim for an
    empty one, the partial list for one that was full. *)
Definition slab_put (r : pool_ref) (d : Z) : M pstate unit :=
  sl ← get_slab d;
  if retired sl then mret tt
  else if free_count sl =? nslots sl then slab_became_free r d
  else if negb (in_partial sl) then partial_push r d
  else mret tt.

Fixpoint flush_loop (k : nat) (r : pool_ref) (bin : btm_tls_bin) : M pstate btm_tls_bin :=
  match k with
  | O => mret bin
  | S k' =>
      let s := b_free_head bin in
      next ← fl_get s;
      let bin := mk_bin next (b_pool bin) (u32 (b_count bin - 1)) in
      _ ← upd_pool r (λ p, pool_set_outstanding (u64 (outstanding p - 1)) p);
      d ← slab_of (chunk_of s) s;
      _ ← slot_return d s;
      _ ← slab_put r d;
      flush_loop k' r bin
  end.

(** The loop runs while [count > keep] and takes one off each time. *)
Definition btm_pool_flush (bin : btm_tls_bin) (keep : Z) : M pstate btm_tls_bin :=
  if b_count bin <=? keep then mret bin
  else
    match b_pool bin with
    | None => fault
    | Some r => flush_loop (Z.to_nat (b_count bin - keep)) r bin
    end.

Definition btm_pool_free_one (d ptr : Z) : M pstate unit :=
  sl ← get_slab d;
  let r := (s_part_idx sl, s_sc sl) in
  _ ← slot_return d ptr;
  _ ← upd_pool r (λ p, if outstanding p =? 0 then p else pool_set_outstanding (u64 (outstanding p - 1)) p);
  slab_put r d.

End pool.
Arguments pstate : clear implicits.
