(* ===== verification/PoolInv.v ===== *)
(** * PoolInv: the invariant of a slab pool

    The abstract pool lists its chunks, its partial, warm and cold slabs, and the free
    slots of every carved slab.  [pool_inv] ties it to the pointers of the heap. *)

From stdpp Require Import prelude gmap.
From S2P Require Import Prelude Memory SizeClass Freelist Heap Dll Pool.
Local Open Scope Z_scope.

(** ** Agreement of two heaps on a set of chunks *)
Definition zero_chunk : btm_chunk := mk_chunk 0 None 0 0 0 0 0 0 0 [].
Definition chunk_at (h : heap) (c : Z) : btm_chunk := default zero_chunk (h_chunks h !! c).

Record agree_at (h h' : heap) (c : Z) : Prop := {
  ag_chunk : h_chunks h' !! c = h_chunks h !! c;
  ag_slab d : chunk_of d = c → slab_at h' d = slab_at h d;
  ag_byte x : chunk_of x = c → byte_at (h_mem h') x = byte_at (h_mem h) x;
}.
Definition agree_on (P : Z → Prop) (h h' : heap) : Prop := ∀ c, P c → agree_at h h' c.

Lemma agree_on_refl P h : agree_on P h h.
Proof. intros c _. by split. Qed.

Lemma agree_on_trans P h1 h2 h3 : agree_on P h1 h2 → agree_on P h2 h3 → agree_on P h1 h3.
Proof.
  intros H1 H2 c Hc. destruct (H1 c Hc) as [A1 A2 A3], (H2 c Hc) as [B1 B2 B3].
  split; [congruence|intros d Hd; by rewrite B2, A2|intros x Hx; by rewrite B3, A3].
Qed.

Lemma agree_on_weaken (P Q : Z → Prop) h h' : (∀ c, Q c → P c) → agree_on P h h' → agree_on Q h h'.
Proof. intros HPQ H c Hc. by apply H, HPQ. Qed.

(** ** The interface to the chunk source *)
Definition fresh_header (r : pool_ref) (v : btm_chunk) : Prop :=
  c_pool v = Some r ∧ next_free_page v = BTM_DATA_START_PAGE ∧ live_slabs v = 0 ∧
  page_owner v = replicate 512 BTM_PAGE_NONE.

(** [cs_ok C h b]: the source is consistent while its clients hold the chunks [C].  It
    hands out chunks no client holds, ready to carve, takes them back, and never touches
    a client's chunk; clients may write their own chunks freely.  [cs_step g h b h' b']:
    what the steps of the source and of its clients keep for the other users of the memory; with [g], no
    chunk was given back. *)
Class ChunkSourceLaws (B : Type) (CS : ChunkSource B) : Type := {
  cs_ok : gset Z → heap → B → Prop;
  cs_step : bool → heap → B → heap → B → Prop;
  cs_step_refl g h b : cs_step g h b h b;
  cs_step_trans g h1 b1 h2 b2 h3 b3 : cs_step g h1 b1 h2 b2 → cs_step g h2 b2 h3 b3 → cs_step g h1 b1 h3 b3;
  cs_step_client g C h h' b : cs_ok C h b → agree_on (λ c, c ∉ C) h h' → cs_step g h b h' b;
  cs_client C h b c : cs_ok C h b → c ∈ C → chunk_base c ∧ is_Some (h_chunks h !! c);
  cs_obtain C h b r : cs_ok C h b →
    ∃ c h' b', btm_chunk_obtain r h b = Ok (c, h', b') ∧ agree_on (λ c, c ∈ C) h h' ∧ (∀ g, cs_step g h b h' b') ∧
      ((c = 0 ∧ cs_ok C h' b') ∨
       ((c ∉ C) ∧ chunk_base c ∧ (∃ v, h_chunks h' !! c = Some v ∧ fresh_header r v) ∧ cs_ok ({[c]} ∪ C) h' b'));
  cs_dispose C h b c : cs_ok C h b → c ∈ C →
    ∃ h' b', btm_chunk_dispose c h b = Ok (h', b') ∧ agree_on (λ x, x ∈ C ∧ x ≠ c) h h' ∧ cs_step false h b h' b' ∧ cs_ok (C ∖ {[c]}) h' b';
  cs_release C h b c a n : cs_ok C h b → c ∈ C → c ≤ a → 0 ≤ n → a + n ≤ c + BTM_CHUNK_SIZE →
    ∃ b', btm_release_pages a (u64 (memfd_off (chunk_at h c) + (a - c))) n h b = (heap_zero a n h, b') ∧
      (∀ g, cs_step g h b (heap_zero a n h) b') ∧ cs_ok C (heap_zero a n h) b';
  cs_off C h b c : cs_ok C h b → c ∈ C → 0 ≤ memfd_off (chunk_at h c) < 2 ^ 64;
  cs_frame C h h' b : cs_ok C h b → (∀ c, c ∉ C → h_chunks h' !! c = h_chunks h !! c) →
    (∀ c, c ∈ C → memfd_off <$> h_chunks h' !! c = memfd_off <$> h_chunks h !! c) → cs_ok C h' b;
}.

(** ** The abstract pool *)
Record apool := mk_apool {
  a_chunks : list Z;
  a_partial : list Z;
  a_warm : list Z;
  a_cold : list Z;
  a_free : gmap Z (list Z);
  a_live : gset Z;
}.

Definition a_empty (a : apool) : list Z := a_warm a ++ a_cold a.

(** The slabs of a chunk that its [live_slabs] counts. *)
Definition live_set (a : apool) (c : Z) : gset Z := filter (λ d, chunk_of d = c) (a_live a).

Section inv.
Context {F : FlOps}.
Context (r : pool_ref).
Abbreviation part := (r.1).
Abbreviation sc := (r.2).
Abbreviation sz := (btm_sc_to_size sc).
Abbreviation np := (btm_sc_run_pages sc).
Abbreviation ns := (slots_of_class sc).

(** The slots of a slab whose data starts at [data]. *)
Definition slots_from (data : Z) : list Z := (λ i, data + i * sz) <$> seqZ 0 ns.

(** The first data page of the descriptor [d] in its chunk, and the slab's slots. *)
Definition page_of (d : Z) : Z := (d - chunk_of d - BTM_PAGE_SIZE) / sizeof_slab.
Definition data_of (d : Z) : Z := chunk_of d + page_of d * BTM_PAGE_SIZE.
Definition slab_slots (d : Z) : list Z := slots_from (data_of d).

(** Where a slab lives. *)
Record slab_placed (h : heap) (d : Z) : Prop := {
  sp_desc : d = btm_chunk_desc (chunk_of d) (page_of d);
  sp_first : BTM_DATA_START_PAGE ≤ page_of d;
  sp_carved : page_of d + np ≤ next_free_page (chunk_at h (chunk_of d));
  sp_owner q : page_of d ≤ q < page_of d + np → page_owner (chunk_at h (chunk_of d)) !! Z.to_nat q = Some (page_of d);
}.

(** The descriptor's fields. *)
Record slab_fields (v : btm_slab) (d : Z) (l : list Z) : Prop := {
  sf_first : first_page v = page_of d;
  sf_npages : npages v = np;
  sf_nslots : nslots v = ns;
  sf_sc : s_sc v = sc;
  sf_part : s_part_idx v = part;
  sf_retired : retired v = false;
  sf_count : free_count v = Z.of_nat (length l);
  sf_epoch : 0 ≤ epoch v < 2 ^ 32;
}.

Record slab_wf (h : heap) (a : apool) (d : Z) (l : list Z) : Prop := {
  sw_chunk : chunk_of d ∈ a_chunks a;
  sw_placed : slab_placed h d;
  sw_fields : slab_fields (slab_at h d) d l;
  sw_nodup : NoDup l;
  sw_slots : l ⊆ slab_slots d;
  sw_list : d ∉ a_cold a → free_head (slab_at h d) = hd0 l ∧ flist (h_mem h) l;
}.

(** The page table of a chunk carved up to [nfp]: run after run of [np] pages, each page
    naming the first of its run. *)
Definition page_run (nfp q : Z) : Z :=
  if (BTM_DATA_START_PAGE <=? q) && (q <? nfp) then BTM_DATA_START_PAGE + (q - BTM_DATA_START_PAGE) / np * np else BTM_PAGE_NONE.

Record chunk_wf (h : heap) (a : apool) (c : Z) : Prop := {
  cw_base : chunk_base c;
  cw_some : is_Some (h_chunks h !! c);
  cw_pool : c_pool (chunk_at h c) = Some r;
  cw_sc : c_sc (chunk_at h c) = sc;
  cw_part : c_part_idx (chunk_at h c) = part;
  cw_nfp : BTM_DATA_START_PAGE ≤ next_free_page (chunk_at h c) ≤ BTM_PAGES_PER_CHUNK;
  cw_len : length (page_owner (chunk_at h c)) = 512%nat;
  cw_live : live_slabs (chunk_at h c) = Z.of_nat (size (live_set a c));
  cw_tiles : (next_free_page (chunk_at h c) - BTM_DATA_START_PAGE) mod np = 0;
  cw_owner q : 0 ≤ q < 512 → page_owner (chunk_at h c) !! Z.to_nat q = Some (page_run (next_free_page (chunk_at h c)) q);
  cw_desc q : BTM_DATA_START_PAGE ≤ q < next_free_page (chunk_at h c) → (q - BTM_DATA_START_PAGE) mod np = 0 →
    npages (slab_at h (btm_chunk_desc c q)) = np;
}.

Record chunks_ok (h : heap) (pl : btm_scpool) (a : apool) : Prop := {
  co_head : chunks pl = hd0 (a_chunks a);
  co_dll : dll c_next c_prev (chunk_at h) 0 (a_chunks a);
  co_nodup : NoDup (a_chunks a);
  co_active : active pl = 0 ∨ active pl ∈ a_chunks a;
  co_nslabs : 0 ≤ nslabs pl < 2 ^ 64;
}.

Record lists_ok (h : heap) (pl : btm_scpool) (a : apool) : Prop := {
  lk_partial : partial pl = hd0 (a_partial a);
  lk_dll : dll s_next s_prev (slab_at h) 0 (a_partial a);
  lk_warm : empty_warm pl = hd0 (a_warm a);
  lk_warm_sll : sll s_next (slab_at h) (a_warm a);
  lk_warm_count : warm_count pl = Z.of_nat (length (a_warm a));
  lk_cold : empty_cold pl = hd0 (a_cold a);
  lk_cold_sll : sll s_next (slab_at h) (a_cold a);
}.

(** [X]: slabs an operation holds between two lists. *)
Record member_ok (h : heap) (a : apool) (X : list Z) : Prop := {
  mb_nodup : NoDup (a_partial a ++ a_empty a);
  mb_dom d : d ∈ a_partial a ++ a_empty a → is_Some (a_free a !! d);
  mb_flag d : is_Some (a_free a !! d) → in_partial (slab_at h d) = bool_decide (d ∈ a_partial a);
  mb_live d : d ∉ X → d ∈ a_live a ↔ is_Some (a_free a !! d) ∧ d ∉ a_empty a;
  mb_partial d l : a_free a !! d = Some l → d ∉ X → d ∈ a_partial a ↔ 0 < Z.of_nat (length l) < ns;
  mb_empty d l : a_free a !! d = Some l → d ∉ X → d ∈ a_empty a ↔ Z.of_nat (length l) = ns;
  mb_warm : (length (a_warm a) ≤ 2)%nat;
}.

Record pool_inv (h : heap) (pl : btm_scpool) (a : apool) (X : list Z) : Prop := {
  pi_chunks : chunks_ok h pl a;
  pi_chunk c : c ∈ a_chunks a → chunk_wf h a c;
  pi_slab d l : a_free a !! d = Some l → slab_wf h a d l;
  pi_lists : lists_ok h pl a;
  pi_member : member_ok h a X;
}.

(** A slot that left the pool: in a thread's cache or in the program's hands. *)
Definition outstanding_slot (a : apool) (s : Z) : Prop :=
  ∃ d l, a_free a !! d = Some l ∧ s ∈ slab_slots d ∧ s ∉ l.

(** ** Geometry of slots *)
Section geometry.
Context (Hsc : valid_sc sc).

Lemma elem_of_slots data x : x ∈ slots_from data ↔ ∃ i, 0 ≤ i < ns ∧ x = data + i * sz.
Proof.
  unfold slots_from. rewrite list_elem_of_fmap. split.
  - intros (i & -> & Hi%elem_of_seqZ). exists i. split; [lia|done].
  - intros (i & Hi & ->). exists i. split; [done|]. apply elem_of_seqZ. lia.
Qed.

Lemma slots_length data : length (slots_from data) = Z.to_nat ns.
Proof. unfold slots_from. rewrite length_fmap, length_seqZ. done. Qed.

Lemma ns_range : 8 ≤ ns ≤ 256.
Proof. by apply sc_slots_range. Qed.

Lemma slots_fit i : 0 ≤ i < ns → 16 ≤ sz ∧ 0 ≤ i * sz ∧ i * sz + sz ≤ np * BTM_PAGE_SIZE.
Proof.
  intros Hi. pose proof (sc_size_pos sc Hsc). unfold slots_of_class in Hi.
  pose proof (Z.mul_div_le (np * BTM_PAGE_SIZE) sz). split_and!; [lia|nia|].
  assert ((i + 1) * sz ≤ ns * sz) by (apply Z.mul_le_mono_nonneg_r; unfold slots_of_class in *; lia).
  unfold slots_of_class in *. lia.
Qed.

Lemma slots_NoDup data : NoDup (slots_from data).
Proof.
  apply NoDup_fmap_2_strong; [|apply NoDup_seqZ]. intros i j Hi%elem_of_seqZ Hj%elem_of_seqZ E.
  pose proof (sc_size_pos sc Hsc). nia.
Qed.

(** Distinct slots of one slab are at least a slot apart. *)
Lemma slots_spaced data x y : x ∈ slots_from data → y ∈ slots_from data → x ≠ y → x + sz ≤ y ∨ y + sz ≤ x.
Proof.
  rewrite !elem_of_slots. intros (i & Hi & ->) (j & Hj & ->) Hne. pose proof (sc_size_pos sc Hsc).
  destruct (Z.lt_trichotomy i j) as [Hlt|[->|Hlt]]; [left; nia|done|right; nia].
Qed.

(** The place of a slab in its chunk. *)
Lemma slab_bounds h a d :
  (∀ c, c ∈ a_chunks a → chunk_wf h a c) → chunk_of d ∈ a_chunks a → slab_placed h d →
  chunk_base (chunk_of d) ∧ 7 ≤ page_of d ∧ page_of d + np ≤ 512 ∧ 1 ≤ np ≤ 32.
Proof.
  intros Hc Hin [Hd Hf Hcv _]. destruct (Hc _ Hin) as [Hb _ _ _ _ Hn _ _].
  rewrite data_start_page in *. pose proof (sc_pages_range sc Hsc). unfold_geometry. split_and!; [done|lia..].
Qed.

Definition slab_in (d : Z) : Prop :=
  chunk_base (chunk_of d) ∧ 7 ≤ page_of d ∧ page_of d + np ≤ 512 ∧ 1 ≤ np ≤ 32.

Lemma slot_bounds d x :
  slab_in d → x ∈ slab_slots d → data_of d ≤ x ∧ x + sz ≤ data_of d + np * BTM_PAGE_SIZE ∧ 16 ≤ sz ∧
    chunk_of d + 28672 ≤ x ∧ x + sz ≤ chunk_of d + BTM_CHUNK_SIZE.
Proof.
  intros (Hb & H7 & H512 & Hnp) Hx. apply elem_of_slots in Hx as (i & Hi & ->).
  pose proof (slots_fit i Hi). unfold data_of. unfold_geometry. nia.
Qed.

Lemma slot_chunk d x : slab_in d → x ∈ slab_slots d → chunk_of x = chunk_of d.
Proof.
  intros Hd Hx. pose proof (slot_bounds d x Hd Hx) as (? & ? & ? & ? & ?).
  apply chunk_of_inside; [apply Hd|]. lia.
Qed.

Lemma slot_byte_chunk d p x : slab_in d → p ∈ slab_slots d → p ≤ x < p + sz → chunk_of x = chunk_of d.
Proof.
  intros Hd Hp Hx. pose proof (slot_bounds d p Hd Hp) as (? & ? & ? & ? & ?).
  apply chunk_of_inside; [apply Hd|]. lia.
Qed.

Lemma slot_addr d x : slab_in d → x ∈ slab_slots d → 0 < x ∧ addr_ok x.
Proof.
  intros Hd Hx. pose proof (slot_bounds d x Hd Hx) as (? & ? & ? & ? & ?).
  destruct Hd as ((? & ? & ?) & _). unfold addr_ok. unfold_geometry. lia.
Qed.

(** Every slot is 16-byte aligned. *)
Lemma slot_aligned d x : slab_in d → x ∈ slab_slots d → x mod BTM_ALIGNMENT = 0.
Proof.
  intros ((_ & Hc & _) & _) Hx. apply elem_of_slots in Hx as (i & _ & ->). unfold data_of.
  pose proof (sc_size_mod16 sc Hsc) as Hs. unfold_geometry.
  apply Z.mod_divide in Hc as [k ->]; [|lia]. apply Z.mod_divide in Hs as [m ->]; [|lia].
  apply Z.mod_divide; [lia|]. exists (k * 131072 + page_of d * 256 + i * m). lia.
Qed.

Lemma slab_slots_ok d l : slab_in d → NoDup l → l ⊆ slab_slots d → slots_ok l.
Proof.
  intros Hd Hnd Hsub. split_and!; [done| |].
  - intros x Hx. by apply (slot_addr d); [|apply Hsub].
  - intros x y Hx Hy Hne. pose proof (slots_spaced (data_of d) x y (Hsub _ Hx) (Hsub _ Hy) Hne).
    pose proof (slot_bounds d x Hd (Hsub _ Hx)). unfold apart. lia.
Qed.

(** A slot's page names its slab. *)
Lemma slot_page d x :
  slab_in d → x ∈ slab_slots d →
  let q := u32 (Z.shiftr (u64 (x - chunk_of d)) BTM_PAGE_SHIFT) in page_of d ≤ q < page_of d + np.
Proof.
  intros Hd Hx. pose proof (slot_bounds d x Hd Hx) as (H1 & H2 & H3 & H4 & H5).
  destruct Hd as ((Hc0 & _ & Hc47) & H7 & H512 & Hnp). unfold data_of in *. unfold_geometry.
  rewrite u64_small by lia. rewrite Z.shiftr_div_pow2 by lia. change (2 ^ 12) with 4096.
  assert (page_of d ≤ (x - chunk_of d) / 4096) by (apply Z.div_le_lower_bound; lia).
  assert ((x - chunk_of d) / 4096 < page_of d + np) by (apply Z.div_lt_upper_bound; lia).
  rewrite u32_small by lia. lia.
Qed.

Lemma slab_of_slot h d x :
  slab_in d → slab_placed h d → is_Some (h_chunks h !! chunk_of d) → x ∈ slab_slots d →
  btm_slab_of h (chunk_of x) x = Some d.
Proof.
  intros Hd [Ed _ _ Hown] [v Hv] Hx. rewrite (slot_chunk d x Hd Hx). unfold btm_slab_of.
  pose proof (slot_page d x Hd Hx) as Hq. cbv zeta in Hq. specialize (Hown _ Hq).
  unfold chunk_at in Hown. rewrite Hv in Hown |- *. simpl in *. rewrite Hown. simpl. by rewrite <-Ed.
Qed.

(** The page runs of different slabs never overlap. *)
Lemma runs_disjoint h d1 d2 :
  slab_in d1 → slab_in d2 → slab_placed h d1 → slab_placed h d2 → d1 ≠ d2 →
  data_of d1 + np * BTM_PAGE_SIZE ≤ data_of d2 ∨ data_of d2 + np * BTM_PAGE_SIZE ≤ data_of d1.
Proof.
  intros Hd1 Hd2 P1 P2 Hne. destruct (decide (chunk_of d1 = chunk_of d2)) as [Ec|Nc].
  - assert (Hpg : page_of d1 + np ≤ page_of d2 ∨ page_of d2 + np ≤ page_of d1).
    { destruct Hd1 as (_ & ? & ? & ?), Hd2 as (_ & ? & ? & ?).
      destruct (decide (page_of d1 + np ≤ page_of d2 ∨ page_of d2 + np ≤ page_of d1)) as [|No]; [done|].
      destruct Hne. pose proof (sp_owner _ _ P1 (Z.max (page_of d1) (page_of d2)) ltac:(lia)) as O1.
      pose proof (sp_owner _ _ P2 (Z.max (page_of d1) (page_of d2)) ltac:(lia)) as O2.
      rewrite <-Ec, O1 in O2. injection O2 as Ep. rewrite (sp_desc _ _ P1), (sp_desc _ _ P2). congruence. }
    unfold data_of in *. rewrite Ec in *. unfold_geometry. lia.
  - destruct Hd1 as ((Hc1 & Hm1 & _) & Hp1 & Hq1 & Hn1), Hd2 as ((Hc2 & Hm2 & _) & Hp2 & Hq2 & Hn2). unfold data_of. unfold_geometry.
    apply Z.mod_divide in Hm1 as [k1 E1], Hm2 as [k2 E2]; [|lia..].
    assert (k1 ≠ k2) by congruence. lia.
Qed.

(** Slots of different slabs never overlap. *)
Lemma slots_disjoint h d1 d2 x y :
  slab_in d1 → slab_in d2 → slab_placed h d1 → slab_placed h d2 →
  x ∈ slab_slots d1 → y ∈ slab_slots d2 → d1 ≠ d2 → x + sz ≤ y ∨ y + sz ≤ x.
Proof.
  intros Hd1 Hd2 P1 P2 Hx Hy Hne. pose proof (runs_disjoint h d1 d2 Hd1 Hd2 P1 P2 Hne).
  pose proof (slot_bounds d1 x Hd1 Hx). pose proof (slot_bounds d2 y Hd2 Hy). lia.
Qed.

End geometry.

End inv.
