(* ===== verification/PoolFrame.v ===== *)
(** * PoolFrame: what an operation on one pool leaves alone

    Transport of the invariant across the changes a single step makes, and the two
    predicates every specification of a pool operation is stated with: [pst], a pool in
    a consistent state beside the other clients of the chunk source, and [pframe], what
    a step on the pool does not change. *)

From stdpp Require Import prelude gmap.
From S2P Require Import Prelude Memory SizeClass Freelist Heap Dll Pool PoolInv.
Local Open Scope Z_scope.

(** Pool names: a partition index of 16 bits and a size class. *)
Definition valid_ref (r : pool_ref) : Prop := valid_sc r.2 ∧ 0 ≤ r.1 < 65536.

(** The descriptor or slot [x] lies in a mapped chunk. *)
Definition mapped (h : heap) (x : Z) : Prop := is_Some (h_chunks h !! chunk_of x).

(** There is a chunk at the base [c]. *)
Definition has_chunk (h : heap) (c : Z) : Prop := is_Some (h_chunks h !! c).

(** ** Equality up to the link fields *)
Record same_core (v v' : btm_slab) : Prop := {
  sk_head : free_head v' = free_head v;
  sk_nslots : nslots v' = nslots v;
  sk_count : free_count v' = free_count v;
  sk_sc : s_sc v' = s_sc v;
  sk_npages : npages v' = npages v;
  sk_part : s_part_idx v' = s_part_idx v;
  sk_first : first_page v' = first_page v;
  sk_retired : retired v' = retired v;
  sk_epoch : 0 ≤ epoch v < 2 ^ 32 → 0 ≤ epoch v' < 2 ^ 32;
}.

Record same_hdr (v v' : btm_chunk) : Prop := {
  sh_pool : c_pool v' = c_pool v;
  sh_sc : c_sc v' = c_sc v;
  sh_part : c_part_idx v' = c_part_idx v;
  sh_nfp : next_free_page v' = next_free_page v;
  sh_owner : page_owner v' = page_owner v;
}.

Lemma same_core_refl v : same_core v v.
Proof. by split. Qed.
Lemma same_core_trans v1 v2 v3 : same_core v1 v2 → same_core v2 v3 → same_core v1 v3.
Proof. intros [] []. split; [congruence..|auto]. Qed.
Lemma same_hdr_refl v : same_hdr v v.
Proof. by split. Qed.
#[export] Hint Resolve same_core_refl same_hdr_refl : btm.

(** A step that only writes link fields of slabs. *)
Record linkstep (h h' : heap) : Prop := {
  ls_mem : h_mem h' = h_mem h;
  ls_chunks : h_chunks h' = h_chunks h;
  ls_core d : same_core (slab_at h d) (slab_at h' d);
}.

Lemma linkstep_refl h : linkstep h h.
Proof. split; auto with btm. Qed.

(** ** Steps local to a list of chunks *)
Definition touches (L : list Z) (h h' : heap) : Prop :=
  (∀ c, c ∉ L → agree_at h h' c) ∧
  (∀ c, c ∈ L → memfd_off <$> h_chunks h' !! c = memfd_off <$> h_chunks h !! c).

Lemma memfd_lookup h c : has_chunk h c → memfd_off <$> h_chunks h !! c = Some (memfd_off (chunk_at h c)).
Proof. intros [v Hv]. unfold chunk_at. by rewrite Hv. Qed.

Lemma touches_refl L h : touches L h h.
Proof. split; [|done]. intros c _. by apply (agree_on_refl (λ _, True)). Qed.

Lemma touches_trans L h1 h2 h3 : touches L h1 h2 → touches L h2 h3 → touches L h1 h3.
Proof.
  intros [A1 A2] [B1 B2]. split; [|intros c Hc; by rewrite B2, A2].
  by apply (agree_on_trans (λ c, c ∉ L) h1 h2 h3).
Qed.

Lemma touches_slab L h d v : chunk_of d ∈ L → touches L h (heap_set_slab d v h).
Proof.
  intros Hd. split; [|done]. intros c Hc. split; [done| |done].
  intros y Hy. rewrite slab_at_set, decide_False; [done|]. by intros ->; rewrite Hy in Hd.
Qed.

Lemma chunk_at_set h c v y : chunk_at (heap_set_chunk c v h) y = if decide (y = c) then v else chunk_at h y.
Proof.
  unfold chunk_at, heap_set_chunk. cbn [h_chunks]. rewrite lookup_insert.
  destruct (decide (c = y)), (decide (y = c)); simpl; congruence.
Qed.

Lemma touches_chunk L h c v v0 :
  c ∈ L → h_chunks h !! c = Some v0 → memfd_off v = memfd_off v0 → touches L h (heap_set_chunk c v h).
Proof.
  intros Hd Hc Hm. split.
  - intros y Hy. split; [|done..]. cbn. rewrite lookup_insert_ne; [done|]. by intros ->.
  - intros y Hy. cbn. destruct (decide (c = y)) as [<-|Hne].
    + rewrite lookup_insert_eq, Hc. simpl. by rewrite Hm.
    + by rewrite lookup_insert_ne.
Qed.

Lemma touches_mem L h m :
  (∀ x, chunk_of x ∉ L → byte_at m x = byte_at (h_mem h) x) → touches L h (heap_set_mem m h).
Proof. intros Hm. split; [|done]. intros c Hc. split; [done..|]. intros x <-. by apply Hm. Qed.
#[export] Hint Resolve touches_refl touches_slab touches_chunk touches_mem : btm.

(** Links of slabs in known chunks. *)
Lemma touches_links L h h' :
  linkstep h h' → (∀ d, chunk_of d ∉ L → slab_at h' d = slab_at h d) → touches L h h'.
Proof.
  intros [Hm Hc _] Hs. split; [|intros; by rewrite Hc]. intros c Hcl. split; [by rewrite Hc| |by rewrite Hm].
  intros d <-. by apply Hs.
Qed.

(** ** Transport of the invariant's parts *)
Section transport.
Context {F : FlOps} (r : pool_ref).

Lemma chunks_ok_frame h h' pl pl' a a' :
  h_chunks h' = h_chunks h → chunks pl' = chunks pl → active pl' = active pl → nslabs pl' = nslabs pl → a_chunks a' = a_chunks a →
  chunks_ok h pl a → chunks_ok h' pl' a'.
Proof.
  intros Hc Hpc Hpa Hpn Ha [H1 H2 H3 H4 H5]. split; rewrite ?Ha, ?Hpc, ?Hpa, ?Hpn; try done.
  apply (dll_ext c_next c_prev (chunk_at h)); [|done]. intros x _. unfold chunk_at. by rewrite Hc.
Qed.

Lemma chunk_wf_frame h h' a a' c :
  h_chunks h' = h_chunks h → (∀ d, npages (slab_at h' d) = npages (slab_at h d)) → a_live a' = a_live a →
  chunk_wf r h a c → chunk_wf r h' a' c.
Proof.
  intros Hc Hn Hl [H1 H2 H3 H4 H5 H6 H7 H8 H9 H10 H11].
  assert (E : chunk_at h' c = chunk_at h c) by (unfold chunk_at; by rewrite Hc).
  split; rewrite ?E, ?Hc; try done; [unfold live_set in *; by rewrite Hl|]. intros q Hq Hm. rewrite Hn. by apply H11.
Qed.

Lemma slab_placed_hdr h h' d :
  same_hdr (chunk_at h (chunk_of d)) (chunk_at h' (chunk_of d)) → slab_placed r h d → slab_placed r h' d.
Proof. intros [_ _ _ Hn Ho] [H1 H2 H3 H4]. split; rewrite ?Hn, ?Ho; done. Qed.

Lemma slab_fields_core v v' d l : same_core v v' → slab_fields r v d l → slab_fields r v' d l.
Proof. intros [K1 K2 K3 K4 K5 K6 K7 K8 K9] [H1 H2 H3 H4 H5 H6 H7 H8]. split; [congruence..|auto]. Qed.

Lemma slab_wf_link h h' a a' d l :
  linkstep h h' → a_chunks a' = a_chunks a → (d ∉ a_cold a' → d ∉ a_cold a) → slab_wf r h a d l → slab_wf r h' a' d l.
Proof.
  intros [Hm Hc Hk] Ha Hcold [H1 H2 H3 H4 H5 H6]. split; rewrite ?Ha, ?Hm; try done.
  - apply (slab_placed_hdr h); [|done]. unfold chunk_at. rewrite Hc. auto with btm.
  - by apply (slab_fields_core (slab_at h d)).
  - intros Hn. rewrite (sk_head _ _ (Hk d)). by apply H6, Hcold.
Qed.

Lemma slab_at_same h h' d : h_slabs h' = h_slabs h → slab_at h' d = slab_at h d.
Proof. intros H. unfold slab_at. by rewrite H. Qed.

Lemma slab_wf_hdr h h' a a' d l :
  h_mem h' = h_mem h → h_slabs h' = h_slabs h → same_hdr (chunk_at h (chunk_of d)) (chunk_at h' (chunk_of d)) →
  chunk_of d ∈ a_chunks a' → a_cold a' = a_cold a → slab_wf r h a d l → slab_wf r h' a' d l.
Proof.
  intros Hm Hs Hh Hin Hcold [H1 H2 H3 H4 H5 H6]. split; rewrite ?Hcold, ?Hm, ?(slab_at_same h h' d Hs); try done.
  by apply (slab_placed_hdr h).
Qed.

Lemma chunk_wf_hdr h h' a a' c :
  has_chunk h' c → same_hdr (chunk_at h c) (chunk_at h' c) → (∀ d, npages (slab_at h' d) = npages (slab_at h d)) →
  live_slabs (chunk_at h' c) = Z.of_nat (size (live_set a' c)) → chunk_wf r h a c → chunk_wf r h' a' c.
Proof.
  intros Hc [E1 E2 E3 E4 E5] Hn Hl [H1 H2 H3 H4 H5 H6 H7 H8 H9 H10 H11]. split; rewrite ?E1, ?E2, ?E3, ?E4, ?E5; try done.
  intros q Hq Hm. rewrite Hn. by apply H11.
Qed.

(** The lists survive a step that keeps the links of their slabs. *)
Lemma lists_ok_frame h h' pl pl' a a' :
  (∀ d, d ∈ a_partial a ++ a_empty a → s_next (slab_at h' d) = s_next (slab_at h d) ∧ s_prev (slab_at h' d) = s_prev (slab_at h d)) →
  a_partial a' = a_partial a → a_warm a' = a_warm a → a_cold a' = a_cold a →
  partial pl' = partial pl → empty_warm pl' = empty_warm pl → empty_cold pl' = empty_cold pl → warm_count pl' = warm_count pl →
  lists_ok h pl a → lists_ok h' pl' a'.
Proof.
  intros Hl E1 E2 E3 P1 P2 P3 P4 [H1 H2 H3 H4 H5 H6 H7]. unfold a_empty in Hl.
  split; rewrite ?E1, ?E2, ?E3, ?P1, ?P2, ?P3, ?P4; try done.
  - apply (dll_ext s_next s_prev (slab_at h)); [|done]. intros x Hx. destruct (Hl x); [in_list|done].
  - apply (sll_ext s_next (slab_at h)); [|done]. intros x Hx. destruct (Hl x); [in_list|done].
  - apply (sll_ext s_next (slab_at h)); [|done]. intros x Hx. destruct (Hl x); [in_list|done].
Qed.

(** ** Consequences of the invariant *)
Section facts.
Context (Hr : valid_ref r).
Context {h : heap} {pl : btm_scpool} {a : apool} {X : list Z} (I : pool_inv r h pl a X).

Lemma inv_chunk_base c : c ∈ a_chunks a → chunk_base c.
Proof. intros Hc. apply (pi_chunk _ _ _ _ _ I c Hc). Qed.

Lemma inv_slab_chunk d l : a_free a !! d = Some l → chunk_of d ∈ a_chunks a.
Proof. intros Hd. apply (pi_slab _ _ _ _ _ I d l Hd). Qed.

Lemma inv_slab_in d l : a_free a !! d = Some l → slab_in r d.
Proof.
  intros Hd. destruct (pi_slab _ _ _ _ _ I d l Hd) as [H1 H2 _ _ _ _].
  apply (slab_bounds r (proj1 Hr) h a); [apply (pi_chunk _ _ _ _ _ I)|done..].
Qed.

Lemma inv_mapped d l : a_free a !! d = Some l → mapped h d.
Proof. intros Hd. apply (pi_chunk _ _ _ _ _ I (chunk_of d)), (inv_slab_chunk d l Hd). Qed.

Lemma inv_slab_pos d l : a_free a !! d = Some l → 0 < d.
Proof.
  intros Hd. destruct (inv_slab_in d l Hd) as ((Hc & _) & ? & _).
  rewrite (sp_desc _ _ _ (sw_placed _ _ _ _ _ (pi_slab _ _ _ _ _ I d l Hd))).
  unfold btm_chunk_desc, sizeof_slab. glia.
Qed.

Lemma inv_listed d : d ∈ a_partial a ++ a_empty a → 0 < d ∧ mapped h d ∧ chunk_of d ∈ a_chunks a.
Proof.
  intros Hd. destruct (mb_dom _ _ _ _ (pi_member _ _ _ _ _ I) d Hd) as [l Hl].
  split_and!; [by eapply inv_slab_pos|by eapply inv_mapped|by eapply inv_slab_chunk].
Qed.

Lemma inv_slots_ok d l : a_free a !! d = Some l → slots_ok l.
Proof.
  intros Hd. destruct (pi_slab _ _ _ _ _ I d l Hd) as [_ _ _ Hn Hs _].
  apply (slab_slots_ok r (proj1 Hr) d); [by apply (inv_slab_in d l)|done..].
Qed.

(** Slots of different slabs are disjoint. *)
Lemma inv_disjoint d1 l1 d2 l2 x y :
  a_free a !! d1 = Some l1 → a_free a !! d2 = Some l2 → d1 ≠ d2 →
  x ∈ slab_slots r d1 → y ∈ slab_slots r d2 → x + btm_sc_to_size r.2 ≤ y ∨ y + btm_sc_to_size r.2 ≤ x.
Proof.
  intros H1 H2 Hne Hx Hy. apply (slots_disjoint r (proj1 Hr) h d1 d2); try done.
  - by apply (inv_slab_in d1 l1).
  - by apply (inv_slab_in d2 l2).
  - by apply (pi_slab _ _ _ _ _ I d1 l1).
  - by apply (pi_slab _ _ _ _ _ I d2 l2).
Qed.
End facts.
End transport.

(** ** The invariant reads only the pool's own chunks *)
Section agree.
Context {F : FlOps} {FL : FlLaws F} (r : pool_ref) (Hr : valid_ref r).

Lemma pool_inv_agree h h' pl a X :
  agree_on (λ c, c ∈ a_chunks a) h h' → pool_inv r h pl a X → pool_inv r h' pl a X.
Proof.
  intros Hag I. pose proof I as [I1 I2 I3 I4 I5].
  assert (Hc : ∀ c, c ∈ a_chunks a → chunk_at h' c = chunk_at h c).
  { intros c Hin. unfold chunk_at. by rewrite (ag_chunk _ _ _ (Hag c Hin)). }
  assert (Hs : ∀ d, is_Some (a_free a !! d) → slab_at h' d = slab_at h d).
  { intros d [l Hl]. apply (ag_slab _ _ _ (Hag _ (inv_slab_chunk r I d l Hl))). done. }
  split.
  - destruct I1 as [C1 C2 C3 C4 C5]. split; try done. apply (dll_ext c_next c_prev (chunk_at h)); [|done].
    intros c Hin. by rewrite Hc.
  - intros c Hin. destruct (I2 c Hin) as [H1 H2 H3 H4 H5 H6 H7 H8 H9 H10 H11].
    split; rewrite ?(Hc c Hin), ?(ag_chunk _ _ _ (Hag c Hin)); try done. intros q Hq Hm.
    rewrite (ag_slab _ _ _ (Hag c Hin)); [by apply H11|]. apply chunk_of_desc; [done|]. unfold_geometry. rewrite data_start_page in Hq. lia.
  - intros d l Hl. destruct (I3 d l Hl) as [H1 H2 H3 H4 H5 H6]. split; try done.
    + apply (slab_placed_hdr r h); [|done]. rewrite Hc by done. auto with btm.
    + rewrite Hs; [done|by exists l].
    + rewrite Hs by (by exists l). intros Hn. destruct (H6 Hn) as [H6a H6b]. split; [done|].
      apply (flist_ext (h_mem h)); [|done]. intros p x Hp Hx. symmetry. apply (ag_byte _ _ _ (Hag _ H1)).
      pose proof (sc_size_pos r.2 (proj1 Hr)).
      apply (slot_byte_chunk r (proj1 Hr) d p); [by apply (inv_slab_in r Hr I d l)|by apply H5|lia].
  - apply (lists_ok_frame h h' pl pl a); try done. intros d Hd. rewrite Hs; [done|]. by apply (mb_dom _ _ _ _ I5).
  - destruct I5 as [M1 M2 M3 M4 M5 M6 M7]. split; try done. intros d Hd. rewrite Hs by done. by apply M3.
Qed.
End agree.

(** ** Bytes of the program *)
Section user.
Context (r : pool_ref).

(** Address [x] lies in a slot that left the pool. *)
Definition user_byte (a : apool) (x : Z) : Prop :=
  ∃ p, outstanding_slot r a p ∧ p ≤ x < p + btm_sc_to_size r.2.

Lemma user_byte_chunk `{FlOps} h pl a X x :
  valid_ref r → pool_inv r h pl a X → user_byte a x → chunk_of x ∈ a_chunks a.
Proof.
  intros Hr I (p & (d & l & Hd & Hp & _) & Hx).
  rewrite (slot_byte_chunk r (proj1 Hr) d p x); [by apply (inv_slab_chunk r I d l)| |done|done].
  by apply (inv_slab_in r Hr I d l).
Qed.

Lemma user_byte_mono a a' x :
  (∀ p, outstanding_slot r a p → outstanding_slot r a' p) → user_byte a x → user_byte a' x.
Proof. intros H (p & Hp & Hx). exists p. auto. Qed.
End user.

(** ** A pool among the clients of the chunk source

    [E] is the set of chunks the other pools hold. *)
Section pst.
Context {F : FlOps} {B : Type} {CS : ChunkSource B} {CL : ChunkSourceLaws B CS}.

Record pst (E : gset Z) (r : pool_ref) (s : pstate B) (pl : btm_scpool) (a : apool) (X : list Z) : Prop := {
  ps_ref : valid_ref r;
  ps_pool : p_pools s !! r = Some pl;
  ps_inv : pool_inv r (p_heap s) pl a X;
  ps_src : cs_ok (list_to_set (a_chunks a) ∪ E) (p_heap s) (p_src s);
  ps_apart c : c ∈ a_chunks a → c ∉ E;
  ps_epoch : 0 ≤ p_epoch s < 2 ^ 32;
}.

(** What a step of pool [r] keeps: the other pools, the epoch, every chunk in [E], and
    the bytes in [P]. *)
Record pframe (g : bool) (E : gset Z) (r : pool_ref) (P : Z → Prop) (s s' : pstate B) : Prop := {
  pf_pools r' : r' ≠ r → p_pools s' !! r' = p_pools s !! r';
  pf_epoch : p_epoch s' = p_epoch s;
  pf_heap : agree_on (λ c, c ∈ E) (p_heap s) (p_heap s');
  pf_src : cs_step g (p_heap s) (p_src s) (p_heap s') (p_src s');
  pf_bytes x : P x → byte_at (h_mem (p_heap s')) x = byte_at (h_mem (p_heap s)) x;
}.

Lemma pframe_refl {g} E r P s : pframe g E r P s s.
Proof. split; try done. apply cs_step_refl. Qed.

Lemma pframe_trans {g} E r P s1 s2 s3 : pframe g E r P s1 s2 → pframe g E r P s2 s3 → pframe g E r P s1 s3.
Proof.
  intros [A1 A2 A3 A5 A4] [B1 B2 B3 B5 B4]. split.
  - intros r' Hr. by rewrite B1, A1.
  - congruence.
  - by eapply agree_on_trans.
  - by eapply cs_step_trans.
  - intros x Hx. by rewrite B4, A4.
Qed.

Lemma pframe_weaken {g} E r (P Q : Z → Prop) s s' : (∀ x, Q x → P x) → pframe g E r P s s' → pframe g E r Q s s'.
Proof. intros H [A1 A2 A3 A5 A4]. split; auto. Qed.

(** One step inside the pool's own chunks, and of the source. *)
Lemma pst_step_src {g} E r s pl a X h' b' pl' a' X' (P : Z → Prop) :
  pst E r s pl a X → a_chunks a' = a_chunks a → touches (a_chunks a) (p_heap s) h' → pool_inv r h' pl' a' X' →
  (∀ x, P x → byte_at (h_mem h') x = byte_at (h_mem (p_heap s)) x) →
  cs_step g (p_heap s) (p_src s) h' b' → cs_ok (list_to_set (a_chunks a) ∪ E) h' b' →
  ∀ pools', pools' = <[r := pl']> (p_pools s) →
  let s' := mk_pstate h' pools' (p_epoch s) b' in
  pst E r s' pl' a' X' ∧ pframe g E r P s s'.
Proof.
  intros [S1 S2 S3 S4 S5 S6] Ha [T1 T2] I HP Hst Hok pools' -> s'. split; split; try done.
  - simpl. apply lookup_insert_eq.
  - by rewrite Ha.
  - by rewrite Ha.
  - intros r' Hr'. simpl. by rewrite lookup_insert_ne.
  - intros c Hc. apply T1. intros Hin. by apply (S5 c Hin).
Qed.

(** The source sees what its clients do to their own chunks. *)
Lemma touches_src {g} L C h h' b :
  cs_ok C h b → (∀ c, c ∈ L → c ∈ C) → touches L h h' → cs_step g h b h' b ∧ cs_ok C h' b.
Proof.
  intros Hok HL [T1 T2]. split.
  - apply (cs_step_client _ _ _ _ _ Hok). intros c Hc. apply T1. auto.
  - apply (cs_frame _ h); [done|..].
    + intros c Hc. apply T1. auto.
    + intros c Hc. destruct (decide (c ∈ L)) as [Hin|Hn]; [by apply T2|]. by rewrite (ag_chunk _ _ _ (T1 c Hn)).
Qed.

Lemma pst_step {g} E r s pl a X h' pl' a' X' (P : Z → Prop) :
  pst E r s pl a X → a_chunks a' = a_chunks a → touches (a_chunks a) (p_heap s) h' → pool_inv r h' pl' a' X' →
  (∀ x, P x → byte_at (h_mem h') x = byte_at (h_mem (p_heap s)) x) →
  ∀ pools', pools' = <[r := pl']> (p_pools s) →
  let s' := mk_pstate h' pools' (p_epoch s) (p_src s) in
  pst E r s' pl' a' X' ∧ pframe g E r P s s'.
Proof.
  intros HS Ha HT I HP. destruct (touches_src (g := g) _ _ _ _ _ (ps_src _ _ _ _ _ _ HS) ltac:(set_solver) HT) as [Hst Hok].
  by apply (pst_step_src E r s pl a X h' (p_src s) pl' a' X' P HS).
Qed.
End pst.
