(* ===== verification/PoolRun.v ===== *)
(** * PoolRun: how the list operations of a pool run

    For each operation on the linked lists of a pool: it does not fault when its nodes
    are in mapped chunks, and what it changes. *)

From stdpp Require Import prelude gmap.
From S2P Require Import Prelude Memory SizeClass Freelist Heap Dll Pool PoolInv PoolFrame.
Local Open Scope Z_scope.

Section run.
Context {F : FlOps} {B : Type} {CS : ChunkSource B}.
Implicit Types s : pstate B.

(** ** Single accesses *)
Lemma run_get_slab s d : mapped (p_heap s) d → get_slab d s = Ok (slab_at (p_heap s) d, s).
Proof. intros [v Hv]. unfold get_slab. by rewrite Hv. Qed.

Lemma run_upd_slab s d f :
  mapped (p_heap s) d → upd_slab d f s = Ok (tt, set_heap (heap_set_slab d (f (slab_at (p_heap s) d)) (p_heap s)) s).
Proof. intros [v Hv]. unfold upd_slab. by rewrite Hv. Qed.

Lemma run_fl_get s x : mapped (p_heap s) x → fl_get x s = Ok (btm_fl_get (h_mem (p_heap s)) x, s).
Proof. intros [v Hv]. unfold fl_get. by rewrite Hv. Qed.

Lemma run_fl_set s x n :
  mapped (p_heap s) x →
  fl_set x n s = Ok (tt, set_heap (heap_set_mem (btm_fl_set (h_mem (p_heap s)) x n) (p_heap s)) s).
Proof. intros [v Hv]. unfold fl_set. by rewrite Hv. Qed.

Lemma run_get_pool s r pl : p_pools s !! r = Some pl → get_pool r s = Ok (pl, s).
Proof. intros H. unfold get_pool. by rewrite H. Qed.

Lemma run_upd_pool s r pl f : p_pools s !! r = Some pl → upd_pool r f s = Ok (tt, set_pool r (f pl) s).
Proof. intros H. unfold upd_pool. by rewrite H. Qed.

Lemma run_get_chunk s c : has_chunk (p_heap s) c → get_chunk c s = Ok (chunk_at (p_heap s) c, s).
Proof. intros [v Hv]. unfold get_chunk, chunk_at. by rewrite Hv. Qed.

Lemma run_upd_chunk s c f :
  has_chunk (p_heap s) c → upd_chunk c f s = Ok (tt, set_heap (heap_set_chunk c (f (chunk_at (p_heap s) c)) (p_heap s)) s).
Proof. intros [v Hv]. unfold upd_chunk, chunk_at. by rewrite Hv. Qed.

Lemma has_chunk_set_eq h c v : has_chunk (heap_set_chunk c v h) c.
Proof. unfold has_chunk. cbn. rewrite lookup_insert_eq. by eexists. Qed.
Lemma has_chunk_set h c v x : has_chunk h x → has_chunk (heap_set_chunk c v h) x.
Proof.
  unfold has_chunk. cbn. intros Hx. destruct (decide (c = x)) as [<-|]; [rewrite lookup_insert_eq; by eexists|].
  by rewrite lookup_insert_ne.
Qed.

Lemma mapped_set_slab h d v x : mapped (heap_set_slab d v h) x ↔ mapped h x.
Proof. done. Qed.
Lemma mapped_set_mem h m x : mapped (heap_set_mem m h) x ↔ mapped h x.
Proof. done. Qed.

End run.

(** Run one access of a composed operation; the side conditions are the mappings. *)
Ltac pcbn :=
  cbn [p_heap p_pools p_epoch p_src set_heap set_pool] in *.
Ltac hcbn := pcbn; cbn [h_mem h_chunks h_slabs heap_set_mem heap_set_slab heap_set_chunk] in *.
Ltac cside := first [eassumption | apply has_chunk_set_eq | apply has_chunk_set; cside].
Ltac pside := first [eassumption | (unfold mapped in *; pcbn; eassumption) | (pcbn; rewrite ?lookup_insert_eq; done)].
Ltac pstep :=
  first
    [ erewrite run_bind by (apply run_get_slab; pside)
    | erewrite run_bind by (apply run_upd_slab; pside)
    | erewrite run_bind by (apply run_get_pool; pside)
    | erewrite run_bind by (apply run_upd_pool; pside)
    | erewrite run_bind by (apply run_get_chunk; cside)
    | erewrite run_bind by (apply run_upd_chunk; cside)
    | erewrite run_bind by (apply run_fl_get; pside)
    | erewrite run_bind by (apply run_fl_set; pside)
    | erewrite run_bind by (apply run_ret)
    | erewrite run_bind by (apply run_gets) ]; pcbn.

(** The descriptor at any address after a few writes. *)
Ltac slab_cases :=
  intros y; rewrite !slab_at_set; gcases; subst; first [done | tauto | congruence].

Section lists.
Context {F : FlOps} {B : Type} {CS : ChunkSource B}.
Implicit Types s : pstate B.

(** ** The partial list *)
Lemma partial_push_run s r pl d :
  p_pools s !! r = Some pl → mapped (p_heap s) d → (partial pl ≠ 0 → mapped (p_heap s) (partial pl)) → partial pl ≠ d →
  ∃ h', partial_push r d s = Ok (tt, mk_pstate h' (<[r := pool_set_partial d pl]> (p_pools s)) (p_epoch s) (p_src s)) ∧
    h_mem h' = h_mem (p_heap s) ∧ h_chunks h' = h_chunks (p_heap s) ∧
    ∀ y, slab_at h' y =
      if decide (y = d) then slab_set_in_partial true (slab_set_next (partial pl) (slab_set_prev 0 (slab_at (p_heap s) d)))
      else if decide (y = partial pl ∧ partial pl ≠ 0) then slab_set_prev d (slab_at (p_heap s) y)
      else slab_at (p_heap s) y.
Proof.
  intros Hp Hd Hn Hne. unfold partial_push. pstep. pstep. pstep.
  destruct (Z.eqb_spec (partial pl) 0) as [E|E].
  - pstep. pstep. rewrite run_upd_slab by pside. eexists. split; [reflexivity|]. pcbn. split_and!; [done..|].
    slab_cases.
  - specialize (Hn E). pstep. pstep. rewrite run_upd_slab by pside. eexists. split; [reflexivity|]. pcbn. split_and!; [done..|].
    slab_cases.
Qed.

(** The neighbours of [d] and [d] itself are distinct nodes. *)
Definition unlinkable (h : heap) (d prev next : Z) : Prop :=
  (prev ≠ 0 → mapped h prev) ∧ (next ≠ 0 → mapped h next) ∧ prev ≠ d ∧ next ≠ d ∧ (prev = next → prev = 0).

Lemma partial_remove_run s r pl d :
  p_pools s !! r = Some pl → mapped (p_heap s) d →
  let v := slab_at (p_heap s) d in
  unlinkable (p_heap s) d (s_prev v) (s_next v) →
  ∃ h', partial_remove r d s =
      Ok (tt, mk_pstate h' (<[r := if decide (s_prev v = 0) then pool_set_partial (s_next v) pl else pl]> (p_pools s))
              (p_epoch s) (p_src s)) ∧
    h_mem h' = h_mem (p_heap s) ∧ h_chunks h' = h_chunks (p_heap s) ∧
    ∀ y, slab_at h' y =
      if decide (y = d) then slab_set_in_partial false (slab_set_next 0 (slab_set_prev 0 v))
      else if decide (y = s_prev v ∧ s_prev v ≠ 0) then slab_set_next (s_next v) (slab_at (p_heap s) y)
      else if decide (y = s_next v ∧ s_next v ≠ 0) then slab_set_prev (s_prev v) (slab_at (p_heap s) y)
      else slab_at (p_heap s) y.
Proof.
  intros Hp Hd v (Hpm & Hnm & Hpd & Hnd & Hpn). assert (Hv : slab_at (p_heap s) d = v) by done. clearbody v.
  unfold partial_remove. pstep. rewrite Hv.
  destruct (Z.eqb_spec (s_prev v) 0) as [E|E]; [rewrite decide_True by done|rewrite decide_False by done].
  - pstep. pstep. rewrite Hv. destruct (Z.eqb_spec (s_next v) 0) as [E'|E'].
    + pstep. pstep. pstep. rewrite run_upd_slab by pside. eexists. split; [reflexivity|]. pcbn. split_and!; [done..|].
      slab_cases.
    + specialize (Hnm E'). pstep. pstep. pstep. rewrite run_upd_slab by pside.
      eexists. split; [reflexivity|]. pcbn. split_and!; [done..|].
      slab_cases.
  - specialize (Hpm E). pstep. pstep. rewrite !slab_at_set, (decide_False (P := d = _)) by done. rewrite Hv.
    rewrite (insert_id (p_pools s)) by done.
    destruct (Z.eqb_spec (s_next v) 0) as [E'|E'].
    + pstep. pstep. pstep. rewrite run_upd_slab by pside. eexists. split; [by destruct s|]. pcbn. split_and!; [done..|].
      slab_cases.
    + specialize (Hnm E'). pstep. pstep. pstep. rewrite run_upd_slab by pside. eexists. split; [by destruct s|]. pcbn.
      split_and!; [done..|].
      assert (s_prev v ≠ s_next v) by tauto. slab_cases.
Qed.

End lists.
