(* ===== verification/PoolLists.v ===== *)
(** * PoolLists: the linked lists of a pool preserve its invariant

    The partial list, the two empty lists and the leave/enter of an operation's own slab. *)

From stdpp Require Import prelude gmap.
From S2P Require Import Prelude Memory SizeClass Freelist Heap Dll Pool PoolInv PoolFrame PoolRun.
Local Open Scope Z_scope.

(** ** Abstract assignments *)
Definition a_set_chunks (l : list Z) (a : apool) : apool := mk_apool l (a_partial a) (a_warm a) (a_cold a) (a_free a) (a_live a).
Definition a_set_partial (l : list Z) (a : apool) : apool := mk_apool (a_chunks a) l (a_warm a) (a_cold a) (a_free a) (a_live a).
Definition a_set_warm (l : list Z) (a : apool) : apool := mk_apool (a_chunks a) (a_partial a) l (a_cold a) (a_free a) (a_live a).
Definition a_set_cold (l : list Z) (a : apool) : apool := mk_apool (a_chunks a) (a_partial a) (a_warm a) l (a_free a) (a_live a).
Definition a_set_free (m : gmap Z (list Z)) (a : apool) : apool := mk_apool (a_chunks a) (a_partial a) (a_warm a) (a_cold a) m (a_live a).
Definition a_set_live (l : gset Z) (a : apool) : apool := mk_apool (a_chunks a) (a_partial a) (a_warm a) (a_cold a) (a_free a) l.

Ltac acbn :=
  unfold a_empty in *;
  cbn [a_chunks a_partial a_warm a_cold a_free a_live a_set_chunks a_set_partial a_set_warm a_set_cold a_set_free a_set_live] in *.

(** Link fields written in a few places leave every core as it was. *)
Ltac core_cases Hs := let y := fresh in intros y; rewrite Hs; gcases; subst; by split.

Section lists.
Context {F : FlOps} {B : Type} {CS : ChunkSource B} {CL : ChunkSourceLaws B CS}.
Context (E : gset Z) (r : pool_ref).
Context {g : bool}.
Abbreviation pframe := (PoolFrame.pframe g).
Implicit Types s : pstate B.
Abbreviation ns := (slots_of_class r.2).

(** A link step preserves the invariant when the lists and the flags are in order. *)
Lemma inv_link h h' pl pl' a a' X :
  pool_inv r h pl a X → linkstep h h' → chunks pl' = chunks pl → active pl' = active pl → nslabs pl' = nslabs pl →
  a_chunks a' = a_chunks a → a_free a' = a_free a → a_live a' = a_live a →
  (∀ d, is_Some (a_free a !! d) → d ∉ a_cold a' → d ∉ a_cold a) →
  lists_ok h' pl' a' → member_ok r h' a' X → pool_inv r h' pl' a' X.
Proof.
  intros [I1 I2 I3 I4 I5] L P1 P2 P3 A1 A2 A3 Hc Hl Hm. split; try done.
  - apply (chunks_ok_frame h h' pl pl' a a'); try done. apply L.
  - intros c. rewrite A1. intros Hin. apply (chunk_wf_frame r h h' a a'); [apply L|intros d; apply L|done|by apply I2].
  - intros d l. rewrite A2. intros Hd. apply (slab_wf_link r h h' a a' d l); try done; [|by apply I3].
    apply Hc. by exists l.
Qed.

(** The end of a link step: [S] the state before, [T] the chunks touched. *)
Ltac link_done S T Hm LS :=
  match goal with |- ∃ s' pl', _ = Ok (_, s') ∧ pst _ _ s' pl' ?a' ?X' ∧ _ => 
    match type of T with touches _ (p_heap ?s) ?h' =>
    match goal with H : _ = Ok (_, mk_pstate h' (<[_ := ?pl']> _) _ _) |- _ =>
      cut (pool_inv r h' pl' a' X');
      [ let I' := fresh in intros I';
        destruct (pst_step (g := g) E r s _ _ _ h' pl' a' X' (λ _, True) S eq_refl T I' ltac:(by rewrite Hm) _ eq_refl);
        eexists _, _; split_and!; [exact H|done|done|try apply LS; try done; try (gcase; done)..]
      | ]
    end end end.

(** A push on the partial list. *)
Lemma partial_push_spec s pl a X d :
  pst E r s pl a X → is_Some (a_free a !! d) → d ∉ a_partial a → d ∉ a_empty a → d ∈ X →
  ∃ s' pl', partial_push r d s = Ok (tt, s') ∧ pst E r s' pl' (a_set_partial (d :: a_partial a) a) X ∧
    pframe E r (λ _, True) s s' ∧ same_core (slab_at (p_heap s) d) (slab_at (p_heap s') d) ∧
    outstanding pl' = outstanding pl.
Proof.
  intros S [l Hd] Hp He HX. pose proof (ps_inv _ _ _ _ _ _ S) as I. pose proof (ps_ref _ _ _ _ _ _ S) as Hr.
  pose proof (pi_lists _ _ _ _ _ I) as [L1 L2 L3 L4 L5 L6 L7].
  pose proof (pi_member _ _ _ _ _ I) as [M1 M2 M3 M4 M5 M6 M7].
  pose proof (inv_slab_pos r Hr I d l Hd) as Hpos.
  assert (Hh : ∀ x, x ∈ a_partial a → 0 < x ∧ mapped (p_heap s) x ∧ chunk_of x ∈ a_chunks a).
  { intros x Hx. apply (inv_listed r Hr I). in_list. }
  destruct (partial_push_run s r pl d) as (h' & Hrun & Hm & Hc & Hs).
  { apply S. } { by apply (inv_mapped r I d l). }
  { rewrite L1. destruct (a_partial a) as [|x lp]; [done|]. intros _. apply Hh. by left. }
  { rewrite L1. destruct (a_partial a) as [|x lp]; simpl; [lia|]. ne_list. }
  assert (LS : linkstep (p_heap s) h') by (split; [done..|]; core_cases Hs).
  assert (Hpart : partial pl = 0 ∨ partial pl ∈ a_partial a).
  { rewrite L1. destruct (a_partial a); [by left|right; by left]. }
  assert (T : touches (a_chunks a) (p_heap s) h').
  { apply touches_links; [done|]. intros y Hy. rewrite Hs. gcases; subst; try done; destruct Hy.
    all: first [by apply (inv_slab_chunk r I d l) | apply Hh; naive_solver]. }
  link_done S T Hm LS.
  apply (inv_link (p_heap s) h' pl _ a); try done.
  - split; acbn; try done.
    + apply (dll_push s_next s_prev (slab_at (p_heap s))); try done.
      * by apply NoDup_app in M1 as [? _].
      * rewrite Hs. by rewrite decide_True.
      * rewrite Hs. by rewrite decide_True.
      * intros y Hy. rewrite Hs. gcases; subst; done.
      * intros y Hy. rewrite Hs, <-L1. pose proof (Hh y Hy).
        gcases; subst; simpl; first [done | tauto | (exfalso; intuition lia)].
    + apply (sll_ext s_next (slab_at (p_heap s))); [|done]. intros y Hy.
      rewrite Hs. gcases; subst; first [done | (destruct He; in_list)].
    + apply (sll_ext s_next (slab_at (p_heap s))); [|done]. intros y Hy.
      rewrite Hs. gcases; subst; first [done | (destruct He; in_list)].
  - split; acbn; try done.
    + apply NoDup_cons. split; [in_list|done].
    + intros y. rewrite <-app_comm_cons, elem_of_cons. intros [->|Hy]; [by exists l|by apply M2].
    + intros y Hy. destruct (decide (y = d)) as [->|Hne].
      * rewrite Hs, decide_True by done. symmetry. apply bool_decide_eq_true. by left.
      * trans (in_partial (slab_at (p_heap s) y)); [rewrite Hs; gcases; done|].
        rewrite M3 by done. apply bool_decide_ext. rewrite elem_of_cons. tauto.
    + intros y ly Hy HyX. rewrite elem_of_cons, (M5 y ly Hy HyX). split; [intros [->|]; done|by right].
Qed.

(** A slab taken off the partial list. *)
Lemma partial_remove_spec s pl a X d l1 l2 :
  pst E r s pl a X → a_partial a = l1 ++ d :: l2 → d ∈ X →
  ∃ s' pl', partial_remove r d s = Ok (tt, s') ∧ pst E r s' pl' (a_set_partial (l1 ++ l2) a) X ∧
    pframe E r (λ _, True) s s' ∧ linkstep (p_heap s) (p_heap s') ∧ outstanding pl' = outstanding pl.
Proof.
  intros S Hp HX. pose proof (ps_inv _ _ _ _ _ _ S) as I. pose proof (ps_ref _ _ _ _ _ _ S) as Hr.
  pose proof (pi_lists _ _ _ _ _ I) as [L1 L2 L3 L4 L5 L6 L7].
  pose proof (pi_member _ _ _ _ _ I) as [M1 M2 M3 M4 M5 M6 M7].
  assert (Hh : ∀ x, x ∈ a_partial a → 0 < x ∧ mapped (p_heap s) x ∧ chunk_of x ∈ a_chunks a).
  { intros x Hx. apply (inv_listed r Hr I). in_list. }
  rewrite Hp in M1, L1, L2, Hh. acbn.
  assert (Hnd : NoDup (l1 ++ d :: l2)) by (by apply NoDup_app in M1 as [? _]).
  assert (Hnz : ∀ y, y ∈ l1 ++ d :: l2 → y ≠ 0) by (intros y Hy; apply Hh in Hy; lia).
  destruct (dll_neighbours s_next s_prev _ l1 d l2 Hnd Hnz L2) as (N1 & N2 & N3 & N4 & N5).
  assert (Hsub : ∀ y, y ∈ l1 ++ l2 → y ∈ l1 ++ d :: l2) by (intros y Hy; in_list).
  destruct (partial_remove_run s r pl d) as (h' & Hrun & Hm & Hc & Hs).
  { apply S. } { apply Hh. in_list. }
  { split_and!; try done; intros Hz; by apply Hh, Hsub; auto. }
  assert (LS : linkstep (p_heap s) h') by (split; [done..|]; core_cases Hs).
  set (v := slab_at (p_heap s) d) in *.
  assert (Hoth : ∀ y, y ∉ l1 ++ d :: l2 → slab_at h' y = slab_at (p_heap s) y).
  { intros y Hy. rewrite Hs. gcases; destruct_and?; subst; try done; destruct Hy.
    all: first [in_list | by apply Hsub; auto]. }
  assert (T : touches (a_chunks a) (p_heap s) h').
  { apply touches_links; [done|]. intros y Hy. apply Hoth. intros Hin. destruct Hy. by apply Hh. }
  link_done S T Hm LS.
  destruct (dll_remove s_next s_prev (slab_at (p_heap s)) (slab_at h') l1 d l2) as [D1 D2]; try done.
  { intros y Hy Hyd. pose proof (Hnz y Hy). rewrite Hs, decide_False by done. fold v.
    gcases; destruct_and?; subst; simpl; try done; try tauto; exfalso; intuition congruence. }
  assert (Hemp : ∀ y, y ∈ a_warm a ++ a_cold a → y ∉ l1 ++ d :: l2).
  { apply NoDup_app in M1 as (_ & Hdj & _). intros y Hy Hin. by apply (Hdj y Hin). }
  apply (inv_link (p_heap s) h' pl _ a); acbn; try done; [by gcase..| |].
  - split; acbn; try done; try (gcase; done).
    + rewrite D2. fold v. gcase; [done|]. by rewrite L1.
    + apply (sll_ext s_next (slab_at (p_heap s))); [|done]. intros y Hy. rewrite Hoth; [done|]. apply Hemp. in_list.
    + apply (sll_ext s_next (slab_at (p_heap s))); [|done]. intros y Hy. rewrite Hoth; [done|]. apply Hemp. in_list.
  - assert (Hd : d ∉ l1 ++ l2).
    { apply NoDup_app in Hnd as (_ & Hdj & [Hd2 _]%NoDup_cons). intros [Hin|Hin]%elem_of_app; [|done].
      apply (Hdj d Hin). by left. }
    split; acbn; try done.
    + rewrite <-app_assoc in *. simpl in M1. by apply NoDup_app in M1 as (? & ? & []%NoDup_cons); apply NoDup_app; set_solver.
    + intros y Hy. apply M2. rewrite Hp. list_mem. tauto.
    + intros y Hy. destruct (decide (y = d)) as [->|Hne].
      * rewrite Hs, decide_True by done. symmetry. by apply bool_decide_eq_false.
      * trans (in_partial (slab_at (p_heap s) y)).
        { rewrite Hs, decide_False by done. repeat (destruct (decide _)); done. }
        rewrite M3, Hp by done. apply bool_decide_ext. list_mem. tauto.
    + intros y ly Hy HyX. rewrite <-(M5 y ly Hy HyX), Hp. list_mem.
      split; [tauto|]. intros [|[->|]]; [tauto|done|tauto].
Qed.

End lists.
