(* ===== verification/PoolSlab.v ===== *)
(** * PoolSlab: formatting, recycling and carving a slab *)

From stdpp Require Import prelude gmap.
From S2P Require Import Prelude Memory SizeClass Freelist Heap Dll Pool PoolInv PoolFrame PoolRun PoolLists.
Local Open Scope Z_scope.

Section slab.
Context {F : FlOps} {FL : FlLaws F} {B : Type} {CS : ChunkSource B} {CL : ChunkSourceLaws B CS}.
Context (E : gset Z) (r : pool_ref).
Context {g : bool}.
Abbreviation pframe := (PoolFrame.pframe g).
Implicit Types s : pstate B.
Abbreviation ns := (slots_of_class r.2).
Abbreviation sz := (btm_sc_to_size r.2).
Abbreviation np := (btm_sc_run_pages r.2).

(** ** The limbo of an operation *)
Lemma member_ok_more h a X X' : (∀ d, d ∈ X → d ∈ X') → member_ok r h a X → member_ok r h a X'.
Proof.
  intros H [M1 M2 M3 M4 M5 M6 M7]. split; try done.
  - intros d Hd. apply M4. auto.
  - intros d l Hl Hd. apply M5; auto.
  - intros d l Hl Hd. apply M6; auto.
Qed.

Lemma pst_more s pl a X X' : (∀ d, d ∈ X → d ∈ X') → pst E r s pl a X → pst E r s pl a X'.
Proof. intros H [? ? [? ? ? ? M] ? ?]. split; try done. split; try done. by eapply member_ok_more. Qed.

(** The operation's slab is where its free count puts it. *)
Definition settled (a : apool) (d : Z) : Prop :=
  ∀ l, a_free a !! d = Some l →
    (d ∈ a_partial a ↔ 0 < Z.of_nat (length l) < ns) ∧ (d ∈ a_empty a ↔ Z.of_nat (length l) = ns).

Lemma pst_settle s pl a d :
  pst E r s pl a [d] → settled a d → (d ∈ a_live a ↔ is_Some (a_free a !! d) ∧ d ∉ a_empty a) → pst E r s pl a [].
Proof.
  intros [? ? [? ? ? ? [M1 M2 M3 M4 M5 M6 M7]] ? ?] Hset Hlive. split; try done. split; try done.
  assert (Hx : ∀ x, x ≠ d → x ∉ [d]) by (intros x Hx ->%list_elem_of_singleton; done).
  split; try done.
  - intros x _. destruct (decide (x = d)) as [->|Hne]; [done|auto].
  - intros x l Hl _. destruct (decide (x = d)) as [->|Hne]; [by apply Hset|auto].
  - intros x l Hl _. destruct (decide (x = d)) as [->|Hne]; [by apply Hset|auto].
Qed.

(** ** Full and empty slabs *)
Lemma full_slab d l :
  valid_ref r → NoDup l → l ⊆ slab_slots r d → Z.of_nat (length l) = ns → ∀ p, p ∈ slab_slots r d → p ∈ l.
Proof.
  intros [Hsc _] Hnd Hsub Hlen p Hp. pose proof (ns_range r Hsc).
  assert (Hp' : l ≡ₚ slab_slots r d).
  { apply submseteq_length_Permutation; [by apply NoDup_submseteq|]. unfold slab_slots. rewrite slots_length. lia. }
  by rewrite Hp'.
Qed.

(** A slab that is carved but has no free list yet. *)
Record blank_slab (h : heap) (a : apool) (d : Z) : Prop := {
  bs_new : a_free a !! d = None;
  bs_chunk : chunk_of d ∈ a_chunks a;
  bs_placed : slab_placed r h d;
  bs_first : first_page (slab_at h d) = page_of d;
  bs_npages : npages (slab_at h d) = np;
}.

(** Forget a slab whose slots are all free and that no list holds. *)
Lemma delete_member h a d X :
  member_ok r h a X → d ∉ a_partial a ++ a_empty a → d ∉ a_live a →
  member_ok r h (a_set_free (delete d (a_free a)) a) X.
Proof.
  intros [M1 M2 M3 M4 M5 M6 M7] Hd Hl. split; acbn; try done.
  - intros y Hy. rewrite lookup_delete_ne; [by apply M2|]. by intros ->.
  - intros y. rewrite lookup_delete_is_Some. intros [_ ?]. by apply M3.
  - intros y Hy. rewrite lookup_delete_is_Some, M4 by done. split; [|tauto].
    intros [? ?]. split_and!; try done. intros <-. destruct Hl. by apply M4.
  - intros y l. rewrite lookup_delete_Some. intros [_ ?]. by apply M5.
  - intros y l. rewrite lookup_delete_Some. intros [_ ?]. by apply M6.
Qed.

Lemma outstanding_delete a d :
  (∀ l, a_free a !! d = Some l → ∀ p, p ∈ slab_slots r d → p ∈ l) →
  ∀ p, outstanding_slot r (a_set_free (delete d (a_free a)) a) p ↔ outstanding_slot r a p.
Proof.
  intros Hf p. split; intros (x & l & Hx & Hp & Hn); exists x, l; acbn.
  - apply lookup_delete_Some in Hx as [_ Hx]. done.
  - split_and!; [|done..]. apply lookup_delete_Some. split; [|done]. intros <-. by apply Hn, (Hf l).
Qed.

(** ** Recycling *)
Definition a_pop (d : Z) (warm cold : list Z) (a : apool) : apool :=
  a_set_free (delete d (a_free a)) (a_set_warm warm (a_set_cold cold a)).

Lemma inv_pop h h' pl pl' a X d warm cold :
  pool_inv r h pl a X → linkstep h h' → (∀ y, in_partial (slab_at h' y) = in_partial (slab_at h y)) → a_warm a ++ a_cold a ≡ₚ d :: warm ++ cold → d ∉ X →
  (∀ x, x ∈ a_cold a → x = d ∨ x ∈ cold) → (length warm ≤ 2)%nat →
  chunks pl' = chunks pl → active pl' = active pl → nslabs pl' = nslabs pl → lists_ok h' pl' (a_pop d warm cold a) →
  pool_inv r h' pl' (a_pop d warm cold a) X.
Proof.
  intros [I1 I2 I3 I4 I5] LS Hip Hperm HX Hcold Hw P1 P2 P3 HL. pose proof I5 as [M1 M2 M3 M4 M5 M6 M7]. acbn.
  assert (Hin : ∀ x, x ∈ a_warm a ++ a_cold a ↔ x = d ∨ x ∈ warm ++ cold).
  { intros x. rewrite Hperm. apply elem_of_cons. }
  assert (Hd : d ∉ a_partial a ++ warm ++ cold).
  { rewrite Hperm in M1. apply NoDup_app in M1 as (_ & Hdj & [Hn _]%NoDup_cons).
    intros [Hin1|Hin2]%elem_of_app; [|done]. apply (Hdj d Hin1). by left. }
  split; try done.
  - by apply (chunks_ok_frame h h' pl pl' a); try done; apply LS.
  - intros c Hc. apply (chunk_wf_frame r h h' a); [apply LS|intros y; apply LS|done|by apply I2].
  - intros x l. unfold a_pop. acbn. rewrite lookup_delete_Some. intros [Hne Hx].
    apply (slab_wf_link r h h' a); [done..| |by apply I3].
    unfold a_pop. acbn. intros Hn Hc. destruct (Hcold x Hc); congruence.
  - unfold a_pop. split; acbn; try done.
    + rewrite Hperm in M1. apply NoDup_app in M1 as (? & Hdj & [? ?]%NoDup_cons). apply NoDup_app.
      split_and!; [done| |done]. intros x Hx Hx'. apply (Hdj x Hx). by right.
    + intros y Hy. rewrite lookup_delete_is_Some. split; [by intros ->|]. apply M2.
      rewrite elem_of_app, Hin. list_mem. tauto.
    + intros y. rewrite lookup_delete_is_Some. intros [_ ?]. rewrite Hip. by apply M3.
    + intros y Hy. rewrite M4, lookup_delete_is_Some, Hin by done. intuition congruence.
    + intros y l. rewrite lookup_delete_Some. intros [_ ?]. by apply M5.
    + intros y l. rewrite lookup_delete_Some. intros [Hne Hy] HyX. rewrite <-(M6 y l Hy HyX), Hin. intuition congruence.
Qed.

Lemma empty_slab s pl a X d :
  pst E r s pl a X → d ∈ a_empty a → d ∉ X →
  ∃ l, a_free a !! d = Some l ∧ slab_wf r (p_heap s) a d l ∧ (∀ p, p ∈ slab_slots r d → p ∈ l) ∧ 0 < d ∧ mapped (p_heap s) d.
Proof.
  intros S Hd HX. pose proof (ps_inv _ _ _ _ _ _ S) as I. destruct (pi_member _ _ _ _ _ I) as [M1 M2 M3 M4 M5 M6 M7].
  destruct (M2 d) as [l Hl]; [in_list|]. pose proof (pi_slab _ _ _ _ _ I d l Hl) as W. exists l. split_and!; try done.
  - apply full_slab; [apply S|apply W|apply W|by apply (M6 d l Hl)].
  - by apply (inv_slab_pos r (ps_ref _ _ _ _ _ _ S) I d l).
  - by apply (inv_mapped r I d l).
Qed.

(** What is known of the slab [d] a recycle or a carve hands to [slab_format]. *)
Definition popped (s s' : pstate B) (a a' : apool) (d : Z) : Prop :=
  d ≠ 0 ∧ blank_slab (p_heap s') a' d ∧ (∀ p, outstanding_slot r a' p ↔ outstanding_slot r a p).

Lemma slab_recycle_spec s pl a :
  pst E r s pl a [] →
  (a_empty a = [] ∧ slab_recycle r s = Ok (0, s)) ∨
  ∃ d s' pl' a', slab_recycle r s = Ok (d, s') ∧ pst E r s' pl' a' [] ∧ pframe E r (λ _, True) s s' ∧
    popped s s' a a' d ∧ a_partial a' = a_partial a.
Proof.
  intros S. pose proof (ps_inv _ _ _ _ _ _ S) as I. pose proof (pi_lists _ _ _ _ _ I) as [L1 L2 L3 L4 L5 L6 L7].
  pose proof (ps_pool _ _ _ _ _ _ S) as Hp. pose proof (mb_warm _ _ _ _ (pi_member _ _ _ _ _ I)) as Hw2.
  destruct (a_warm a) as [|d warm] eqn:Ew; [destruct (a_cold a) as [|d cold] eqn:Ec|].
  - left. split; [by unfold a_empty; rewrite Ew, Ec|]. unfold slab_recycle. pstep. by rewrite L3, L6.
  - right. destruct (empty_slab s pl a [] d S) as (l & Hl & W & Hf & Hpos & Hmap).
    { unfold a_empty. rewrite Ew, Ec. by left. } { apply not_elem_of_nil. }
    destruct L7 as [L7a L7b]. set (pl' := pool_set_cold (hd0 cold) pl).
    assert (I' : pool_inv r (p_heap s) pl' (a_pop d [] cold a) []).
    { apply (inv_pop (p_heap s) _ pl); [done|apply linkstep_refl|done|..]; acbn; rewrite ?Ew, ?Ec; try done; [apply not_elem_of_nil|set_solver]. }
    destruct (pst_step (g := g) E r s pl a [] _ pl' (a_pop d [] cold a) [] (λ _, True) S eq_refl (touches_refl _ _) I' ltac:(done) _ eq_refl) as [S' F'].
    eexists d, _, pl', _. split_and!; [|exact S'|exact F'| |done].
    + unfold slab_recycle. pstep. rewrite L3, L6. simpl. rewrite (proj2 (Z.eqb_neq d 0)) by lia. simpl.
      pstep. pstep. by rewrite L7a.
    + split_and!; [lia| |].
      * split; acbn; [apply lookup_delete_eq|apply W..].
      * unfold a_pop. intros p. rewrite <-(outstanding_delete a d); [done|]. intros l' Hl'. by simplify_eq.
  - right. destruct (empty_slab s pl a [] d S) as (l & Hl & W & Hf & Hpos & Hmap).
    { unfold a_empty. rewrite Ew. by left. } { apply not_elem_of_nil. }
    destruct L4 as [L4a L4b]. set (pl' := pool_set_warm (hd0 warm) (u32 (warm_count pl - 1)) pl).
    assert (I' : pool_inv r (p_heap s) pl' (a_pop d warm (a_cold a) a) []).
    { apply (inv_pop (p_heap s) _ pl); [done|apply linkstep_refl|done|..]; acbn; rewrite ?Ew; try done; [apply not_elem_of_nil|set_solver|simpl in *; lia|].
      unfold a_pop. split; acbn; try done. simpl. rewrite L5. simpl in *. rewrite u32_small by lia. lia. }
    destruct (pst_step (g := g) E r s pl a [] _ pl' (a_pop d warm (a_cold a) a) [] (λ _, True) S eq_refl (touches_refl _ _) I' ltac:(done) _ eq_refl) as [S' F'].
    eexists d, _, pl', _. split_and!; [|exact S'|exact F'| |done].
    + unfold slab_recycle. pstep. rewrite L3. simpl. rewrite (proj2 (Z.eqb_neq d 0)) by lia. simpl.
      pstep. pstep. by rewrite L4a.
    + split_and!; [lia| |].
      * split; acbn; [apply lookup_delete_eq|apply W..].
      * unfold a_pop. intros p. rewrite <-(outstanding_delete a d); [done|]. intros l' Hl'. by simplify_eq.
Qed.

(** ** Formatting *)
Lemma format_loop_run (data slot : Z) (L : list Z) (i : nat) s :
  (∀ j, (j < i)%nat → L !! j = Some (data + Z.of_nat j * slot)) → (∀ x, x ∈ L → mapped (p_heap s) x) →
  slots_ok L → flist (h_mem (p_heap s)) (drop i L) →
  ∃ m', format_loop data slot i (hd0 (drop i L)) s = Ok (hd0 L, set_heap (heap_set_mem m' (p_heap s)) s) ∧ flist m' L ∧
    ∀ x, (∀ p, p ∈ L → x < p ∨ p + 8 ≤ x) → byte_at m' x = byte_at (h_mem (p_heap s)) x.
Proof.
  revert s. induction i as [|i IH]; intros s HL Hm Hok Hf; simpl.
  - exists (h_mem (p_heap s)). rewrite drop_0 in *. split_and!; [|done..]. by destruct s as [[] ? ? ?].
  - assert (Hi : L !! i = Some (data + Z.of_nat i * slot)) by (apply HL; lia).
    assert (Hdrop : drop i L = (data + Z.of_nat i * slot) :: drop (S i) L) by (by apply drop_S).
    set (p := data + Z.of_nat i * slot) in *.
    assert (HpL : p ∈ L) by (by eapply list_elem_of_lookup_2).
    assert (Hok' : slots_ok (p :: drop (S i) L)).
    { rewrite <-Hdrop. destruct Hok as (Hnd & Hok). apply (slots_ok_sub L); [by apply sublist_NoDup with L, sublist_drop| |by split].
      intros x Hx. eapply elem_of_submseteq; [exact Hx|]. apply submseteq_drop. }
    destruct (slots_ok_head _ _ Hok') as (Hp0 & Hpa & _ & Hap).
    erewrite run_bind by (apply run_fl_set; apply Hm, HpL).
    edestruct (IH (set_heap (heap_set_mem (btm_fl_set (h_mem (p_heap s)) p (hd0 (drop (S i) L))) (p_heap s)) s)) as (m' & Hrun & Hfl & Hb).
    + intros j Hj. apply HL. lia.
    + done.
    + done.
    + rewrite Hdrop. pcbn. apply flist_push; [done..| |done|done]. by apply slots_ok_tail with p.
    + exists m'. rewrite Hdrop in Hrun. simpl in Hrun. split_and!; [exact Hrun|done|].
      intros x Hx. rewrite Hb by done. pcbn. apply fl_set_outside. by apply Hx.
Qed.

(** The descriptor after formatting. *)
Definition formatted (e d : Z) : btm_slab :=
  mk_slab (hd0 (slab_slots r d)) 0 0 ns ns r.2 np r.1 (page_of d) false false false false e.

Lemma slab_format_run s d :
  valid_ref r → slab_in r d → mapped (p_heap s) d →
  first_page (slab_at (p_heap s) d) = page_of d → npages (slab_at (p_heap s) d) = np →
  ∃ h', slab_format d r.1 r.2 s = Ok (tt, mk_pstate h' (p_pools s) (p_epoch s) (p_src s)) ∧
    h_chunks h' = h_chunks (p_heap s) ∧
    (∀ y, slab_at h' y = if decide (y = d) then formatted (p_epoch s) d else slab_at (p_heap s) y) ∧
    flist (h_mem h') (slab_slots r d) ∧
    (∀ x, (∀ p, p ∈ slab_slots r d → x < p ∨ p + 8 ≤ x) → byte_at (h_mem h') x = byte_at (h_mem (p_heap s)) x).
Proof.
  intros [Hsc Hpt] Hin Hmap Hfp Hnp. pose proof (ns_range r Hsc) as Hns. pose proof (sc_size_pos r.2 Hsc) as Hsz.
  unfold slab_format. pstep. pstep. pstep. rewrite slab_at_set, decide_True by done. cbn [npages].
  rewrite Hnp. change (np * BTM_PAGE_SIZE / sz) with ns. rewrite (u32_small ns) by lia. pstep.
  assert (Hdata : ∀ v, first_page v = page_of d → btm_slab_data d v = data_of d).
  { intros v Hv. unfold btm_slab_data, data_of. by rewrite Hv. }
  rewrite Hdata by done. rewrite slab_at_set, decide_True by done.
  edestruct (format_loop_run (data_of d) sz (slab_slots r d) (Z.to_nat ns)) as (m' & Hrun & Hfl & Hb).
  5: { erewrite run_bind; [|rewrite drop_ge in Hrun; [exact Hrun|unfold slab_slots; rewrite slots_length; lia]].
    pcbn. rewrite run_upd_slab by pside. eexists. split; [reflexivity|]. pcbn. split_and!; [done| |done|exact Hb].
    intros y. rewrite slab_at_set. gcase; [subst|by rewrite slab_at_set_mem, !slab_at_set, !decide_False].
    rewrite !slab_at_set_mem, !slab_at_set, !decide_True by done.
    unfold slab_set_free, formatted. cbn. rewrite !u16_small by (unfold valid_sc in Hsc; glia). by rewrite ?Hnp, ?Hfp. }
  - intros j Hj. unfold slab_slots, slots_from. rewrite list_lookup_fmap, lookup_seqZ_lt by lia. done.
  - intros x Hx. unfold mapped. pcbn. by rewrite (slot_chunk r Hsc d x Hin Hx).
  - apply (slab_slots_ok r Hsc d); [done|apply (slots_NoDup r Hsc)|done].
  - rewrite drop_ge; [done|]. unfold slab_slots. rewrite slots_length. lia.
Qed.

(** Bytes of other slabs' slots are outside the link words of [d]'s slots. *)
Lemma other_slot_outside h pl a X d d' l' p :
  pool_inv r h pl a X → valid_ref r → slab_in r d → slab_placed r h d → a_free a !! d' = Some l' → d' ≠ d →
  p ∈ slab_slots r d' → ∀ x, p ≤ x < p + sz → ∀ q, q ∈ slab_slots r d → x < q ∨ q + sz ≤ x.
Proof.
  intros I Hr Hin Hpl Hd' Hne Hp x Hx q Hq. pose proof (pi_slab _ _ _ _ _ I d' l' Hd') as W.
  destruct (slots_disjoint r (proj1 Hr) h d' d p q) as [Hle|Hle]; try done; [|apply W|lia..].
  by apply (inv_slab_in r Hr I d' l').
Qed.

Lemma blank_in h pl a X d : pool_inv r h pl a X → valid_ref r → blank_slab h a d → slab_in r d.
Proof.
  intros I [Hsc _] [_ Hc Hp _ _]. apply (slab_bounds r Hsc h a); [apply (pi_chunk _ _ _ _ _ I)|done..].
Qed.

Lemma slab_format_spec s pl a X d :
  pst E r s pl a X → d ∈ X → blank_slab (p_heap s) a d →
  ∃ s', slab_format d r.1 r.2 s = Ok (tt, s') ∧
    pst E r s' pl (a_set_free (<[d := slab_slots r d]> (a_free a)) a) X ∧ pframe E r (user_byte r a) s s'.
Proof.
  intros S HX Hbl. pose proof (ps_inv _ _ _ _ _ _ S) as I. pose proof (ps_ref _ _ _ _ _ _ S) as Hr.
  pose proof (blank_in _ _ _ _ _ I Hr Hbl) as Hin. pose proof Hbl as [Hnew Hchk Hpl Hfp Hnp].
  pose proof (pi_member _ _ _ _ _ I) as [M1 M2 M3 M4 M5 M6 M7]. pose proof (sc_size_pos r.2 (proj1 Hr)) as Hsz.
  assert (Hnl : d ∉ a_partial a ++ a_empty a) by (intros Hd; destruct (M2 d Hd); congruence).
  destruct (slab_format_run s d) as (h' & Hrun & Hc & Hs & Hfl & Hb); try done.
  { by apply (pi_chunk _ _ _ _ _ I). }
  assert (Hne : ∀ x, is_Some (a_free a !! x) → slab_at h' x = slab_at (p_heap s) x).
  { intros x Hx. rewrite Hs, decide_False; [done|]. intros ->. destruct Hx. congruence. }
  set (a' := a_set_free (<[d := slab_slots r d]> (a_free a)) a).
  assert (I' : pool_inv r h' pl a' X).
  { split.
    - apply (chunks_ok_frame (p_heap s) h' pl pl a); try done; apply I.
    - intros c Hcin. apply (chunk_wf_frame r (p_heap s) h' a); [done| |done|by apply I]. intros y. rewrite Hs. gcase; subst; [by rewrite Hnp|done].
    - intros x l. subst a'. acbn. rewrite lookup_insert_Some. intros [[<- <-]|[Hx Hl]].
      + split; acbn; try done.
        * apply (slab_placed_hdr r (p_heap s)); [|done]. unfold chunk_at. rewrite Hc. auto with btm.
        * rewrite Hs, decide_True by done. split; try done; [|apply S]. simpl. unfold slab_slots. rewrite slots_length.
          pose proof (ns_range r (proj1 Hr)). lia.
        * apply (slots_NoDup r (proj1 Hr)).
        * intros _. by rewrite Hs, decide_True.
      + pose proof (pi_slab _ _ _ _ _ I x l Hl) as [W1 W2 W3 W4 W5 W6]. split; acbn; try done.
        * apply (slab_placed_hdr r (p_heap s)); [|done]. unfold chunk_at. rewrite Hc. auto with btm.
        * rewrite Hne; [done|by exists l].
        * rewrite Hne by (by exists l). intros Hcold. destruct (W6 Hcold) as [W6a W6b]. split; [done|].
          apply (flist_ext (h_mem (p_heap s))); [|done]. intros q y Hq Hy. symmetry. apply Hb. intros p Hp.
          destruct (other_slot_outside _ _ _ _ d x l q I Hr Hin Hpl Hl ltac:(done) (W5 _ Hq) y ltac:(lia) p Hp); lia.
    - apply (lists_ok_frame (p_heap s) h' pl pl a); try done; [|apply I].
      intros x Hx. rewrite Hne by (by apply M2). done.
    - subst a'. split; acbn; try done.
      + intros x Hx. rewrite lookup_insert_is_Some. by right; split; [intros ->|apply M2].
      + intros x. rewrite lookup_insert_is_Some. intros [<-|[Hx Hl]]; [|rewrite Hne by done; by apply M3].
        rewrite Hs, decide_True by done. symmetry. apply bool_decide_eq_false. list_mem. tauto.
      + intros x HxX. rewrite lookup_insert_is_Some, M4 by done. assert (d ≠ x) by congruence. tauto.
      + intros x l. rewrite lookup_insert_Some. intros [[<- <-]|[Hx Hl]]; [done|by apply M5].
      + intros x l. rewrite lookup_insert_Some. intros [[<- <-]|[Hx Hl]]; [done|by apply M6]. }
  destruct (pst_step (g := g) E r s pl a X h' pl a' X (user_byte r a) S eq_refl) with (pools' := p_pools s) as [S' F'].
  - split; [|intros; by rewrite Hc]. intros c Hcn. split; [by rewrite Hc| |].
    + intros x Hx. rewrite Hs, decide_False; [done|]. by intros ->; subst c.
    + intros x Hx. apply Hb. intros p Hp. destruct (decide (p ≤ x < p + 8)); [|lia]. exfalso. apply Hcn. rewrite <-Hx.
      by rewrite (slot_byte_chunk r (proj1 Hr) d p x Hin Hp ltac:(lia)).
  - done.
  - intros x (p & (d' & l' & Hd' & Hp & _) & Hx). apply Hb. intros q Hq.
    destruct (other_slot_outside _ _ _ _ d d' l' p I Hr Hin Hpl Hd' ltac:(congruence) Hp x Hx q Hq); lia.
  - symmetry. apply insert_id, S.
  - eexists. split_and!; [exact Hrun|done|done].
Qed.

End slab.
