(* ===== verification/PoolCarve.v ===== *)
(** * PoolCarve: new chunks and new slabs *)

From stdpp Require Import prelude gmap.
From S2P Require Import Prelude Memory SizeClass Freelist Heap Dll Pool PoolInv PoolFrame PoolRun PoolLists PoolSlab.
Local Open Scope Z_scope.

(** The chunk header at any address after a few writes. *)
Ltac chunk_cases :=
  intros y; rewrite ?chunk_at_set; gcases; subst; first [done | tauto | congruence | (exfalso; tauto)].

Section carve.
Context {F : FlOps} {FL : FlLaws F} {B : Type} {CS : ChunkSource B} {CL : ChunkSourceLaws B CS}.
Context (E : gset Z) (r : pool_ref).
Context {g : bool}.
Abbreviation pframe := (PoolFrame.pframe g).
Implicit Types s : pstate B.
Abbreviation ns := (slots_of_class r.2).
Abbreviation sz := (btm_sc_to_size r.2).
Abbreviation np := (btm_sc_run_pages r.2).

Lemma page_run_blank nfp q : ¬ (BTM_DATA_START_PAGE ≤ q < nfp) → page_run r nfp q = BTM_PAGE_NONE.
Proof. intros Hq. unfold page_run. destruct (Z.leb_spec BTM_DATA_START_PAGE q), (Z.ltb_spec q nfp); done || lia. Qed.

Lemma page_run_in nfp q : BTM_DATA_START_PAGE ≤ q < nfp → page_run r nfp q = BTM_DATA_START_PAGE + (q - BTM_DATA_START_PAGE) / np * np.
Proof. intros Hq. unfold page_run. by rewrite (proj2 (Z.leb_le _ _)), (proj2 (Z.ltb_lt _ _)) by lia. Qed.

(** ** A new active chunk *)

Lemma link_active_run s pl c :
  p_pools s !! r = Some pl → has_chunk (p_heap s) c → (chunks pl ≠ 0 → has_chunk (p_heap s) (chunks pl)) → chunks pl ≠ c →
  ∃ h', link_active r c s =
      Ok (tt, mk_pstate h' (<[r := pool_set_active c (pool_set_chunks c pl)]> (p_pools s)) (p_epoch s) (p_src s)) ∧
    h_mem h' = h_mem (p_heap s) ∧ h_slabs h' = h_slabs (p_heap s) ∧
    (∀ y, has_chunk (p_heap s) y → has_chunk h' y) ∧
    (∀ y, chunk_at h' y =
      if decide (y = c) then
        chunk_set_prev 0 (chunk_set_next (chunks pl) (chunk_set_owner_class (u16 r.2) (u16 r.1) (chunk_at (p_heap s) c)))
      else if decide (y = chunks pl ∧ chunks pl ≠ 0) then chunk_set_prev c (chunk_at (p_heap s) y)
      else chunk_at (p_heap s) y) ∧
    (∀ y, y ≠ c → (chunks pl ≠ 0 → y ≠ chunks pl) → h_chunks h' !! y = h_chunks (p_heap s) !! y).
Proof.
  intros Hp Hc Hh Hne. unfold link_active. cbv zeta. pstep. pstep. pstep. pstep.
  destruct (Z.eqb_spec (chunks pl) 0) as [E0|E0].
  - pstep. pstep. erewrite run_upd_pool by pside. eexists. split; [unfold set_pool, set_heap; pcbn; rewrite insert_insert_eq; reflexivity|]. pcbn. split_and!; try done.
    + intros y Hy. by repeat apply has_chunk_set.
    + chunk_cases.
    + intros y Hy1 Hy2. hcbn. by rewrite !lookup_insert_ne by (first [congruence | intros Eq; by apply Hy2]).
  - specialize (Hh E0). pstep. pstep. erewrite run_upd_pool by pside. eexists. split; [unfold set_pool, set_heap; pcbn; rewrite insert_insert_eq; reflexivity|]. pcbn. split_and!; try done.
    + intros y Hy. by repeat apply has_chunk_set.
    + chunk_cases.
    + intros y Hy1 Hy2. hcbn. by rewrite !lookup_insert_ne by (first [congruence | intros Eq; by apply Hy2]).
Qed.

Lemma live_chunk h pl a c : pool_inv r h pl a [] → c ∉ a_chunks a → live_set a c = ∅.
Proof.
  intros I Hc. apply set_eq. intros d. unfold live_set. rewrite elem_of_filter. split; [|set_solver].
  intros [<- Hd]. apply (mb_live _ _ _ _ (pi_member _ _ _ _ _ I)) in Hd as [[l Hl] _]; [|apply not_elem_of_nil].
  destruct Hc. by apply (inv_slab_chunk r I d l).
Qed.

(** A fresh chunk in front of the chunk list. *)
Lemma link_active_spec s pl a c v :
  p_pools s !! r = Some pl → valid_ref r → pool_inv r (p_heap s) pl a [] → chunk_base c → c ∉ a_chunks a →
  h_chunks (p_heap s) !! c = Some v → fresh_header r v →
  let pl' := pool_set_active c (pool_set_chunks c pl) in
  ∃ h', link_active r c s = Ok (tt, mk_pstate h' (<[r := pl']> (p_pools s)) (p_epoch s) (p_src s)) ∧
    pool_inv r h' pl' (a_set_chunks (c :: a_chunks a) a) [] ∧ next_free_page (chunk_at h' c) = BTM_DATA_START_PAGE ∧
    touches (c :: a_chunks a) (p_heap s) h' ∧ h_mem h' = h_mem (p_heap s).
Proof.
  intros Hp Hr I Hb Hc Hv (Hf1 & Hf2 & Hf3 & Hf4) pl'. pose proof I as [[C1 C2 C3 C4] I2 I3 I4 I5].
  assert (Hcv : chunk_at (p_heap s) c = v) by (unfold chunk_at; by rewrite Hv).
  assert (Hh : chunks pl = 0 ∨ chunks pl ∈ a_chunks a) by (rewrite C1; destruct (a_chunks a); [by left|right; by left]).
  assert (Hhc : ∀ y, y ∈ a_chunks a → has_chunk (p_heap s) y) by (intros y Hy; by apply I2).
  assert (Hc0 : c ≠ 0) by (destruct Hb; lia).
  assert (Hpc : chunks pl ≠ c) by (intros Ec; destruct Hh; congruence).
  destruct (link_active_run s pl c Hp) as (h' & Hrun & Hm & Hs & Hhas & Hat & Hoth); [by eexists|naive_solver|done|].
  assert (Hkeep : ∀ y, y ≠ c → same_hdr (chunk_at (p_heap s) y) (chunk_at h' y) ∧
                         live_slabs (chunk_at h' y) = live_slabs (chunk_at (p_heap s) y) ∧
                         memfd_off (chunk_at h' y) = memfd_off (chunk_at (p_heap s) y)).
  { intros y Hy. rewrite Hat, decide_False by done. gcase; by split. }
  assert (Hne : ∀ y, y ∈ a_chunks a → y ≠ c) by (intros y Hy ->; done).
  exists h'. split_and!; [done| | | |done].
  - split.
    + split; acbn; try done.
      * apply (dll_push c_next c_prev (chunk_at (p_heap s))); try done.
        -- rewrite Hat, decide_True by done. done.
        -- rewrite Hat, decide_True by done. simpl. by rewrite <-C1.
        -- intros y Hy. rewrite Hat, decide_False by auto. by gcase.
        -- intros y Hy. rewrite Hat, decide_False by auto. rewrite <-C1.
           destruct (I2 y Hy) as [[? _] _ _ _ _ _ _ _]. gcases; try done; exfalso; intuition lia.
      * by apply NoDup_cons.
      * right. by left.
    + intros y. acbn. rewrite elem_of_cons. intros [->|Hy].
      * assert (Hlc : live_set (a_set_chunks (c :: a_chunks a) a) c = ∅) by (exact (live_chunk (p_heap s) pl a c I Hc)).
        split; rewrite ?Hat, ?decide_True, ?Hlc, ?Hcv by done; simpl; rewrite ?Hf1, ?Hf2, ?Hf3, ?Hf4; try done.
        -- apply Hhas. by eexists.
        -- apply u16_small. destruct Hr. unfold valid_sc in *. glia.
        -- apply u16_small. destruct Hr. lia.
        -- intros q Hq. rewrite page_run_blank by lia. apply lookup_replicate_2. lia.
        -- intros q Hq. lia.
      * destruct (Hkeep y) as (K1 & K2 & K3); [auto|]. apply (chunk_wf_hdr r (p_heap s) h' a); try done; [by apply Hhas, Hhc|intros d; by rewrite (slab_at_same _ _ d Hs)| |by apply I2].
        rewrite K2. apply (I2 y Hy).
    + intros d l Hl. destruct (I3 d l Hl) as [W1 _ _ _ _ _].
      apply (slab_wf_hdr r (p_heap s) h' a); try done; [|by right|by apply I3].
      apply Hkeep. auto.
    + apply (lists_ok_frame (p_heap s) h' pl _ a); try done. intros d _. by rewrite (slab_at_same _ _ d Hs).
    + destruct I5 as [M1 M2 M3 M4 M5 M6 M7]. split; try done. intros d Hd. rewrite (slab_at_same _ _ d Hs). by apply M3.
  - rewrite Hat, decide_True by done. simpl. by rewrite Hcv.
  - split.
    + intros y Hy. split; [|intros d _; by apply slab_at_same|by rewrite Hm].
      apply Hoth; [intros ->; destruct Hy; by left|]. intros Hz ->.
      destruct Hh as [E0|Hh]; [done|destruct Hy; by right].
    + intros y Hy. assert (Hhy : has_chunk (p_heap s) y) by (apply elem_of_cons in Hy as [->|Hy]; [by eexists|by apply Hhc]).
      rewrite !memfd_lookup by auto. destruct (decide (y = c)) as [->|Hyc]; [|by rewrite (proj2 (proj2 (Hkeep y Hyc)))].
      by rewrite Hat, decide_True.
Qed.

(** ** Header updates *)

(** A header update that keeps what the pool knows and may extend the carved part. *)
Record hdr_grows (v v' : btm_chunk) : Prop := {
  hg_pool : c_pool v' = c_pool v;
  hg_sc : c_sc v' = c_sc v;
  hg_part : c_part_idx v' = c_part_idx v;
  hg_next : c_next v' = c_next v;
  hg_prev : c_prev v' = c_prev v;
  hg_off : memfd_off v' = memfd_off v;
  hg_nfp : next_free_page v ≤ next_free_page v' ≤ BTM_PAGES_PER_CHUNK;
  hg_len : length (page_owner v') = length (page_owner v);
  hg_owner q : 0 ≤ q < next_free_page v → page_owner v' !! Z.to_nat q = page_owner v !! Z.to_nat q;
}.

(** The page table names the runs. *)
Definition tiled (v : btm_chunk) : Prop :=
  (next_free_page v - BTM_DATA_START_PAGE) mod np = 0 ∧
  ∀ q, 0 ≤ q < 512 → page_owner v !! Z.to_nat q = Some (page_run r (next_free_page v) q).

Lemma chunk_tiled h a c : chunk_wf r h a c → tiled (chunk_at h c).
Proof. intros [H1 H2 H3 H4 H5 H6 H7 H8 H9 H10 H11]. by split. Qed.

Lemma inv_header h pl pl' a X c v' L X' :
  pool_inv r h pl a X → valid_ref r → c ∈ a_chunks a → hdr_grows (chunk_at h c) v' → tiled v' →
  (∀ q, next_free_page (chunk_at h c) ≤ q < next_free_page v' → (q - BTM_DATA_START_PAGE) mod np = 0 → npages (slab_at h (btm_chunk_desc c q)) = np) →
  let h' := heap_set_chunk c v' h in let a' := a_set_live L a in
  live_slabs v' = Z.of_nat (size (live_set a' c)) →
  (∀ d, chunk_of d ≠ c → d ∈ L ↔ d ∈ a_live a) →
  (∀ d, d ∈ X → d ∈ X') → (∀ d, d ∉ X' → d ∈ L ↔ d ∈ a_live a) →
  chunks pl' = chunks pl → active pl' = active pl → partial pl' = partial pl → empty_warm pl' = empty_warm pl →
  empty_cold pl' = empty_cold pl → warm_count pl' = warm_count pl → 0 ≤ nslabs pl' < 2 ^ 64 →
  pool_inv r h' pl' a' X'.
Proof.
  intros I Hr Hc [G1 G2 G3 G4 G5 G6 G7 G8 G9] [T1 T2] HD h' a' Hlive Hoth HX HL P1 P2 P3 P4 P5 P6 P7.
  pose proof I as [[C1 C2 C3 C4 _] I2 I3 I4 I5].
  assert (Hat : ∀ y, chunk_at h' y = if decide (y = c) then v' else chunk_at h y) by (intros y; apply chunk_at_set).
  split.
  - split; rewrite ?P1, ?P2; try done. apply (dll_ext c_next c_prev (chunk_at h)); [|done].
    intros y _. rewrite Hat. gcase; [by subst|done].
  - intros y Hy. destruct (I2 y Hy) as [H1 H2 H3 H4 H5 H6 H7 H8 H9 H10 H11]. destruct (decide (y = c)) as [->|Hne].
    + split; rewrite ?Hat, ?decide_True by done; try done; try congruence; [apply has_chunk_set_eq|lia|].
      intros q Hq Hm. change (slab_at h' ?d) with (slab_at h d). destruct (decide (q < next_free_page (chunk_at h c))); [apply H11|apply HD]; first [done|lia].
    + split; rewrite ?Hat, ?decide_False by done; try done; [by apply has_chunk_set|].
      rewrite H8. do 2 f_equal. apply set_eq. intros d. unfold live_set. rewrite !elem_of_filter.
      split; (intros [Hd ?]; split; [done|]; apply Hoth; [by rewrite Hd|done]).
  - intros d l Hl. destruct (I3 d l Hl) as [W1 [S1 S2 S3 S4] W3 W4 W5 W6]. split; try done.
    split; try done; rewrite Hat; (destruct (decide (chunk_of d = c)) as [Ec|_]; [rewrite Ec in *|done]); [lia|].
    intros q Hq. rewrite data_start_page in *. rewrite G9 by lia. by apply S4.
  - apply (lists_ok_frame h h' pl pl' a); done.
  - destruct (member_ok_more r h a X X' HX I5) as [M1 M2 M3 M4 M5 M6 M7]. split; try done.
    intros d Hd. subst a'. acbn. rewrite HL by done. by apply M4.
Qed.

Lemma live_set_add a d : live_set (a_set_live ({[d]} ∪ a_live a) a) (chunk_of d) = {[d]} ∪ live_set a (chunk_of d).
Proof.
  apply set_eq. intros x. unfold live_set. acbn. rewrite elem_of_union, !elem_of_filter, elem_of_union, elem_of_singleton.
  naive_solver.
Qed.

Lemma live_set_del a d : live_set (a_set_live (a_live a ∖ {[d]}) a) (chunk_of d) = live_set a (chunk_of d) ∖ {[d]}.
Proof.
  apply set_eq. intros x. unfold live_set. acbn.
  rewrite elem_of_difference, !elem_of_filter, elem_of_difference, elem_of_singleton. naive_solver.
Qed.

(** At most one live slab per page. *)
Lemma live_bound h pl a X c :
  pool_inv r h pl a X → valid_ref r → (∀ d, d ∈ a_live a → is_Some (a_free a !! d)) →
  (size (live_set a c) ≤ 512)%nat.
Proof.
  intros I Hr Hdom. trans (size (list_to_set (btm_chunk_desc c <$> seqZ 0 512) : gset Z)).
  - apply subseteq_size. intros d. unfold live_set. rewrite elem_of_filter. intros [<- Hd].
    destruct (Hdom d Hd) as [l Hl]. pose proof (inv_slab_in r Hr I d l Hl) as (_ & ? & ? & ?).
    rewrite (sp_desc _ _ _ (sw_placed _ _ _ _ _ (pi_slab _ _ _ _ _ I d l Hl))) at 1.
    apply elem_of_list_to_set, list_elem_of_fmap. exists (page_of d). split; [done|]. apply elem_of_seqZ. lia.
  - rewrite size_list_to_set; [by rewrite length_fmap, length_seqZ|].
    apply NoDup_fmap_2_strong; [|apply NoDup_seqZ]. intros x y _ _. unfold btm_chunk_desc, sizeof_slab. lia.
Qed.

Lemma new_active_spec s pl a :
  pst E r s pl a [] →
  (∃ s', new_active r s = Ok (false, s') ∧ pst E r s' pl a [] ∧ pframe E r (user_byte r a) s s') ∨
  (∃ s' pl' c, new_active r s = Ok (true, s') ∧ pst E r s' pl' (a_set_chunks (c :: a_chunks a) a) [] ∧
     pframe E r (user_byte r a) s s' ∧ active pl' = c ∧ next_free_page (chunk_at (p_heap s') c) = BTM_DATA_START_PAGE).
Proof.
  intros S. pose proof S as [Hr Hp I Hsrc Hap].
  destruct (cs_obtain _ _ _ r Hsrc) as (c & h1 & b1 & Ho & Hag & Hst & Hcase).
  specialize (Hst g).
  set (s1 := mk_pstate h1 (p_pools s) (p_epoch s) b1).
  assert (Hrun : chunk_obtain r s = Ok (c, s1)) by (unfold chunk_obtain; by rewrite Ho).
  assert (HagL : agree_on (λ c, c ∈ a_chunks a) (p_heap s) h1) by (eapply agree_on_weaken; [|exact Hag]; set_solver).
  assert (HagE : agree_on (λ c, c ∈ E) (p_heap s) h1) by (eapply agree_on_weaken; [|exact Hag]; set_solver).
  pose proof (pool_inv_agree r Hr _ h1 _ _ _ HagL I) as I1.
  assert (Hub : ∀ x, user_byte r a x → byte_at (h_mem h1) x = byte_at (h_mem (p_heap s)) x).
  { intros x Hx. pose proof (user_byte_chunk r _ _ _ _ x Hr I Hx) as Hc. by apply (ag_byte _ _ _ (HagL _ Hc)). }
  destruct Hcase as [[-> Hs1]|(Hnew & Hb & (v & Hv & Hfresh) & Hs1)].
  - left. exists s1. split_and!; [|by split|by split]. unfold new_active. by erewrite run_bind by exact Hrun.
  - right. assert (Hcn : c ∉ a_chunks a) by set_solver.
    destruct (link_active_spec s1 pl a c v) as (h2 & Hl & I2 & Hnfp & [T1 T2] & Hm2); try done.
    set (pl2 := pool_set_active c (pool_set_chunks c pl)) in *.
    exists (mk_pstate h2 (<[r := pl2]> (p_pools s)) (p_epoch s) b1), pl2, c. split_and!; [|split|split| |exact Hnfp]; try done.
    + unfold new_active. erewrite run_bind by exact Hrun. rewrite (proj2 (Z.eqb_neq c 0)) by (destruct Hb; lia).
      by erewrite run_bind by exact Hl.
    + simpl. apply lookup_insert_eq.
    + simpl. rewrite <-(assoc_L (∪)). apply (cs_frame _ h1); [exact Hs1|..].
      * intros y Hy. apply T1. set_solver.
      * intros y Hy. destruct (decide (y ∈ c :: a_chunks a)) as [Hin|Hin]; [by apply T2|].
        by rewrite (ag_chunk _ _ _ (T1 y Hin)).
    + acbn. intros y. rewrite elem_of_cons. intros [->|Hy]; [set_solver|by apply Hap].
    + intros r' Hr'. simpl. by rewrite lookup_insert_ne.
    + apply (agree_on_trans _ _ h1); [done|]. intros y Hy. apply T1. rewrite elem_of_cons. intros [->|Hin]; [set_solver|].
      by apply (Hap y Hin).
    + apply (cs_step_trans _ _ _ _ _ _ _ Hst). apply (cs_step_client _ _ _ _ _ Hs1). intros y Hy. apply T1. set_solver.
    + intros x Hx. simpl. rewrite Hm2. by apply Hub.
Qed.

(** ** Carving *)
Lemma foldl_owners (v : Z) ps l i :
  foldl (λ o p, <[Z.to_nat p := v]> o) l ps !! i =
  if decide (i ∈ Z.to_nat <$> ps ∧ (i < length l)%nat) then Some v else l !! i.
Proof.
  revert l. induction ps as [|p ps IH]; intros l; cbn [foldl].
  - rewrite decide_False; [done|]. intros [Hin _]. by apply elem_of_nil in Hin.
  - rewrite IH, length_insert, list_lookup_insert, fmap_cons. gcases; try done; exfalso; set_solver.
Qed.

Lemma length_foldl_owners (v : Z) ps l : length (foldl (λ o p, <[Z.to_nat p := v]> o) l ps) = length l.
Proof. revert l. induction ps as [|p ps IH]; intros l; simpl; [done|]. by rewrite IH, length_insert. Qed.

(** Writing the descriptor of a slab the pool does not know yet. *)
Lemma inv_new_desc h pl a X d v :
  pool_inv r h pl a X → a_free a !! d = None → d = btm_chunk_desc (chunk_of d) (page_of d) → chunk_base (chunk_of d) → 0 ≤ page_of d < 512 →
  next_free_page (chunk_at h (chunk_of d)) ≤ page_of d → pool_inv r (heap_set_slab d v h) pl a X.
Proof.
  intros I Hd Ed Hbd Hpd Hnd. pose proof I as [I1 I2 I3 I4 I5].
  assert (Hs : ∀ x, is_Some (a_free a !! x) → slab_at (heap_set_slab d v h) x = slab_at h x).
  { intros x Hx. rewrite slab_at_set, decide_False; [done|]. intros ->. destruct Hx. congruence. }
  split.
  - by apply (chunks_ok_frame h _ pl pl a).
  - intros c Hc. destruct (I2 c Hc) as [H1 H2 H3 H4 H5 H6 H7 H8 H9 H10 H11]. split; try done. intros q Hq Hm. change (chunk_at (heap_set_slab d v h)) with (chunk_at h) in Hq.
    rewrite slab_at_set, decide_False; [by apply H11|]. intros E1. rewrite data_start_page in *. unfold_geometry.
    rewrite Ed in E1. apply desc_inj in E1 as [E1 E2]; [subst c q; lia|done..|lia|done].
  - intros x l Hl. destruct (I3 x l Hl) as [W1 W2 W3 W4 W5 W6]. rewrite <-(Hs x) in W3, W6 by (by exists l). split; [exact W1|by apply (slab_placed_hdr r h); auto with btm|done..].
  - apply (lists_ok_frame h _ pl pl a); try done. intros x Hx. rewrite Hs; [done|]. by apply (mb_dom _ _ _ _ I5).
  - destruct I5 as [M1 M2 M3 M4 M5 M6 M7]. split; try done. intros x Hx. rewrite Hs by done. by apply M3.
Qed.

Lemma page_of_desc c page : chunk_base c → 0 ≤ page < 512 → page_of (btm_chunk_desc c page) = page.
Proof.
  intros Hb Hp. unfold page_of. rewrite chunk_of_desc by done. unfold btm_chunk_desc, sizeof_slab.
  replace (c + BTM_PAGE_SIZE + 48 * page - c - BTM_PAGE_SIZE) with (page * 48) by lia. by apply Z.div_mul.
Qed.

(** The header after [np] pages are carved at [page]. *)
Definition carved_header (page : Z) (v : btm_chunk) : btm_chunk :=
  chunk_set_live (u32 (live_slabs v + 1))
    (chunk_set_carved (u32 (page + np)) (foldl (λ o p, <[Z.to_nat p := u16 page]> o) (page_owner v) (seqZ page np)) v).

Lemma carved_header_grows page v :
  valid_ref r → next_free_page v = page → 7 ≤ page → page + np ≤ BTM_PAGES_PER_CHUNK → length (page_owner v) = 512%nat →
  tiled v → hdr_grows v (carved_header page v) ∧ tiled (carved_header page v) ∧
  ∀ q, page ≤ q < page + np → page_owner (carved_header page v) !! Z.to_nat q = Some page.
Proof.
  intros [Hsc _] Hn H7 Hp Hlen [Ht Ho]. pose proof (sc_pages_range r.2 Hsc). rewrite Hn in Ht, Ho. pose proof data_start_page as Hds. unfold_geometry. split; [|split].
  2: { assert (En : next_free_page (carved_header page v) = page + np) by (cbn; apply u32_small; lia).
    rewrite <-(Z.div_exact (page - BTM_DATA_START_PAGE) np) in Ht by lia. set (k := (page - BTM_DATA_START_PAGE) / np) in Ht. unfold tiled. rewrite En. split.
    - replace (page + np - BTM_DATA_START_PAGE) with ((k + 1) * np) by lia. apply Z.mod_mul. lia.
    - intros q Hq. cbn [page_owner carved_header chunk_set_live chunk_set_carved]. rewrite foldl_owners. case_decide as Hin.
      + destruct Hin as [(p & E1 & Hin)%list_elem_of_fmap _]. apply elem_of_seqZ in Hin. assert (p = q) as -> by lia.
        rewrite page_run_in by lia. f_equal. rewrite u16_small by lia.
        assert (E2 : (q - BTM_DATA_START_PAGE) / np = k) by (symmetry; apply (Z.div_unique _ _ _ (q - page)); lia). rewrite E2. lia.
      + rewrite Ho by done. f_equal. destruct (decide (BTM_DATA_START_PAGE ≤ q < page)); [by rewrite !page_run_in by lia|].
        rewrite !page_run_blank; [done| |done]. intros Hq2. apply Hin. split; [|lia]. apply list_elem_of_fmap. exists q. split; [done|]. apply elem_of_seqZ. lia. }
  - split; try done; cbn; rewrite ?(u32_small (page + np)) by lia; try glia; [by apply length_foldl_owners|].
    intros q Hq. rewrite foldl_owners, decide_False; [done|]. intros [(p & E1 & Hin)%list_elem_of_fmap _].
    apply elem_of_seqZ in Hin. lia.
  - intros q Hq. cbn. rewrite foldl_owners, decide_True; [by rewrite u16_small by lia|].
    split; [|lia]. apply list_elem_of_fmap. exists q. split; [done|]. apply elem_of_seqZ. lia.
Qed.

Lemma heap_set_chunk_twice h c v1 v2 : heap_set_chunk c v2 (heap_set_chunk c v1 h) = heap_set_chunk c v2 h.
Proof. unfold heap_set_chunk. cbn. by rewrite insert_insert_eq. Qed.

(** Room for a slab in the active chunk. *)
Definition has_room (s : pstate B) (pl : btm_scpool) : Prop :=
  active pl ≠ 0 ∧ next_free_page (chunk_at (p_heap s) (active pl)) + np ≤ BTM_PAGES_PER_CHUNK.

(** The state after the page run is reserved, before it is formatted. *)
Lemma carve_reserve s pl a :
  pst E r s pl a [] → has_room s pl →
  let c := active pl in let page := next_free_page (chunk_at (p_heap s) c) in let d := btm_chunk_desc c page in
  let pl1 := pool_set_nslabs (u64 (nslabs pl + 1)) pl in
  let h1 := heap_set_chunk c (carved_header page (chunk_at (p_heap s) c)) (p_heap s) in
  let h2 := heap_set_slab d (slab_set_run (u16 page) (u16 np) (slab_at h1 d)) h1 in
  let a1 := a_set_live ({[d]} ∪ a_live a) a in
  let s2 := mk_pstate h2 (<[r := pl1]> (p_pools s)) (p_epoch s) (p_src s) in
  slab_carve r s = (slab_format d r.1 r.2 ≫= λ _, mret d) s2 ∧
  d ≠ 0 ∧ pst E r s2 pl1 a1 [d] ∧ pframe E r (λ _, True) s s2 ∧ blank_slab r h2 a1 d.
Proof.
  intros S [Hact Hroom] c page d pl1 h1 h2 a1 s2. pose proof S as [Hr Hp I Hsrc Hap]. pose proof I as [[_ _ _ C4 _] I2 I3 I4 I5].
  assert (Hc : c ∈ a_chunks a) by (destruct C4; [done|done]). pose proof (chunk_tiled _ _ _ (I2 c Hc)) as Htl.
  destruct (I2 c Hc) as [K1 K2 K3 K4 K5 K6 K7 K8 K9 K10 K11]. fold c page in Hroom. fold page in K6. rewrite data_start_page in K6.
  pose proof (sc_pages_range r.2 (proj1 Hr)) as Hnp.
  destruct (carved_header_grows page (chunk_at (p_heap s) c) Hr) as (G & Gt & Gq); [done|lia|done|done|done|].
  assert (Hpg : 0 ≤ page < 512) by glia.
  assert (Hcd : chunk_of d = c) by (by apply chunk_of_desc). assert (Hpd : page_of d = page) by (by apply page_of_desc).
  assert (Hnew : a_free a !! d = None).
  { destruct (a_free a !! d) as [l|] eqn:Hl; [|done]. exfalso.
    pose proof (sp_carved _ _ _ (sw_placed _ _ _ _ _ (I3 d l Hl))) as Hcv. rewrite Hcd, Hpd in Hcv. fold page in Hcv. lia. }
  assert (Hdl : d ∉ a_live a).
  { intros [[? ?] _]%(mb_live _ _ _ _ I5); [congruence|apply not_elem_of_nil]. }
  assert (Hbound : (size (live_set a c) ≤ 512)%nat).
  { apply (live_bound (p_heap s) pl a []); [done..|]. intros x Hx%(mb_live _ _ _ _ I5); [tauto|apply not_elem_of_nil]. }
  assert (Id : pool_inv r (heap_set_slab d (slab_set_run (u16 page) (u16 np) (slab_at (p_heap s) d)) (p_heap s)) pl a []).
  { apply inv_new_desc; rewrite ?Hcd, ?Hpd; done. }
  assert (I2' : pool_inv r h2 pl1 a1 [d]).
  { apply (inv_header (heap_set_slab d (slab_set_run (u16 page) (u16 np) (slab_at (p_heap s) d)) (p_heap s)) pl pl1 a [] c); try done.
    - intros q Hq Hm. change (chunk_at (heap_set_slab _ _ ?x)) with (chunk_at x) in Hq. fold page in Hq. cbn in Hq. rewrite u32_small in Hq by glia.
      assert (q = page) as ->.
      { apply Z.mod_divide in Hm as [m Hm]; [|lia]. apply Z.mod_divide in K9 as [m' K9]; [|lia]. fold page in K9. assert (m = m') by nia. lia. }
      rewrite slab_at_set, decide_True by done. cbn. apply u16_small. lia.
    - cbn. rewrite K8, u32_small by lia.
      rewrite <-Hcd, live_set_add, Hcd, size_union, size_singleton; [lia|]. unfold live_set. set_solver.
    - intros x Hx. assert (x ≠ d) by congruence. set_solver.
    - intros x Hx%not_elem_of_nil. done.
    - intros x Hx%not_elem_of_cons. set_solver.
    - apply u64_range. }
  assert (T : touches (a_chunks a) (p_heap s) h2).
  { apply (touches_trans _ _ h1); [|apply touches_slab; by rewrite Hcd].
    destruct K2 as [v Hv]. apply (touches_chunk _ _ _ _ v); [done..|]. rewrite (hg_off _ _ G). unfold chunk_at. by rewrite Hv. }
  destruct (pst_step (g := g) E r s pl a [] h2 pl1 a1 [d] (λ _, True) S eq_refl T I2' ltac:(done) _ eq_refl) as [S2 F2].
  split_and!; [|unfold d, btm_chunk_desc, sizeof_slab; destruct K1; glia|done|done|].
  - assert (Hk : has_chunk (p_heap s) c) by done.
    unfold slab_carve. cbv zeta. pstep. fold c. pstep. fold page. pstep. pstep.
    rewrite chunk_at_set, decide_True, heap_set_chunk_twice by done. pstep. fold d.
    erewrite run_bind; [reflexivity|]. rewrite run_upd_slab; [reflexivity|]. unfold mapped. rewrite Hcd. apply has_chunk_set_eq.
  - split; try done.
    + by rewrite Hcd.
    + split; rewrite ?Hcd, ?Hpd, ?data_start_page; try done; try lia.
      * unfold h2. change (chunk_at (heap_set_slab _ _ ?x)) with (chunk_at x). unfold h1. rewrite chunk_at_set, decide_True by done.
        cbn. rewrite u32_small by glia. lia.
      * unfold h2. change (chunk_at (heap_set_slab _ _ ?x)) with (chunk_at x). unfold h1. rewrite chunk_at_set, decide_True by done.
        done.
    + unfold h2. rewrite slab_at_set, decide_True by done. cbn. rewrite Hpd. apply u16_small. lia.
    + unfold h2. rewrite slab_at_set, decide_True by done. cbn. apply u16_small. lia.
Qed.

(** What a caller of [btm_slab_new] gets: a slab on no list with every slot free. *)
Record new_slab (a a' : apool) (d : Z) : Prop := {
  nw_nz : d ≠ 0;
  nw_free : a_free a' !! d = Some (slab_slots r d);
  nw_unlisted : d ∉ a_partial a' ++ a_empty a';
  nw_live : d ∈ a_live a';
  nw_partial : a_partial a' = a_partial a;
  nw_out p : outstanding_slot r a' p ↔ outstanding_slot r a p;
}.

Lemma outstanding_new a d :
  a_free a !! d = None →
  ∀ p, outstanding_slot r (a_set_free (<[d := slab_slots r d]> (a_free a)) a) p ↔ outstanding_slot r a p.
Proof.
  intros Hd p. split; intros (x & l & Hx & Hp & Hn); exists x, l; acbn.
  - apply lookup_insert_Some in Hx as [[<- <-]|[_ Hx]]; done.
  - split_and!; [|done..]. rewrite lookup_insert_ne; [done|]. congruence.
Qed.

Lemma unlisted h pl a X d : pool_inv r h pl a X → a_free a !! d = None → d ∉ a_partial a ++ a_empty a.
Proof. intros I Hd Hin. destruct (mb_dom _ _ _ _ (pi_member _ _ _ _ _ I) d Hin). congruence. Qed.

Lemma slab_carve_spec s pl a :
  pst E r s pl a [] → has_room s pl →
  ∃ d s' pl' a', slab_carve r s = Ok (d, s') ∧ pst E r s' pl' a' [d] ∧ pframe E r (user_byte r a) s s' ∧ new_slab a a' d.
Proof.
  intros S Hroom. pose proof (carve_reserve s pl a S Hroom) as Hres. cbv zeta in Hres.
  set (c := active pl) in *. set (page := next_free_page (chunk_at (p_heap s) c)) in *.
  set (d := btm_chunk_desc c page) in *. destruct Hres as (Hcarve & Hd0 & S2 & F2 & Hbl).
  match type of S2 with pst _ _ ?s2 ?pl1 ?a1 _ => set (s2' := s2) in *; set (pl1' := pl1) in *; set (a1' := a1) in * end.
  destruct (slab_format_spec (g := g) E r s2' pl1' a1' [d] d S2) as (s3 & Hrun & S3 & F3); [by left|done|].
  pose proof (bs_new _ _ _ _ Hbl) as Hnew.
  exists d, s3, pl1', (a_set_free (<[d := slab_slots r d]> (a_free a1')) a1'). split_and!; [|done| |].
  - rewrite Hcarve. by erewrite run_bind by exact Hrun.
  - eapply pframe_trans; [by eapply pframe_weaken; [|exact F2]|done].
  - split; acbn; try done.
    + apply lookup_insert_eq.
    + apply (unlisted _ _ _ _ _ (ps_inv _ _ _ _ _ _ S)). done.
    + set_solver.
    + intros p. by rewrite (outstanding_new a1' d Hnew).
Qed.

(** The recycled slab is counted live again. *)
Lemma live_inc_spec s pl a d :
  pst E r s pl a [d] → is_Some (a_free a !! d) → d ∉ a_live a →
  ∃ s', upd_chunk (chunk_of d) (λ v, chunk_set_live (u32 (live_slabs v + 1)) v) s = Ok (tt, s') ∧
    pst E r s' pl (a_set_live ({[d]} ∪ a_live a) a) [d] ∧ pframe E r (λ _, True) s s'.
Proof.
  intros S [l Hl] Hdl. pose proof S as [Hr Hp I Hsrc Hap]. pose proof I as [I1 I2 I3 I4 I5].
  set (c := chunk_of d). assert (Hc : c ∈ a_chunks a) by (by apply (inv_slab_chunk r I d l)).
  pose proof (chunk_tiled _ _ _ (I2 c Hc)) as Htl. destruct (I2 c Hc) as [K1 K2 K3 K4 K5 K6 K7 K8]. set (v' := chunk_set_live (u32 (live_slabs (chunk_at (p_heap s) c) + 1)) (chunk_at (p_heap s) c)).
  assert (Hbound : (size (live_set a c) ≤ 512)%nat).
  { apply (live_bound (p_heap s) pl a [d]); [done..|]. intros x Hx. destruct (decide (x = d)) as [->|Hne]; [done|].
    apply (mb_live _ _ _ _ I5) in Hx; [tauto|]. by rewrite list_elem_of_singleton. }
  assert (I' : pool_inv r (heap_set_chunk c v' (p_heap s)) pl (a_set_live ({[d]} ∪ a_live a) a) [d]).
  { apply (inv_header (p_heap s) pl pl a [d] c); try done.
    - split; try done. cbn. lia.
    - intros q Hq. cbn in Hq. lia.
    - cbn. rewrite K8, u32_small by lia. unfold c. rewrite live_set_add, size_union, size_singleton; [lia|].
      unfold live_set. set_solver.
    - intros x Hx. assert (x ≠ d) by (unfold c in Hx; congruence). set_solver.
    - intros x Hx. rewrite list_elem_of_singleton in Hx. set_solver.
    - apply I1. }
  assert (T : touches (a_chunks a) (p_heap s) (heap_set_chunk c v' (p_heap s))).
  { destruct K2 as [v Hv]. apply (touches_chunk _ _ _ _ v); [done..|]. unfold v', chunk_at. by rewrite Hv. }
  destruct (pst_step (g := g) E r s pl a [d] _ pl (a_set_live ({[d]} ∪ a_live a) a) [d] (λ _, True) S eq_refl T I' ltac:(done)
              (p_pools s) ltac:(symmetry; by apply insert_id)) as [S2 F2].
  eexists. split_and!; [|exact S2|exact F2]. by rewrite run_upd_chunk.
Qed.

Theorem btm_slab_new_spec s pl a :
  pst E r s pl a [] →
  (∃ s', btm_slab_new r s = Ok (0, s') ∧ pst E r s' pl a [] ∧ pframe E r (user_byte r a) s s') ∨
  (∃ d s' pl' a', btm_slab_new r s = Ok (d, s') ∧ pst E r s' pl' a' [d] ∧ pframe E r (user_byte r a) s s' ∧ new_slab a a' d).
Proof.
  intros S. unfold btm_slab_new. cbv zeta.
  destruct (slab_recycle_spec (g := g) E r s pl a S) as [[Hempty Hrun]|(d & s1 & pl1 & a1 & Hrun & S1 & F1 & (Hd0 & Hbl & Hout) & Hpart)].
  - erewrite run_bind by exact Hrun. simpl. erewrite run_bind by (apply run_get_pool, S).
    pose proof (pi_chunks _ _ _ _ _ (ps_inv _ _ _ _ _ _ S)) as [_ _ _ Hact].
    assert (Hfull : ∃ b, (if active pl =? 0 then mret true
            else hd ← get_chunk (active pl); mret (BTM_PAGES_PER_CHUNK <? next_free_page hd + np)) s = Ok (b, s) ∧
            (b = false → has_room s pl)).
    { destruct (Z.eqb_spec (active pl) 0) as [E0|E0]; [by exists true|].
      destruct Hact as [?|Hact]; [done|]. erewrite run_bind by (apply run_get_chunk; by apply (ps_inv _ _ _ _ _ _ S)).
      eexists. split; [reflexivity|]. intros Hlt%Z.ltb_ge. by split. }
    destruct Hfull as (b & Hb & Hroom). erewrite run_bind by exact Hb. destruct b.
    + destruct (new_active_spec s pl a S) as [(s1 & Hn & S1 & F1)|(s1 & pl1 & c & Hn & S1 & F1 & Hac & Hnfp)].
      * left. exists s1. split_and!; [|done..]. by erewrite run_bind by exact Hn.
      * right. erewrite run_bind by exact Hn.
        destruct (slab_carve_spec s1 pl1 (a_set_chunks (c :: a_chunks a) a)) as (d & s2 & pl2 & a2 & Hc & S2 & F2 & [N1 N2 N3 N4 N5 N6]); [done| |].
        { split; rewrite Hac.
          - destruct (inv_chunk_base r (ps_inv _ _ _ _ _ _ S1) c); [by left|lia].
          - rewrite Hnfp, data_start_page. pose proof (sc_pages_range r.2 (proj1 (ps_ref _ _ _ _ _ _ S))). glia. }
        exists d, s2, pl2, a2. split_and!; [done|done|by eapply pframe_trans|by split].
    + right. erewrite run_bind by (apply run_ret).
      destruct (slab_carve_spec s pl a S (Hroom eq_refl)) as (d & s2 & pl2 & a2 & Hc & S2 & F2 & N). by exists d, s2, pl2, a2.
  - right. erewrite run_bind by exact Hrun. rewrite (proj2 (Z.eqb_neq d 0)) by done. simpl.
    pose proof (bs_new _ _ _ _ Hbl) as Hnew.
    assert (Hdl : d ∉ a_live a1).
    { intros [[? ?] _]%(mb_live _ _ _ _ (pi_member _ _ _ _ _ (ps_inv _ _ _ _ _ _ S1))); [congruence|apply not_elem_of_nil]. }
    destruct (slab_format_spec (g := g) E r s1 pl1 a1 [d] d) as (s2 & Hf & S2 & F2); [|by left|done|].
    { eapply pst_more; [|done]. intros x Hx%elem_of_nil. done. }
    erewrite run_bind by exact Hf.
    destruct (live_inc_spec s2 pl1 _ d S2) as (s3 & Hi & S3 & F3); [acbn; rewrite lookup_insert_eq; by eexists|done|].
    erewrite run_bind by exact Hi. eexists d, s3, pl1, _. split_and!; [done|exact S3| |].
    + eapply pframe_trans; [eapply pframe_weaken; [|exact F1]; done|].
      eapply pframe_trans; [eapply pframe_weaken; [|exact F2]|eapply pframe_weaken; [|exact F3]; done].
      intros x. apply user_byte_mono. intros p. by rewrite Hout.
    + split; acbn; try done.
      * apply lookup_insert_eq.
      * by apply (unlisted _ _ _ _ _ (ps_inv _ _ _ _ _ _ S1)).
      * set_solver.
      * intros p. rewrite <-Hout. by rewrite <-(outstanding_new a1 d Hnew).
Qed.

End carve.
