(* ===== verification/PoolRefill.v ===== *)
(** * PoolRefill: taking slots out of a pool *)

From stdpp Require Import prelude gmap.
From S2P Require Import Prelude Memory SizeClass Freelist Heap Dll Pool PoolInv PoolFrame PoolRun PoolLists PoolSlab PoolCarve.
Local Open Scope Z_scope.

Section refill.
Context {F : FlOps} {FL : FlLaws F} {B : Type} {CS : ChunkSource B} {CL : ChunkSourceLaws B CS}.
Context (E : gset Z) (r : pool_ref).
Context {g : bool}.
Abbreviation pframe := (PoolFrame.pframe g).
Implicit Types s : pstate B.
Abbreviation ns := (slots_of_class r.2).
Abbreviation sz := (btm_sc_to_size r.2).
Abbreviation np := (btm_sc_run_pages r.2).

(** ** Changes to one slab *)

(** [v'] is the descriptor [v] with the free list [l]. *)
Record relisted (v v' : btm_slab) (l : list Z) : Prop := {
  rl_head : free_head v' = hd0 l;
  rl_count : free_count v' = Z.of_nat (length l);
  rl_next : s_next v' = s_next v;
  rl_prev : s_prev v' = s_prev v;
  rl_nslots : nslots v' = nslots v;
  rl_sc : s_sc v' = s_sc v;
  rl_npages : npages v' = npages v;
  rl_part : s_part_idx v' = s_part_idx v;
  rl_first : first_page v' = first_page v;
  rl_flag : in_partial v' = in_partial v;
  rl_retired : retired v' = retired v;
  rl_epoch : 0 ≤ epoch v < 2 ^ 32 → 0 ≤ epoch v' < 2 ^ 32;
}.

(** The pool after slab [d] got the free list [l']. *)
Lemma inv_relist h h' pl pl' a X d l l' :
  pool_inv r h pl a X → valid_ref r → a_free a !! d = Some l → d ∈ X →
  h_chunks h' = h_chunks h → (∀ y, y ≠ d → slab_at h' y = slab_at h y) → relisted (slab_at h d) (slab_at h' d) l' →
  (∀ x, (∀ p, p ∈ slab_slots r d → x < p ∨ p + 8 ≤ x) → byte_at (h_mem h') x = byte_at (h_mem h) x) →
  NoDup l' → l' ⊆ slab_slots r d → flist (h_mem h') l' →
  chunks pl' = chunks pl → active pl' = active pl → partial pl' = partial pl → empty_warm pl' = empty_warm pl →
  empty_cold pl' = empty_cold pl → warm_count pl' = warm_count pl → nslabs pl' = nslabs pl →
  pool_inv r h' pl' (a_set_free (<[d := l']> (a_free a)) a) X ∧ touches (a_chunks a) h h'.
Proof.
  intros I Hr Hl HX Hc Hs [R1 R2 R3 R4 R5 R6 R7 R8 R9 R10 R11 R12] Hb Hnd Hsub Hfl P1 P2 P3 P4 P5 P6 P7.
  pose proof I as [I1 I2 I3 I4 I5]. pose proof (inv_slab_in r Hr I d l Hl) as Hin. pose proof (I3 d l Hl) as W.
  pose proof (sc_size_pos r.2 (proj1 Hr)) as Hsz.
  assert (Hlinks : ∀ y, s_next (slab_at h' y) = s_next (slab_at h y) ∧ s_prev (slab_at h' y) = s_prev (slab_at h y) ∧
                        in_partial (slab_at h' y) = in_partial (slab_at h y)).
  { intros y. destruct (decide (y = d)) as [->|Hne]; [done|by rewrite Hs]. }
  split.
  - split.
    + by apply (chunks_ok_frame h h' pl pl' a).
    + intros c Hcin. apply (chunk_wf_frame r h h' a); [done| |done|by apply I2]. intros y. destruct (decide (y = d)) as [->|Hne]; [done|by rewrite Hs].
    + intros x lx. acbn. rewrite lookup_insert_Some. intros [[<- <-]|[Hne Hx]].
      * destruct W as [W1 W2 [F1 F2 F3 F4 F5 F6 F7 F8] W4 W5 W6]. split; acbn; try done.
        -- apply (slab_placed_hdr r h); [|done]. unfold chunk_at. rewrite Hc. auto with btm.
        -- split; [congruence..|auto].
      * destruct (I3 x lx Hx) as [W1 W2 W3 W4 W5 W6]. rewrite <-(Hs x) in W3, W6 by done. split; acbn; try done.
        -- apply (slab_placed_hdr r h); [|done]. unfold chunk_at. rewrite Hc. auto with btm.
        -- intros Hcold. destruct (W6 Hcold) as [W6a W6b]. split; [done|].
           apply (flist_ext (h_mem h)); [|done]. intros q y Hq Hy. symmetry. apply Hb. intros p Hp.
           destruct (other_slot_outside r _ _ _ _ d x lx q I Hr Hin (sw_placed _ _ _ _ _ W) Hx ltac:(done) (W5 _ Hq) y ltac:(lia) p Hp); lia.
    + apply (lists_ok_frame h h' pl pl' a); try done. intros y _. split; apply Hlinks.
    + destruct I5 as [M1 M2 M3 M4 M5 M6 M7].
      assert (His : ∀ x, is_Some (<[d := l']> (a_free a) !! x) ↔ is_Some (a_free a !! x)).
      { intros x. rewrite lookup_insert_is_Some. split; [intros [<-|[_ ?]]; [by exists l|done]|].
        intros ?. destruct (decide (d = x)); [by left|by right]. }
      split; acbn; try done.
      * intros x Hx. apply His. by apply M2.
      * intros x Hx%His. rewrite (proj2 (proj2 (Hlinks x))). by apply M3.
      * intros x Hx. rewrite His. by apply M4.
      * intros x lx. rewrite lookup_insert_Some. intros [[<- <-]|[_ Hx]]; [done|by apply M5].
      * intros x lx. rewrite lookup_insert_Some. intros [[<- <-]|[_ Hx]]; [done|by apply M6].
  - split; [|intros; by rewrite Hc]. intros c Hcn. split; [by rewrite Hc| |].
    + intros y Hy. apply Hs. intros ->. destruct Hcn. rewrite <-Hy. apply W.
    + intros x Hx. apply Hb. intros p Hp. destruct (decide (p ≤ x < p + 8)); [|lia]. destruct Hcn. rewrite <-Hx.
      rewrite (slot_byte_chunk r (proj1 Hr) d p x Hin Hp); [apply W|lia].
Qed.

(** Writes that spare the links of the free slots. *)
Lemma inv_mem h m' pl a X :
  pool_inv r h pl a X →
  (∀ d l p x, a_free a !! d = Some l → p ∈ l → p ≤ x < p + 8 → byte_at m' x = byte_at (h_mem h) x) →
  pool_inv r (heap_set_mem m' h) pl a X.
Proof.
  intros [I1 I2 I3 I4 I5] Hb. split.
  - by apply (chunks_ok_frame h _ pl pl a).
  - intros c Hc. apply (chunk_wf_frame r h _ a); [done..|by apply I2].
  - intros d l Hl. destruct (I3 d l Hl) as [W1 W2 W3 W4 W5 W6]. split; try done.
    + apply (slab_placed_hdr r h); auto with btm.
    + intros Hcold. destruct (W6 Hcold) as [W6a W6b]. split; [done|].
      apply (flist_ext (h_mem h)); [|done]. intros p x Hp Hx. symmetry. by apply (Hb d l p).
  - by apply (lists_ok_frame h _ pl pl a).
  - destruct I5. by split.
Qed.

(** ** The loops *)
Lemma refill_loop_run (k : nat) d l acc n s :
  mapped (p_heap s) d → (∀ x, x ∈ l → mapped (p_heap s) x) → slots_ok (l ++ acc) →
  free_head (slab_at (p_heap s) d) = hd0 l → flist (h_mem (p_heap s)) l → flist (h_mem (p_heap s)) acc →
  let j := Nat.min k (length l) in
  ∃ h', refill_loop k d (hd0 acc) n s = Ok ((hd0 (reverse (take j l) ++ acc), n + Z.of_nat j), mk_pstate h' (p_pools s) (p_epoch s) (p_src s)) ∧
    h_chunks h' = h_chunks (p_heap s) ∧
    (∀ y, slab_at h' y = if decide (y = d) then slab_set_free (hd0 (drop j l)) (free_count (slab_at (p_heap s) d)) (slab_at (p_heap s) d)
                          else slab_at (p_heap s) y) ∧
    flist (h_mem h') (drop j l) ∧ flist (h_mem h') (reverse (take j l) ++ acc) ∧
    (∀ x, (∀ p, p ∈ take j l → x < p ∨ p + 8 ≤ x) → byte_at (h_mem h') x = byte_at (h_mem (p_heap s)) x).
Proof.
  revert l acc n s. induction k as [|k IH]; intros l acc n s Hd Hm Hok Hh Hl Hacc j.
  { exists (p_heap s). subst j. simpl. rewrite Z.add_0_r, drop_0. split_and!; try done; [by destruct s|].
    intros y. gcase; [subst y|done]. destruct (slab_at (p_heap s) d). simpl in *. by subst. }
  destruct l as [|x l].
  { exists (p_heap s). subst j. cbn [refill_loop]. pstep. rewrite Hh. simpl. rewrite Z.add_0_r. split_and!; try done; [by destruct s|].
    intros y. gcase; [subst y|done]. destruct (slab_at (p_heap s) d). simpl in *. by subst. }
  destruct (slots_ok_head x (l ++ acc) Hok) as (Hx0 & Hxa & Hxn & Hap).
  destruct Hl as [Hxl Hl]. cbn [refill_loop]. pstep. rewrite Hh. cbn [hd0]. rewrite (proj2 (Z.eqb_neq x 0)) by lia.
  erewrite run_bind by (apply run_fl_get, Hm; by left). rewrite Hxl. pstep.
  erewrite run_bind; [|apply run_fl_set; unfold mapped; pcbn; apply Hm; by left]. pcbn.
  set (m1 := btm_fl_set _ x (hd0 acc)).
  assert (Hok' : slots_ok (l ++ x :: acc)).
  { destruct Hok as (Hnd & Hok & Hap'). split_and!.
    - by rewrite <-Permutation_middle.
    - intros y Hy. apply Hok. list_mem. tauto.
    - intros y z Hy Hz. apply Hap'; list_mem; tauto. }
  match goal with |- context [refill_loop k d x (n + 1) ?st] => set (s1 := st) end.
  destruct (IH l (x :: acc) (n + 1) s1) as (h' & Hrun & Hc & Hs & Hf1 & Hf2 & Hb); try done.
  { intros y Hy. apply Hm. by right. }
  { subst s1. pcbn. rewrite slab_at_set_mem, slab_at_set, decide_True by done. done. }
  { subst s1 m1. pcbn. apply flist_set_other; [|done]. intros y Hy. apply Hap. in_list. }
  { subst s1 m1. pcbn. apply flist_push; try done; [by apply (slots_ok_app (x :: l) acc)|].
    intros y Hy. apply Hap. in_list. }
  exists h'. subst j. simpl. rewrite reverse_cons, <-app_assoc. split_and!; try done.
  - replace (n + Z.of_nat (S (Nat.min k (length l)))) with (n + 1 + Z.of_nat (Nat.min k (length l))) by lia. exact Hrun.
  - intros y. rewrite Hs. subst s1. pcbn. rewrite !slab_at_set_mem, !slab_at_set. by gcases.
  - intros y Hy. rewrite Hb by (intros p Hp; apply Hy; by right). subst s1 m1. pcbn. apply fl_set_outside. apply Hy. by left.
Qed.

Lemma tail_walk_run q t s :
  (∀ x, x ∈ q ++ [t] → mapped (p_heap s) x) → flist (h_mem (p_heap s)) (q ++ [t]) →
  tail_walk (length q) (hd0 (q ++ [t])) s = Ok (t, s).
Proof.
  induction q as [|x q IH]; intros Hm Hf; [done|]. cbn [length tail_walk]. destruct Hf as [Hx Hf].
  erewrite run_bind by (apply run_fl_get, Hm; by left). cbn [hd0 app]. rewrite Hx. apply IH; [|done].
  intros y Hy. apply Hm. by right.
Qed.

(** ** Slots of the pool's slabs *)
Definition known_slot (a : apool) (x : Z) : Prop := ∃ d l, a_free a !! d = Some l ∧ x ∈ slab_slots r d.

Lemma outstanding_known a x : outstanding_slot r a x → known_slot a x.
Proof. intros (d & l & ? & ? & _). by exists d, l. Qed.

Lemma known_apart h pl a X x y :
  pool_inv r h pl a X → valid_ref r → known_slot a x → known_slot a y → x ≠ y → x + sz ≤ y ∨ y + sz ≤ x.
Proof.
  intros I Hr (d1 & l1 & H1 & Hx) (d2 & l2 & H2 & Hy) Hne. destruct (decide (d1 = d2)) as [->|Hd].
  - by apply (slots_spaced r (proj1 Hr) (data_of d2)).
  - by apply (inv_disjoint r Hr I d1 l1 d2 l2).
Qed.

Lemma known_place h pl a X x :
  pool_inv r h pl a X → valid_ref r → known_slot a x → 0 < x ∧ addr_ok x ∧ mapped h x ∧ chunk_of x ∈ a_chunks a.
Proof.
  intros I Hr (d & l & Hd & Hx). pose proof (inv_slab_in r Hr I d l Hd) as Hin.
  destruct (slot_addr r (proj1 Hr) d x Hin Hx). split_and!; try done.
  - unfold mapped. rewrite (slot_chunk r (proj1 Hr) d x Hin Hx). by apply (inv_mapped r I d l).
  - rewrite (slot_chunk r (proj1 Hr) d x Hin Hx). by apply (inv_slab_chunk r I d l).
Qed.

Lemma known_slots_ok h pl a X l :
  pool_inv r h pl a X → valid_ref r → NoDup l → (∀ x, x ∈ l → known_slot a x) → slots_ok l.
Proof.
  intros I Hr Hnd Hk. split_and!; [done| |].
  - intros x Hx. destruct (known_place h pl a X x I Hr (Hk x Hx)) as (? & ? & _). done.
  - intros x y Hx Hy Hne. pose proof (known_apart h pl a X x y I Hr (Hk x Hx) (Hk y Hy) Hne).
    pose proof (sc_size_pos r.2 (proj1 Hr)). unfold apart. lia.
Qed.

(** ** Taking slots under the lock *)
Record taken (a a' : apool) (lst : list Z) : Prop := {
  tk_nodup : NoDup lst;
  tk_fresh x : x ∈ lst → ¬ outstanding_slot r a x;
  tk_out x : outstanding_slot r a' x ↔ outstanding_slot r a x ∨ x ∈ lst;
}.

(** Slots of one slab's free list, taken out of it. *)
Lemma take_slots h pl a X d l j :
  pool_inv r h pl a X → valid_ref r → a_free a !! d = Some l →
  taken a (a_set_free (<[d := drop j l]> (a_free a)) a) (reverse (take j l)).
Proof.
  intros I Hr Hl. destruct (pi_slab _ _ _ _ _ I d l Hl) as [W1 W2 W3 W4 W5 W6].
  assert (Hnd : NoDup (take j l ++ drop j l)) by (by rewrite take_drop).
  apply NoDup_app in Hnd as (Hn1 & Hdj & Hn2).
  assert (Hin : ∀ x, x ∈ l ↔ x ∈ take j l ∨ x ∈ drop j l).
  { intros x. rewrite <-(take_drop j l) at 1. apply elem_of_app. }
  assert (Hout : ∀ x, x ∈ slab_slots r d → outstanding_slot r a x → x ∉ l).
  { intros x Hx (d' & l' & Hd' & Hx' & Hn). destruct (decide (d' = d)) as [->|Hne]; [by simplify_eq|].
    pose proof (sc_size_pos r.2 (proj1 Hr)).
    destruct (inv_disjoint r Hr I d' l' d l x x Hd' Hl Hne Hx' Hx); lia. }
  split.
  - by rewrite reverse_Permutation.
  - intros x Hx. rewrite elem_of_reverse in Hx. assert (x ∈ l) by (rewrite Hin; tauto). assert (x ∈ slab_slots r d) by (by apply W5).
    intros Ho. by apply (Hout x).
  - intros x. rewrite elem_of_reverse. split.
    + intros (d' & l' & Hd' & Hx & Hn). acbn. apply lookup_insert_Some in Hd' as [[<- <-]|[Hne Hd']].
      * destruct (decide (x ∈ take j l)); [by right|]. left. exists d, l. split_and!; try done. rewrite Hin. tauto.
      * left. by exists d', l'.
    + intros [(d' & l' & Hd' & Hx & Hn)|Hx].
      * destruct (decide (d = d')) as [<-|Hne].
        -- assert (l' = l) as -> by congruence. exists d, (drop j l). acbn. rewrite lookup_insert_eq. split_and!; try done. rewrite Hin in Hn. tauto.
        -- exists d', l'. acbn. by rewrite lookup_insert_ne.
      * exists d, (drop j l). acbn. rewrite lookup_insert_eq. split_and!; [done|apply W5, Hin; by left|by apply Hdj].
Qed.

Lemma partial_not_empty h a X d : member_ok r h a X → d ∈ a_partial a → d ∉ a_empty a.
Proof. intros M Hd He. pose proof (mb_nodup _ _ _ _ M) as (_ & Hdj & _)%NoDup_app. by apply (Hdj d). Qed.

(** The taking loop and its bookkeeping, before the slab may leave the partial list. *)
Lemma refill_take_loop s pl a d l want :
  pst E r s pl a [d] → a_free a !! d = Some l → d ∉ a_cold a →
  let j := Nat.min (Z.to_nat want) (length l) in
  let lst := reverse (take j l) in let a1 := a_set_free (<[d := drop j l]> (a_free a)) a in
  let pl1 := pool_set_outstanding (u64 (outstanding pl + Z.of_nat j)) pl in
  ∃ s1, refill_take r d want s =
      (_ ← (if Z.of_nat (length l - j) =? 0 then partial_remove r d else mret tt); mret (hd0 lst, Z.of_nat j)) s1 ∧
    pst E r s1 pl1 a1 [d] ∧ pframe E r (user_byte r a) s s1 ∧ flist (h_mem (p_heap s1)) lst.
Proof.
  intros S Hl Hcold j lst a1 pl1. pose proof S as [Hr Hp I Hsrc Hap]. pose proof (pi_slab _ _ _ _ _ I d l Hl) as [W1 W2 W3 W4 W5 W6].
  destruct (W6 Hcold) as [Hhd Hfl]. pose proof (inv_mapped r I d l Hl) as Hmap. pose proof (inv_slab_in r Hr I d l Hl) as Hin.
  pose proof (sf_count _ _ _ _ W3) as Hcnt. pose proof (sc_size_pos r.2 (proj1 Hr)) as Hsz.
  assert (Hlen : (length l ≤ 256)%nat).
  { pose proof (ns_range r (proj1 Hr)). apply NoDup_submseteq, submseteq_length in W5; [|done].
    unfold slab_slots in W5. rewrite slots_length in W5. lia. }
  destruct (refill_loop_run (Z.to_nat want) d l [] 0 s) as (h1 & Hrun & Hc & Hs & Hf1 & Hf2 & Hb); try done.
  { intros x Hx. apply (known_place _ _ _ _ x I Hr). exists d, l. auto. }
  { rewrite app_nil_r. by apply (inv_slots_ok r Hr I d). }
  fold j in Hrun, Hs, Hf1, Hf2, Hb. rewrite app_nil_r, Z.add_0_l in *. fold lst in Hrun, Hf2.
  assert (Hm1 : mapped h1 d) by (unfold mapped; by rewrite Hc).
  unfold refill_take. erewrite run_bind by exact Hrun. cbn beta iota. pstep. pstep. unfold slab_touch.
  set (h2 := heap_set_slab d _ h1).
  erewrite run_bind; [|erewrite run_bind by (apply run_gets); rewrite run_upd_slab by (subst h2; pside); reflexivity].
  pstep. rewrite slab_at_set, decide_True by done. cbn [slab_set_touch free_count].
  set (v2 := slab_set_touch _ (slab_at h2 d)). set (h3 := heap_set_slab d v2 h2).
  assert (Hv2 : relisted (slab_at (p_heap s) d) v2 (drop j l)).
  { subst v2 h2. pcbn. rewrite slab_at_set, decide_True, Hs, decide_True by done. split; try done. cbn.
    rewrite Hcnt, length_drop, u32_small by lia. lia. }
  assert (Hcnt2 : free_count (slab_at h2 d) = Z.of_nat (length l - j)).
  { trans (free_count v2); [done|]. rewrite (rl_count _ _ _ Hv2), length_drop. done. }
  assert (Hs3 : ∀ y, y ≠ d → slab_at h3 y = slab_at (p_heap s) y).
  { intros y Hy. subst h3 h2. pcbn. rewrite !slab_at_set, !decide_False, Hs, decide_False by done. done. }
  destruct (inv_relist (p_heap s) h3 pl pl1 a [d] d l (drop j l)) as [I3 T3]; try done.
  { by left. }
  { subst h3. by rewrite slab_at_set, decide_True. }
  { intros x Hx. apply Hb. intros p Hpin. apply Hx, W5. by eapply subseteq_take. }
  { by apply (sublist_NoDup _ l); [|apply sublist_drop]. }
  { intros x Hx. apply W5. by eapply subseteq_drop. }
  destruct (pst_step (g := g) E r s pl a [d] h3 pl1 a1 [d] (user_byte r a) S eq_refl T3 I3) with (pools' := <[r := pl1]> (p_pools s)) as [S3 F3].
  { intros x (p & (d' & l' & Hd' & Hp' & Hn) & Hx). apply Hb. intros q Hq. assert (Hql : q ∈ l) by (by eapply subseteq_take).
    destruct (decide (d' = d)) as [->|Hne].
    - assert (l' = l) as -> by congruence. destruct (slots_spaced r (proj1 Hr) (data_of d) p q); [done|by apply W5|congruence|lia..].
    - destruct (other_slot_outside r _ _ _ _ d d' l' p I Hr Hin W2 Hd' Hne Hp' x Hx q (W5 _ Hql)); lia. }
  { done. }
  eexists. split_and!; [|exact S3|exact F3|exact Hf2]. rewrite Hcnt2. reflexivity.
Qed.

Lemma refill_take_spec s pl a d l want :
  pst E r s pl a [d] → a_free a !! d = Some l → l ≠ [] → d ∈ a_partial a → d ∈ a_live a → 1 ≤ want →
  ∃ lst s' pl' a', refill_take r d want s = Ok ((hd0 lst, Z.of_nat (length lst)), s') ∧ pst E r s' pl' a' [] ∧
    pframe E r (user_byte r a) s s' ∧ taken a a' lst ∧ lst ≠ [] ∧ Z.of_nat (length lst) ≤ want ∧
    flist (h_mem (p_heap s')) lst ∧ outstanding pl' = u64 (outstanding pl + Z.of_nat (length lst)).
Proof.
  intros S Hl Hne Hpart Hlive Hw. pose proof S as [Hr Hp I Hsrc Hap].
  pose proof (partial_not_empty _ _ _ _ (pi_member _ _ _ _ _ I) Hpart) as Hemp.
  destruct (refill_take_loop s pl a d l want S Hl) as (s1 & Hrun & S1 & F1 & Hf); [unfold a_empty in Hemp; list_mem; tauto|].
  set (j := Nat.min (Z.to_nat want) (length l)) in *. set (lst := reverse (take j l)) in *.
  assert (Hll : (0 < length l)%nat) by (destruct l; [done|simpl; lia]).
  assert (Hlst : length lst = j) by (unfold lst; rewrite length_reverse, length_take; lia).
  assert (Hle : Z.of_nat (length l) ≤ ns).
  { destruct (pi_slab _ _ _ _ _ I d l Hl) as [_ _ _ W4 W5 _]. apply NoDup_submseteq, submseteq_length in W5; [|done].
    unfold slab_slots in W5. rewrite slots_length in W5. pose proof (ns_range r (proj1 Hr)). lia. }
  pose proof (take_slots _ _ _ _ d l j I Hr Hl) as Htk.
  set (a1 := a_set_free (<[d := drop j l]> (a_free a)) a) in *.
  assert (Hd1 : a_free a1 !! d = Some (drop j l)) by (subst a1; acbn; apply lookup_insert_eq).
  assert (Hcommon : ∀ a2, a_free a2 = a_free a1 → taken a a2 lst).
  { intros a2 Ha2. destruct Htk as [T1 T2 T3]. split; try done. intros x. etrans; [|apply T3].
    unfold outstanding_slot. by rewrite Ha2. }
  rewrite Hrun. destruct (Z.eqb_spec (Z.of_nat (length l - j)) 0) as [E0|E0].
  - apply list_elem_of_split in Hpart as (l1 & l2 & Hpart).
    destruct (partial_remove_spec (g := g) E r s1 _ a1 [d] d l1 l2 S1) as (s2 & pl2 & Hrm & S2 & F2 & L2 & O2); [done|by left|].
    exists lst, s2, pl2, (a_set_partial (l1 ++ l2) a1). erewrite run_bind by exact Hrm. rewrite Hlst.
    split_and!; [done| | |by apply Hcommon| | | |]; try lia.
    + apply (pst_settle E r s2 pl2 _ d); [done| |].
      * intros l' Hl'. acbn. assert (l' = drop j l) as -> by congruence. rewrite length_drop, E0.
        pose proof (mb_nodup _ _ _ _ (pi_member _ _ _ _ _ I)) as Hnd. rewrite Hpart in Hnd. acbn.
        pose proof (ns_range r (proj1 Hr)). split; (split; [intros Hin|lia]).
        -- exfalso. rewrite <-app_assoc in Hnd. simpl in Hnd. apply NoDup_app in Hnd as (_ & Hdj & [Hn2 _]%NoDup_cons).
           apply elem_of_app in Hin as [Hin|Hin]; [apply (Hdj d Hin); by left|apply Hn2; in_list].
        -- done.
      * acbn. split; [|done]. intros _. split; [by eexists|done].
    + eapply pframe_trans; [exact F1|]. by eapply pframe_weaken; [|exact F2].
    + intros ->. simpl in Hlst. lia.
    + by rewrite (ls_mem _ _ L2).
    + by rewrite O2.
  - exists lst, s1, (pool_set_outstanding (u64 (outstanding pl + Z.of_nat j)) pl), a1.
    erewrite run_bind by (apply run_ret). rewrite Hlst. split_and!; try done; try lia.
    + apply (pst_settle E r s1 _ _ d); [done| |].
      * intros l' Hl'. assert (l' = drop j l) as -> by congruence. rewrite length_drop. acbn. split.
        -- split; [intros _; lia|done].
        -- split; [done|]. intros Hcontra. exfalso. lia.
      * acbn. split; [|done]. intros _. split; [by eexists|done].
    + intros ->. simpl in Hlst. lia.
Qed.

(** ** A thread's bin *)

(** The bin caches the slots [lb], all of them outstanding. *)
Record bin_ok (m : gmap Z Z) (a : apool) (bin : btm_tls_bin) (lb : list Z) : Prop := {
  bn_head : b_free_head bin = hd0 lb;
  bn_count : b_count bin = Z.of_nat (length lb);
  bn_nodup : NoDup lb;
  bn_list : flist m lb;
  bn_out x : x ∈ lb → outstanding_slot r a x;
}.

(** A free slot is not outstanding, and its links are clear of the outstanding slots. *)
Lemma free_apart h pl a X d l p x :
  pool_inv r h pl a X → valid_ref r → a_free a !! d = Some l → p ∈ l → outstanding_slot r a x → apart x p.
Proof.
  intros I Hr Hl Hp Hx. pose proof (pi_slab _ _ _ _ _ I d l Hl) as W.
  assert (Hkp : known_slot a p) by (exists d, l; split; [done|by apply W]).
  assert (x ≠ p).
  { intros ->. destruct Hx as (d' & l' & Hd' & Hx & Hn). destruct (decide (d' = d)) as [->|Hne]; [congruence|].
    pose proof (sc_size_pos r.2 (proj1 Hr)). destruct (inv_disjoint r Hr I d' l' d l p p Hd' Hl Hne Hx); [by apply W|lia..]. }
  pose proof (known_apart h pl a X x p I Hr (outstanding_known _ _ Hx) Hkp ltac:(done)) as Hap.
  pose proof (sc_size_pos r.2 (proj1 Hr)). unfold apart. lia.
Qed.

(** Writing the link of an outstanding slot. *)
Lemma link_out_spec s pl a x next (P : Z → Prop) :
  pst E r s pl a [] → outstanding_slot r a x → (∀ y, P y → y < x ∨ x + 8 ≤ y) →
  ∃ s', fl_set x next s = Ok (tt, s') ∧ p_heap s' = heap_set_mem (btm_fl_set (h_mem (p_heap s)) x next) (p_heap s) ∧
    pst E r s' pl a [] ∧ pframe E r P s s'.
Proof.
  intros S Hx HP. pose proof S as [Hr Hp I Hsrc Hap].
  destruct (known_place _ _ _ _ x I Hr (outstanding_known _ _ Hx)) as (Hx0 & Hxa & Hxm & Hxc).
  set (m' := btm_fl_set (h_mem (p_heap s)) x next).
  assert (I' : pool_inv r (heap_set_mem m' (p_heap s)) pl a []).
  { apply inv_mem; [done|]. intros d l p y Hd Hpl Hy. apply fl_set_outside.
    pose proof (free_apart _ _ _ _ d l p x I Hr Hd Hpl Hx) as Hxp. unfold apart in Hxp. lia. }
  assert (T : touches (a_chunks a) (p_heap s) (heap_set_mem m' (p_heap s))).
  { apply touches_mem. intros y Hy. apply fl_set_outside. destruct (decide (x ≤ y < x + 8)); [|lia]. exfalso. apply Hy.
    apply (user_byte_chunk r _ _ _ _ y Hr I). exists x. split; [done|]. pose proof (sc_size_pos r.2 (proj1 Hr)). lia. }
  destruct (pst_step (g := g) E r s pl a [] _ pl a [] P S eq_refl T I') with (pools' := p_pools s) as [S' F'].
  { intros y Hy. apply fl_set_outside. by apply HP. }
  { symmetry. by apply insert_id. }
  exists (mk_pstate (heap_set_mem m' (p_heap s)) (p_pools s) (p_epoch s) (p_src s)). split_and!; try done. by rewrite run_fl_set.
Qed.

Lemma refill_cache_spec s pl a a' lst bin lb :
  pst E r s pl a' [] → taken a a' lst → lst ≠ [] → flist (h_mem (p_heap s)) lst → bin_ok (h_mem (p_heap s)) a bin lb →
  Z.of_nat (length lst) + Z.of_nat (length lb) < 2 ^ 32 →
  ∃ p q s' bin', lst = p :: q ∧ refill_cache (hd0 lst) (Z.of_nat (length lst)) bin s = Ok ((p, bin'), s') ∧
    pst E r s' pl a' [] ∧ pframe E r (user_byte r a) s s' ∧ bin_ok (h_mem (p_heap s')) a' bin' (q ++ lb) ∧ b_pool bin' = b_pool bin.
Proof.
  intros HS [T1 T2 T3] Hne Hf [B1 B2 B3 B4 B5] Hlen. pose proof HS as [Hr Hp I Hsrc Hap].
  destruct lst as [|p q]; [done|]. destruct Hf as [Hpq Hf]. exists p, q.
  assert (Hout : ∀ x, x ∈ p :: q → outstanding_slot r a' x) by (intros x Hx; apply T3; by right).
  assert (Hmap : ∀ x, x ∈ p :: q → mapped (p_heap s) x).
  { intros x Hx. by apply (known_place _ _ _ _ x I Hr), outstanding_known, Hout. }
  apply NoDup_cons in T1 as [Hpn Hqn].
  assert (Hlb : ∀ x, x ∈ lb → outstanding_slot r a' x) by (intros x Hx; apply T3; left; auto).
  assert (Hnd : NoDup (q ++ lb)).
  { apply NoDup_app. split_and!; [done| |done]. intros x Hx Hx'. apply (T2 x); [by right|by apply B5]. }
  assert (Hok : slots_ok (q ++ lb)).
  { apply (known_slots_ok _ _ _ _ _ I Hr Hnd). intros x [Hx|Hx]%elem_of_app; apply outstanding_known; [apply Hout; by right|by apply Hlb]. }
  unfold refill_cache. cbn [hd0 length]. rewrite (proj2 (Z.eqb_neq (Z.of_nat (S (length q))) 0)) by lia.
  erewrite run_bind by (apply run_fl_get, Hmap; by left). rewrite Hpq. cbv zeta.
  replace (Z.of_nat (S (length q)) - 1) with (Z.of_nat (length q)) by lia.
  destruct q as [|t q' _] using rev_ind.
  - exists s, bin. split_and!; try done. apply pframe_refl.
  - replace (length (q' ++ [t])) with (length q' + 1)%nat by (by rewrite length_app). rewrite (proj2 (Z.eqb_neq (Z.of_nat (length q' + 1)) 0)) by lia.
    replace (Z.to_nat (Z.of_nat (length q' + 1) - 1)) with (length q') by lia.
    erewrite run_bind by (apply tail_walk_run; [intros x Hx; apply Hmap; by right|done]).
    destruct (link_out_spec s pl a' t (b_free_head bin) (user_byte r a)) as (s' & Hset & Hh' & S' & F'); [done| | |].
    { apply Hout. right. apply elem_of_app. right. by left. }
    { intros y (p0 & Hp0 & Hy). assert (Ht : t ∈ p :: q' ++ [t]) by (right; apply elem_of_app; right; by left).
      assert (p0 ≠ t) by (intros ->; by apply (T2 t Ht)). pose proof (sc_size_pos r.2 (proj1 Hr)).
      destruct (known_apart _ _ _ _ p0 t I Hr) as [?|?]; [apply outstanding_known, T3; by left|by apply outstanding_known, Hout|done|lia..]. }
    erewrite run_bind by exact Hset. eexists s', _. split_and!; [done..| |done].
    rewrite Hh'. split; cbn [b_free_head b_count h_mem heap_set_mem].
    + by destruct q'.
    + rewrite B2, u32_small, !length_app; simpl length in *; rewrite ?length_app in Hlen; simpl in *; lia.
    + done.
    + rewrite <-app_assoc. simpl. rewrite B1. apply flist_splice; [|done|done]. by rewrite <-app_assoc in Hok.
    + intros x [Hx|Hx]%elem_of_app; [apply Hout; by right|by apply Hlb].
Qed.

Lemma bin_ok_frame s s' a bin lb :
  valid_ref r → pframe E r (user_byte r a) s s' → bin_ok (h_mem (p_heap s)) a bin lb → bin_ok (h_mem (p_heap s')) a bin lb.
Proof.
  intros Hr Hf [B1 B2 B3 B4 B5]. split; try done. apply (flist_ext (h_mem (p_heap s))); [|done].
  intros p x Hp Hx. symmetry. apply (pf_bytes _ _ _ _ _ _ Hf). exists p. split; [by apply B5|].
  pose proof (sc_size_pos r.2 (proj1 Hr)). lia.
Qed.

(** ** Refill *)

(** The slab a refill takes from: at the head of the partial list, with free slots. *)
Lemma refill_slab_spec s pl a :
  pst E r s pl a [] →
  (∃ s', (if partial pl =? 0 then d ← btm_slab_new r; _ ← (if d =? 0 then mret tt else partial_push r d); mret d
          else mret (partial pl)) s = Ok (0, s') ∧ pst E r s' pl a [] ∧ pframe E r (user_byte r a) s s') ∨
  (∃ d l s' pl' a', (if partial pl =? 0 then d ← btm_slab_new r; _ ← (if d =? 0 then mret tt else partial_push r d); mret d
          else mret (partial pl)) s = Ok (d, s') ∧ pst E r s' pl' a' [d] ∧ pframe E r (user_byte r a) s s' ∧
      d ≠ 0 ∧ a_free a' !! d = Some l ∧ l ≠ [] ∧ d ∈ a_partial a' ∧ d ∈ a_live a' ∧
      ∀ p, outstanding_slot r a' p ↔ outstanding_slot r a p).
Proof.
  intros HS. pose proof HS as [Hr Hp I Hsrc Hap]. pose proof (lk_partial _ _ _ (pi_lists _ _ _ _ _ I)) as Hpl.
  pose proof (ns_range r (proj1 Hr)) as Hns.
  destruct (Z.eqb_spec (partial pl) 0) as [E0|E0].
  - destruct (btm_slab_new_spec (g := g) E r s pl a HS) as [(s1 & Hrun & S1 & F1)|(d & s1 & pl1 & a1 & Hrun & S1 & F1 & [N1 N2 N3 N4 N5 N6])].
    + left. exists s1. split_and!; [|done..]. by erewrite run_bind by exact Hrun.
    + right. destruct (partial_push_spec (g := g) E r s1 pl1 a1 [d] d S1) as (s2 & pl2 & Hpush & S2 & F2 & _ & _).
      { by eexists. } { list_mem. tauto. } { list_mem. tauto. } { by left. }
      exists d, (slab_slots r d), s2, pl2, (a_set_partial (d :: a_partial a1) a1). split_and!; try done.
      * erewrite run_bind by exact Hrun. rewrite (proj2 (Z.eqb_neq d 0)) by done. by erewrite run_bind by exact Hpush.
      * eapply pframe_trans; [exact F1|]. by eapply pframe_weaken; [|exact F2].
      * intros Hnil. pose proof (slots_length r (data_of d)) as Hlen. unfold slab_slots in Hnil. rewrite Hnil in Hlen. simpl in Hlen. lia.
      * by left.
  - right. destruct (a_partial a) as [|d lp] eqn:Ep; [done|]. simpl in Hpl.
    pose proof (pi_member _ _ _ _ _ I) as [M1 M2 M3 M4 M5 M6 M7].
    destruct (M2 d) as [l Hl]; [rewrite Ep; by left|].
    assert (Hd : d ∈ a_partial a) by (rewrite Ep; by left).
    exists d, l, s, pl, a. rewrite Hpl in *. split_and!; try done.
    + eapply pst_more; [|exact HS]. intros x Hx%elem_of_nil. done.
    + apply pframe_refl.
    + apply (M5 d l Hl) in Hd; [|apply not_elem_of_nil]. intros ->. simpl in Hd. lia.
    + apply M4; [apply not_elem_of_nil|]. split; [by exists l|]. by apply (partial_not_empty (p_heap s) a []).
Qed.

(** The whole refill: either nothing changes for want of memory, or the caller gets a
    slot [p] no one holds, the bin caches further such slots [q], and exactly these
    slots become outstanding. *)
Lemma btm_pool_refill_spec s pl a bin lb want :
  pst E r s pl a [] → bin_ok (h_mem (p_heap s)) a bin lb → 1 ≤ want → want + Z.of_nat (length lb) < 2 ^ 32 →
  (∃ s', btm_pool_refill r bin want s = Ok ((0, bin), s') ∧ pst E r s' pl a [] ∧ pframe E r (user_byte r a) s s') ∨
  (∃ p q s' pl' a' bin', btm_pool_refill r bin want s = Ok ((p, bin'), s') ∧ pst E r s' pl' a' [] ∧
     pframe E r (user_byte r a) s s' ∧ taken a a' (p :: q) ∧ bin_ok (h_mem (p_heap s')) a' bin' (q ++ lb) ∧
     Z.of_nat (length (p :: q)) ≤ want ∧ b_pool bin' = b_pool bin).
Proof.
  intros HS HB Hw Hlen. pose proof HS as [Hr Hp I Hsrc Hap]. unfold btm_pool_refill. pstep.
  destruct (refill_slab_spec s pl a HS) as [(s1 & Hrun & S1 & F1)|(d & l & s1 & pl1 & a1 & Hrun & S1 & F1 & Hd0 & Hl & Hne & Hpart & Hlive & Hout)];
    erewrite run_bind by exact Hrun.
  - left. by exists s1.
  - right. rewrite (proj2 (Z.eqb_neq d 0)) by done.
    destruct (refill_take_spec s1 pl1 a1 d l want) as (lst & s2 & pl2 & a2 & Htake & S2 & F2 & [T1 T2 T3] & Hn2 & Hle & Hf & _); try done.
    erewrite run_bind by exact Htake. cbn beta iota.
    assert (F2' : pframe E r (user_byte r a) s1 s2).
    { eapply pframe_weaken; [|exact F2]. intros x. apply user_byte_mono. intros p. by rewrite Hout. }
    assert (Htk : taken a a2 lst).
    { split; try done; [intros x Hx; rewrite <-Hout; by apply T2|]. intros x. rewrite T3, Hout. done. }
    destruct (refill_cache_spec s2 pl2 a a2 lst bin lb) as (p & q & s3 & bin' & -> & Hc & S3 & F3 & B3 & Hpool); try done.
    { apply (bin_ok_frame s1); [done..|]. by apply (bin_ok_frame s). }
    { lia. }
    exists p, q, s3, pl2, a2, bin'. split_and!; try done. by eapply pframe_trans; [|eapply pframe_trans].
Qed.
End refill.
