(* ===== verification/PoolReclaim.v ===== *)
(** * PoolReclaim: a slab that became empty, and a chunk that became empty *)

From stdpp Require Import prelude gmap.
From S2P Require Import Prelude Memory SizeClass Freelist Heap Dll Pool PoolInv PoolFrame PoolRun PoolLists PoolSlab PoolCarve PoolRefill.
Local Open Scope Z_scope.

Section reclaim.
Context {F : FlOps} {FL : FlLaws F} {B : Type} {CS : ChunkSource B} {CL : ChunkSourceLaws B CS}.
Context (E : gset Z) (r : pool_ref).
Abbreviation pframe := (PoolFrame.pframe false).
Implicit Types s : pstate B.
Abbreviation ns := (slots_of_class r.2).
Abbreviation sz := (btm_sc_to_size r.2).

(** ** Purging the empty lists *)

(** The empty list a purge works on, and the pool without one of its slabs. *)
Definition a_list (warm : bool) (a : apool) : list Z := if warm then a_warm a else a_cold a.
Definition a_drop (warm : bool) (x : Z) (l : list Z) (a : apool) : apool :=
  if warm then a_pop x l (a_cold a) a else a_pop x (a_warm a) l a.

Lemma purge_unlink_run (warm : bool) prev nxt s pl :
  p_pools s !! r = Some pl → (prev ≠ 0 → mapped (p_heap s) prev) →
  let pl1 := if prev =? 0 then (if warm then pool_set_warm nxt (warm_count pl) pl else pool_set_cold nxt pl) else pl in
  let pl2 := if warm then pool_set_warm (empty_warm pl1) (u32 (warm_count pl1 - 1)) pl1 else pl1 in
  ∃ h', purge_unlink r warm prev nxt s = Ok (tt, mk_pstate h' (<[r := pl2]> (p_pools s)) (p_epoch s) (p_src s)) ∧
    h_mem h' = h_mem (p_heap s) ∧ h_chunks h' = h_chunks (p_heap s) ∧
    (∀ y, slab_at h' y = if decide (y = prev ∧ prev ≠ 0) then slab_set_next nxt (slab_at (p_heap s) y) else slab_at (p_heap s) y).
Proof.
  intros Hp Hm pl1 pl2. unfold purge_unlink, write_pp. destruct (Z.eqb_spec prev 0) as [E0|E0].
  - exists (p_heap s). split_and!; try done; [|intros y; by rewrite decide_False by tauto]. destruct warm.
    + pstep. rewrite (run_upd_pool _ _ (pool_set_warm nxt (warm_count pl) pl)) by (pcbn; apply lookup_insert_eq).
      unfold set_pool. pcbn. by rewrite insert_insert_eq.
    + pstep. by rewrite run_ret.
  - specialize (Hm E0). destruct warm; pstep.
    + rewrite (run_upd_pool _ _ pl) by done. eexists. split; [reflexivity|]. split_and!; try done.
      intros y. pcbn. rewrite slab_at_set. gcases; subst; try done; tauto.
    + rewrite run_ret. eexists. split; [rewrite (insert_id (p_pools s)) by done; reflexivity|]. split_and!; try done.
      intros y. pcbn. rewrite slab_at_set. gcases; subst; try done; tauto.
Qed.

Lemma last_default (l : list Z) :
  (∀ y, y ∈ l → y ≠ 0) → (default 0 (last l) = 0 ↔ l = []) ∧ (∀ y, y ≠ 0 → (last l = Some y ↔ y = default 0 (last l))).
Proof.
  intros Hnz. destruct (last l) as [z|] eqn:El.
  - pose proof (last_Some_elem_of _ _ El) as Hz. split; [split; [intros H0; by destruct (Hnz z Hz)|intros ->; done]|].
    intros y Hy. simpl. split; [by intros [= ->]|by intros ->].
  - apply last_None in El as ->. split; [done|]. intros y Hy. split; [done|simpl; lia].
Qed.

(** One unlink of a purge. *)
Lemma purge_unlink_spec s pl a d (warm : bool) kept x rest :
  pst E r s pl a [d] → a_list warm a = kept ++ x :: rest → x ≠ d →
  ∃ s' pl', purge_unlink r warm (default 0 (last kept)) (hd0 rest) s = Ok (tt, s') ∧
    pst E r s' pl' (a_drop warm x (kept ++ rest) a) [d] ∧ pframe E r (λ _, True) s s' ∧ linkstep (p_heap s) (p_heap s') ∧
    chunks pl' = chunks pl ∧ active pl' = active pl ∧
    (∀ y, y ∉ kept → slab_at (p_heap s') y = slab_at (p_heap s) y).
Proof.
  intros HS Hlist Hxd. pose proof HS as [Hr Hp I Hsrc Hap]. pose proof (pi_lists _ _ _ _ _ I) as [L1 L2 L3 L4 L5 L6 L7].
  pose proof (pi_member _ _ _ _ _ I) as [M1 M2 M3 M4 M5 M6 M7].
  assert (Hin : ∀ y, y ∈ kept ++ x :: rest → y ∈ a_empty a).
  { intros y. rewrite <-Hlist. unfold a_empty, a_list. destruct warm; in_list. }
  assert (Hh : ∀ y, y ∈ kept ++ x :: rest → 0 < y ∧ mapped (p_heap s) y ∧ chunk_of y ∈ a_chunks a).
  { intros y Hy%Hin. apply (inv_listed r Hr I). in_list. }
  destruct (last_default kept) as [Hl0 Hly]; [intros y Hy; destruct (Hh y); [in_list|lia]|].
  set (prev := default 0 (last kept)) in *.
  assert (Hpd : prev ≠ 0 → prev ∈ kept).
  { intros H0. apply last_Some_elem_of. by apply Hly. }
  destruct (purge_unlink_run warm prev (hd0 rest) s pl Hp) as (h' & Hrun & Hm & Hc & Hs).
  { intros H0. apply Hh. specialize (Hpd H0). in_list. }
  match type of Hrun with _ = Ok (_, mk_pstate _ (<[r := ?p]> _) _ _) => set (pl2 := p) in * end.
  assert (LS : linkstep (p_heap s) h') by (split; [done..|]; core_cases Hs).
  assert (Hoth : ∀ y, y ∉ kept → slab_at h' y = slab_at (p_heap s) y).
  { intros y Hy. rewrite Hs, decide_False; [done|]. intros [-> H0]. by apply Hy, Hpd. }
  assert (T : touches (a_chunks a) (p_heap s) h').
  { apply touches_links; [done|]. intros y Hy. apply Hoth. intros Hyd. apply Hy, Hh. in_list. }
  assert (Hnd : NoDup (kept ++ x :: rest)).
  { rewrite <-Hlist. apply NoDup_app in M1 as (_ & _ & M1). unfold a_empty in M1. apply NoDup_app in M1 as (? & _ & ?). by destruct warm. }
  assert (Hsll : sll s_next (slab_at h') (kept ++ rest)).
  { apply (sll_remove s_next (slab_at (p_heap s)) _ kept x); [done|rewrite <-Hlist; by destruct warm|].
    intros y Hy. assert (y ≠ 0) by (destruct (Hh y); [list_mem; tauto|lia]). rewrite Hs.
    pose proof (Hly y ltac:(done)). gcases; try done; exfalso; naive_solver. }
  assert (Hkeep : ∀ l', (∀ y, y ∈ l' → y ∉ kept) → sll s_next (slab_at (p_heap s)) l' → sll s_next (slab_at h') l').
  { intros l' Hl'. apply sll_ext. intros y Hy. by rewrite Hoth by auto. }
  assert (Hpart : dll s_next s_prev (slab_at h') 0 (a_partial a)).
  { apply (dll_ext s_next s_prev (slab_at (p_heap s))); [|done]. intros y Hy. rewrite Hoth; [done|]. intros Hyd.
    apply NoDup_app in M1 as (_ & Hdj & _). apply (Hdj y Hy), Hin. in_list. }
  assert (Hhd : hd0 (kept ++ rest) = if prev =? 0 then hd0 rest else hd0 (kept ++ x :: rest)).
  { destruct (Z.eqb_spec prev 0) as [H0|H0]; [apply Hl0 in H0 as ->; done|]. destruct kept; [by destruct H0|done]. }
  assert (Hfl : ∀ y, in_partial (slab_at h' y) = in_partial (slab_at (p_heap s) y)) by (intros y; rewrite Hs; by gcase).
  assert (Hpl : chunks pl2 = chunks pl ∧ active pl2 = active pl ∧ nslabs pl2 = nslabs pl) by (subst pl2; destruct (prev =? 0), warm; done).
  assert (Hx : x ∉ [d]) by (by rewrite list_elem_of_singleton).
  assert (I' : pool_inv r h' pl2 (a_drop warm x (kept ++ rest) a) [d]).
  { pose proof (mb_nodup _ _ _ _ (pi_member _ _ _ _ _ I)) as (_ & _ & Hnde)%NoDup_app. unfold a_empty in Hnde.
    apply NoDup_app in Hnde as (_ & Hdj & _). destruct warm; cbn [a_drop a_list] in *.
    - apply (inv_pop r (p_heap s) h' pl); try done.
      + rewrite Hlist, <-!app_assoc. simpl. by rewrite <-Permutation_middle.
      + tauto.
      + rewrite Hlist in M7. rewrite length_app in *. simpl in M7. lia.
      + apply Hpl.
      + apply Hpl.
      + apply Hpl.
      + subst pl2. unfold a_pop. split; acbn; try done.
        * by destruct (prev =? 0).
        * rewrite Hhd, <-Hlist, <-L3. by destruct (prev =? 0).
        * rewrite Hlist, length_app in L5. simpl in L5. rewrite Hlist, length_app in M7. simpl in M7. rewrite length_app.
          assert (Hw : warm_count (if prev =? 0 then pool_set_warm (hd0 rest) (warm_count pl) pl else pl) = warm_count pl) by (by destruct (prev =? 0)).
          simpl. rewrite Hw, L5, u32_small by lia. lia.
        * by destruct (prev =? 0).
        * apply Hkeep; [|done]. intros y Hy Hyd. apply (Hdj y); [rewrite Hlist; in_list|done].
    - apply (inv_pop r (p_heap s) h' pl); try done.
      + rewrite Hlist, <-!Permutation_middle. done.
      + intros y Hy. rewrite Hlist in Hy. list_mem. tauto.
      + apply Hpl.
      + apply Hpl.
      + apply Hpl.
      + subst pl2. unfold a_pop. split; acbn; try done.
        * by destruct (prev =? 0).
        * by destruct (prev =? 0).
        * apply Hkeep; [|done]. intros y Hy Hyd. apply (Hdj y); [done|rewrite Hlist; in_list].
        * by destruct (prev =? 0).
        * rewrite Hhd, <-Hlist, <-L6. by destruct (prev =? 0). }
  destruct (pst_step (g := false) E r s pl a [d] h' pl2 (a_drop warm x (kept ++ rest) a) [d] (λ _, True) HS) with (pools' := <[r := pl2]> (p_pools s)) as [S' F']; try done.
  { by destruct warm. } { by rewrite Hm. }
  eexists _, pl2. split_and!; [exact Hrun|exact S'|exact F'|done|apply Hpl|apply Hpl|done].
Qed.

(** The pool without the slabs of chunk [c] on one empty list. *)
Record purged (warm : bool) (c : Z) (a a' : apool) (kept rest : list Z) : Prop := {
  pg_list : a_list warm a' = kept ++ filter (λ x, chunk_of x ≠ c) rest;
  pg_other : a_list (negb warm) a' = a_list (negb warm) a;
  pg_chunks : a_chunks a' = a_chunks a;
  pg_partial : a_partial a' = a_partial a;
  pg_live : a_live a' = a_live a;
  pg_free y : a_free a' !! y = if decide (y ∈ rest ∧ chunk_of y = c) then None else a_free a !! y;
}.

Lemma a_drop_fields warm x l a :
  a_list warm (a_drop warm x l a) = l ∧ a_list (negb warm) (a_drop warm x l a) = a_list (negb warm) a ∧
  a_chunks (a_drop warm x l a) = a_chunks a ∧ a_partial (a_drop warm x l a) = a_partial a ∧
  a_live (a_drop warm x l a) = a_live a ∧ a_free (a_drop warm x l a) = delete x (a_free a).
Proof. by destruct warm. Qed.

Lemma purge_loop_spec d c warm fuel : ∀ s pl a kept rest,
  pst E r s pl a [d] → d ∉ a_empty a → a_list warm a = kept ++ rest → (length rest ≤ fuel)%nat →
  ∃ s' pl' a', purge_loop fuel r c warm (default 0 (last kept)) (hd0 rest) s = Ok (tt, s') ∧ pst E r s' pl' a' [d] ∧
    pframe E r (λ _, True) s s' ∧ linkstep (p_heap s) (p_heap s') ∧ purged warm c a a' kept rest ∧
    chunks pl' = chunks pl ∧ active pl' = active pl.
Proof.
  induction fuel as [|fuel IH]; intros s pl a kept rest HS Hd Hlist Hfuel; destruct rest as [|x rest].
  - exists s, pl, a. simpl. rewrite app_nil_r in *. split_and!; try done; try apply pframe_refl; try apply linkstep_refl.
    split; rewrite ?app_nil_r; done.
  - simpl in Hfuel. lia.
  - exists s, pl, a. simpl. rewrite app_nil_r in *. split_and!; try done; try apply pframe_refl; try apply linkstep_refl.
    split; rewrite ?app_nil_r; done.
  - pose proof HS as [Hr Hp I Hsrc Hap]. pose proof (pi_lists _ _ _ _ _ I) as [L1 L2 L3 L4 L5 L6 L7].
    assert (Hxe : x ∈ a_empty a).
    { unfold a_empty. assert (x ∈ a_list warm a) by (rewrite Hlist; in_list). unfold a_list in *. destruct warm; in_list. }
    destruct (inv_listed r Hr I x) as (Hx0 & Hxm & Hxc); [in_list|].
    assert (Hxn : s_next (slab_at (p_heap s) x) = hd0 rest).
    { assert (Hsll : sll s_next (slab_at (p_heap s)) (kept ++ x :: rest)) by (rewrite <-Hlist; by destruct warm).
      clear -Hsll. induction kept as [|k kept IH]; simpl in Hsll; tauto. }
    cbn [purge_loop hd0]. rewrite (proj2 (Z.eqb_neq x 0)) by lia. pstep. rewrite Hxn.
    destruct (Z.eqb_spec (chunk_of x) c) as [Ec|Ec].
    + destruct (purge_unlink_spec s pl a d warm kept x rest HS Hlist) as (s1 & pl1 & Hrun & S1 & F1 & LS1 & P1 & P2 & _); [congruence|].
      erewrite run_bind by exact Hrun.
      destruct (a_drop_fields warm x (kept ++ rest) a) as (D1 & D2 & D3 & D4 & D5 & D6). set (a1 := a_drop warm x (kept ++ rest) a) in *.
      destruct (IH s1 pl1 a1 kept rest S1) as (s2 & pl2 & a2 & Hrun2 & S2 & F2 & LS2 & [G1 G2 G3 G4 G5 G6] & P3 & P4).
      { intros Hin. apply Hd. unfold a_empty in *. subst a1. clear -Hin Hlist. destruct warm; unfold a_drop, a_pop, a_list in *; acbn;
          rewrite ?Hlist in *; list_mem; tauto. }
      { done. } { simpl in Hfuel. lia. }
      exists s2, pl2, a2. split_and!; try congruence; try done.
      * by eapply pframe_trans.
      * destruct LS1 as [X1 X2 X3], LS2 as [Y1 Y2 Y3]. split; [congruence..|]. intros y. by eapply same_core_trans.
      * split; try congruence.
        -- rewrite G1. f_equal. rewrite filter_cons_False; [done|]. tauto.
        -- intros y. rewrite G6, D6. destruct (decide (x = y)) as [<-|Hne].
           ++ rewrite lookup_delete_eq. gcases; try done; exfalso; list_mem; tauto.
           ++ rewrite lookup_delete_ne by done. gcases; try done; exfalso; list_mem; intuition congruence.
    + destruct (IH s pl a (kept ++ [x]) rest HS Hd) as (s2 & pl2 & a2 & Hrun2 & S2 & F2 & LS2 & [G1 G2 G3 G4 G5 G6] & P3 & P4).
      { by rewrite <-app_assoc. } { simpl in Hfuel. lia. }
      rewrite last_snoc in Hrun2. simpl in Hrun2. exists s2, pl2, a2. split_and!; try done. split; try done.
      * rewrite G1, <-app_assoc. f_equal. by rewrite filter_cons_True.
      * intros y. rewrite G6. gcases; try done; exfalso; list_mem; intuition congruence.
Qed.

(** The slabs the pool knows have descriptors, so their number bounds the loops. *)
Lemma purge_fuel h pl a X l :
  pool_inv r h pl a X → valid_ref r → NoDup l → (∀ y, y ∈ l → is_Some (a_free a !! y)) → (length l ≤ size (h_slabs h))%nat.
Proof.
  intros I Hr Hnd Hl. apply keys_fuel; [done|]. intros y Hy. destruct (Hl y Hy) as [ly Hly]. destruct (h_slabs h !! y) eqn:Ey; [by eexists|]. exfalso.
  pose proof (sf_npages _ _ _ _ (sw_fields _ _ _ _ _ (pi_slab _ _ _ _ _ I y ly Hly))) as Hnp.
  unfold slab_at in Hnp. rewrite Ey in Hnp. simpl in Hnp. pose proof (sc_pages_range r.2 (proj1 Hr)). lia.
Qed.

Record purged_all (c : Z) (a a' : apool) : Prop := {
  pa_chunks : a_chunks a' = a_chunks a;
  pa_partial : a_partial a' = a_partial a;
  pa_live : a_live a' = a_live a;
  pa_empty y : y ∈ a_empty a' ↔ y ∈ a_empty a ∧ chunk_of y ≠ c;
  pa_free y : a_free a' !! y = if decide (y ∈ a_empty a ∧ chunk_of y = c) then None else a_free a !! y;
}.

Lemma purge_empties_of_chunk_spec s pl a d c :
  pst E r s pl a [d] → d ∉ a_empty a →
  ∃ s' pl' a', purge_empties_of_chunk r c s = Ok (tt, s') ∧ pst E r s' pl' a' [d] ∧
    pframe E r (λ _, True) s s' ∧ linkstep (p_heap s) (p_heap s') ∧ purged_all c a a' ∧
    chunks pl' = chunks pl ∧ active pl' = active pl.
Proof.
  intros HS Hd. pose proof HS as [Hr Hp I Hsrc Hap]. pose proof (pi_member _ _ _ _ _ I) as [M1 M2 M3 M4 M5 M6 M7].
  unfold a_empty in *. apply NoDup_app in M1 as (_ & _ & (Hw & Hdj & Hcn)%NoDup_app).
  assert (Hf1 : (length (a_warm a) ≤ size (h_slabs (p_heap s)))%nat).
  { apply (purge_fuel _ _ _ _ _ I Hr Hw). intros y Hy. apply M2. in_list. }
  assert (Hf2 : (length (a_cold a) ≤ size (h_slabs (p_heap s)))%nat).
  { apply (purge_fuel _ _ _ _ _ I Hr Hcn). intros y Hy. apply M2. in_list. }
  destruct (purge_loop_spec d c true _ s pl a [] (a_warm a) HS Hd eq_refl Hf1)
    as (s1 & pl1 & a1 & Hrun1 & S1 & F1 & [X1 X2 X3] & [G1 G2 G3 G4 G5 G6] & P1 & P2).
  cbn [a_list negb app] in *.
  destruct (purge_loop_spec d c false (size (h_slabs (p_heap s))) s1 pl1 a1 [] (a_cold a1) S1)
    as (s2 & pl2 & a2 & Hrun2 & S2 & F2 & [Y1 Y2 Y3] & [K1 K2 K3 K4 K5 K6] & P3 & P4).
  { unfold a_empty. rewrite G1, G2, elem_of_app, list_elem_of_filter. list_mem. tauto. } { done. } { by rewrite G2. }
  cbn [a_list negb app] in *. exists s2, pl2, a2. split_and!; try congruence; try done.
  - unfold purge_empties_of_chunk. pstep. pstep. rewrite (lk_warm _ _ _ (pi_lists _ _ _ _ _ I)).
    erewrite run_bind by exact Hrun1. erewrite run_bind by (apply run_get_pool, S1).
    by rewrite (lk_cold _ _ _ (pi_lists _ _ _ _ _ (ps_inv _ _ _ _ _ _ S1))).
  - by eapply pframe_trans.
  - split; [congruence..|]. intros y. by eapply same_core_trans.
  - split; try congruence.
    + intros y. unfold a_empty. rewrite K1, K2, G1, G2, !elem_of_app, !list_elem_of_filter. tauto.
    + intros y. rewrite K6, G6, G2. unfold a_empty. gcases; try done; exfalso; rewrite elem_of_app in *; tauto.
Qed.

(** ** Giving a chunk back *)
Lemma chunk_unlink_run s pl c :
  p_pools s !! r = Some pl → has_chunk (p_heap s) c →
  let v := chunk_at (p_heap s) c in
  (c_prev v ≠ 0 → has_chunk (p_heap s) (c_prev v)) → (c_next v ≠ 0 → has_chunk (p_heap s) (c_next v)) →
  c_prev v ≠ c → c_next v ≠ c → (c_prev v = c_next v → c_prev v = 0) →
  ∃ h', chunk_unlink r c s =
      Ok (tt, mk_pstate h' (<[r := if decide (c_prev v = 0) then pool_set_chunks (c_next v) pl else pl]> (p_pools s))
              (p_epoch s) (p_src s)) ∧
    h_mem h' = h_mem (p_heap s) ∧ h_slabs h' = h_slabs (p_heap s) ∧
    (∀ y, has_chunk (p_heap s) y → has_chunk h' y) ∧
    (∀ y, chunk_at h' y =
      if decide (y = c) then chunk_set_prev 0 (chunk_set_next 0 v)
      else if decide (y = c_prev v ∧ c_prev v ≠ 0) then chunk_set_next (c_next v) (chunk_at (p_heap s) y)
      else if decide (y = c_next v ∧ c_next v ≠ 0) then chunk_set_prev (c_prev v) (chunk_at (p_heap s) y)
      else chunk_at (p_heap s) y) ∧
    (∀ y, y ≠ c → (c_prev v ≠ 0 → y ≠ c_prev v) → (c_next v ≠ 0 → y ≠ c_next v) → h_chunks h' !! y = h_chunks (p_heap s) !! y).
Proof.
  intros Hp Hc v. assert (Hv : chunk_at (p_heap s) c = v) by done. clearbody v. intros Hpm Hnm Hpd Hnd Hpn.
  unfold chunk_unlink. pstep. rewrite Hv.
  assert (Hne : ∀ y, y ≠ c → c ≠ y) by congruence.
  destruct (Z.eqb_spec (c_prev v) 0) as [E0|E0]; [rewrite decide_True by done|rewrite decide_False by done].
  - pstep. pstep. rewrite Hv. destruct (Z.eqb_spec (c_next v) 0) as [E1|E1].
    + pstep. pstep. erewrite run_upd_chunk by cside. eexists. split; [reflexivity|]. pcbn. split_and!; try done.
      * intros y Hy. by repeat apply has_chunk_set.
      * chunk_cases.
      * intros y Hy1 Hy2 Hy3. hcbn. by rewrite !lookup_insert_ne by auto.
    + specialize (Hnm E1). pstep. pstep. erewrite run_upd_chunk by cside. eexists. split; [reflexivity|]. pcbn. split_and!; try done.
      * intros y Hy. by repeat apply has_chunk_set.
      * chunk_cases.
      * intros y Hy1 Hy2 Hy3. specialize (Hy3 E1). hcbn. by rewrite !lookup_insert_ne by auto.
  - specialize (Hpm E0). pstep. pstep. rewrite !chunk_at_set, (decide_False (P := c = _)) by done. rewrite Hv.
    rewrite (insert_id (p_pools s)) by done.
    destruct (Z.eqb_spec (c_next v) 0) as [E1|E1].
    + pstep. pstep. erewrite run_upd_chunk by cside. eexists. split; [by destruct s|]. pcbn. split_and!; try done.
      * intros y Hy. by repeat apply has_chunk_set.
      * chunk_cases.
      * intros y Hy1 Hy2 Hy3. specialize (Hy2 E0). hcbn. by rewrite !lookup_insert_ne by auto.
    + specialize (Hnm E1). assert (c_prev v ≠ c_next v) by tauto. pstep. pstep. erewrite run_upd_chunk by cside.
      eexists. split; [by destruct s|]. pcbn. split_and!; try done.
      * intros y Hy. by repeat apply has_chunk_set.
      * chunk_cases.
      * intros y Hy1 Hy2 Hy3. specialize (Hy2 E0). specialize (Hy3 E1). hcbn. by rewrite !lookup_insert_ne by auto.
Qed.

(** The last slab [d] of chunk [c] is forgotten and the chunk taken off the list. *)
Lemma inv_unlink h h' pl pl' a d c l1 l2 :
  pool_inv r h pl a [d] → valid_ref r → a_chunks a = l1 ++ c :: l2 → chunk_of d = c →
  (∀ y, is_Some (a_free a !! y) → chunk_of y = c → y = d) → d ∉ a_partial a ++ a_empty a → d ∉ a_live a →
  h_mem h' = h_mem h → h_slabs h' = h_slabs h →
  (∀ y, y ≠ c → y ∈ a_chunks a → has_chunk h' y ∧ same_hdr (chunk_at h y) (chunk_at h' y) ∧
                 live_slabs (chunk_at h' y) = live_slabs (chunk_at h y)) →
  dll c_next c_prev (chunk_at h') 0 (l1 ++ l2) → chunks pl' = hd0 (l1 ++ l2) →
  (active pl' = 0 ∨ active pl' ≠ c ∧ active pl' = active pl) →
  partial pl' = partial pl → empty_warm pl' = empty_warm pl → empty_cold pl' = empty_cold pl → warm_count pl' = warm_count pl →
  nslabs pl' = nslabs pl → pool_inv r h' pl' (a_set_chunks (l1 ++ l2) (a_set_free (delete d (a_free a)) a)) [].
Proof.
  intros I Hr Hcl Hcd Honly Hnl Hdl Hm Hs Hk Hdll P1 P2 P3 P4 P5 P6 P7. pose proof I as [[C1 C2 C3 C4 C5] I2 I3 I4 I5].
  rewrite Hcl in C3. assert (Hcn : c ∉ l1 ++ l2).
  { apply NoDup_app in C3 as (_ & Hdj & [Hc2 _]%NoDup_cons). intros [Hin|Hin]%elem_of_app; [|done]. apply (Hdj c Hin). by left. }
  assert (Hsub : ∀ y, y ∈ l1 ++ l2 ↔ y ∈ a_chunks a ∧ y ≠ c).
  { intros y. rewrite Hcl. split; [|list_mem; tauto]. intros Hy. split; [list_mem; tauto|]. by intros ->. }
  split.
  - split; acbn; try done.
    + rewrite <-Permutation_middle in C3. by apply NoDup_cons in C3 as [_ ?].
    + destruct P2 as [?|[Hne Ha]]; [by left|]. destruct C4 as [?|Hin]; [left; congruence|]. right. rewrite Hsub. by rewrite Ha in *.
    + by rewrite P7.
  - intros y. acbn. rewrite Hsub. intros [Hy Hyc]. destruct (Hk y Hyc Hy) as (K1 & K2 & K3).
    apply (chunk_wf_hdr r h h' a); try done; [intros x; by rewrite (slab_at_same _ _ x Hs)| |by apply I2]. rewrite K3. apply (I2 y Hy).
  - intros y l. acbn. rewrite lookup_delete_Some. intros [Hne Hy]. pose proof (I3 y l Hy) as W.
    assert (Hyc : chunk_of y ≠ c) by (intros Hyc; apply Hne; symmetry; by apply Honly; [eexists|]).
    apply (slab_wf_hdr r h h' a); try done.
    + apply Hk; [done|apply W].
    + acbn. apply Hsub. split; [apply W|done].
  - apply (lists_ok_frame h h' pl pl' a); try done. intros y _. by rewrite (slab_at_same _ _ y Hs).
  - pose proof (delete_member r h a d [d] I5 Hnl Hdl) as [M1 M2 M3 M4 M5 M6 M7]. acbn. split; acbn; try done.
    + intros y Hy. rewrite (slab_at_same _ _ y Hs). by apply M3.
    + intros y _. destruct (decide (y = d)) as [->|Hne]; [|apply M4; by rewrite list_elem_of_singleton].
      split; [done|]. rewrite lookup_delete_eq. intros [[? ?] _]. done.
    + intros y l Hy _. apply M5; [done|]. rewrite list_elem_of_singleton. intros ->. by rewrite lookup_delete_eq in Hy.
    + intros y l Hy _. apply M6; [done|]. rewrite list_elem_of_singleton. intros ->. by rewrite lookup_delete_eq in Hy.
Qed.

Lemma chunk_release_spec s pl a d l c :
  pst E r s pl a [d] → a_free a !! d = Some l → Z.of_nat (length l) = ns → chunk_of d = c →
  (∀ y, is_Some (a_free a !! y) → chunk_of y = c → y = d) → d ∉ a_partial a ++ a_empty a → d ∉ a_live a →
  ∃ s' pl' a', chunk_release r c s = Ok (tt, s') ∧ pst E r s' pl' a' [] ∧ pframe E r (user_byte r a') s s' ∧
    (∀ p, outstanding_slot r a' p ↔ outstanding_slot r a p).
Proof.
  intros HS Hl Hfull Hcd Honly Hnl Hdl. pose proof HS as [Hr Hp I Hsrc Hap]. pose proof I as [[C1 C2 C3 C4] I2 I3 I4 I5].
  assert (Hc : c ∈ a_chunks a) by (rewrite <-Hcd; by apply (inv_slab_chunk r I d l)).
  apply list_elem_of_split in Hc as (l1 & l2 & Hcl).
  assert (Hhas : ∀ y, y ∈ a_chunks a → has_chunk (p_heap s) y) by (intros y Hy; by apply I2).
  assert (Hnz : ∀ y, y ∈ a_chunks a → y ≠ 0) by (intros y Hy; destruct (I2 y Hy) as [[? _] _ _ _ _ _ _ _]; lia).
  rewrite Hcl in C1, C2, C3, Hhas, Hnz.
  destruct (dll_neighbours c_next c_prev (chunk_at (p_heap s)) l1 c l2 C3 Hnz C2) as (N1 & N2 & N3 & N4 & N5).
  assert (Hsub : ∀ y, y ∈ l1 ++ l2 → y ∈ l1 ++ c :: l2) by (intros y Hy; in_list).
  set (pl1 := if c =? active pl then pool_set_active 0 pl else pl).
  set (s1 := mk_pstate (p_heap s) (<[r := pl1]> (p_pools s)) (p_epoch s) (p_src s)).
  assert (Hrun1 : (if c =? active pl then upd_pool r (pool_set_active 0) else mret tt) s = Ok (tt, s1)).
  { subst s1 pl1. destruct (c =? active pl); [by rewrite (run_upd_pool s r pl)|]. rewrite insert_id by done. by destruct s. }
  destruct (chunk_unlink_run s1 pl1 c) as (h2 & Hrun2 & Hm2 & Hs2 & Hhas2 & Hat & Hoth); try done.
  { subst s1. pcbn. apply lookup_insert_eq. } { apply Hhas. in_list. } { intros ?. by apply Hhas, Hsub, N4. } { intros ?. by apply Hhas, Hsub, N5. }
  subst s1. pcbn. rewrite insert_insert_eq in Hrun2. set (v := chunk_at (p_heap s) c) in *.
  set (pl2 := if decide (c_prev v = 0) then pool_set_chunks (c_next v) pl1 else pl1) in *.
  assert (Hkeep : ∀ y, y ≠ c → same_hdr (chunk_at (p_heap s) y) (chunk_at h2 y) ∧
            live_slabs (chunk_at h2 y) = live_slabs (chunk_at (p_heap s) y) ∧ memfd_off (chunk_at h2 y) = memfd_off (chunk_at (p_heap s) y)).
  { intros y Hy. rewrite Hat, decide_False by done. by gcases. }
  destruct (dll_remove c_next c_prev (chunk_at (p_heap s)) (chunk_at h2) l1 c l2) as [D1 D2]; try done.
  { intros y Hy Hyc. pose proof (Hnz y Hy). rewrite Hat, decide_False by done. fold v.
    gcases; destruct_and?; subst; simpl; try done; try tauto; exfalso; intuition congruence. }
  set (a' := a_set_chunks (l1 ++ l2) (a_set_free (delete d (a_free a)) a)).
  assert (I' : pool_inv r h2 pl2 a' []).
  { apply (inv_unlink (p_heap s) h2 pl pl2 a d c l1 l2); try done.
    - intros y Hyc Hy. destruct (Hkeep y Hyc) as (K1 & K2 & _). split_and!; [|done..]. apply Hhas2, Hhas. by rewrite <-Hcl.
    - rewrite D2. subst pl2 pl1. fold v. destruct (c =? active pl), (decide (c_prev v = 0)); simpl; congruence.
    - subst pl2 pl1. destruct (Z.eqb_spec c (active pl)), (decide (c_prev v = 0)); simpl; first [by left | right; by split; congruence].
    - subst pl2 pl1. destruct (c =? active pl), (decide (c_prev v = 0)); done.
    - subst pl2 pl1. destruct (c =? active pl), (decide (c_prev v = 0)); done.
    - subst pl2 pl1. destruct (c =? active pl), (decide (c_prev v = 0)); done.
    - subst pl2 pl1. destruct (c =? active pl), (decide (c_prev v = 0)); done.
    - subst pl2 pl1. destruct (c =? active pl), (decide (c_prev v = 0)); done. }
  assert (T2 : touches (a_chunks a) (p_heap s) h2).
  { split.
    - intros y Hy. rewrite Hcl in Hy. split; [|intros x _; by apply slab_at_same|by rewrite Hm2].
      apply Hoth; [intros ->; apply Hy; in_list|intros H0 ->; by apply Hy, Hsub, N4|intros H0 ->; by apply Hy, Hsub, N5].
    - intros y Hy. rewrite Hcl in Hy. rewrite !memfd_lookup by auto.
      destruct (decide (y = c)) as [->|Hyc]; [by rewrite Hat, decide_True|]. by rewrite (proj2 (proj2 (Hkeep y Hyc))). }
  destruct T2 as [T2a T2b].
  assert (Hsrc2 : cs_ok (list_to_set (a_chunks a) ∪ E) h2 (p_src s)).
  { apply (cs_frame _ (p_heap s)); [done|..].
    - intros y Hy. apply T2a. set_solver.
    - intros y Hy. destruct (decide (y ∈ a_chunks a)) as [Hin|Hin]; [by apply T2b|]. by rewrite (ag_chunk _ _ _ (T2a y Hin)). }
  destruct (cs_dispose _ h2 (p_src s) c Hsrc2) as (h3 & b3 & Hdis & Hag & Hst & Hsrc3).
  { apply elem_of_union_l, elem_of_list_to_set. rewrite Hcl. in_list. }
  assert (HcE : c ∉ E) by (apply Hap; rewrite Hcl; in_list).
  assert (Hcn : c ∉ l1 ++ l2).
  { apply NoDup_app in C3 as (_ & Hdj & [Hc2 _]%NoDup_cons). intros [Hin|Hin]%elem_of_app; [|done]. apply (Hdj c Hin). by left. }
  assert (Hset : (list_to_set (a_chunks a) ∪ E) ∖ {[c]} = list_to_set (l1 ++ l2) ∪ E).
  { apply set_eq. intros y. rewrite Hcl, elem_of_difference, !elem_of_union, !elem_of_list_to_set, elem_of_singleton.
    list_mem. split; [naive_solver|]. intros Hy. split; [tauto|]. intros ->. tauto. }
  rewrite Hset in Hsrc3.
  assert (HagL : agree_on (λ y, y ∈ a_chunks a') h2 h3).
  { intros y Hy. apply Hag. split; [apply elem_of_union_l, elem_of_list_to_set; rewrite Hcl; by apply Hsub|]. by intros ->. }
  assert (HagE : agree_on (λ y, y ∈ E) h2 h3) by (intros y Hy; apply Hag; split; [set_solver|congruence]).
  pose proof (pool_inv_agree r Hr h2 h3 pl2 a' [] HagL I') as I3'.
  assert (Hout : ∀ p, outstanding_slot r a' p ↔ outstanding_slot r a p).
  { apply (outstanding_delete r a d). intros l' Hl'. assert (l' = l) as -> by congruence.
    destruct (I3 d l Hl). by apply full_slab. }
  exists (mk_pstate h3 (<[r := pl2]> (p_pools s)) (p_epoch s) b3), pl2, a'. split_and!; [| | |done].
  - unfold chunk_release. erewrite run_bind by (by apply run_get_pool). erewrite run_bind by exact Hrun1.
    erewrite run_bind by exact Hrun2. unfold chunk_dispose. cbn [p_heap p_src]. by rewrite Hdis.
  - split; try done; [apply lookup_insert_eq|]. intros y Hy. apply Hap. rewrite Hcl. by apply Hsub.
  - split; try done.
    + intros r' Hr'. simpl. by rewrite lookup_insert_ne.
    + apply (agree_on_trans _ _ h2); [|done]. intros y Hy. apply T2a. intros Hin. by apply (Hap y).
    + refine (cs_step_trans _ _ _ _ _ _ _ _ Hst). apply (cs_step_client _ _ _ _ _ Hsrc). intros y Hy. apply T2a. set_solver.
    + intros x Hx. pose proof (user_byte_chunk r _ _ _ _ x Hr I' Hx) as Hxc. simpl.
      rewrite (ag_byte _ _ _ (HagL _ Hxc)) by done. by rewrite Hm2.
Qed.

(** ** Parking an empty slab *)

(** A descriptor and the bytes of its own run may change while the slab is cold. *)
Lemma inv_decommit h h' pl a X d l :
  pool_inv r h pl a X → valid_ref r → a_free a !! d = Some l → d ∈ a_cold a → h_chunks h' = h_chunks h →
  (∀ y, same_core (slab_at h y) (slab_at h' y) ∧ s_next (slab_at h' y) = s_next (slab_at h y) ∧
        s_prev (slab_at h' y) = s_prev (slab_at h y) ∧ in_partial (slab_at h' y) = in_partial (slab_at h y)) →
  (∀ x, ¬ (data_of d ≤ x < data_of d + btm_sc_run_pages r.2 * BTM_PAGE_SIZE) → byte_at (h_mem h') x = byte_at (h_mem h) x) →
  pool_inv r h' pl a X.
Proof.
  intros I Hr Hl Hcold Hc Hs Hb. pose proof I as [I1 I2 I3 I4 I5]. pose proof (sc_size_pos r.2 (proj1 Hr)) as Hsz.
  split.
  - by apply (chunks_ok_frame h h' pl pl a).
  - intros c Hin. apply (chunk_wf_frame r h h' a); [done|intros y; apply Hs|done|by apply I2].
  - intros y ly Hy. pose proof (I3 y ly Hy) as W. destruct W as [W1 W2 W3 W4 W5 W6]. split; try done.
    + apply (slab_placed_hdr r h); [|done]. unfold chunk_at. rewrite Hc. auto with btm.
    + apply (slab_fields_core r (slab_at h y)); [apply Hs|done].
    + intros Hnc. destruct (W6 Hnc) as [W6a W6b]. split; [by rewrite (sk_head _ _ (proj1 (Hs y)))|].
      apply (flist_ext (h_mem h)); [|done]. intros p x Hp Hx. symmetry. apply Hb.
      assert (y ≠ d) by congruence. pose proof (inv_slab_in r Hr I y ly Hy) as Hiny. pose proof (inv_slab_in r Hr I d l Hl) as Hind.
      pose proof (slot_bounds r (proj1 Hr) y p Hiny (W5 _ Hp)).
      pose proof (runs_disjoint r h y d Hiny Hind W2 (sw_placed _ _ _ _ _ (I3 d l Hl)) ltac:(done)). lia.
  - apply (lists_ok_frame h h' pl pl a); try done. intros y _. split; apply Hs.
  - destruct I5 as [M1 M2 M3 M4 M5 M6 M7]. split; try done. intros y Hy. rewrite (proj2 (proj2 (proj2 (Hs y)))). by apply M3.
Qed.

(** Parking [d] on one of the empty lists, the link alone. *)
Lemma inv_park h pl pl' a d (warm : bool) l :
  pool_inv r h pl a [d] → valid_ref r → a_free a !! d = Some l → Z.of_nat (length l) = ns → d ∉ a_partial a ++ a_empty a → d ∉ a_live a →
  (warm = true → (length (a_warm a) < 2)%nat) →
  pl' = (if warm then pool_set_warm d (warm_count pl + 1) pl else pool_set_cold d pl) →
  pool_inv r (heap_set_slab d (slab_set_next (hd0 (a_list warm a)) (slab_at h d)) h) pl'
    (if warm then a_set_warm (d :: a_warm a) a else a_set_cold (d :: a_cold a) a) [].
Proof.
  intros I Hr Hl Hfull Hnl Hdl Hw ->. pose proof I as [I1 I2 I3 [L1 L2 L3 L4 L5 L6 L7] [M1 M2 M3 M4 M5 M6 M7]].
  set (h' := heap_set_slab d _ h). set (a' := if warm then a_set_warm _ _ else a_set_cold _ _).
  assert (Hs : ∀ y, y ≠ d → slab_at h' y = slab_at h y) by (intros y Hy; subst h'; by rewrite slab_at_set, decide_False).
  assert (Hsd : s_next (slab_at h' d) = hd0 (a_list warm a)) by (subst h'; by rewrite slab_at_set, decide_True).
  assert (LS : linkstep h h').
  { split; [done..|]. intros y. subst h'. rewrite slab_at_set. gcase; [subst; by split|auto with btm]. }
  assert (Hns : 0 < ns) by (pose proof (ns_range r (proj1 Hr)); lia).
  assert (Hne : ∀ y, y ∈ a_partial a ++ a_empty a → slab_at h' y = slab_at h y) by (intros y Hy; apply Hs; by intros ->).
  assert (Hf : a_chunks a' = a_chunks a ∧ a_free a' = a_free a ∧ a_live a' = a_live a ∧ a_partial a' = a_partial a) by (by subst a'; destruct warm).
  destruct Hf as (Hf1 & Hf2 & Hf3 & Hf4).
  assert (Hemp : ∀ y, y ∈ a_empty a' ↔ y = d ∨ y ∈ a_empty a).
  { intros y. subst a'. unfold a_empty. destruct warm; acbn; list_mem; tauto. }
  assert (Hmem : member_ok r h' a' []).
  { split.
    - rewrite Hf4. assert (Hp : a_empty a' ≡ₚ d :: a_empty a).
      { subst a'. unfold a_empty. destruct warm; acbn; [done|]. by rewrite <-Permutation_middle. }
      rewrite Hp, <-Permutation_middle. by apply NoDup_cons.
    - intros y. rewrite Hf4, Hf2, elem_of_app, Hemp. intros [Hy|[->|Hy]]; [apply M2; in_list|by exists l|apply M2; in_list].
    - intros y. rewrite Hf2, Hf4. intros Hy. rewrite <-M3 by done. subst h'. rewrite slab_at_set. gcase; by subst.
    - intros y _. rewrite Hf3, Hf2, Hemp. destruct (decide (y = d)) as [->|Hyd]; [tauto|].
      rewrite M4 by (by rewrite list_elem_of_singleton). tauto.
    - intros y ly. rewrite Hf2, Hf4. intros Hy _. destruct (decide (y = d)) as [->|Hyd].
      + assert (ly = l) as -> by congruence. split; [intros Hin; destruct Hnl; in_list|lia].
      + apply M5; [done|by rewrite list_elem_of_singleton].
    - intros y ly. rewrite Hf2, Hemp. intros Hy _. destruct (decide (y = d)) as [->|Hyd].
      + assert (ly = l) as -> by congruence. tauto.
      + rewrite (M6 y ly) by (try done; by rewrite list_elem_of_singleton). tauto.
    - subst a'. destruct warm; acbn; [simpl; specialize (Hw eq_refl); lia|done]. }
  assert (Hlists : lists_ok h' (if warm then pool_set_warm d (warm_count pl + 1) pl else pool_set_cold d pl) a').
  { assert (X1 : dll s_next s_prev (slab_at h') 0 (a_partial a)).
    { apply (dll_ext s_next s_prev (slab_at h)); [|done]. intros y Hy. rewrite Hne; [done|in_list]. }
    assert (X2 : sll s_next (slab_at h') (a_warm a)).
    { apply (sll_ext s_next (slab_at h)); [|done]. intros y Hy. rewrite Hne; [done|unfold a_empty; in_list]. }
    assert (X3 : sll s_next (slab_at h') (a_cold a)).
    { apply (sll_ext s_next (slab_at h)); [|done]. intros y Hy. rewrite Hne; [done|unfold a_empty; in_list]. }
    subst a'. destruct warm; cbn [a_list] in Hsd; split; acbn; try done. simpl. lia. }
  split; [| | |exact Hlists|exact Hmem].
  - apply (chunks_ok_frame h h' pl _ a); try done; by destruct warm.
  - intros c. rewrite Hf1. intros Hc. apply (chunk_wf_frame r h h' a); [done|intros y; apply LS|done|by apply I2].
  - intros y ly. rewrite Hf2. intros Hy. apply (slab_wf_link r h h' a); try done; [|by apply I3].
    subst a'. destruct warm; acbn; [done|]. rewrite elem_of_cons. tauto.
Qed.

(** The pages of a slab of the pool go back to the kernel. *)
Lemma slab_decommit_run s pl a d l X :
  pst E r s pl a X → a_free a !! d = Some l →
  ∃ h' b', slab_decommit d s = Ok (tt, mk_pstate h' (p_pools s) (p_epoch s) b') ∧ h_chunks h' = h_chunks (p_heap s) ∧
    (∀ y, slab_at h' y = if decide (y = d) then slab_set_decommitted true (slab_at (p_heap s) d) else slab_at (p_heap s) y) ∧
    (∀ x, ¬ (data_of d ≤ x < data_of d + btm_sc_run_pages r.2 * BTM_PAGE_SIZE) → byte_at (h_mem h') x = byte_at (h_mem (p_heap s)) x) ∧
    touches (a_chunks a) (p_heap s) h' ∧ (∀ g, cs_step g (p_heap s) (p_src s) h' b') ∧ cs_ok (list_to_set (a_chunks a) ∪ E) h' b'.
Proof.
  intros [Hr Hp I Hsrc Hap] Hl. pose proof (inv_mapped r I d l Hl) as Hm. pose proof (inv_slab_chunk r I d l Hl) as Hc.
  pose proof (sf_first _ _ _ _ (sw_fields _ _ _ _ _ (pi_slab _ _ _ _ _ I d l Hl))) as Hf.
  pose proof (sf_npages _ _ _ _ (sw_fields _ _ _ _ _ (pi_slab _ _ _ _ _ I d l Hl))) as Hn.
  destruct (inv_slab_in r Hr I d l Hl) as (Hb & H7 & H512 & Hnp).
  unfold slab_decommit. pstep. destruct (decommitted (slab_at (p_heap s) d)) eqn:Ed.
  - exists (p_heap s), (p_src s). rewrite run_ret. split_and!; [by destruct s|done| |done|apply touches_refl|intros; apply cs_step_refl|done].
    intros y. gcase; [subst|done]. destruct (slab_at (p_heap s) d). simpl in *. by subst.
  - erewrite run_bind by (apply run_get_chunk; exact Hm). cbv zeta.
    destruct (cs_release _ (p_heap s) (p_src s) (chunk_of d) (data_of d) (btm_sc_run_pages r.2 * BTM_PAGE_SIZE) Hsrc) as (b' & Hrel & Hst & Hok);
      [set_solver|unfold data_of; unfold_geometry; lia..|].
    replace (btm_slab_data d (slab_at (p_heap s) d)) with (data_of d) by (unfold btm_slab_data; by rewrite Hf).
    rewrite Hn, Hf. replace (page_of d * BTM_PAGE_SIZE) with (data_of d - chunk_of d) by (unfold data_of; lia).
    set (h1 := heap_zero _ _ _) in *. set (h2 := heap_set_slab d (slab_set_decommitted true (slab_at h1 d)) h1).
    assert (T1 : touches (a_chunks a) (p_heap s) h1).
    { apply touches_mem. intros x Hx. rewrite byte_at_zero_range, decide_False; [done|]. intros Hxr. apply Hx.
      rewrite (chunk_of_inside (chunk_of d) x); [done|done|]. unfold data_of in Hxr. unfold_geometry. lia. }
    assert (T2 : touches (a_chunks a) h1 h2) by (by apply touches_slab).
    destruct (touches_src (g := true) _ _ _ _ _ Hok ltac:(set_solver) T2) as [_ Hok2].
    exists h2, b'. split_and!; [|done| | |by apply (touches_trans _ _ h1)| |done].
    + erewrite run_bind by (unfold release_pages; by rewrite Hrel). by rewrite run_upd_slab.
    + intros y. unfold h2. rewrite slab_at_set. by gcase.
    + intros x Hx. unfold h2, h1, heap_zero. cbn [h_mem heap_set_slab heap_set_mem]. by rewrite byte_at_zero_range, decide_False.
    + intros g. apply (cs_step_trans _ _ _ _ _ _ _ (Hst g)). by apply (touches_src (g := g) _ _ _ _ _ Hok ltac:(set_solver) T2).
Qed.

Lemma slab_park_spec s pl a d l :
  pst E r s pl a [d] → a_free a !! d = Some l → Z.of_nat (length l) = ns → d ∉ a_partial a ++ a_empty a → d ∉ a_live a →
  ∃ s' pl' a', slab_park r d s = Ok (tt, s') ∧ pst E r s' pl' a' [] ∧ pframe E r (user_byte r a') s s' ∧
    (∀ p, outstanding_slot r a' p ↔ outstanding_slot r a p).
Proof.
  intros HS Hl Hfull Hnl Hdl. pose proof HS as [Hr Hp I Hsrc Hap]. pose proof (inv_mapped r I d l Hl) as Hmap.
  pose proof (pi_lists _ _ _ _ _ I) as [L1 L2 L3 L4 L5 L6 L7]. pose proof (mb_warm _ _ _ _ (pi_member _ _ _ _ _ I)) as Hw2.
  pose proof (pi_slab _ _ _ _ _ I d l Hl) as [W1 W2 [F1 F2 F3 F4 F5 F6 F7] W4 W5 W6].
  unfold slab_park. pstep. unfold BTM_KEEP_WARM_EMPTY. destruct (Z.ltb_spec (warm_count pl) 2) as [Hlt|Hge].
  - pose proof (inv_park (p_heap s) pl _ a d true l I Hr Hl Hfull Hnl Hdl ltac:(intros; lia) eq_refl) as I'. cbn [a_list] in I'. rewrite <-L3 in I'.
    destruct (pst_step (g := false) E r s pl a [d] (heap_set_slab d (slab_set_next (empty_warm pl) (slab_at (p_heap s) d)) (p_heap s))
                (pool_set_warm d (warm_count pl + 1) pl) (a_set_warm (d :: a_warm a) a) [] (user_byte r (a_set_warm (d :: a_warm a) a)) HS eq_refl)
      with (pools' := <[r := pool_set_warm d (warm_count pl + 1) pl]> (p_pools s)) as [S' F']; try done.
    { by apply touches_slab. }
    eexists _, _, _. split_and!; [|exact S'|exact F'|done]. pstep. rewrite (run_upd_pool _ _ pl) by done. unfold set_pool. pcbn.
    by rewrite u32_small by lia.
  - pose proof (inv_park (p_heap s) pl _ a d false l I Hr Hl Hfull Hnl Hdl ltac:(done) eq_refl) as I'. cbn [a_list] in I'. rewrite <-L6 in I'.
    set (a' := a_set_cold (d :: a_cold a) a) in *. set (h0 := heap_set_slab d _ _) in I'.
    destruct (slab_decommit_run s pl a d l [d] HS Hl) as (h1 & b1 & Hrun1 & Hc1 & Hs1 & Hb1 & T1 & Hst1 & Hok1).
    set (h2 := heap_set_slab d (slab_set_next (empty_cold pl) (slab_at h1 d)) h1).
    assert (I2 : pool_inv r h2 (pool_set_cold d pl) a' []).
    { apply (inv_decommit h0 h2 _ a' [] d l I' Hr Hl); [by left|done| |exact Hb1].
      intros y. subst h2 h0. rewrite !slab_at_set, !Hs1. by gcases. }
    assert (T2 : touches (a_chunks a) h1 h2) by (by apply touches_slab).
    destruct (touches_src (g := false) _ _ _ _ _ Hok1 ltac:(set_solver) T2) as [Hst2 Hok2].
    assert (Hub : ∀ x, user_byte r a' x → byte_at (h_mem h2) x = byte_at (h_mem (p_heap s)) x).
    { intros x (p & (d' & l' & Hd' & Hp' & Hn') & Hx). apply Hb1. intros Hxr.
      assert (d' ≠ d).
      { intros ->. assert (l' = l) as -> by (subst a'; acbn; congruence). by apply Hn', (full_slab r d l). }
      pose proof (inv_slab_in r Hr I d' l' Hd') as Hin'. pose proof (inv_slab_in r Hr I d l Hl) as Hin.
      pose proof (slot_bounds r (proj1 Hr) d' p Hin' Hp').
      pose proof (runs_disjoint r (p_heap s) d' d Hin' Hin (sw_placed _ _ _ _ _ (pi_slab _ _ _ _ _ I d' l' Hd')) W2 ltac:(done)). lia. }
    destruct (pst_step_src (g := false) E r s pl a [d] h2 b1 (pool_set_cold d pl) a' [] (user_byte r a') HS eq_refl
      (touches_trans _ _ h1 _ T1 T2) I2 Hub (cs_step_trans _ _ _ _ _ _ _ (Hst1 _) Hst2) Hok2 _ eq_refl) as [S' F'].
    eexists _, _, a'. split_and!; [|exact S'|exact F'|done].
    erewrite run_bind by exact Hrun1. erewrite run_bind by (apply run_upd_slab; unfold mapped; pcbn; rewrite Hc1; exact Hmap).
    by rewrite (run_upd_pool _ _ pl).
Qed.

(** ** A slab without outstanding slots *)
Lemma live_dec_spec s pl a d l :
  pst E r s pl a [d] → a_free a !! d = Some l → d ∈ a_live a →
  ∃ s', upd_chunk (chunk_of d) (λ v, chunk_set_live (u32 (live_slabs v - 1)) v) s = Ok (tt, s') ∧
    pst E r s' pl (a_set_live (a_live a ∖ {[d]}) a) [d] ∧ pframe E r (λ _, True) s s'.
Proof.
  intros HS Hl Hdl. pose proof HS as [Hr Hp I Hsrc Hap]. pose proof I as [I1 I2 I3 I4 I5].
  set (c := chunk_of d). assert (Hc : c ∈ a_chunks a) by (by apply (inv_slab_chunk r I d l)). pose proof (chunk_tiled r _ _ _ (I2 c Hc)) as Htl.
  destruct (I2 c Hc) as [K1 K2 K3 K4 K5 K6 K7 K8].
  set (v' := chunk_set_live (u32 (live_slabs (chunk_at (p_heap s) c) - 1)) (chunk_at (p_heap s) c)).
  assert (Hbound : (size (live_set a c) ≤ 512)%nat).
  { apply (live_bound r (p_heap s) pl a [d]); [done..|]. intros x Hx. destruct (decide (x = d)) as [->|Hne]; [by exists l|].
    apply (mb_live _ _ _ _ I5) in Hx; [tauto|]. by rewrite list_elem_of_singleton. }
  assert (Hdin : d ∈ live_set a c) by (unfold live_set; by apply elem_of_filter).
  assert (Hsz : size (live_set a c ∖ {[d]}) = (size (live_set a c) - 1)%nat).
  { rewrite size_difference, size_singleton; [done|]. by apply singleton_subseteq_l. }
  assert (0 < size (live_set a c))%nat by (apply set_size_proper_pos || (destruct (decide (size (live_set a c) = 0)%nat) as [E0|]; [apply size_empty_inv in E0; set_solver|lia])).
  assert (I' : pool_inv r (heap_set_chunk c v' (p_heap s)) pl (a_set_live (a_live a ∖ {[d]}) a) [d]).
  { apply (inv_header r (p_heap s) pl pl a [d] c); try done.
    - split; try done. cbn. lia.
    - intros q Hq. cbn in Hq. lia.
    - cbn. rewrite K8, u32_small by lia. unfold c. rewrite live_set_del. fold c. rewrite Hsz. lia.
    - intros x Hx. assert (x ≠ d) by (unfold c in Hx; congruence). set_solver.
    - intros x Hx. rewrite list_elem_of_singleton in Hx. set_solver.
    - apply I1. }
  assert (T : touches (a_chunks a) (p_heap s) (heap_set_chunk c v' (p_heap s))).
  { destruct K2 as [v Hv]. apply (touches_chunk _ _ _ _ v); [done..|]. unfold v', chunk_at. by rewrite Hv. }
  destruct (pst_step (g := false) E r s pl a [d] _ pl (a_set_live (a_live a ∖ {[d]}) a) [d] (λ _, True) HS eq_refl T I' ltac:(done)
              (p_pools s) ltac:(symmetry; by apply insert_id)) as [S2 F2].
  eexists. split_and!; [|exact S2|exact F2]. by rewrite run_upd_chunk.
Qed.

Lemma slab_became_free_spec s pl a d l :
  pst E r s pl a [d] → a_free a !! d = Some l → Z.of_nat (length l) = ns → d ∈ a_partial a → d ∈ a_live a →
  ∃ s' pl' a', slab_became_free r d s = Ok (tt, s') ∧ pst E r s' pl' a' [] ∧ pframe E r (user_byte r a') s s' ∧
    (∀ p, outstanding_slot r a' p ↔ outstanding_slot r a p).
Proof.
  intros HS Hl Hfull Hpart Hlive. pose proof (mb_nodup _ _ _ _ (pi_member _ _ _ _ _ (ps_inv _ _ _ _ _ _ HS))) as Hnd.
  apply list_elem_of_split in Hpart as (l1 & l2 & Hpart).
  destruct (partial_remove_spec (g := false) E r s pl a [d] d l1 l2 HS Hpart) as (s1 & pl1 & Hrun1 & S1 & F1 & _ & _); [by left|].
  set (a1 := a_set_partial (l1 ++ l2) a) in *.
  destruct (live_dec_spec s1 pl1 a1 d l S1 Hl Hlive) as (s2 & Hrun2 & S2 & F2).
  set (a2 := a_set_live (a_live a1 ∖ {[d]}) a1) in *.
  assert (Hnl : d ∉ a_partial a2 ++ a_empty a2).
  { rewrite Hpart, <-app_assoc in Hnd. simpl in Hnd. rewrite <-Permutation_middle in Hnd. apply NoDup_cons in Hnd as [Hnd _].
    subst a2 a1. acbn. by rewrite <-app_assoc. }
  assert (Hdl : d ∉ a_live a2) by (subst a2; acbn; set_solver).
  pose proof S2 as [Hr Hp2 I2 _ _]. assert (Hcin : chunk_of d ∈ a_chunks a2) by (by apply (inv_slab_chunk r I2 d l)).
  pose proof (pi_chunk _ _ _ _ _ I2 _ Hcin) as [_ Hhas _ _ _ _ _ Hlv].
  unfold slab_became_free. erewrite run_bind by exact Hrun1. cbv zeta. erewrite run_bind by exact Hrun2.
  erewrite run_bind by (by apply run_get_chunk).
  destruct (Z.eqb_spec (live_slabs (chunk_at (p_heap s2) (chunk_of d))) 0) as [E0|E0].
  - destruct (purge_empties_of_chunk_spec s2 pl1 a2 d (chunk_of d) S2) as (s3 & pl3 & a3 & Hrun3 & S3 & F3 & _ & [A1 A2 A3 A4 A5] & _ & _); [in_list|].
    assert (Hl3 : a_free a3 !! d = Some l) by (rewrite A5, decide_False; [done|list_mem; tauto]).
    assert (Hls : live_set a2 (chunk_of d) = ∅) by (apply leibniz_equiv_iff, size_empty_iff; lia).
    destruct (chunk_release_spec s3 pl3 a3 d l (chunk_of d) S3 Hl3 Hfull eq_refl) as (s4 & pl4 & a4 & Hrun4 & S4 & F4 & Hout).
    { intros y [ly Hy] Hyc. rewrite A5 in Hy. destruct (decide (y = d)) as [|Hne]; [done|]. exfalso.
      case_decide as Hdec; [done|]. assert (Hyl : y ∈ a_live a2).
      { apply (mb_live _ _ _ _ (pi_member _ _ _ _ _ I2)); [by rewrite list_elem_of_singleton|]. split; [by exists ly|tauto]. }
      assert (Hin : y ∈ live_set a2 (chunk_of d)) by (unfold live_set; by apply elem_of_filter). rewrite Hls in Hin. set_solver. }
    { rewrite A2, elem_of_app, A4. list_mem. tauto. }
    { by rewrite A3. }
    assert (Hout' : ∀ p, outstanding_slot r a4 p ↔ outstanding_slot r a p).
    { intros p. rewrite Hout. split; intros (y & ly & Hy & Hp' & Hn); exists y, ly.
      - rewrite A5 in Hy. by case_decide.
      - split_and!; [|done..]. rewrite A5. case_decide as Hdec; [|done]. destruct Hdec as [Hye _]. exfalso. apply Hn.
        pose proof (pi_slab _ _ _ _ _ I2 y ly Hy) as W. apply (full_slab r y ly); [done|apply W|apply W| |done].
        apply (mb_empty _ _ _ _ (pi_member _ _ _ _ _ I2) y ly Hy); [|done]. rewrite list_elem_of_singleton. intros ->. apply Hnl. in_list. }
    exists s4, pl4, a4. split_and!; [|done| |done].
    + erewrite run_bind by exact Hrun3. exact Hrun4.
    + eapply pframe_trans; [eapply pframe_weaken; [|exact F1]; done|].
      eapply pframe_trans; [eapply pframe_weaken; [|exact F2]; done|].
      eapply pframe_trans; [eapply pframe_weaken; [|exact F3]; done|done].
  - destruct (slab_park_spec s2 pl1 a2 d l S2 Hl Hfull Hnl Hdl) as (s3 & pl3 & a3 & Hrun3 & S3 & F3 & Hout).
    exists s3, pl3, a3. split_and!; [done|done| |done].
    eapply pframe_trans; [eapply pframe_weaken; [|exact F1]; done|].
    eapply pframe_trans; [eapply pframe_weaken; [|exact F2]; done|done].
Qed.
End reclaim.
