(* ===== verification/PoolFlush.v ===== *)
(** * PoolFlush: giving slots back to a pool *)

From stdpp Require Import prelude gmap.
From S2P Require Import Prelude Memory SizeClass Freelist Heap Dll Pool PoolInv PoolFrame PoolRun PoolLists PoolSlab PoolCarve PoolRefill PoolReclaim.
Local Open Scope Z_scope.

Section flush.
Context {F : FlOps} {FL : FlLaws F} {B : Type} {CS : ChunkSource B} {CL : ChunkSourceLaws B CS}.
Context (E : gset Z) (r : pool_ref).
Abbreviation pframe := (PoolFrame.pframe false).
Implicit Types s : pstate B.
Abbreviation ns := (slots_of_class r.2).
Abbreviation sz := (btm_sc_to_size r.2).

(** What an outstanding slot says of its slab. *)
Lemma outstanding_slab s pl a p :
  pst E r s pl a [] → outstanding_slot r a p →
  ∃ d l, a_free a !! d = Some l ∧ p ∈ slab_slots r d ∧ (p ∉ l) ∧ btm_slab_of (p_heap s) (chunk_of p) p = Some d ∧
    Z.of_nat (length l) < ns ∧ (d ∉ a_empty a) ∧ d ∈ a_live a ∧ (d ∈ a_partial a ↔ 0 < Z.of_nat (length l)).
Proof.
  intros HS (d & l & Hl & Hp & Hn). pose proof HS as [Hr Hpl I _ _]. exists d, l.
  pose proof (pi_slab _ _ _ _ _ I d l Hl) as W. pose proof (pi_member _ _ _ _ _ I) as [M1 M2 M3 M4 M5 M6 M7].
  assert (Hlt : Z.of_nat (length l) < ns).
  { pose proof (ns_range r (proj1 Hr)).
    assert (Hsub : p :: l ⊆+ slab_slots r d).
    { apply NoDup_submseteq; [apply NoDup_cons; split; [done|apply W]|]. intros x [->|Hx]%elem_of_cons; [done|by apply W]. }
    apply submseteq_length in Hsub. unfold slab_slots in Hsub. rewrite slots_length in Hsub. simpl in Hsub. lia. }
  assert (Hne : d ∉ a_empty a) by (intros Hin; apply (M6 d l Hl) in Hin; [lia|apply not_elem_of_nil]).
  split_and!; try done.
  - apply (slab_of_slot r (proj1 Hr) (p_heap s) d p); [by apply (inv_slab_in r Hr I d l)|apply W| |done]. by apply (inv_mapped r I d l).
  - apply M4; [apply not_elem_of_nil|]. split; [by exists l|done].
  - rewrite (M5 d l Hl) by (apply not_elem_of_nil). lia.
Qed.

(** The slot [p] is back on its slab's free list, and the slab in the operation's hands. *)
Lemma slot_return_spec s pl a d l p :
  pst E r s pl a [] → a_free a !! d = Some l → p ∈ slab_slots r d → p ∉ l → d ∉ a_empty a →
  let a1 := a_set_free (<[d := p :: l]> (a_free a)) a in
  ∃ s1, slot_return d p s = Ok (tt, s1) ∧ pst E r s1 pl a1 [d] ∧ pframe E r (user_byte r a1) s s1 ∧
    ∀ x, outstanding_slot r a1 x ↔ outstanding_slot r a x ∧ x ≠ p.
Proof.
  intros HS Hl Hp Hn Hne a1. pose proof HS as [Hr Hpl I Hsrc Hap]. pose proof (pi_slab _ _ _ _ _ I d l Hl) as [W1 W2 W3 W4 W5 W6].
  destruct W6 as [Hhd Hfl]; [unfold a_empty in Hne; list_mem; tauto|].
  pose proof (inv_mapped r I d l Hl) as Hmap. pose proof (inv_slab_in r Hr I d l Hl) as Hin.
  pose proof (sc_size_pos r.2 (proj1 Hr)) as Hsz. pose proof (sf_count _ _ _ _ W3) as Hcnt.
  assert (Hnd : NoDup (p :: l)) by (by apply NoDup_cons).
  assert (Hsub : p :: l ⊆ slab_slots r d) by (intros x [->|Hx]%elem_of_cons; [done|by apply W5]).
  assert (Hlen : (length l ≤ 256)%nat).
  { pose proof (ns_range r (proj1 Hr)). apply NoDup_submseteq, submseteq_length in W5; [|done].
    unfold slab_slots in W5. rewrite slots_length in W5. lia. }
  pose proof (slab_slots_ok r (proj1 Hr) d _ Hin Hnd Hsub) as Hok.
  destruct (slots_ok_head p l Hok) as (Hp0 & Hpa & _ & Hpap).
  set (h1 := heap_set_mem (btm_fl_set (h_mem (p_heap s)) p (hd0 l)) (p_heap s)).
  set (v1 := slab_set_touch (p_epoch s) (slab_set_free p (u32 (free_count (slab_at (p_heap s) d) + 1)) (slab_at (p_heap s) d))).
  set (h3 := heap_set_slab d v1 (heap_set_slab d (slab_set_free p (u32 (free_count (slab_at (p_heap s) d) + 1)) (slab_at (p_heap s) d)) h1)).
  assert (Hrun : slot_return d p s = Ok (tt, mk_pstate h3 (p_pools s) (p_epoch s) (p_src s))).
  { unfold slot_return. pstep. rewrite Hhd.
    erewrite run_bind by (apply run_fl_set; unfold mapped; by rewrite (slot_chunk r (proj1 Hr) d p Hin Hp)).
    erewrite run_bind by (apply run_upd_slab; exact Hmap). unfold slab_touch. erewrite run_bind by (apply run_gets).
    rewrite run_upd_slab by exact Hmap. pcbn. by rewrite slab_at_set_mem, slab_at_set, decide_True. }
  assert (Hbyte : ∀ x, x < p ∨ p + 8 ≤ x → byte_at (h_mem h3) x = byte_at (h_mem (p_heap s)) x).
  { intros x Hx. by apply fl_set_outside. }
  destruct (inv_relist r (p_heap s) h3 pl pl a [d] d l (p :: l)) as [I3 T3]; try done.
  { destruct (pst_more E r s pl a [] [d]) as [_ _ ? _ _]; [intros x Hx%elem_of_nil; done|done..]. }
  { by left. }
  { intros y Hy. subst h3 h1. rewrite !slab_at_set, !decide_False by done. done. }
  { subst h3. rewrite slab_at_set, decide_True by done. split; try done. cbn. rewrite Hcnt, u32_small by lia. lia. }
  { intros x Hx. apply Hbyte. by apply Hx. }
  { cbn [h3 h1]. apply flist_push; try done. by apply slots_ok_tail with p. }
  assert (Hout : ∀ x, outstanding_slot r a1 x ↔ outstanding_slot r a x ∧ x ≠ p).
  { intros x. subst a1. split.
    - intros (d' & l' & Hd' & Hx & Hnx). acbn. apply lookup_insert_Some in Hd' as [[<- <-]|[Hdd Hd']].
      + rewrite not_elem_of_cons in Hnx. destruct Hnx. split; [by exists d, l|done].
      + split; [by exists d', l'|]. intros ->. destruct (inv_disjoint r Hr I d l d' l' p p Hl Hd' Hdd Hp Hx); lia.
    - intros [(d' & l' & Hd' & Hx & Hnx) Hxp]. destruct (decide (d = d')) as [<-|Hdd].
      + assert (l' = l) as -> by congruence. exists d, (p :: l). acbn. rewrite lookup_insert_eq, not_elem_of_cons. done.
      + exists d', l'. acbn. by rewrite lookup_insert_ne. }
  destruct (pst_step (g := false) E r s pl a [] h3 pl a1 [d] (user_byte r a1) HS eq_refl T3 I3) with (pools' := p_pools s) as [S3 F3].
  { intros x (q & Hq & Hx). apply Hbyte. apply Hout in Hq as [Hq Hqp].
    assert (Hkp : known_slot r a p) by (by exists d, l).
    destruct (known_apart r _ _ _ _ q p I Hr (outstanding_known r _ _ Hq) Hkp Hqp); lia. }
  { symmetry. by apply insert_id. }
  eexists. split_and!; [exact Hrun|exact S3|exact F3|exact Hout].
Qed.

Lemma slab_put_spec s pl a d p l :
  pst E r s pl a [d] → a_free a !! d = Some (p :: l) → d ∉ a_empty a → d ∈ a_live a →
  (d ∈ a_partial a ↔ 0 < Z.of_nat (length l)) → Z.of_nat (length l) < ns →
  ∃ s' pl' a', slab_put r d s = Ok (tt, s') ∧ pst E r s' pl' a' [] ∧ pframe E r (user_byte r a') s s' ∧
    (∀ x, outstanding_slot r a' x ↔ outstanding_slot r a x).
Proof.
  intros HS Hl Hne Hlive Hpart Hlt. pose proof HS as [Hr Hpl I Hsrc Hap]. pose proof (ns_range r (proj1 Hr)) as Hns.
  pose proof (pi_slab _ _ _ _ _ I d _ Hl) as [W1 W2 [F1 F2 F3 F4 F5 F6 F7] W4 W5 W6]. pose proof (pi_member _ _ _ _ _ I) as [M1 M2 M3 M4 M5 M6 M7].
  unfold slab_put. erewrite run_bind by (apply run_get_slab, (inv_mapped r I d _ Hl)). rewrite F6, F7, F3.
  destruct (Z.eqb_spec (Z.of_nat (length (p :: l))) ns) as [Hfull|Hnf].
  - apply (slab_became_free_spec E r s pl a d (p :: l)); try done. apply Hpart. simpl in Hfull. lia.
  - assert (Hset : ∀ a', a_free a' = a_free a → d ∈ a_partial a' → d ∉ a_empty a' → settled r a' d).
    { intros a' Ha' Hin Hout l' Hl'. rewrite Ha', Hl in Hl'. injection Hl' as <-. simpl in *.
      split; [split; [intros _; lia|done]|]. split; [done|]. intros ?. exfalso. lia. }
    rewrite M3 by (by eexists). destruct (decide (d ∈ a_partial a)) as [Hin|Hin].
    + rewrite bool_decide_eq_true_2 by done. cbn [negb]. exists s, pl, a. split_and!; [done| |apply pframe_refl|done].
      apply (pst_settle E r s pl a d HS); [by apply Hset|]. split; [|done]. intros _. split; [by eexists|done].
    + rewrite bool_decide_eq_false_2 by done. cbn [negb].
      destruct (partial_push_spec (g := false) E r s pl a [d] d HS) as (s1 & pl1 & Hrun & S1 & F1' & _ & _); [by eexists|done|done|by left|].
      exists s1, pl1, (a_set_partial (d :: a_partial a) a). split_and!; [done| |by eapply pframe_weaken; [|exact F1']|done].
      apply (pst_settle E r s1 pl1 _ d S1); [apply Hset; [done|by left|done]|]. split; [|done]. intros _. split; [by eexists|done].
Qed.

(** One slot back into the pool, reclaim included. *)
Lemma slot_back_spec s pl a p d :
  pst E r s pl a [] → outstanding_slot r a p → btm_slab_of (p_heap s) (chunk_of p) p = Some d →
  ∃ s' pl' a', (_ ← slot_return d p; slab_put r d) s = Ok (tt, s') ∧ pst E r s' pl' a' [] ∧ pframe E r (user_byte r a') s s' ∧
    (∀ x, outstanding_slot r a' x ↔ outstanding_slot r a x ∧ x ≠ p).
Proof.
  intros HS Hp Hd. destruct (outstanding_slab s pl a p HS Hp) as (d' & l & Hl & Hps & Hn & Hd' & Hlt & Hne & Hlive & Hpart).
  assert (d' = d) as -> by congruence.
  destruct (slot_return_spec s pl a d l p HS Hl Hps Hn Hne) as (s1 & Hrun1 & S1 & F1 & Hout1).
  destruct (slab_put_spec s1 pl _ d p l S1) as (s2 & pl2 & a2 & Hrun2 & S2 & F2 & Hout2); try done.
  { acbn. apply lookup_insert_eq. }
  exists s2, pl2, a2. split_and!; [by erewrite run_bind by exact Hrun1|done| |].
  - eapply pframe_trans; [|exact F2]. eapply pframe_weaken; [|exact F1]. intros x. apply user_byte_mono. intros q. by rewrite Hout2.
  - intros x. by rewrite Hout2, Hout1.
Qed.

(** The profiling counter is no part of the invariant. *)
Lemma pst_counter s pl a X n :
  pst E r s pl a X → pst E r (set_pool r (pool_set_outstanding n pl) s) (pool_set_outstanding n pl) a X.
Proof.
  intros [H1 H2 [[C1 C2 C3 C4] I2 I3 [L1 L2 L3 L4 L5 L6 L7] I5] H4 H5]. split; try done; apply lookup_insert_eq.
Qed.

Lemma pframe_counter s (P : Z → Prop) pl n : pframe E r P s (set_pool r (pool_set_outstanding n pl) s).
Proof. split; try done; [|apply cs_step_refl]. intros r' Hr'. simpl. by rewrite lookup_insert_ne. Qed.

(** ** Flush *)
Lemma flush_loop_spec k : ∀ s pl a bin lb,
  pst E r s pl a [] → bin_ok r (h_mem (p_heap s)) a bin lb → (k ≤ length lb)%nat → Z.of_nat (length lb) < 2 ^ 32 →
  ∃ s' pl' a' bin', flush_loop k r bin s = Ok (bin', s') ∧ pst E r s' pl' a' [] ∧ pframe E r (user_byte r a') s s' ∧
    bin_ok r (h_mem (p_heap s')) a' bin' (drop k lb) ∧ b_pool bin' = b_pool bin ∧
    (∀ x, outstanding_slot r a' x ↔ outstanding_slot r a x ∧ x ∉ take k lb).
Proof.
  induction k as [|k IH]; intros s pl a bin lb HS HB Hk Hlen.
  - exists s, pl, a, bin. rewrite drop_0, take_0. split_and!; try done; try apply pframe_refl.
    intros x. rewrite elem_of_nil. tauto.
  - destruct lb as [|p lb]; [simpl in Hk; lia|]. destruct HB as [B1 B2 B3 [B4a B4] B5]. pose proof HS as [Hr Hpl I Hsrc Hap].
    assert (Hp : outstanding_slot r a p) by (apply B5; by left).
    destruct (known_place r _ _ _ _ p I Hr (outstanding_known r _ _ Hp)) as (Hp0 & Hpa & Hpm & _).
    destruct (outstanding_slab s pl a p HS Hp) as (d & l & _ & _ & _ & Hd & _).
    apply NoDup_cons in B3 as [Hpn Hnd]. cbn [flush_loop]. rewrite B1. cbn [hd0].
    erewrite run_bind by (by apply run_fl_get). rewrite B4a. cbv zeta. cbn [b_pool].
    erewrite run_bind by (by apply run_upd_pool). set (s1 := set_pool r _ s).
    assert (HS1 : pst E r s1 (pool_set_outstanding (u64 (outstanding pl - 1)) pl) a []) by (by apply pst_counter).
    erewrite run_bind; [|unfold slab_of; cbn [s1 p_heap set_pool]; rewrite Hd; reflexivity].
    destruct (slot_back_spec s1 _ a p d HS1 Hp Hd) as (s2 & pl2 & a2 & Hrun & S2 & F2 & Hout).
    destruct (run_bind_inv _ _ _ _ _ Hrun) as ([] & s1' & Hret & Hput).
    erewrite run_bind by exact Hret. erewrite run_bind by exact Hput.
    assert (F02 : pframe E r (user_byte r a2) s s2) by (eapply pframe_trans; [apply pframe_counter|exact F2]).
    destruct (IH s2 pl2 a2 (mk_bin (hd0 lb) (b_pool bin) (u32 (b_count bin - 1))) lb S2) as (s3 & pl3 & a3 & bin3 & Hrun3 & S3 & F3 & HB3 & Hbp & Hout3).
    { assert (Hlb : ∀ x, x ∈ lb → outstanding_slot r a2 x).
      { intros x Hx. apply Hout. split; [apply B5; by right|]. by intros ->. }
      split; cbn [b_free_head b_count]; try done.
      - rewrite B2, u32_small; simpl length in *; lia.
      - apply (flist_ext (h_mem (p_heap s))); [|done]. intros q x Hq Hx. symmetry. apply (pf_bytes _ _ _ _ _ _ F02).
        exists q. split; [by apply Hlb|]. pose proof (sc_size_pos r.2 (proj1 Hr)). lia. }
    { simpl in Hk. lia. } { simpl in Hlen. lia. }
    exists s3, pl3, a3, bin3. split_and!; try done.
    + eapply pframe_trans; [|exact F3]. eapply pframe_weaken; [|exact F02]. intros x. apply user_byte_mono. intros q. rewrite Hout3. tauto.
    + intros x. rewrite Hout3, Hout. simpl. rewrite elem_of_cons. tauto.
Qed.

(** A flush down to [keep] slots gives exactly the slots at the front of the bin back. *)
Lemma btm_pool_flush_spec s pl a bin lb keep :
  pst E r s pl a [] → bin_ok r (h_mem (p_heap s)) a bin lb → b_pool bin = Some r → Z.of_nat (length lb) < 2 ^ 32 → 0 ≤ keep →
  let k := Z.to_nat (b_count bin - keep) in
  ∃ s' pl' a' bin', btm_pool_flush bin keep s = Ok (bin', s') ∧ pst E r s' pl' a' [] ∧ pframe E r (user_byte r a') s s' ∧
    bin_ok r (h_mem (p_heap s')) a' bin' (drop k lb) ∧ b_pool bin' = Some r ∧
    (∀ x, outstanding_slot r a' x ↔ outstanding_slot r a x ∧ x ∉ take k lb).
Proof.
  intros HS HB Hb Hlen Hk0 k. pose proof (bn_count _ _ _ _ _ HB) as Hc. unfold btm_pool_flush.
  destruct (Z.leb_spec (b_count bin) keep) as [Hle|Hgt].
  - exists s, pl, a, bin. assert (k = O) as -> by lia. rewrite drop_0, take_0. split_and!; try done; try apply pframe_refl.
    intros x. rewrite elem_of_nil. tauto.
  - rewrite Hb. destruct (flush_loop_spec k s pl a bin lb HS HB) as (s' & pl' & a' & bin' & Hrun & S' & F' & HB' & Hbp & Hout); [lia|done|].
    exists s', pl', a', bin'. split_and!; try done. congruence.
Qed.

(** ** Freeing without a cache *)
Lemma btm_pool_free_one_spec s pl a p d :
  pst E r s pl a [] → outstanding_slot r a p → btm_slab_of (p_heap s) (chunk_of p) p = Some d →
  ∃ s' pl' a', btm_pool_free_one d p s = Ok (tt, s') ∧ pst E r s' pl' a' [] ∧ pframe E r (user_byte r a') s s' ∧
    (∀ x, outstanding_slot r a' x ↔ outstanding_slot r a x ∧ x ≠ p).
Proof.
  intros HS Hp Hd. destruct (outstanding_slab s pl a p HS Hp) as (d' & l & Hl & Hps & Hn & Hd' & Hlt & Hne & Hlive & Hpart).
  assert (d' = d) as -> by congruence. pose proof HS as [Hr Hpl I Hsrc Hap].
  pose proof (pi_slab _ _ _ _ _ I d l Hl) as [W1 W2 [F1 F2 F3 F4 F5 F6 F7] W4 W5 W6].
  destruct (slot_return_spec s pl a d l p HS Hl Hps Hn Hne) as (s1 & Hrun1 & S1 & Fr1 & Hout1).
  unfold btm_pool_free_one. erewrite run_bind by (apply run_get_slab, (inv_mapped r I d l Hl)). cbv zeta.
  rewrite F4, F5, <-(surjective_pairing r). erewrite run_bind by exact Hrun1. erewrite run_bind by (apply run_upd_pool, S1).
  set (n := if outstanding pl =? 0 then outstanding pl else u64 (outstanding pl - 1)).
  assert (Hcnt : (if outstanding pl =? 0 then pl else pool_set_outstanding (u64 (outstanding pl - 1)) pl) = pool_set_outstanding n pl).
  { subst n. destruct (outstanding pl =? 0); [by destruct pl|done]. }
  cbv beta. rewrite Hcnt.
  destruct (slab_put_spec _ _ _ d p l (pst_counter s1 pl _ [d] n S1)) as (s2 & pl2 & a2 & Hrun2 & S2 & Fr2 & Hout2); try done.
  { acbn. apply lookup_insert_eq. }
  exists s2, pl2, a2. split_and!; [done|done| |].
  - eapply pframe_trans; [eapply pframe_weaken; [|exact Fr1]|eapply pframe_trans; [apply pframe_counter|exact Fr2]].
    intros x. apply user_byte_mono. intros q. by rewrite Hout2.
  - intros x. by rewrite Hout2, Hout1.
Qed.
End flush.
