(* ===== verification/PoolCount.v ===== *)
(** * PoolCount: what the counter [outstanding] of a pool counts

    The heap profile of src/src/btmalloc.c reads this counter.  The operations change it in
    one place each; all the work on lists, slabs and chunks leaves it alone ([still]), and
    a refill adds what it takes, a flush and a direct free subtract what they return.
    [counts] ties the counter to the slots out of the pool. *)

From stdpp Require Import prelude gmap.
From S2P Require Import Prelude Memory SizeClass Freelist Heap Dll Pool PoolInv PoolFrame PoolRun PoolRefill.
Local Open Scope Z_scope.

Create HintDb still.

Section still.
Context {F : FlOps} {B : Type} {CS : ChunkSource B}.
Implicit Types s : pstate B.

Definition counters s : gmap pool_ref Z := outstanding <$> p_pools s.

(** Whatever it returns, the counters are the same. *)
Definition still {X : Type} (m : M (pstate B) X) : Prop := ∀ s x s', m s = Ok (x, s') → counters s' = counters s.

Lemma still_ret {X : Type} (x : X) : still (mret x).
Proof. by intros s y s' [= _ <-]. Qed.
Lemma still_gets {X : Type} (f : pstate B → X) : still (gets f).
Proof. by intros s y s' [= _ <-]. Qed.
Lemma still_bind {X Y : Type} (m : M (pstate B) X) (f : X → M (pstate B) Y) : still m → (∀ x, still (f x)) → still (m ≫= f).
Proof.
  intros Hm Hf s y s' E. unfold mbind, M_bind in E. destruct (m s) as [[x s1]| | |] eqn:E1; try done. by rewrite (Hf x s1 y s' E), (Hm s x s1 E1).
Qed.
Lemma still_no_fuel {X : Type} : still (no_fuel : M (pstate B) X).
Proof. by intros s y s' E. Qed.
Lemma still_fault {X : Type} : still (fault : M (pstate B) X).
Proof. by intros s y s' E. Qed.

Lemma still_get_pool r : still (get_pool r).
Proof. intros s x s' E. unfold get_pool in E. case_match; [by injection E as _ <-|done]. Qed.
Lemma still_upd_pool r f : (∀ p, outstanding (f p) = outstanding p) → still (upd_pool r f).
Proof.
  intros Hf s x s' E. unfold upd_pool in E. case_match eqn:Ep; [|done]. injection E as _ <-. unfold counters, set_pool. cbn.
  rewrite fmap_insert, Hf. apply insert_id. by rewrite lookup_fmap, Ep.
Qed.
Lemma still_get_chunk c : still (get_chunk c).
Proof. intros s x s' E. unfold get_chunk in E. case_match; [by injection E as _ <-|done]. Qed.
Lemma still_upd_chunk c f : still (upd_chunk c f).
Proof. intros s x s' E. unfold upd_chunk in E. case_match; [by injection E as _ <-|done]. Qed.
Lemma still_get_slab d : still (get_slab d).
Proof. intros s x s' E. unfold get_slab in E. case_match; [by injection E as _ <-|done]. Qed.
Lemma still_upd_slab d f : still (upd_slab d f).
Proof. intros s x s' E. unfold upd_slab in E. case_match; [by injection E as _ <-|done]. Qed.
Lemma still_fl_get x : still (fl_get x).
Proof. intros s y s' E. unfold fl_get in E. case_match; [by injection E as _ <-|done]. Qed.
Lemma still_fl_set x v : still (fl_set x v).
Proof. intros s y s' E. unfold fl_set in E. case_match; [by injection E as _ <-|done]. Qed.
Lemma still_slab_of c x : still (slab_of c x).
Proof. intros s y s' E. unfold slab_of in E. case_match; [by injection E as _ <-|done]. Qed.
Lemma still_chunk_obtain r : still (chunk_obtain r).
Proof. intros s y s' E. unfold chunk_obtain in E. destruct (btm_chunk_obtain _ _ _) as [[[c h] b]| | |]; [by injection E as _ <-|done..]. Qed.
Lemma still_chunk_dispose c : still (chunk_dispose c).
Proof. intros s y s' E. unfold chunk_dispose in E. destruct (btm_chunk_dispose _ _ _) as [[h b]| | |]; [by injection E as _ <-|done..]. Qed.
Lemma still_release_pages a off n : still (release_pages a off n).
Proof. intros s y s' E. unfold release_pages in E. destruct (btm_release_pages _ _ _ _ _) as [h b]. by injection E as _ <-. Qed.
End still.

#[export] Hint Resolve still_ret still_gets still_no_fuel still_fault still_get_pool still_get_chunk still_upd_chunk
  still_get_slab still_upd_slab still_fl_get still_fl_set still_slab_of still_chunk_obtain still_chunk_dispose
  still_release_pages : still.

(** Goes through a program text. *)
Ltac stills :=
  repeat first
    [ solve [eauto with still]
    | apply still_bind; [|intros ?]
    | apply still_upd_pool; intros []; done
    | match goal with
      | |- still (if ?b then _ else _) => destruct b
      | |- still (let '(_, _) := ?p in _) => destruct p
      | |- still (match ?p with _ => _ end) => destruct p
      end
    | progress cbv beta zeta ].

Section ops.
Context {F : FlOps} {B : Type} {CS : ChunkSource B}.

Lemma still_partial_push r d : still (B := B) (partial_push r d).
Proof. unfold partial_push. stills. Qed.
Lemma still_partial_remove r d : still (B := B) (partial_remove r d).
Proof. unfold partial_remove. stills. Qed.
Lemma still_format_loop data slot n next : still (B := B) (format_loop data slot n next).
Proof. revert next. induction n as [|n IH]; intros next; cbn [format_loop]; stills. Qed.
#[local] Hint Resolve still_partial_push still_partial_remove still_format_loop : still.
Lemma still_slab_format d part sc : still (B := B) (slab_format d part sc).
Proof. unfold slab_format. stills. Qed.
Lemma still_new_active r : still (B := B) (new_active r).
Proof. unfold new_active, link_active. stills. Qed.
#[local] Hint Resolve still_slab_format still_new_active : still.
Lemma still_slab_new r : still (B := B) (btm_slab_new r).
Proof. unfold btm_slab_new, slab_recycle, slab_carve. stills. Qed.
Lemma still_purge_loop fuel r c w p x : still (B := B) (purge_loop fuel r c w p x).
Proof. revert p x. induction fuel as [|n IH]; intros p x; cbn [purge_loop]; unfold purge_unlink, write_pp; stills. Qed.
#[local] Hint Resolve still_purge_loop : still.
Lemma still_became_free r d : still (B := B) (slab_became_free r d).
Proof. unfold slab_became_free, purge_empties_of_chunk, chunk_release, chunk_unlink, slab_park, slab_decommit. stills. Qed.
#[local] Hint Resolve still_became_free : still.
Lemma still_slab_put r d : still (B := B) (slab_put r d).
Proof. unfold slab_put. stills. Qed.
Lemma still_slot_return d p : still (B := B) (slot_return d p).
Proof. unfold slot_return, slab_touch. stills. Qed.
Lemma still_refill_loop n d x k : still (B := B) (refill_loop n d x k).
Proof. revert x k. induction n as [|n IH]; intros x k; cbn [refill_loop]; stills. Qed.
Lemma still_tail_walk n x : still (B := B) (tail_walk n x).
Proof. revert x. induction n as [|n IH]; intros x; cbn [tail_walk]; stills. Qed.

(** ** Where the counters move *)
Lemma upd_counter r f g s x (s' : pstate B) :
  (∀ p, outstanding (f p) = g (outstanding p)) → upd_pool r f s = Ok (x, s') → counters s' = alter g r (counters s).
Proof.
  intros Hf E. unfold upd_pool in E. case_match eqn:Ep; [|done]. injection E as _ <-. unfold counters, set_pool. cbn.
  rewrite fmap_insert, Hf. apply map_eq. intros r'. rewrite lookup_insert. destruct (decide (r = r')) as [->|Hne].
  - by rewrite lookup_alter, lookup_fmap, Ep, decide_True.
  - by rewrite lookup_alter_ne.
Qed.

Lemma refill_loop_lower n d x k s y j (s' : pstate B) : refill_loop n d x k s = Ok ((y, j), s') → k ≤ j.
Proof.
  revert x k s. induction n as [|n IH]; intros x k s; cbn [refill_loop]; [intros [= _ <- _]; lia|].
  intros (sl & s1 & _ & E)%run_bind_inv. case_match; [injection E as _ <- _; lia|].
  apply run_bind_inv in E as (v & s2 & _ & E). apply run_bind_inv in E as (u & s3 & _ & E). apply run_bind_inv in E as (u' & s4 & _ & E). apply IH in E. lia.
Qed.

Lemma refill_loop_number n d x k s y j (s' : pstate B) :
  refill_loop n d x k s = Ok ((y, j), s') → k ≤ j ≤ k + Z.of_nat n ∧ (k < j → y ≠ 0).
Proof.
  revert x k s. induction n as [|n IH]; intros x k s; cbn [refill_loop]; [intros [= _ <- _]; lia|].
  intros (sl & s1 & _ & E)%run_bind_inv. destruct (Z.eqb_spec (free_head sl) 0); [injection E as _ <- _; lia|].
  apply run_bind_inv in E as (v & s2 & _ & E). apply run_bind_inv in E as (u & s3 & _ & E). apply run_bind_inv in E as (u' & s4 & _ & E).
  destruct (decide (j = k + 1)) as [->|]; [|apply IH in E; lia]. split; [lia|]. intros _. destruct n as [|n]; cbn [refill_loop] in E.
  - by injection E as <- _.
  - apply run_bind_inv in E as (sl' & s5 & _ & E). case_match; [by injection E as <- _|].
    apply run_bind_inv in E as (v' & s6 & _ & E). apply run_bind_inv in E as (w & s7 & _ & E). apply run_bind_inv in E as (w' & s8 & _ & E).
    apply (refill_loop_lower n) in E. lia.
Qed.

Lemma refill_take_counts r d want s y n (s' : pstate B) :
  refill_take r d want s = Ok ((y, n), s') →
  counters s' = alter (λ o, u64 (o + n)) r (counters s) ∧ 0 ≤ n ≤ Z.of_nat (Z.to_nat want) ∧ (0 < n → y ≠ 0).
Proof.
  unfold refill_take. intros ([z j] & s1 & E1 & E)%run_bind_inv. pose proof (refill_loop_number _ _ _ _ _ _ _ _ E1) as [Hj Hz].
  apply run_bind_inv in E as (u1 & s2 & E2 & E). apply run_bind_inv in E as (u2 & s3 & E3 & E).
  apply (upd_counter _ _ (λ o, u64 (o + j))) in E3; [|by intros []].
  apply still_refill_loop in E1. apply still_upd_slab in E2.
  assert (HS : still (B := B) (_ ← slab_touch d; v ← get_slab d; _ ← (if free_count v =? 0 then partial_remove r d else mret tt); mret (z, j))).
  { unfold slab_touch. pose proof still_partial_remove. stills. }
  pose proof (HS _ _ _ E) as HSE.
  assert (n = j ∧ y = z) as [-> ->].
  { apply run_bind_inv in E as (? & ? & _ & E). apply run_bind_inv in E as (? & ? & _ & E). apply run_bind_inv in E as (? & ? & _ & E). by injection E. }
  split_and!; [|lia..|exact Hz]. by rewrite HSE, E3, E2, E1.
Qed.

(** A refill counts the slots it took: the one it returns and those it caches. *)
Lemma refill_counts r bin want s p bin' (s' : pstate B) :
  btm_pool_refill r bin want s = Ok ((p, bin'), s') →
  (p = 0 ∧ (counters s' = counters s ∨ counters s' = alter (λ o, u64 (o + 0)) r (counters s))) ∨
  (p ≠ 0 ∧ ∃ n, counters s' = alter (λ o, u64 (o + n)) r (counters s) ∧ 1 ≤ n ≤ Z.of_nat (Z.to_nat want) ∧
    b_count bin' = if n =? 1 then b_count bin else u32 (b_count bin + (n - 1))).
Proof.
  unfold btm_pool_refill. intros (pl & s1 & E1 & E)%run_bind_inv. apply run_bind_inv in E as (d & s2 & E2 & E).
  assert (H2 : counters s2 = counters s).
  { apply still_get_pool in E1. rewrite <-E1. revert E2. pose proof still_slab_new. pose proof still_partial_push.
    match goal with |- ?m s1 = _ → _ => assert (HS : still m) by stills end. apply HS. }
  destruct (d =? 0); [injection E as <- _ <-; auto|]. apply run_bind_inv in E as ([y n] & s3 & E3 & E). apply refill_take_counts in E3 as (H3 & Hn & Hy).
  unfold refill_cache in E. destruct (Z.eqb_spec n 0) as [->|Hn0]; [injection E as <- _ <-; left; split; [done|right]; by rewrite H3, H2|].
  right. apply run_bind_inv in E as (z & s4 & E4 & E). apply still_fl_get in E4. destruct (Z.eqb_spec (n - 1) 0).
  - injection E as <- <- <-. split; [apply Hy; lia|]. exists n. rewrite (proj2 (Z.eqb_eq n 1)) by lia. split_and!; [by rewrite E4, H3, H2|lia..|done].
  - apply run_bind_inv in E as (t & s5 & E5 & E). apply run_bind_inv in E as (u & s6 & E6 & E). apply still_tail_walk in E5. apply still_fl_set in E6.
    injection E as <- <- <-. split; [apply Hy; lia|]. exists n. rewrite (proj2 (Z.eqb_neq n 1)) by lia.
    split_and!; [by rewrite E6, E5, E4, H3, H2|lia..|done].
Qed.

(** A flush counts down for every slot. *)
Lemma flush_loop_counts k r bin s bin' (s' : pstate B) :
  flush_loop k r bin s = Ok (bin', s') → counters s' = alter (λ o, Nat.iter k (λ o, u64 (o - 1)) o) r (counters s).
Proof.
  revert bin s. induction k as [|k IH]; intros bin s; cbn [flush_loop].
  - intros [= _ <-]. symmetry. by apply alter_id.
  - intros (x & s1 & E1 & E)%run_bind_inv. apply run_bind_inv in E as (u & s2 & E2 & E). apply run_bind_inv in E as (d & s3 & E3 & E).
    apply run_bind_inv in E as (u' & s4 & E4 & E). apply run_bind_inv in E as (u'' & s5 & E5 & E).
    apply IH in E. apply still_slab_put in E5. apply still_slot_return in E4. apply still_slab_of in E3. apply still_fl_get in E1.
    apply (upd_counter _ _ (λ o, u64 (o - 1))) in E2; [|by intros []].
    rewrite E, E5, E4, E3, E2, E1, alter_alter, decide_True by done. apply alter_ext. intros o _. exact (Nat.iter_swap k Z (λ o, u64 (o - 1)) o).
Qed.

Lemma flush_counts r bin keep s bin' (s' : pstate B) :
  b_pool bin = Some r → btm_pool_flush bin keep s = Ok (bin', s') →
  counters s' = alter (λ o, Nat.iter (Z.to_nat (b_count bin - keep)) (λ o, u64 (o - 1)) o) r (counters s).
Proof.
  intros Hr. unfold btm_pool_flush. destruct (Z.leb_spec (b_count bin) keep) as [Hle|_].
  - intros [= _ <-]. replace (Z.to_nat (b_count bin - keep)) with 0%nat by lia. symmetry. by apply alter_id.
  - rewrite Hr. apply flush_loop_counts.
Qed.

Lemma free_one_counts d p s (s' : pstate B) :
  btm_pool_free_one d p s = Ok (tt, s') →
  counters s' = alter (λ o, if o =? 0 then o else u64 (o - 1)) (s_part_idx (slab_at (p_heap s) d), s_sc (slab_at (p_heap s) d)) (counters s).
Proof.
  unfold btm_pool_free_one. intros (sl & s1 & E1 & E)%run_bind_inv. unfold get_slab in E1. case_match; [|done]. injection E1 as <- <-.
  apply run_bind_inv in E as (u & s2 & E2 & E). apply run_bind_inv in E as (u' & s3 & E3 & E).
  apply still_slot_return in E2. apply still_slab_put in E.
  apply (upd_counter _ _ (λ o, if o =? 0 then o else u64 (o - 1))) in E3; [by rewrite E, E3, E2|]. intros []. cbn. by case_match.
Qed.
End ops.

(** ** Counting slots *)

(** Exactly [n] addresses satisfy [P]. *)
Definition measures (P : Z → Prop) (n : Z) : Prop := ∃ l, NoDup l ∧ (∀ x, x ∈ l ↔ P x) ∧ n = Z.of_nat (length l).

Lemma measures_iff P Q n : (∀ x, Q x ↔ P x) → measures P n → measures Q n.
Proof. intros H (l & H1 & H2 & ->). exists l. split_and!; [done| |done]. intros x. by rewrite H, H2. Qed.

Lemma measures_none P : (∀ x, ¬ P x) → measures P 0.
Proof. intros H. exists []. split_and!; [constructor| |done]. intros x. split; [by intros ?%elem_of_nil|by intros ?%H]. Qed.

Lemma measures_some P n : measures P n → n ≠ 0 ↔ ∃ x, P x.
Proof.
  intros (l & _ & H2 & ->). split.
  - destruct l as [|x l]; [done|]. intros _. exists x. apply H2. left.
  - intros (x & Hx). apply H2 in Hx. by destruct l; [apply elem_of_nil in Hx|].
Qed.

Lemma measures_add P Q n m : measures P n → measures Q m → (∀ x, P x → Q x → False) → measures (λ x, P x ∨ Q x) (n + m).
Proof.
  intros (l & L1 & L2 & ->) (k & K1 & K2 & ->) H. exists (l ++ k). split_and!.
  - apply NoDup_app. split_and!; [done| |done]. intros x Hx Hk. by apply (H x); [apply L2|apply K2].
  - intros x. by rewrite elem_of_app, L2, K2.
  - rewrite length_app. lia.
Qed.

Lemma measures_bound P n N : measures P n → (∀ x, P x → 0 ≤ x < N) → 0 ≤ n ≤ Z.max 0 N.
Proof.
  intros (l & H1 & H2 & ->) Hx. split; [lia|]. assert (Hs : l ⊆+ seqZ 0 N) by (apply NoDup_submseteq; [done|]; intros x Hxl; apply elem_of_seqZ; by apply Hx, H2).
  apply submseteq_length in Hs. rewrite length_seqZ in Hs. lia.
Qed.

(** [n] blocks of [k] bytes that do not overlap. *)
Lemma measures_blocks P n k : 0 ≤ k → measures P n → (∀ x y, P x → P y → x ≠ y → x + k ≤ y ∨ y + k ≤ x) →
  measures (λ y, ∃ x, P x ∧ x ≤ y < x + k) (n * k).
Proof.
  intros Hk (l & L1 & L2 & ->) Hd. exists (l ≫= λ x, seqZ x k). split_and!.
  - apply NoDup_bind; [|intros x _; apply NoDup_seqZ|done]. intros x1 x2 y H1 H2 Y1%elem_of_seqZ Y2%elem_of_seqZ.
    destruct (decide (x1 = x2)) as [|Hne]; [done|]. destruct (Hd x1 x2) as [?|?]; [by apply L2|by apply L2|done|lia|lia].
  - intros y. rewrite list_elem_of_bind. setoid_rewrite elem_of_seqZ. split; [intros (x & ? & Hx); exists x|intros (x & Hx & ?); exists x]; by rewrite ?L2 in *.
  - clear L1 L2. induction l as [|x l IH]; [done|]. cbn [mbind list_bind]. rewrite length_app, length_seqZ. cbn [length]. lia.
Qed.

(** [n] slots of the pool are out. *)
Definition counts (r : pool_ref) (a : apool) : Z → Prop := measures (outstanding_slot r a).

Lemma counts_taken r a a' lst n : counts r a n → taken r a a' lst → counts r a' (n + Z.of_nat (length lst)).
Proof.
  intros (l & H1 & H2 & ->) [T1 T2 T3]. exists (lst ++ l). split_and!.
  - apply NoDup_app. split_and!; [done| |done]. intros x Hx Hl. by apply (T2 x Hx), H2.
  - intros x. rewrite elem_of_app, T3, H2. tauto.
  - rewrite length_app. lia.
Qed.

Lemma counts_returned r a a' ks n :
  counts r a n → NoDup ks → (∀ x, x ∈ ks → outstanding_slot r a x) → (∀ x, outstanding_slot r a' x ↔ outstanding_slot r a x ∧ x ∉ ks) →
  counts r a' (n - Z.of_nat (length ks)) ∧ Z.of_nat (length ks) ≤ n.
Proof.
  intros (l & H1 & H2 & ->) Hnd Hin Hout. set (l' := filter (λ x, x ∉ ks) l).
  assert (Hp : l ≡ₚ ks ++ l').
  { apply NoDup_Permutation; [done| |].
    - apply NoDup_app. split_and!; [done| |by apply NoDup_filter]. intros x Hx [Hn _]%list_elem_of_filter. done.
    - intros x. unfold l'. rewrite elem_of_app, list_elem_of_filter. split; [|intros [Hx|[_ Hx]]; [by apply H2, Hin|done]].
      intros Hx. destruct (decide (x ∈ ks)); [by left|by right]. }
  rewrite Hp, length_app. split; [|lia]. exists l'. split_and!; [by apply NoDup_filter| |lia].
  intros x. unfold l'. rewrite list_elem_of_filter, H2, Hout. tauto.
Qed.

Lemma counts_none r a : a_free a = ∅ → counts r a 0.
Proof. intros Ha. apply measures_none. intros x (d & l & Hl & _). rewrite Ha in Hl. by rewrite lookup_empty in Hl. Qed.

(** Going down by ones. *)
Lemma iter_down k o : Z.of_nat k ≤ o < 2 ^ 64 → Nat.iter k (λ o, u64 (o - 1)) o = o - Z.of_nat k.
Proof. induction k as [|k IH]; intros Ho; [cbn; lia|]. rewrite Nat.iter_succ, IH by lia. rewrite u64_small by lia. lia. Qed.
