(* ===== verification/PoolSys.v ===== *)
(** * PoolSys: all the pools together

    The array [btm_partitions] of the process: every pool in its invariant, no chunk in
    two pools, all of them clients of one chunk source.  An operation on one pool keeps
    the others as they are: [sys_focus] picks a pool out, [sys_update] puts it back. *)

From stdpp Require Import prelude gmap.
From S2P Require Import Prelude Memory SizeClass Freelist Heap Dll Pool PoolInv PoolFrame PoolCount.
Local Open Scope Z_scope.

(** The pools of the process, as abstract pools. *)
Abbreviation asys := (gmap pool_ref apool).

(** The chunks the pools hold. *)
Definition chunks_of (A : asys) : gset Z := map_fold (λ _ a acc, list_to_set (a_chunks a) ∪ acc) ∅ A.

(** A slot that left its pool, and the addresses of such slots. *)
Definition live_slot (A : asys) (r : pool_ref) (p : Z) : Prop := ∃ a, A !! r = Some a ∧ outstanding_slot r a p.
Definition live_byte (A : asys) (x : Z) : Prop := ∃ r a, A !! r = Some a ∧ user_byte r a x.

(** Two sizes of blocks from [p] and [q] that do not overlap. *)
Definition disjoint_blocks (p n q m : Z) : Prop := p + n ≤ q ∨ q + m ≤ p.

Lemma elem_of_chunks_of A c : c ∈ chunks_of A ↔ ∃ r a, A !! r = Some a ∧ c ∈ a_chunks a.
Proof.
  unfold chunks_of. induction A as [|r a A Hr Hf IH] using map_first_key_ind.
  { rewrite map_fold_empty. split; [set_solver|]. by intros (r & a & ? & _). }
  rewrite map_fold_insert_first_key by done. rewrite elem_of_union, elem_of_list_to_set, IH. split.
  - intros [Hc|(r' & a' & Hl & Hc)].
    + exists r, a. by rewrite lookup_insert_eq.
    + exists r', a'. split; [|done]. rewrite lookup_insert_ne; [done|]. intros <-. congruence.
  - intros (r' & a' & Hl & Hc). rewrite lookup_insert in Hl. case_decide.
    + left. congruence.
    + right. by exists r', a'.
Qed.

Lemma chunks_of_focus A r a : A !! r = Some a → chunks_of A = list_to_set (a_chunks a) ∪ chunks_of (delete r A).
Proof.
  intros Hr. apply set_eq. intros c. rewrite elem_of_union, elem_of_list_to_set, !elem_of_chunks_of. split.
  - intros (r' & a' & Hl & Hc). destruct (decide (r' = r)) as [->|Hne]; [left; congruence|].
    right. exists r', a'. by rewrite lookup_delete_ne.
  - intros [Hc|(r' & a' & Hl & Hc)]; [by exists r, a|]. apply lookup_delete_Some in Hl as [_ Hl]. by exists r', a'.
Qed.

Lemma chunks_of_insert A r a : chunks_of (<[r := a]> A) = list_to_set (a_chunks a) ∪ chunks_of (delete r A).
Proof.
  rewrite (chunks_of_focus (<[r := a]> A) r a) by apply lookup_insert_eq.
  by rewrite delete_insert_eq.
Qed.

Section sys.
Context {F : FlOps} {FL : FlLaws F} {B : Type} {CS : ChunkSource B} {CL : ChunkSourceLaws B CS}.
Implicit Types (s : pstate B) (A : asys) (r : pool_ref) (a : apool).

Record sys_ok (s : pstate B) (A : asys) : Prop := {
  so_ref r a : A !! r = Some a → valid_ref r;
  so_pool r a : A !! r = Some a → ∃ pl, p_pools s !! r = Some pl ∧ pool_inv r (p_heap s) pl a [];
  so_src : cs_ok (chunks_of A) (p_heap s) (p_src s);
  so_apart r1 a1 r2 a2 c : A !! r1 = Some a1 → A !! r2 = Some a2 → c ∈ a_chunks a1 → c ∈ a_chunks a2 → r1 = r2;
  so_count r a : A !! r = Some a → ∃ n, counters s !! r = Some n ∧ counts r a n;
  so_epoch : 0 ≤ p_epoch s < 2 ^ 32;
}.

Lemma sys_focus s A r a : sys_ok s A → A !! r = Some a → ∃ pl, pst (chunks_of (delete r A)) r s pl a [].
Proof.
  intros [S1 S2 S3 S4 S5 S6] Hr. destruct (S2 r a Hr) as (pl & Hpl & I). exists pl. split; try done.
  - by eapply S1.
  - by rewrite <-(chunks_of_focus A r a Hr).
  - intros c Hc (r' & a' & Hl & Hc')%elem_of_chunks_of. apply lookup_delete_Some in Hl as [Hne Hl].
    by destruct (Hne (S4 r a r' a' c Hr Hl Hc Hc')).
Qed.

Lemma sys_update {g} s A r a s' pl' a' P :
  sys_ok s A → A !! r = Some a → pst (chunks_of (delete r A)) r s' pl' a' [] → pframe g (chunks_of (delete r A)) r P s s' →
  (∃ n, counters s' !! r = Some n ∧ counts r a' n) → sys_ok s' (<[r := a']> A).
Proof.
  intros [S1 S2 S3 S4 S5 S6] Hr [T1 T2 T3 T4 T5 T6] [F1 F2 F3 _ F4] Hcount.
  assert (Hother : ∀ r1 a1, (<[r := a']> A) !! r1 = Some a1 → (r1 = r ∧ a1 = a') ∨ (r1 ≠ r ∧ A !! r1 = Some a1)).
  { intros r1 a1. rewrite lookup_insert. case_decide; [left; split; congruence|right; split; congruence]. }
  assert (Hin : ∀ r1 a1 c, r1 ≠ r → A !! r1 = Some a1 → c ∈ a_chunks a1 → c ∈ chunks_of (delete r A)).
  { intros r1 a1 c Hne Hl Hc. apply elem_of_chunks_of. exists r1, a1. by rewrite lookup_delete_ne. }
  split.
  - intros r1 a1 [[-> ->]|[_ Hl]]%Hother; [done|by eapply S1].
  - intros r1 a1 [[-> ->]|[Hne Hl]]%Hother; [by exists pl'|].
    destruct (S2 r1 a1 Hl) as (pl & Hpl & I). exists pl. rewrite F1 by done. split; [done|].
    apply (pool_inv_agree r1 (S1 _ _ Hl) (p_heap s)); [|done]. intros c Hc. apply F3. by apply (Hin r1 a1).
  - by rewrite chunks_of_insert.
  - intros r1 a1 r2 a2 c [[-> ->]|[N1 L1]]%Hother [[-> ->]|[N2 L2]]%Hother H1 H2; [done| | |by apply (S4 r1 a1 r2 a2 c)].
    + by destruct (T5 c H1 (Hin r2 a2 c N2 L2 H2)).
    + by destruct (T5 c H2 (Hin r1 a1 c N1 L1 H1)).
  - intros r1 a1 [[-> ->]|[Hne Hl]]%Hother; [done|]. destruct (S5 r1 a1 Hl) as (n & Hn & Hc). exists n. split; [|done].
    unfold counters in *. rewrite lookup_fmap, F1 in * by done. done.
  - done.
Qed.

(** The bytes of other pools' slots. *)
Lemma sys_bytes {g} s A r a s' P r' a' x :
  sys_ok s A → A !! r = Some a → pframe g (chunks_of (delete r A)) r P s s' → A !! r' = Some a' → r' ≠ r → user_byte r' a' x →
  byte_at (h_mem (p_heap s')) x = byte_at (h_mem (p_heap s)) x.
Proof.
  intros [S1 S2 S3 S4 S5] Hr [F1 F2 F3 _ F4] Hr' Hne Hx. destruct (S2 r' a' Hr') as (pl & _ & I).
  apply (ag_byte _ _ (chunk_of x)); [|done]. apply F3, elem_of_chunks_of. exists r', a'.
  rewrite lookup_delete_ne by done. split; [done|]. by apply (user_byte_chunk r' (p_heap s) pl a' [] x (S1 _ _ Hr')).
Qed.

(** What an operation keeps: the bytes in [P]. *)
Definition keeps (P : Z → Prop) (s s' : pstate B) : Prop :=
  ∀ x, P x → byte_at (h_mem (p_heap s')) x = byte_at (h_mem (p_heap s)) x.

Lemma keeps_refl P s : keeps P s s.
Proof. done. Qed.
Lemma keeps_trans P s1 s2 s3 : keeps P s1 s2 → keeps P s2 s3 → keeps P s1 s3.
Proof. intros H1 H2 x Hx. by rewrite H2, H1. Qed.
Lemma keeps_weaken (P Q : Z → Prop) s s' : (∀ x, Q x → P x) → keeps P s s' → keeps Q s s'.
Proof. intros H K x Hx. by apply K, H. Qed.


(** ** Slots of the system *)
Lemma live_place s A r p :
  sys_ok s A → live_slot A r p →
  ∃ a d, A !! r = Some a ∧ is_Some (a_free a !! d) ∧ p ∈ slab_slots r d ∧ slab_in r d ∧ chunk_of p = chunk_of d ∧ chunk_of d ∈ a_chunks a.
Proof.
  intros HS (a & Hr & d & l & Hl & Hp & _). destruct (so_pool _ _ HS r a Hr) as (pl & _ & I).
  pose proof (so_ref _ _ HS r a Hr) as Hv. pose proof (inv_slab_in r Hv I d l Hl) as Hd.
  exists a, d. split_and!; try done; [by apply (slot_chunk r (proj1 Hv))|by apply (inv_slab_chunk r I d l)].
Qed.

(** Live slots never overlap, whatever their pools. *)
Lemma live_disjoint s A r1 r2 p1 p2 :
  sys_ok s A → live_slot A r1 p1 → live_slot A r2 p2 → (r1, p1) ≠ (r2, p2) →
  disjoint_blocks p1 (btm_sc_to_size r1.2) p2 (btm_sc_to_size r2.2).
Proof.
  intros HS H1 H2 Hne. destruct (decide (r1 = r2)) as [<-|Hr].
  - destruct H1 as (a & Ha & d1 & l1 & Hl1 & Hp1 & _), H2 as (a2 & Ha2 & d2 & l2 & Hl2 & Hp2 & _).
    assert (a2 = a) as -> by congruence. destruct (so_pool _ _ HS r1 a Ha) as (pl & _ & I).
    pose proof (so_ref _ _ HS r1 a Ha) as Hv. destruct (decide (d1 = d2)) as [<-|Hd].
    + apply (slots_spaced r1 (proj1 Hv) (data_of d1)); [done..|congruence].
    + by apply (inv_disjoint r1 Hv I d1 l1 d2 l2).
  - destruct (live_place s A r1 p1 HS H1) as (a1 & d1 & Ha1 & _ & Hp1 & Hd1 & _ & Hc1).
    destruct (live_place s A r2 p2 HS H2) as (a2 & d2 & Ha2 & _ & Hp2 & Hd2 & _ & Hc2).
    pose proof (slot_bounds r1 (proj1 (so_ref _ _ HS _ _ Ha1)) d1 p1 Hd1 Hp1) as (_ & _ & _ & L1 & U1).
    pose proof (slot_bounds r2 (proj1 (so_ref _ _ HS _ _ Ha2)) d2 p2 Hd2 Hp2) as (_ & _ & _ & L2 & U2).
    destruct Hd1 as ((P1 & M1 & _) & _), Hd2 as ((P2 & M2 & _) & _).
    assert (Hcne : chunk_of d1 ≠ chunk_of d2).
    { intros E. apply Hr. apply (so_apart _ _ HS r1 a1 r2 a2 (chunk_of d1)); [done..|by rewrite E]. }
    unfold disjoint_blocks. unfold_geometry. apply Z.mod_divide in M1 as [k1 E1], M2 as [k2 E2]; [|lia..].
    assert (k1 ≠ k2) by congruence. lia.
Qed.

Lemma live_aligned s A r p : sys_ok s A → live_slot A r p → 0 < p ∧ addr_ok p ∧ p mod BTM_ALIGNMENT = 0.
Proof.
  intros HS H. destruct (live_place s A r p HS H) as (a & d & Ha & _ & Hp & Hd & _).
  pose proof (proj1 (so_ref _ _ HS _ _ Ha)) as Hsc. destruct (slot_addr r Hsc d p Hd Hp).
  split_and!; [done..|by apply (slot_aligned r Hsc d)].
Qed.

(** The counter of a pool is exact, and far from wrapping. *)
Lemma sys_counter s A r a : sys_ok s A → A !! r = Some a → ∃ n, counters s !! r = Some n ∧ counts r a n ∧ 0 ≤ n < 2 ^ 63.
Proof.
  intros HS Hr. destruct (so_count _ _ HS r a Hr) as (n & Hn & Hc). exists n. split; [done|]. split; [done|].
  enough (0 ≤ n ≤ Z.max 0 (2 ^ 47)) by lia. apply (measures_bound _ n (2 ^ 47) Hc). intros x Hx.
  destruct (live_place s A r x HS) as (a' & d & _ & _ & Hxd & Hd & _); [by exists a|].
  destruct (slot_bounds r (proj1 (so_ref _ _ HS r a Hr)) d x Hd Hxd) as (_ & _ & ? & ? & ?). destruct Hd as ((? & _ & ?) & _). lia.
Qed.
End sys.
