(* ===== verification/PoolOps.v ===== *)
(** * PoolOps: refill, flush and direct frees among all the pools

    The specifications of PoolRefill.v and PoolFlush.v lifted to the system of pools: an
    operation on one pool keeps every pool's invariant, the disjointness of their chunks,
    and the bytes of every slot that stays out of the pools. *)

From stdpp Require Import prelude gmap.
From S2P Require Import Prelude Memory SizeClass Freelist Heap Dll Pool PoolInv PoolFrame PoolCarve PoolRefill PoolReclaim PoolFlush PoolCount PoolSys.
Local Open Scope Z_scope.

Section ops.
Context {F : FlOps} {FL : FlLaws F} {B : Type} {CS : ChunkSource B} {CL : ChunkSourceLaws B CS}.
Implicit Types (s : pstate B) (A : asys) (r : pool_ref) (a : apool).

(** A step of the chunk source and its clients, seen from its other users. *)
Definition same_source (g : bool) (s s' : pstate B) : Prop := cs_step g (p_heap s) (p_src s) (p_heap s') (p_src s').

(** A step of pool [r] that keeps the slots out in [b] keeps those out in the system. *)
Lemma sys_keeps g s A r a b s' :
  sys_ok s A → A !! r = Some a → pframe g (chunks_of (delete r A)) r (user_byte r b) s s' →
  keeps (live_byte (<[r := b]> A)) s s'.
Proof.
  intros HS Hr HF x (r' & a' & Hl & Hx). rewrite lookup_insert in Hl. case_decide as E.
  - subst r'. injection Hl as <-. by apply (pf_bytes _ _ _ _ _ _ HF).
  - apply (sys_bytes s A r a s' _ r' a' x HS Hr HF); [done|congruence|done].
Qed.

Lemma sys_keeps_same g s A r a s' :
  sys_ok s A → A !! r = Some a → pframe g (chunks_of (delete r A)) r (user_byte r a) s s' → keeps (live_byte A) s s'.
Proof. intros HS Hr HF. rewrite <-(insert_id A r a Hr). by apply (sys_keeps g s A r a). Qed.

(** A bin's slots, as slots of the system. *)
Lemma bin_live m A r a bin lb x : A !! r = Some a → bin_ok r m a bin lb → x ∈ lb → live_slot A r x.
Proof. intros Hr HB Hx. exists a. split; [done|]. by apply (bn_out _ _ _ _ _ HB). Qed.

(** The live slots after some were taken out of pool [r]. *)
Lemma taken_live A r a a' lst r' y :
  A !! r = Some a → taken r a a' lst → live_slot (<[r := a']> A) r' y ↔ live_slot A r' y ∨ (r' = r ∧ y ∈ lst).
Proof.
  intros Ha [_ _ T3]. unfold live_slot. destruct (decide (r' = r)) as [->|Hne].
  - rewrite lookup_insert_eq. split.
    + intros (a2 & [= <-] & Hy). apply T3 in Hy as [Hy|Hy]; [left; by exists a|by right].
    + intros H. exists a'. split; [done|]. apply T3. destruct H as [(a2 & Ha2 & Hy)|[_ Hy]]; [left; congruence|by right].
  - rewrite lookup_insert_ne by done. split; [by left|]. by intros [|[]].
Qed.

(** Slots taken out of a pool are live and overlap nothing that was live. *)
Lemma taken_fresh s' A r a a' lst p :
  A !! r = Some a → taken r a a' lst → sys_ok s' (<[r := a']> A) → p ∈ lst →
  live_slot (<[r := a']> A) r p ∧
  ∀ r' q, live_slot A r' q → disjoint_blocks p (btm_sc_to_size r.2) q (btm_sc_to_size r'.2).
Proof.
  intros Hr HT HS Hp. pose proof HT as [T1 T2 T3].
  assert (Hlive : live_slot (<[r := a']> A) r p) by (eapply taken_live; [done..|by right]).
  split; [done|]. intros r' q Hq.
  assert (Hq' : live_slot (<[r := a']> A) r' q) by (eapply taken_live; [done..|by left]).
  apply (live_disjoint s' (<[r := a']> A) r r' p q HS Hlive Hq'). intros [= <- <-].
  destruct Hq as (a2 & Ha2 & Hq). assert (a2 = a) as -> by congruence. by apply (T2 p).
Qed.

Lemma sys_refill g s A r a bin lb want :
  sys_ok s A → A !! r = Some a → bin_ok r (h_mem (p_heap s)) a bin lb → 1 ≤ want → want + Z.of_nat (length lb) < 2 ^ 32 →
  (∃ s', btm_pool_refill r bin want s = Ok ((0, bin), s') ∧ sys_ok s' A ∧ keeps (live_byte A) s s' ∧ same_source g s s') ∨
  (∃ p q s' a' bin', btm_pool_refill r bin want s = Ok ((p, bin'), s') ∧ sys_ok s' (<[r := a']> A) ∧
     keeps (live_byte A) s s' ∧ taken r a a' (p :: q) ∧ bin_ok r (h_mem (p_heap s')) a' bin' (q ++ lb) ∧
     Z.of_nat (length (p :: q)) ≤ want ∧ b_pool bin' = b_pool bin ∧ same_source g s s').
Proof.
  intros HS Hr HB Hw Hlen. destruct (sys_focus s A r a HS Hr) as (pl & HP). destruct (sys_counter s A r a HS Hr) as (n & Hcn & Hn & Hnb).
  destruct (btm_pool_refill_spec (g := g) (chunks_of (delete r A)) r s pl a bin lb want HP HB Hw Hlen)
    as [(s' & Hrun & S' & F')|(p & q & s' & pl' & a' & bin' & Hrun & S' & F' & T & HB' & Hpq & Hbp)].
  - left. exists s'. split_and!; [done| |by apply (sys_keeps_same g s A r a)|apply F'].
    rewrite <-(insert_id A r a Hr). apply (sys_update s A r a s' pl a (user_byte r a) (g:=g)); [done..|].
    exists n. split; [|done]. destruct (refill_counts _ _ _ _ _ _ _ Hrun) as [(_ & [->| ->])|[]]; [done| |done].
    rewrite lookup_alter_eq, Hcn. cbn. f_equal. rewrite u64_small by lia. lia.
  - right. exists p, q, s', a', bin'. split_and!; try done; [|by apply (sys_keeps_same g s A r a)|apply F'].
    apply (sys_update s A r a s' pl' a' (user_byte r a) (g:=g)); [done..|].
    exists (n + Z.of_nat (length (p :: q))). split; [|by apply (counts_taken r a)].
    destruct (refill_counts _ _ _ _ _ _ _ Hrun) as [(-> & _)|(_ & k & -> & Hk & Hbc)].
    { assert (H0 : outstanding_slot r a' 0) by (apply (tk_out _ _ _ _ T); right; left).
      destruct (known_place r _ _ _ _ 0 (ps_inv _ _ _ _ _ _ S') (so_ref _ _ HS r a Hr) (outstanding_known r _ _ H0)) as (Hlt & _). lia. }
    rewrite lookup_alter_eq, Hcn. cbn [fmap option_fmap option_map]. f_equal.
    pose proof (bn_count _ _ _ _ _ HB) as B1. pose proof (bn_count _ _ _ _ _ HB') as B2. rewrite B1, B2, length_app in Hbc. cbn [length] in *.
    rewrite u64_small by lia. destruct (Z.eqb_spec k 1); [lia|]. rewrite u32_small in Hbc by lia. lia.
Qed.

Lemma sys_flush s A r a bin lb keep :
  sys_ok s A → A !! r = Some a → bin_ok r (h_mem (p_heap s)) a bin lb → b_pool bin = Some r →
  Z.of_nat (length lb) < 2 ^ 32 → 0 ≤ keep →
  let k := Z.to_nat (b_count bin - keep) in
  ∃ s' a' bin', btm_pool_flush bin keep s = Ok (bin', s') ∧ sys_ok s' (<[r := a']> A) ∧
    keeps (live_byte (<[r := a']> A)) s s' ∧ bin_ok r (h_mem (p_heap s')) a' bin' (drop k lb) ∧ b_pool bin' = Some r ∧
    (∀ x, outstanding_slot r a' x ↔ outstanding_slot r a x ∧ x ∉ take k lb) ∧ same_source false s s'.
Proof.
  intros HS Hr HB Hbp Hlen Hk k. destruct (sys_focus s A r a HS Hr) as (pl & HP). destruct (sys_counter s A r a HS Hr) as (n & Hcn & Hn & Hnb).
  destruct (btm_pool_flush_spec (chunks_of (delete r A)) r s pl a bin lb keep HP HB Hbp Hlen Hk)
    as (s' & pl' & a' & bin' & Hrun & S' & F' & HB' & Hbp' & Hout).
  exists s', a', bin'. split_and!; try done; [|by apply (sys_keeps false s A r a)|apply F'].
  apply (sys_update s A r a s' pl' a' (user_byte r a') (g:=false)); [done..|].
  destruct (counts_returned r a a' (take k lb) n Hn) as [Hn' Hle]; [apply (NoDup_app (take k lb) (drop k lb)); rewrite take_drop; apply HB|intros x Hx; by apply (bn_out _ _ _ _ _ HB), (subseteq_take k)|done|].
  exists (n - Z.of_nat (length (take k lb))). split; [|done]. rewrite (flush_counts r bin keep s bin' s' Hbp Hrun).
  pose proof (bn_count _ _ _ _ _ HB) as Hbc. assert (Ek : length (take k lb) = k) by (rewrite length_take; unfold k; lia).
  rewrite Ek in *. rewrite lookup_alter_eq, Hcn. cbn [fmap option_fmap option_map]. f_equal. fold k. apply iter_down. lia.
Qed.

(** The descriptor of a live slot is found through its chunk. *)
Lemma sys_slab_of s A r p : sys_ok s A → live_slot A r p → ∃ d, btm_slab_of (p_heap s) (chunk_of p) p = Some d.
Proof.
  intros HS (a & Ha & d & l & Hl & Hp & _). destruct (so_pool _ _ HS r a Ha) as (pl & _ & I).
  pose proof (so_ref _ _ HS r a Ha) as Hv. exists d.
  apply (slab_of_slot r (proj1 Hv)); [by apply (inv_slab_in r Hv I d l)|apply (pi_slab _ _ _ _ _ I d l Hl)|apply (inv_mapped r I d l Hl)|done].
Qed.

Lemma sys_free_one s A r a p d :
  sys_ok s A → A !! r = Some a → outstanding_slot r a p → btm_slab_of (p_heap s) (chunk_of p) p = Some d →
  ∃ s' a', btm_pool_free_one d p s = Ok (tt, s') ∧ sys_ok s' (<[r := a']> A) ∧
    keeps (live_byte (<[r := a']> A)) s s' ∧ (∀ x, outstanding_slot r a' x ↔ outstanding_slot r a x ∧ x ≠ p) ∧ same_source false s s'.
Proof.
  intros HS Hr Hp Hd. destruct (sys_focus s A r a HS Hr) as (pl & HP). destruct (sys_counter s A r a HS Hr) as (n & Hcn & Hn & Hnb).
  destruct (btm_pool_free_one_spec (chunks_of (delete r A)) r s pl a p d HP Hp Hd) as (s' & pl' & a' & Hrun & S' & F' & Hout).
  exists s', a'. split_and!; try done; [|by apply (sys_keeps false s A r a)|apply F'].
  apply (sys_update s A r a s' pl' a' (user_byte r a') (g:=false)); [done..|].
  destruct (counts_returned r a a' [p] n Hn) as [Hn' Hle]; [by apply NoDup_singleton|by intros x ->%list_elem_of_singleton| |].
  { intros x. by rewrite Hout, list_elem_of_singleton. }
  exists (n - 1). split; [|done]. rewrite (free_one_counts d p s s' Hrun).
  destruct (outstanding_slab _ r s pl a p HP Hp) as (d' & l & Hl & _ & _ & Hd' & _). assert (d' = d) as -> by congruence.
  pose proof (sw_fields _ _ _ _ _ (pi_slab _ _ _ _ _ (ps_inv _ _ _ _ _ _ HP) d l Hl)) as W.
  rewrite (sf_part _ _ _ _ W), (sf_sc _ _ _ _ W). cbn [length] in Hle.
  rewrite <-surjective_pairing, lookup_alter_eq, Hcn. cbn [fmap option_fmap option_map]. f_equal.
  rewrite (proj2 (Z.eqb_neq n 0)) by lia. apply u64_small. lia.
Qed.
End ops.
