(* ===== verification/Tiering.v ===== *)
(** * Tiering: [btm_pageout_cold] of src/src/partition.c

    Cold tiering walks the slabs of every chunk of every pool and advises the kernel to
    swap out those that are full and were not touched since the previous call.  The advice
    (MADV_PAGEOUT) has no effect on contents; in the allocator's state the call sets the
    flag [paged_out] of the slabs it evicted, [evicts], and counts the epoch on.  The walk
    steps through a chunk from slab to slab; with the page runs of the invariant it visits
    every carved slab once, and [pageout_spec] says exactly which slabs are flagged. *)

From stdpp Require Import prelude gmap.
From S2P Require Import Prelude Memory SizeClass Freelist Heap Dll Pool PoolInv PoolFrame PoolSys.
Local Open Scope Z_scope.

Definition slab_set_paged_out (v : bool) (s : btm_slab) : btm_slab :=
  mk_slab (free_head s) (s_next s) (s_prev s) (nslots s) (free_count s) (s_sc s) (npages s) (s_part_idx s)
    (first_page s) (in_partial s) (decommitted s) (retired s) v (epoch s).

(** The pages a descriptor spans; the field has 16 bits, a blank descriptor spans one. *)
Definition slab_pages (v : btm_slab) : Z := let np := u16 (npages v) in if np =? 0 then 1 else np.

(** Full, in use, and idle since before the epoch [g]. *)
Definition evictable (g : Z) (v : btm_slab) : bool :=
  (free_count v =? 0) && negb (retired v) && negb (paged_out v) && (epoch v <? g).

(** The pools of [np] partitions, in the order of the loops. *)
Definition pool_refs (np : Z) : list pool_ref := i ← seqZ 0 np; (λ sc, (i, sc)) <$> seqZ 0 BTM_NUM_SIZE_CLASSES.

Section tiering.
Context {B : Type}.

(** [while (page < c->next_free_page)]: every round advances by a page or more. *)
Fixpoint tier_slabs (fuel : nat) (c g page total : Z) : M (pstate B) Z :=
  v ← get_chunk c;
  if page <? next_free_page v then
    match fuel with
    | O => no_fuel
    | S fuel' =>
        let d := btm_chunk_desc c page in
        s ← get_slab d;
        let np := slab_pages s in
        total ← (if evictable g s then
                   _ ← upd_slab d (slab_set_paged_out true);
                   mret (u64 (total + np * BTM_PAGE_SIZE))
                 else mret total);
        tier_slabs fuel' c g (u32 (page + np)) total
    end
  else mret total.

(** [for (c = pool->chunks; c; c = c->next)] *)
Fixpoint tier_chunks (fuel : nat) (c g total : Z) : M (pstate B) Z :=
  if c =? 0 then mret total
  else
    match fuel with
    | O => no_fuel
    | S fuel' =>
        total ← tier_slabs (Z.to_nat BTM_PAGES_PER_CHUNK) c g BTM_DATA_START_PAGE total;
        v ← get_chunk c;
        tier_chunks fuel' (c_next v) g total
    end.

(** One pool after the other, each under its lock. *)
Fixpoint tier_pools (rs : list pool_ref) (g total : Z) : M (pstate B) Z :=
  match rs with
  | [] => mret total
  | r :: rs =>
      pl ← get_pool r;
      fuel ← gets (λ s, size (h_chunks (p_heap s)));
      total ← tier_chunks fuel (chunks pl) g total;
      tier_pools rs g total
  end.

Definition set_epoch (e : Z) (s : pstate B) : pstate B := mk_pstate (p_heap s) (p_pools s) e (p_src s).

Definition pageout (np : Z) : M (pstate B) Z :=
  g ← gets p_epoch;
  total ← tier_pools (pool_refs np) g 0;
  _ ← modify (λ s, set_epoch (u32 (p_epoch s + 1)) s);
  mret total.
End tiering.

(** ** What a walk does to the heap *)

(** The heap [h'] is [h] with the slabs [L] evicted. *)
Record evicts (g : Z) (L : list Z) (h h' : heap) : Prop := {
  ev_mem : h_mem h' = h_mem h;
  ev_chunks : h_chunks h' = h_chunks h;
  ev_same d : d ∉ L → slab_at h' d = slab_at h d;
  ev_idle d : d ∈ L → evictable g (slab_at h d) = true;
  ev_set d : d ∈ L → slab_at h' d = slab_set_paged_out true (slab_at h d);
  ev_nodup : NoDup L;
}.

(** Bytes of the slabs [L]. *)
Definition slab_bytes (h : heap) (L : list Z) : Z := foldr (λ d n, slab_pages (slab_at h d) * BTM_PAGE_SIZE + n) 0 L.

Lemma slab_bytes_app h L1 L2 : slab_bytes h (L1 ++ L2) = slab_bytes h L1 + slab_bytes h L2.
Proof. unfold slab_bytes. induction L1 as [|d L1 IH]; cbn; [done|]. rewrite IH. lia. Qed.

Lemma slab_pages_range v : 1 ≤ slab_pages v < 65536.
Proof. unfold slab_pages, u16. pose proof (Z.mod_pos_bound (npages v) (2 ^ 16) ltac:(lia)). destruct (Z.eqb_spec (npages v mod 2 ^ 16) 0); lia. Qed.

Lemma evicts_refl g h : evicts g [] h h.
Proof. split; try done; [by intros d Hd%elem_of_nil..|constructor]. Qed.

Lemma evicts_bytes g L h h' L' : evicts g L h h' → slab_bytes h' L' = slab_bytes h L'.
Proof.
  intros E. unfold slab_bytes. induction L' as [|d L' IH]; cbn; [done|]. rewrite IH. f_equal. f_equal.
  destruct (decide (d ∈ L)) as [Hd|Hd]; [by rewrite (ev_set _ _ _ _ E d Hd)|by rewrite (ev_same _ _ _ _ E d Hd)].
Qed.

Lemma evicts_trans g L1 L2 h1 h2 h3 : evicts g L1 h1 h2 → evicts g L2 h2 h3 → evicts g (L1 ++ L2) h1 h3.
Proof.
  intros E1 E2. assert (Hno : ∀ d, d ∈ L1 → d ∉ L2).
  { intros d H1 H2. pose proof (ev_idle _ _ _ _ E2 d H2) as Hi. rewrite (ev_set _ _ _ _ E1 d H1) in Hi.
    unfold evictable in Hi. cbn in Hi. rewrite andb_false_r, andb_false_l in Hi. done. }
  split.
  - by rewrite (ev_mem _ _ _ _ E2), (ev_mem _ _ _ _ E1).
  - by rewrite (ev_chunks _ _ _ _ E2), (ev_chunks _ _ _ _ E1).
  - intros d Hd. rewrite (ev_same _ _ _ _ E2), (ev_same _ _ _ _ E1); [done|intros ?; apply Hd; in_list..].
  - intros d [Hd|Hd]%elem_of_app; [by apply E1|]. rewrite <-(ev_same _ _ _ _ E1); [by apply E2|]. intros ?. by apply (Hno d).
  - intros d [Hd|Hd]%elem_of_app.
    + rewrite (ev_same _ _ _ _ E2) by auto. by apply E1.
    + rewrite (ev_set _ _ _ _ E2) by done. rewrite (ev_same _ _ _ _ E1); [done|]. intros ?. by apply (Hno d).
  - apply NoDup_app. split; [apply E1|]. split; [done|apply E2].
Qed.

Lemma evicts_one g h d : evictable g (slab_at h d) = true → evicts g [d] h (heap_set_slab d (slab_set_paged_out true (slab_at h d)) h).
Proof.
  intros Hi. split; try done.
  - intros y Hy. rewrite slab_at_set, decide_False; [done|]. intros ->. apply Hy. left.
  - by intros y ->%list_elem_of_singleton.
  - intros y ->%list_elem_of_singleton. by rewrite slab_at_set, decide_True by done.
  - apply NoDup_singleton.
Qed.

(** The flag is none of the pools' business. *)
Lemma evicts_inv {F : FlOps} r g L h h' pl a X : evicts g L h h' → pool_inv r h pl a X → pool_inv r h' pl a X.
Proof.
  intros E I. assert (Hd : ∀ d, same_core (slab_at h d) (slab_at h' d) ∧ s_next (slab_at h' d) = s_next (slab_at h d) ∧
      s_prev (slab_at h' d) = s_prev (slab_at h d) ∧ in_partial (slab_at h' d) = in_partial (slab_at h d)).
  { intros d. destruct (decide (d ∈ L)) as [Hd|Hd]; [rewrite (ev_set _ _ _ _ E d Hd)|rewrite (ev_same _ _ _ _ E d Hd)]; (split; [by split|done]). }
  assert (HL : linkstep h h') by (split; [apply E..|apply Hd]). destruct I as [I1 I2 I3 I4 I5]. split.
  - by apply (chunks_ok_frame h h' pl pl a a (ev_chunks _ _ _ _ E)).
  - intros c Hc. apply (chunk_wf_frame r h h' a a c (ev_chunks _ _ _ _ E)); [intros d; apply Hd|done|by apply I2].
  - intros d l Hl. by apply (slab_wf_link r h h' a a d l HL), I3.
  - apply (lists_ok_frame h h' pl pl a a); try done. intros d _. split; apply Hd.
  - destruct I5 as [M1 M2 M3 M4 M5 M6 M7]. split; try done. intros d Hs. by rewrite (proj2 (proj2 (proj2 (Hd d)))), M3.
Qed.

(** ** The walks *)
Section walks.
Context {F : FlOps} {FL : FlLaws F} {B : Type} {CS : ChunkSource B} {CL : ChunkSourceLaws B CS}.
Implicit Types (s : pstate B) (A : asys).

(** From [s] the walk visited the slabs in [W], evicted those of them that were evictable,
    the list [L], and added their bytes. *)
Definition tiered (g total : Z) (W : Z → Prop) s (t : Z) s' : Prop := ∃ h' L,
  s' = Pool.set_heap h' s ∧ evicts g L (p_heap s) h' ∧ (∀ d, d ∈ L ↔ W d ∧ evictable g (slab_at (p_heap s) d) = true) ∧
  t = u64 (total + slab_bytes (p_heap s) L).

Lemma tiered_refl g total (W : Z → Prop) s : 0 ≤ total < 2 ^ 64 → (∀ d, W d → evictable g (slab_at (p_heap s) d) = false) → tiered g total W s total s.
Proof.
  intros Ht HW. exists (p_heap s), []. split; [by destruct s|]. split; [apply evicts_refl|]. split.
  - intros d. split; [by intros Hd%elem_of_nil|]. intros [Hd Hi]. rewrite (HW d Hd) in Hi. done.
  - cbn. rewrite Z.add_0_r, u64_small; done.
Qed.

Lemma tiered_trans g total (W1 W2 W : Z → Prop) s1 t1 s2 t2 s3 :
  tiered g total W1 s1 t1 s2 → tiered g t1 W2 s2 t2 s3 → (∀ d, W d ↔ W1 d ∨ W2 d) → tiered g total W s1 t2 s3.
Proof.
  intros (h1 & L1 & -> & E1 & H1 & ->) (h2 & L2 & -> & E2 & H2 & ->) HW. cbn in *. exists h2, (L1 ++ L2). split; [done|].
  split; [by apply (evicts_trans _ _ _ _ h1)|]. split.
  - intros d. rewrite elem_of_app, HW. destruct (decide (d ∈ L1)) as [Hd|Hd].
    + split; [intros _; destruct (proj1 (H1 d) Hd); auto|by left].
    + rewrite H2, (ev_same _ _ _ _ E1 d Hd). pose proof Hd as Hd'. rewrite H1 in Hd'. tauto.
  - rewrite slab_bytes_app, (evicts_bytes _ _ _ _ L2 E1). unfold u64. rewrite Zplus_mod_idemp_l. f_equal. lia.
Qed.

Lemma tiered_range g total W s t s' : tiered g total W s t s' → 0 ≤ t < 2 ^ 64.
Proof. intros (h' & L & _ & _ & _ & ->). unfold u64. apply Z.mod_pos_bound. lia. Qed.

Lemma tiered_chunks g total W s t s' c : tiered g total W s t s' → h_chunks (p_heap s') !! c = h_chunks (p_heap s) !! c.
Proof. intros (h' & L & -> & E & _). cbn. by rewrite (ev_chunks _ _ _ _ E). Qed.

Lemma tiered_npages g total W s t s' d : tiered g total W s t s' → npages (slab_at (p_heap s') d) = npages (slab_at (p_heap s) d).
Proof.
  intros (h' & L & -> & E & _). cbn. destruct (decide (d ∈ L)) as [Hd|Hd]; [by rewrite (ev_set _ _ _ _ E d Hd)|by rewrite (ev_same _ _ _ _ E d Hd)].
Qed.

(** The slabs of chunk [c] from page [page] on, carved up to [nfp] in runs of [np] pages. *)
Definition runs_from (np c page nfp d : Z) : Prop := ∃ q, page ≤ q < nfp ∧ (q - page) mod np = 0 ∧ d = btm_chunk_desc c q.

Lemma runs_from_step np c page nfp d : 1 ≤ np → page < nfp → runs_from np c page nfp d ↔ d = btm_chunk_desc c page ∨ runs_from np c (page + np) nfp d.
Proof.
  intros Hnp Hp. split.
  - intros (q & Hq & Hm & ->). destruct (decide (q = page)) as [->|Hne]; [by left|right]. apply Z.mod_divide in Hm as [k Hk]; [|lia].
    assert (1 ≤ k) by nia. exists q. split; [nia|]. split; [|done]. apply Z.mod_divide; [lia|]. exists (k - 1). lia.
  - intros [->|(q & Hq & Hm & ->)]; [exists page; split; [lia|]; by rewrite Z.sub_diag|].
    apply Z.mod_divide in Hm as [k Hk]; [|lia]. exists q. split; [lia|]. split; [|done]. apply Z.mod_divide; [lia|]. exists (k + 1). lia.
Qed.

Lemma tier_slabs_spec fuel s c g page total v np :
  chunk_base c → h_chunks (p_heap s) !! c = Some v → next_free_page v ≤ 512 → 0 ≤ page → 512 - page ≤ Z.of_nat fuel → 0 ≤ total < 2 ^ 64 →
  1 ≤ np ≤ 32 → (∀ d, runs_from np c page (next_free_page v) d → npages (slab_at (p_heap s) d) = np) →
  runs (tier_slabs fuel c g page total) s (tiered g total (runs_from np c page (next_free_page v)) s).
Proof.
  intros Hc. revert s page total. induction fuel as [|fuel IH]; intros s page total Hv Hn Hp Hf Ht Hnp Hd; cbn [tier_slabs].
  all: assert (Eg : get_chunk c s = Ok (v, s)) by (unfold get_chunk; by rewrite Hv).
  all: apply (runs_step _ _ _ _ _ _ Eg); destruct (Z.ltb_spec page (next_free_page v)); [|apply runs_ret, tiered_refl; [done|intros d (q & Hq & _); lia]].
  { lia. }
  set (d := btm_chunk_desc c page). assert (Ed : chunk_of d = c) by (apply chunk_of_desc; [done|lia]).
  assert (Es : get_slab d s = Ok (slab_at (p_heap s) d, s)) by (unfold get_slab; by rewrite Ed, Hv).
  pose proof (λ y, runs_from_step np c page (next_free_page v) y ltac:(lia) ltac:(done)) as Hstep.
  apply (runs_step _ _ _ _ _ _ Es). set (w := slab_at (p_heap s) d).
  assert (Hw : slab_pages w = np).
  { unfold slab_pages, w. rewrite Hd by (apply Hstep; by left). rewrite u16_small by lia. by rewrite (proj2 (Z.eqb_neq np 0)) by lia. }
  apply (runs_bind _ _ _ (tiered g total (λ x, x = d) s)).
  - destruct (evictable g w) eqn:Ei; [|apply runs_ret, tiered_refl; [done|by intros y ->]].
    set (s1 := Pool.set_heap (heap_set_slab d (slab_set_paged_out true w) (p_heap s)) s).
    apply (runs_step _ _ _ s1 tt); [unfold upd_slab; by rewrite Ed, Hv|]. apply runs_ret. exists (p_heap s1), [d].
    split; [done|]. split; [by apply evicts_one|]. split; [intros y; rewrite list_elem_of_singleton; split; [by intros ->|by intros [-> _]]|].
    cbn. f_equal. unfold w. lia.
  - intros t s1 H1. pose proof (tiered_range _ _ _ _ _ _ H1) as Ht1. rewrite Hw, u32_small by lia.
    eapply runs_mono; [apply (IH s1); [by rewrite (tiered_chunks _ _ _ _ _ _ c H1)|done|lia|lia|done|done|]|].
    + intros y Hy. rewrite (tiered_npages _ _ _ _ _ _ y H1). apply Hd, Hstep. by right.
    + intros t2 s2 H2. by apply (tiered_trans _ _ _ _ _ _ _ _ _ _ H1 H2).
Qed.

(** The slabs carved in the chunks [l]. *)
Definition runs_of (np : Z) (h : heap) (l : list Z) (d : Z) : Prop :=
  ∃ c, c ∈ l ∧ runs_from np c BTM_DATA_START_PAGE (next_free_page (chunk_at h c)) d.

Lemma tier_chunks_spec fuel s g total l prev np :
  dll c_next c_prev (chunk_at (p_heap s)) prev l → (∀ c, c ∈ l → chunk_base c ∧ has_chunk (p_heap s) c ∧ next_free_page (chunk_at (p_heap s) c) ≤ 512) →
  (length l ≤ fuel)%nat → 0 ≤ total < 2 ^ 64 → 1 ≤ np ≤ 32 → (∀ d, runs_of np (p_heap s) l d → npages (slab_at (p_heap s) d) = np) →
  runs (tier_chunks fuel (hd0 l) g total) s (tiered g total (runs_of np (p_heap s) l) s).
Proof.
  revert s total l prev. induction fuel as [|fuel IH]; intros s total [|c l] prev Hd Hl Hf Ht Hnp Hw; cbn [tier_chunks hd0].
  1, 3: apply runs_ret, tiered_refl; [done|by intros d (c & Hc%elem_of_nil & _)].
  { cbn in Hf. lia. }
  destruct (Hl c ltac:(left)) as (Hc & [v Hv] & Hn). rewrite (proj2 (Z.eqb_neq c 0)) by (destruct Hc; lia).
  assert (Ev : chunk_at (p_heap s) c = v) by (unfold chunk_at; by rewrite Hv). destruct Hd as (_ & Hnx & Hd). rewrite Ev in Hn, Hnx.
  eapply runs_bind; [apply (tier_slabs_spec _ s c g _ total v np Hc Hv Hn); [rewrite data_start_page; lia|rewrite data_start_page; unfold_geometry; lia|done|done|]|].
  { intros d Hrd. apply Hw. exists c. rewrite Ev. split; [left|done]. }
  intros t s1 H1. pose proof (tiered_range _ _ _ _ _ _ H1) as Ht1.
  assert (Ec : ∀ x, h_chunks (p_heap s1) !! x = h_chunks (p_heap s) !! x) by (intros x; by apply (tiered_chunks _ _ _ _ _ _ x H1)).
  assert (Ea : ∀ x, chunk_at (p_heap s1) x = chunk_at (p_heap s) x) by (intros x; unfold chunk_at; by rewrite Ec).
  assert (Er : ∀ d, runs_of np (p_heap s1) l d ↔ runs_of np (p_heap s) l d) by (intros d; unfold runs_of; by setoid_rewrite Ea).
  apply (runs_step _ _ _ s1 v); [unfold get_chunk; by rewrite Ec, Hv|]. rewrite Hnx.
  eapply runs_mono; [apply (IH s1 t l c)|].
  - apply (dll_ext c_next c_prev (chunk_at (p_heap s))); [|done]. intros x _. by rewrite Ea.
  - intros x Hx. unfold has_chunk. rewrite Ec, Ea. apply Hl. by right.
  - cbn in Hf. lia.
  - done.
  - done.
  - intros d Hrd%Er. rewrite (tiered_npages _ _ _ _ _ _ d H1). apply Hw. destruct Hrd as (x & Hx & Hrd). exists x. split; [by right|done].
  - intros t2 s2 H2. apply (tiered_trans _ _ _ _ _ _ _ _ _ _ H1 H2). intros d. rewrite Er, <-Ev. unfold runs_of. split.
    + intros (x & [->|Hx]%elem_of_cons & Hrd); [by left|right; by exists x].
    + intros [Hrd|(x & Hx & Hrd)]; [exists c; split; [left|done]|exists x; split; [by right|done]].
Qed.

Lemma tiered_sys g total W s t s' A : sys_ok s A → tiered g total W s t s' → sys_ok s' A.
Proof.
  intros [S1 S2 S3 S4 S5 S6] (h' & L & -> & E & _). split; [done| | |done|done|done].
  - intros r a Ha. destruct (S2 r a Ha) as (pl & Hpl & I). exists pl. split; [done|]. by apply (evicts_inv r g L (p_heap s)).
  - apply (cs_frame _ (p_heap s)); [done|intros c _; cbn; by rewrite (ev_chunks _ _ _ _ E)..].
Qed.

(** The slabs carved in the chunks of pool [r]. *)
Definition carved A (h : heap) (r : pool_ref) (d : Z) : Prop := ∃ a, A !! r = Some a ∧ runs_of (btm_sc_run_pages r.2) h (a_chunks a) d.

(** A slab the pool knows is carved in one of its chunks. *)
Lemma slab_carved s A r a d l : sys_ok s A → A !! r = Some a → a_free a !! d = Some l → carved A (p_heap s) r d.
Proof.
  intros HS Ha Hl. destruct (so_pool _ _ HS r a Ha) as (pl & _ & I). pose proof (pi_slab _ _ _ _ _ I d l Hl) as [W1 [P1 P2 P3 P4] _ _ _ _].
  destruct (pi_chunk _ _ _ _ _ I _ W1) as [H1 H2 H3 H4 H5 H6 H7 H8 H9 H10 H11]. pose proof (sc_pages_range r.2 (proj1 (so_ref _ _ HS r a Ha))) as Hnp.
  exists a. split; [done|]. exists (chunk_of d). split; [done|]. exists (page_of d). split; [lia|]. split; [|done].
  rewrite data_start_page in *. unfold_geometry. specialize (H10 (page_of d) ltac:(lia)). rewrite P4 in H10 by lia. injection H10 as H10.
  unfold page_run in H10. rewrite data_start_page, (proj2 (Z.leb_le _ _)), (proj2 (Z.ltb_lt _ _)) in H10 by lia. cbn [andb] in H10.
  pose proof (Z.div_mod (page_of d - 7) (btm_sc_run_pages r.2) ltac:(lia)). lia.
Qed.

Lemma evictable_spec g v : evictable g v = true ↔ free_count v = 0 ∧ retired v = false ∧ paged_out v = false ∧ epoch v < g.
Proof. unfold evictable. rewrite !andb_true_iff, !negb_true_iff, Z.eqb_eq, Z.ltb_lt. tauto. Qed.

(** A slab the pool knows is evicted when it has no free slot and is idle. *)
Lemma slab_evicted s A r a d l g : sys_ok s A → A !! r = Some a → a_free a !! d = Some l →
  (∃ r, carved A (p_heap s) r d) ∧ evictable g (slab_at (p_heap s) d) = true ↔
  l = [] ∧ paged_out (slab_at (p_heap s) d) = false ∧ epoch (slab_at (p_heap s) d) < g.
Proof.
  intros HS Ha Hl. destruct (so_pool _ _ HS r a Ha) as (pl & _ & I). destruct (sw_fields _ _ _ _ _ (pi_slab _ _ _ _ _ I d l Hl)) as [_ _ _ _ _ F6 F7 _].
  rewrite evictable_spec, F6, F7. split.
  - intros (_ & Hc & _ & H). split; [by destruct l|done].
  - intros (-> & H). split; [exists r; by apply (slab_carved s A r a d [])|done].
Qed.

Lemma tier_pools_spec rs s A g total :
  sys_ok s A → (∀ r, r ∈ rs → is_Some (A !! r)) → 0 ≤ total < 2 ^ 64 →
  runs (tier_pools rs g total) s (tiered g total (λ d, ∃ r, r ∈ rs ∧ carved A (p_heap s) r d) s).
Proof.
  revert s total. induction rs as [|r rs IH]; intros s total HS Hrs Ht; cbn [tier_pools].
  { apply runs_ret, tiered_refl; [done|by intros d (r & Hr%elem_of_nil & _)]. }
  destruct (Hrs r ltac:(left)) as [a Ha]. destruct (so_pool _ _ HS r a Ha) as (pl & Hpl & I). pose proof I as [[C1 C2 C3 C4] I2 _ _ _].
  apply (runs_step _ _ _ s pl); [unfold get_pool; by rewrite Hpl|]. apply runs_gets. rewrite C1.
  assert (Hl : ∀ c, c ∈ a_chunks a → chunk_base c ∧ has_chunk (p_heap s) c ∧ next_free_page (chunk_at (p_heap s) c) ≤ 512).
  { intros c Hc. destruct (I2 c Hc) as [W1 W2 _ _ _ [_ W6] _ _]. done. }
  eapply runs_bind.
  - apply (tier_chunks_spec _ s g total (a_chunks a) 0 (btm_sc_run_pages r.2) C2 Hl); [|done|apply sc_pages_range, (so_ref _ _ HS r a Ha)|].
    + apply keys_fuel; [done|]. intros c Hc. by apply Hl.
    + intros d (c & Hc & q & Hq & Hm & ->). by apply (cw_desc _ _ _ _ (I2 c Hc)).
  - intros t s1 H1. eapply runs_mono.
    + apply (IH s1 t); [by eapply tiered_sys|intros r' Hr'; apply Hrs; by right|by eapply tiered_range].
    + intros t2 s2 H2. apply (tiered_trans _ _ _ _ _ _ _ _ _ _ H1 H2). intros d.
      assert (Ec : ∀ r', carved A (p_heap s1) r' d ↔ carved A (p_heap s) r' d).
      { intros r'. unfold carved, runs_of, chunk_at. by setoid_rewrite (λ c, tiered_chunks _ _ _ _ _ _ c H1). }
      setoid_rewrite Ec. split.
      * intros (r' & [->|Hr']%elem_of_cons & (a' & Ha' & Hd)); [left; congruence|right; exists r'; split; [done|by exists a']].
      * intros [Hd|(r' & Hr' & Hd)]; [exists r; split; [left|by exists a]|exists r'; split; [by right|done]].
Qed.

Lemma elem_of_pool_refs np r : r ∈ pool_refs np ↔ 0 ≤ r.1 < np ∧ 0 ≤ r.2 < BTM_NUM_SIZE_CLASSES.
Proof.
  unfold pool_refs. rewrite list_elem_of_bind. destruct r as [p c]. cbn. split.
  - intros (i & (sc & [= -> ->] & Hsc)%list_elem_of_fmap & Hi). apply elem_of_seqZ in Hsc, Hi. lia.
  - intros [Hp Hc]. exists p. split; [|apply elem_of_seqZ; lia]. apply list_elem_of_fmap. exists c. split; [done|]. apply elem_of_seqZ. lia.
Qed.

(** A call evicts the evictable slabs, returns their bytes, and moves the epoch on. *)
Lemma pageout_spec s A np :
  sys_ok s A → (∀ r, is_Some (A !! r) ↔ 0 ≤ r.1 < np ∧ 0 ≤ r.2 < BTM_NUM_SIZE_CLASSES) →
  runs (pageout np) s (λ t s', ∃ h' L,
    s' = mk_pstate h' (p_pools s) (u32 (p_epoch s + 1)) (p_src s) ∧ evicts (p_epoch s) L (p_heap s) h' ∧ sys_ok s' A ∧
    (∀ d, d ∈ L ↔ (∃ r, carved A (p_heap s) r d) ∧ evictable (p_epoch s) (slab_at (p_heap s) d) = true) ∧ t = u64 (slab_bytes (p_heap s) L)).
Proof.
  intros HS Hr. unfold pageout. apply runs_gets. eapply runs_bind.
  - apply (tier_pools_spec _ s A _ 0 HS); [|lia]. intros r Hin%elem_of_pool_refs. by apply Hr.
  - intros t s1 H1. apply runs_modify, runs_ret. pose proof (tiered_sys _ _ _ _ _ _ A HS H1) as HS1.
    destruct H1 as (h' & L & -> & E & HL & ->). exists h', L. split; [done|]. split; [done|]. split; [destruct HS1 as [S1 S2 S3 S4 S5]; split; try done; apply u32_range|].
    split; [|done]. intros d. rewrite HL. f_equiv. split.
    + intros (r & _ & Hd). by exists r.
    + intros (r & Hd). exists r. split; [|done]. destruct Hd as (a & Ha & _). apply elem_of_pool_refs, Hr. by eexists.
Qed.
End walks.
