(* ===== verification/Mesh.v ===== *)
(** * Mesh: compaction by page remapping, src/src/partition.c and src/src/background.c

    With BTM_MESH=1 the chunks are mappings of one memfd, and [btm_compact] merges pairs of
    sparse slabs: it copies the donor's objects to the free slots of the same numbers in
    the recipient, maps the donor's pages onto the recipient's, and gives the donor's own
    pages back.  Two virtual pages then name one page of the file, so the bytes of slots
    are those of the file behind a page table.

    The state is the [pstate] of Pool.v: the headers, descriptors and pools are read and
    written as there; the bytes [h_mem] are those of the memfd, keyed by file offset, and
    the component [p_src] is the page table, from virtual page numbers to pages of the file.
    MeshView.v has the state of a process in this form. *)

From stdpp Require Import prelude gmap.
From S2P Require Import Prelude Memory SizeClass Freelist Heap Dll Pool Tiering.
Local Open Scope Z_scope.

(** ** Memory behind a page table *)
Abbreviation page_table := (gmap Z Z).

(** The file offset behind a virtual address. *)
Definition translate (pt : page_table) (a : Z) : option Z :=
  q ← pt !! (a / BTM_PAGE_SIZE); Some (q * BTM_PAGE_SIZE + a mod BTM_PAGE_SIZE).

Definition vbyte (pt : page_table) (m : gmap Z Z) (a : Z) : Z :=
  match translate pt a with Some o => byte_at m o | None => 0 end.

Definition vload (pt : page_table) (m : gmap Z Z) (a n : Z) : list Z := vbyte pt m <$> seqZ a n.

Fixpoint vstore (pt : page_table) (m : gmap Z Z) (a : Z) (bs : list Z) : gmap Z Z :=
  match bs with
  | [] => m
  | b :: bs' =>
      let m' := vstore pt m (a + 1) bs' in
      match translate pt a with Some o => <[o := b]> m' | None => m' end
  end.

Definition vmapped (pt : page_table) (a n : Z) : bool := forallb (λ x, bool_decide (is_Some (translate pt x))) (seqZ a n).

(** The eight bytes of a link, as the memory [FlOps] works on. *)
Definition vwindow (pt : page_table) (m : gmap Z Z) (a : Z) : gmap Z Z :=
  list_to_map ((λ x, (x, vbyte pt m x)) <$> seqZ a 8).

(** ** Occupancy bitmaps: arrays of 64-bit words *)
Definition BTM_OCC_MAXSLOTS : Z := 1024.
Definition BTM_OCC_WORDS : Z := BTM_OCC_MAXSLOTS / 64.

Definition occ_words (n : Z) : Z := (n + 63) / 64.

(** [bm[k / 64] |= 1ULL << (k % 64)], [&= ~...], and the test of the bit; [None] past the array. *)
Definition occ_set (bm : list Z) (k : Z) : option (list Z) :=
  w ← bm !! Z.to_nat (k / 64); Some (<[Z.to_nat (k / 64) := Z.lor w (Z.shiftl 1 (k mod 64))]> bm).
Definition occ_clear (bm : list Z) (k : Z) : option (list Z) :=
  w ← bm !! Z.to_nat (k / 64); Some (<[Z.to_nat (k / 64) := Z.ldiff w (Z.shiftl 1 (k mod 64))]> bm).
Definition occ_bit (bm : list Z) (k : Z) : option bool :=
  w ← bm !! Z.to_nat (k / 64); Some (negb (Z.land w (Z.shiftl 1 (k mod 64)) =? 0)).

(** [for (k = 0; k < nslots; k++)] from [bm[i] = 0]. *)
Fixpoint occ_fill (n : nat) (k : Z) (bm : list Z) : option (list Z) :=
  match n with
  | O => Some bm
  | S n' => bm ← occ_set bm k; occ_fill n' (k + 1) bm
  end.

(** [for (w = 0; w < words; w++) if (occ[i][w] & occ[j][w])]: no word in common. *)
Definition occ_disjoint (words : Z) (b1 b2 : list Z) : bool :=
  forallb (λ p : Z * Z, Z.land p.1 p.2 =? 0) (take (Z.to_nat words) (zip b1 b2)).

Abbreviation mstate := (pstate page_table).

Section mesh.
Context {F : FlOps}.
(** Whether [mmap] with MAP_FIXED grants the donor's range. *)
Context (remap_ok : Z → Z → bool).


Definition file_of (s : mstate) : gmap Z Z := h_mem (p_heap s).
Definition set_file (m : gmap Z Z) (s : mstate) : mstate := set_heap (heap_set_mem m (p_heap s)) s.
Definition set_pages (pt : page_table) (s : mstate) : mstate := mk_pstate (p_heap s) (p_pools s) (p_epoch s) pt.

(** ** Accesses to slots *)
Definition mesh_fl_get (slot : Z) : M mstate Z := λ s,
  if vmapped (p_src s) slot 8 then Ok (btm_fl_get (vwindow (p_src s) (file_of s) slot) slot, s) else Fault.
Definition mesh_fl_set (slot next : Z) : M mstate unit := λ s,
  if vmapped (p_src s) slot 8
  then Ok (tt, set_file (vstore (p_src s) (file_of s) slot (load_bytes (btm_fl_set ∅ slot next) slot 8)) s) else Fault.
Definition mesh_memcpy (dst src n : Z) : M mstate unit := λ s,
  if vmapped (p_src s) dst n && vmapped (p_src s) src n
  then Ok (tt, set_file (vstore (p_src s) (file_of s) dst (vload (p_src s) (file_of s) src n)) s) else Fault.

(** ** build_occ *)

(** [for (f = s->free_head; f; f = btm_fl_get(f))]; a list has no more nodes than slots. *)
Fixpoint occ_free_loop (fuel : nat) (data slot f : Z) (bm : list Z) : M mstate (list Z) :=
  if f =? 0 then mret bm
  else
    match fuel with
    | O => no_fuel
    | S fuel' =>
        bm ← of_option (occ_clear bm ((f - data) / slot));
        next ← mesh_fl_get f;
        occ_free_loop fuel' data slot next bm
    end.

Definition build_occ (d : Z) : M mstate (list Z) :=
  sl ← get_slab d;
  bm ← of_option (occ_fill (Z.to_nat (nslots sl)) 0 (replicate (Z.to_nat (occ_words (nslots sl))) 0));
  occ_free_loop (Z.to_nat (nslots sl)) (btm_slab_data d sl) (btm_sc_to_size (s_sc sl)) (free_head sl) bm.

(** ** mesh_pair *)

(** Copy the donor's objects: [for (k = 0; k < D->nslots; k++)]. *)
Fixpoint copy_loop (n : nat) (k Rd Dd slot : Z) (Docc : list Z) : M mstate unit :=
  match n with
  | O => mret tt
  | S n' =>
      b ← of_option (occ_bit Docc k);
      _ ← (if b : bool then mesh_memcpy (Rd + k * slot) (Dd + k * slot) slot else mret tt);
      copy_loop n' (k + 1) Rd Dd slot Docc
  end.

(** Thread the slots free in both: [for (k = R->nslots; k-- > 0;)]. *)
Fixpoint rebuild_loop (k : nat) (Rd slot : Z) (Rocc Docc : list Z) (head cnt : Z) : M mstate (Z * Z) :=
  match k with
  | O => mret (head, cnt)
  | S k' =>
      r_occ ← of_option (occ_bit Rocc (Z.of_nat k'));
      d_occ ← of_option (occ_bit Docc (Z.of_nat k'));
      if negb r_occ && negb d_occ then
        let s := Rd + Z.of_nat k' * slot in
        _ ← mesh_fl_set s head;
        rebuild_loop k' Rd slot Rocc Docc s (cnt + 1)
      else rebuild_loop k' Rd slot Rocc Docc head cnt
  end.

(** The pages [p, p + n) now name the file's pages from [q]. *)
Definition map_pages (n p q : Z) (pt : page_table) : page_table :=
  list_to_map ((λ i, (p + i, q + i)) <$> seqZ 0 n) ∪ pt.

(** Map the donor's pages onto the recipient's and punch the donor's own out of the file.
    MAP_SHARED pages of the file read alike through both ranges; MADV_DONTFORK does not
    concern this process. *)
Definition btm_mesh_remap (donor recipient : Z) : M mstate Z :=
  let dc := chunk_of donor in
  let rc := chunk_of recipient in
  dl ← get_slab donor;
  rl ← get_slab recipient;
  dh ← get_chunk dc;
  rh ← get_chunk rc;
  let len := npages dl * BTM_PAGE_SIZE in
  let donor_data := dc + first_page dl * BTM_PAGE_SIZE in
  let recip_off := memfd_off rh + first_page rl * BTM_PAGE_SIZE in
  let donor_off := memfd_off dh + first_page dl * BTM_PAGE_SIZE in
  if remap_ok donor_data len then
    _ ← modify (λ s, set_pages (map_pages (npages dl) (donor_data / BTM_PAGE_SIZE) (recip_off / BTM_PAGE_SIZE) (p_src s)) s);
    _ ← modify (λ s, set_file (zero_range (file_of s) donor_off len) s);
    mret len
  else mret 0.

Definition slab_set_retired (v : bool) (s : btm_slab) : btm_slab :=
  mk_slab (free_head s) (s_next s) (s_prev s) (nslots s) (free_count s) (s_sc s) (npages s) (s_part_idx s)
    (first_page s) (in_partial s) (decommitted s) v (paged_out s) (epoch s).

Definition mesh_pair (r : pool_ref) (R D : Z) (Rocc Docc : list Z) : M mstate Z :=
  rl ← get_slab R;
  dl ← get_slab D;
  let slot := btm_sc_to_size (s_sc rl) in
  let Rd := btm_slab_data R rl in
  let Dd := btm_slab_data D dl in
  _ ← copy_loop (Z.to_nat (nslots dl)) 0 Rd Dd slot Docc;
  '(head, cnt) ← rebuild_loop (Z.to_nat (nslots rl)) Rd slot Rocc Docc 0 0;
  _ ← upd_slab R (slab_set_free head cnt);
  reclaimed ← btm_mesh_remap D R;
  _ ← partial_remove r D;
  _ ← upd_slab D (slab_set_retired true);
  mret reclaimed.

(** ** btm_compact *)

(** A sparse slab: in use, and at most half full. *)
Definition sparse (v : btm_slab) : bool :=
  let used := u32 (nslots v - free_count v) in
  negb (used =? 0) && negb (nslots v <? u32 (used * 2)).

(** The candidates and their bitmaps: at most 64, from the partial list. *)
Fixpoint gather (fuel : nat) (s : Z) (nc : nat) : M mstate (list (Z * list Z)) :=
  if (s =? 0) || (64 <=? Z.of_nat nc) then mret []
  else
    match fuel with
    | O => no_fuel
    | S fuel' =>
        v ← get_slab s;
        if retired v || (BTM_OCC_MAXSLOTS <? nslots v) || negb (sparse v) then gather fuel' (s_next v) nc
        else
          occ ← build_occ s;
          rest ← gather fuel' (s_next v) (S nc);
          mret ((s, occ) :: rest)
    end.

(** The first donor for recipient [i] among the candidates from [j] on. *)
Fixpoint find_donor (n : nat) (cand : list (Z * list Z)) (used : list bool) (i j : nat) : M mstate (option nat) :=
  match n with
  | O => mret None
  | S n' =>
      if bool_decide (i = j) || (used !!! j : bool) then find_donor n' cand used i (S j)
      else
        ci ← of_option (cand !! i);
        cj ← of_option (cand !! j);
        vi ← get_slab ci.1;
        vj ← get_slab cj.1;
        if negb (nslots vi =? nslots vj) then find_donor n' cand used i (S j)
        else if occ_disjoint (occ_words (nslots vi)) ci.2 cj.2 then mret (Some j)
        else find_donor n' cand used i (S j)
  end.

(** [for (i = 0; i < nc; i++)]: each candidate takes part in one pair at most. *)
Fixpoint pair_loop (n : nat) (r : pool_ref) (cand : list (Z * list Z)) (used : list bool) (i : nat) (reclaimed : Z) : M mstate Z :=
  match n with
  | O => mret reclaimed
  | S n' =>
      if (used !!! i : bool) then pair_loop n' r cand used (S i) reclaimed
      else
        j ← find_donor (length cand) cand used i 0;
        match j with
        | None => pair_loop n' r cand used (S i) reclaimed
        | Some j =>
            ci ← of_option (cand !! i);
            cj ← of_option (cand !! j);
            k ← mesh_pair r ci.1 cj.1 ci.2 cj.2;
            pair_loop n' r cand (<[j := true]> (<[i := true]> used)) (S i) (u64 (reclaimed + k))
        end
  end.

Definition compact_pool (r : pool_ref) (reclaimed : Z) : M mstate Z :=
  if btm_sc_run_pages r.2 <? 2 then mret reclaimed
  else
    pool ← get_pool r;
    fuel ← gets (λ s, size (h_slabs (p_heap s)));
    cand ← gather fuel (partial pool) 0;
    pair_loop (length cand) r cand (replicate (length cand) false) 0 reclaimed.

Fixpoint compact_pools (rs : list pool_ref) (reclaimed : Z) : M mstate Z :=
  match rs with
  | [] => mret reclaimed
  | r :: rs => n ← compact_pool r reclaimed; compact_pools rs n
  end.

(** [mesh_mode]: btm_mesh_mode and btm_ready; [np] partitions. *)
Definition btm_compact (mesh_mode : bool) (np : Z) : M mstate Z :=
  if mesh_mode then compact_pools (pool_refs np) 0 else mret 0.
End mesh.
