(* ===== verification/MeshMem.v ===== *)
(** * MeshMem: slots behind a page table, and occupancy bitmaps

    A range of virtual addresses is [backed] by a range of the file when the pages map
    it in order; reads and writes of slots are then reads and writes of the file.  The
    bitmaps are characterized by their bits. *)

From stdpp Require Import prelude gmap.
From S2P Require Import Prelude Memory SizeClass Freelist Heap Dll Pool Tiering Mesh.
Local Open Scope Z_scope.

(** ** Backed ranges *)
Definition backed (pt : page_table) (a n o : Z) : Prop := ∀ i, 0 ≤ i < n → translate pt (a + i) = Some (o + i).

Lemma backed_sub pt a n o k n' : backed pt a n o → 0 ≤ k → k + n' ≤ n → backed pt (a + k) n' (o + k).
Proof. intros H Hk Hn i Hi. replace (a + k + i) with (a + (k + i)) by lia. rewrite H by lia. f_equal. lia. Qed.

Lemma backed_at pt a n o x : backed pt a n o → a ≤ x < a + n → translate pt x = Some (o + (x - a)).
Proof. intros H Hx. replace x with (a + (x - a)) at 1 by lia. apply H. lia. Qed.

Lemma vbyte_backed pt m a n o x : backed pt a n o → a ≤ x < a + n → vbyte pt m x = byte_at m (o + (x - a)).
Proof. intros H Hx. unfold vbyte. by rewrite (backed_at pt a n o x H Hx). Qed.

Lemma vmapped_backed pt a n o : backed pt a n o → vmapped pt a n = true.
Proof.
  intros H. unfold vmapped. apply forallb_forall. intros x Hx%list_elem_of_In%elem_of_seqZ.
  apply bool_decide_eq_true. rewrite (backed_at pt a n o x H) by lia. by eexists.
Qed.

Lemma vload_backed pt m a n o : backed pt a n o → vload pt m a n = load_bytes m o n.
Proof.
  intros H. unfold vload, load_bytes. apply list_eq. intros i. rewrite !list_lookup_fmap.
  destruct (decide (i < Z.to_nat n)%nat) as [Hi|Hi]; [|by rewrite !lookup_seqZ_ge by lia].
  rewrite !lookup_seqZ_lt by lia. cbn. f_equal. rewrite (vbyte_backed pt m a n o) by (done || lia). f_equal. lia.
Qed.

Lemma vstore_backed pt m a o bs : backed pt a (Z.of_nat (length bs)) o → vstore pt m a bs = store_bytes m o bs.
Proof.
  revert a o. induction bs as [|b bs IH]; intros a o H; cbn [vstore store_bytes]; [done|].
  rewrite (IH (a + 1) (o + 1)).
  - replace a with (a + 0) by lia. rewrite H by (cbn; lia). by rewrite Z.add_0_r.
  - intros i Hi. replace (a + 1 + i) with (a + (1 + i)) by lia. rewrite H by (cbn; lia). f_equal. lia.
Qed.

Lemma translate_page pt p i : 0 ≤ i < BTM_PAGE_SIZE → translate pt (p * BTM_PAGE_SIZE + i) = (λ q, q * BTM_PAGE_SIZE + i) <$> pt !! p.
Proof.
  intros Hi. unfold translate. rewrite Z.div_add_l, Z.div_small, Z.add_0_r by (unfold BTM_PAGE_SIZE in *; lia).
  rewrite Z.add_comm, Z.mod_add, Z.mod_small by (unfold BTM_PAGE_SIZE in *; lia). by destruct (pt !! p).
Qed.

(** Consecutive pages of the file behind consecutive pages of memory. *)
Lemma backed_pages pt p q n : (∀ i, 0 ≤ i < n → pt !! (p + i) = Some (q + i)) → backed pt (p * BTM_PAGE_SIZE) (n * BTM_PAGE_SIZE) (q * BTM_PAGE_SIZE).
Proof.
  intros H i Hi. pose proof (Z.div_mod i BTM_PAGE_SIZE ltac:(unfold BTM_PAGE_SIZE; lia)) as E.
  pose proof (Z.mod_pos_bound i BTM_PAGE_SIZE ltac:(unfold BTM_PAGE_SIZE; lia)) as Hm.
  assert (Hd : 0 ≤ i / BTM_PAGE_SIZE < n).
  { split; [apply Z.div_pos; unfold BTM_PAGE_SIZE in *; lia|apply Z.div_lt_upper_bound; unfold BTM_PAGE_SIZE in *; lia]. }
  replace (p * BTM_PAGE_SIZE + i) with ((p + i / BTM_PAGE_SIZE) * BTM_PAGE_SIZE + i mod BTM_PAGE_SIZE) by (rewrite E at 3; ring).
  rewrite translate_page, H by done. cbn. f_equal. rewrite E at 3. ring.
Qed.

(** After remapping. *)
Lemma map_pages_lookup n p q pt x : map_pages n p q pt !! x = if decide (p ≤ x < p + n) then Some (q + (x - p)) else pt !! x.
Proof.
  unfold map_pages. rewrite lookup_union. set (l := (λ i, (p + i, q + i)) <$> seqZ 0 n).
  assert (Hnd : NoDup l.*1).
  { unfold l. rewrite <-list_fmap_compose. apply NoDup_fmap_2_strong; [|apply NoDup_seqZ]. cbn. intros; lia. }
  case_decide as Hx.
  - replace ((list_to_map l : gmap Z Z) !! x) with (Some (q + (x - p))); [by destruct (pt !! x)|]. symmetry.
    apply elem_of_list_to_map; [done|]. unfold l. apply list_elem_of_fmap. exists (x - p). split; [f_equal; lia|]. apply elem_of_seqZ. lia.
  - replace ((list_to_map l : gmap Z Z) !! x) with (@None Z); [by destruct (pt !! x)|]. symmetry.
    apply not_elem_of_list_to_map. unfold l. rewrite <-list_fmap_compose, list_elem_of_fmap. cbn.
    intros (i & -> & Hi%elem_of_seqZ). lia.
Qed.

Lemma map_pages_backed n p q pt : backed (map_pages n p q pt) (p * BTM_PAGE_SIZE) (n * BTM_PAGE_SIZE) (q * BTM_PAGE_SIZE).
Proof. apply backed_pages. intros i Hi. rewrite map_pages_lookup, decide_True by lia. f_equal. lia. Qed.

Lemma map_pages_other n p q pt a :
  ¬ (p * BTM_PAGE_SIZE ≤ a < (p + n) * BTM_PAGE_SIZE) → translate (map_pages n p q pt) a = translate pt a.
Proof.
  intros Ha. unfold translate. rewrite map_pages_lookup, decide_False; [done|]. intros [H1 H2]. apply Ha.
  pose proof (Z.div_mod a BTM_PAGE_SIZE ltac:(unfold BTM_PAGE_SIZE; lia)) as E.
  pose proof (Z.mod_pos_bound a BTM_PAGE_SIZE ltac:(unfold BTM_PAGE_SIZE; lia)) as Hm. unfold BTM_PAGE_SIZE in *. lia.
Qed.

(** ** Links *)
Section links.
Context {F : FlOps} {FL : FlLaws F}.

Definition mlink (pt : page_table) (m : gmap Z Z) (x : Z) : Z := btm_fl_get (vwindow pt m x) x.

Fixpoint mlist (pt : page_table) (m : gmap Z Z) (l : list Z) : Prop :=
  match l with
  | [] => True
  | x :: l' => mlink pt m x = hd0 l' ∧ mlist pt m l'
  end.

Lemma byte_at_window pt m a y : a ≤ y < a + 8 → byte_at (vwindow pt m a) y = vbyte pt m y.
Proof.
  intros Hy. unfold vwindow, byte_at. erewrite elem_of_list_to_map_1; [done| |].
  - rewrite <-list_fmap_compose. cbn. rewrite list_fmap_id. apply NoDup_seqZ.
  - apply list_elem_of_fmap. exists y. split; [done|]. apply elem_of_seqZ. lia.
Qed.

Lemma mlink_ext pt m pt' m' x : (∀ y, x ≤ y < x + 8 → vbyte pt m y = vbyte pt' m' y) → mlink pt m x = mlink pt' m' x.
Proof. intros H. apply fl_get_ext. intros y Hy. rewrite !byte_at_window by done. by apply H. Qed.

Lemma mlist_ext pt m pt' m' l : (∀ x y, x ∈ l → x ≤ y < x + 8 → vbyte pt m y = vbyte pt' m' y) → mlist pt m l → mlist pt' m' l.
Proof.
  induction l as [|x l IH]; cbn; [done|]. intros H [Hx Hl]. split.
  - rewrite <-Hx. symmetry. apply mlink_ext. intros y. apply H. by left.
  - apply IH; [|done]. intros z y Hz. apply H. by right.
Qed.

Lemma mlist_tail pt m x l : mlist pt m (x :: l) → mlist pt m l.
Proof. by intros [_ ?]. Qed.

(** The file after a link is written to the slot [x] at the offset [o]. *)
Definition set_link (m : gmap Z Z) (o x v : Z) : gmap Z Z := store_bytes m o (load_bytes (btm_fl_set ∅ x v) x 8).

Lemma byte_at_set_link m o x v y : byte_at (set_link m o x v) y = if decide (o ≤ y < o + 8) then byte_at (btm_fl_set ∅ x v) (x + (y - o)) else byte_at m y.
Proof.
  unfold set_link. rewrite byte_at_store_bytes, length_load_bytes by lia. change (Z.of_nat (Z.to_nat 8)) with 8. case_decide; [|done].
  unfold load_bytes. apply list_lookup_total_correct. rewrite list_lookup_fmap, lookup_seqZ_lt by lia. cbn. by rewrite Z2Nat.id by lia.
Qed.

Lemma mlink_set pt m o x v : backed pt x 8 o → addr_ok x → addr_ok v → mlink pt (set_link m o x v) x = v.
Proof.
  intros Hb Hx Hv. unfold mlink. trans (btm_fl_get (btm_fl_set ∅ x v) x); [|by apply fl_get_set_same]. apply fl_get_ext. intros y Hy.
  rewrite byte_at_window, (vbyte_backed pt _ x 8 o y Hb Hy), byte_at_set_link, decide_True by lia. f_equal. lia.
Qed.

(** ** Runs of the accesses *)
Implicit Types s : mstate.

Lemma run_mesh_fl_get s x o : backed (p_src s) x 8 o → mesh_fl_get x s = Ok (mlink (p_src s) (file_of s) x, s).
Proof. intros H. unfold mesh_fl_get. by rewrite (vmapped_backed _ _ _ _ H). Qed.

Lemma run_mesh_fl_set s x v o : backed (p_src s) x 8 o → mesh_fl_set x v s = Ok (tt, set_file (set_link (file_of s) o x v) s).
Proof.
  intros H. unfold mesh_fl_set. rewrite (vmapped_backed _ _ _ _ H). rewrite (vstore_backed _ _ _ o); [done|].
  rewrite length_load_bytes by lia. exact H.
Qed.

Lemma run_mesh_memcpy s dst src n od os : 0 ≤ n → backed (p_src s) dst n od → backed (p_src s) src n os →
  mesh_memcpy dst src n s = Ok (tt, set_file (store_bytes (file_of s) od (load_bytes (file_of s) os n)) s).
Proof.
  intros Hn Hd Hs. unfold mesh_memcpy. rewrite (vmapped_backed _ _ _ _ Hd), (vmapped_backed _ _ _ _ Hs). cbn [andb].
  rewrite (vload_backed _ _ _ _ _ Hs), (vstore_backed _ _ _ od); [done|]. rewrite length_load_bytes, Z2Nat.id by lia. done.
Qed.
End links.

(** ** Bitmaps *)

(** Bit [k] of the array. *)
Definition bit (bm : list Z) (k : Z) : bool := Z.testbit (bm !!! Z.to_nat (k / 64)) (k mod 64).

Lemma word_index n k : 0 ≤ k < n → (Z.to_nat (k / 64) < Z.to_nat (occ_words n))%nat ∧ 0 ≤ k mod 64 < 64.
Proof.
  intros Hk. split; [|apply Z.mod_pos_bound; lia]. unfold occ_words.
  assert (k / 64 < (n + 63) / 64); [|pose proof (Z.div_pos k 64); lia].
  apply Z.div_lt_upper_bound; [lia|]. pose proof (Z.div_mod (n + 63) 64). pose proof (Z.mod_pos_bound (n + 63) 64). lia.
Qed.

Lemma word_inj k k' : k / 64 = k' / 64 → k mod 64 = k' mod 64 → k = k'.
Proof. intros H1 H2. rewrite (Z.div_mod k 64), (Z.div_mod k' 64) by lia. lia. Qed.

(** Updates of a word, seen from the bits. *)
Lemma bit_insert bm k w k' :
  (Z.to_nat (k / 64) < length bm)%nat → 0 ≤ k → 0 ≤ k' →
  bit (<[Z.to_nat (k / 64) := w]> bm) k' = if decide (k / 64 = k' / 64) then Z.testbit w (k' mod 64) else bit bm k'.
Proof.
  intros Hlt Hk Hk'. unfold bit. pose proof (Z.div_pos k 64 Hk ltac:(lia)). pose proof (Z.div_pos k' 64 Hk' ltac:(lia)). case_decide as E.
  - rewrite <-E. by rewrite list_lookup_total_insert_eq.
  - rewrite list_lookup_total_insert_ne; [done|]. intros E'. apply E. lia.
Qed.

Lemma testbit_one i j : 0 ≤ i → 0 ≤ j → Z.testbit (Z.shiftl 1 i) j = bool_decide (i = j).
Proof.
  intros Hi Hj. rewrite Z.shiftl_1_l, Z.pow2_bits_eqb by done. case_bool_decide as E; [by subst; rewrite Z.eqb_refl|by apply Z.eqb_neq].
Qed.

(** [occ_set] and [occ_clear] change one bit. *)
Lemma occ_set_run bm k : 0 ≤ k → (Z.to_nat (k / 64) < length bm)%nat →
  ∃ bm', occ_set bm k = Some bm' ∧ length bm' = length bm ∧ ∀ k', 0 ≤ k' → bit bm' k' = bool_decide (k' = k) || bit bm k'.
Proof.
  intros Hk Hlt. destruct (lookup_lt_is_Some_2 bm _ Hlt) as [w Hw]. unfold occ_set. rewrite Hw. cbn. eexists. split; [done|].
  split; [apply length_insert|]. intros k' Hk'. rewrite bit_insert by done. case_decide as E.
  - rewrite Z.lor_spec, testbit_one by (apply Z.mod_pos_bound; lia). rewrite orb_comm. f_equal; [|unfold bit; by rewrite <-E, (list_lookup_total_correct _ _ _ Hw)].
    apply bool_decide_ext. split; [|by intros ->]. intros Em. by apply word_inj.
  - rewrite bool_decide_eq_false_2; [done|]. by intros ->.
Qed.

Lemma occ_clear_run bm k : 0 ≤ k → (Z.to_nat (k / 64) < length bm)%nat →
  ∃ bm', occ_clear bm k = Some bm' ∧ length bm' = length bm ∧ ∀ k', 0 ≤ k' → bit bm' k' = negb (bool_decide (k' = k)) && bit bm k'.
Proof.
  intros Hk Hlt. destruct (lookup_lt_is_Some_2 bm _ Hlt) as [w Hw]. unfold occ_clear. rewrite Hw. cbn. eexists. split; [done|].
  split; [apply length_insert|]. intros k' Hk'. rewrite bit_insert by done. case_decide as E.
  - rewrite Z.ldiff_spec, testbit_one by (apply Z.mod_pos_bound; lia). rewrite andb_comm. f_equal; [|unfold bit; by rewrite <-E, (list_lookup_total_correct _ _ _ Hw)].
    f_equal. apply bool_decide_ext. split; [|by intros ->]. intros Em. by apply word_inj.
  - rewrite bool_decide_eq_false_2; [done|]. by intros ->.
Qed.

Lemma occ_bit_run bm k : 0 ≤ k → (Z.to_nat (k / 64) < length bm)%nat → occ_bit bm k = Some (bit bm k).
Proof.
  intros Hk Hlt. destruct (lookup_lt_is_Some_2 bm _ Hlt) as [w Hw]. unfold occ_bit, bit. rewrite Hw. cbn. f_equal.
  rewrite (list_lookup_total_correct _ _ _ Hw). set (i := k mod 64). assert (Hi : 0 ≤ i < 64) by (apply Z.mod_pos_bound; lia).
  destruct (Z.eqb_spec (Z.land w (Z.shiftl 1 i)) 0) as [E|E]; cbn.
  - symmetry. assert (H : Z.testbit (Z.land w (Z.shiftl 1 i)) i = false) by (by rewrite E, Z.bits_0).
    rewrite Z.land_spec, testbit_one, bool_decide_eq_true_2, andb_true_r in H by lia. done.
  - destruct (Z.testbit w i) eqn:Eb; [done|]. exfalso. apply E. apply Z.bits_inj'. intros j Hj.
    rewrite Z.land_spec, testbit_one, Z.bits_0 by lia. case_bool_decide as Ej; [by rewrite <-Ej, Eb|apply andb_false_r].
Qed.

Lemma occ_fill_run n k bm : 0 ≤ k → (Z.to_nat (occ_words (k + Z.of_nat n)) ≤ length bm)%nat →
  ∃ bm', occ_fill n k bm = Some bm' ∧ length bm' = length bm ∧
    ∀ k', 0 ≤ k' → bit bm' k' = bool_decide (k ≤ k' < k + Z.of_nat n) || bit bm k'.
Proof.
  revert k bm. induction n as [|n IH]; intros k bm Hk Hl; cbn [occ_fill].
  - exists bm. split; [done|]. split; [done|]. intros k' _. rewrite bool_decide_eq_false_2 by lia. done.
  - assert (Hi : (Z.to_nat (k / 64) < length bm)%nat) by (destruct (word_index (k + Z.of_nat (S n)) k ltac:(lia)); lia).
    destruct (occ_set_run bm k Hk Hi) as (bm1 & -> & Hl1 & Hb1). cbn.
    destruct (IH (k + 1) bm1 ltac:(lia)) as (bm2 & -> & Hl2 & Hb2).
    { rewrite Hl1. by replace (k + 1 + Z.of_nat n) with (k + Z.of_nat (S n)) by lia. }
    exists bm2. split; [done|]. split; [congruence|]. intros k' Hk'. rewrite Hb2, Hb1, orb_assoc by done. f_equal.
    repeat case_bool_decide; lia || done.
Qed.

Lemma bit_zero n k : (Z.to_nat (k / 64) < n)%nat → bit (replicate n 0) k = false.
Proof. intros H. unfold bit. rewrite lookup_total_replicate_2 by done. apply Z.bits_0. Qed.

(** Maps with no common word have no common bit. *)
Lemma occ_disjoint_bits n b1 b2 k :
  length b1 = Z.to_nat (occ_words n) → length b2 = Z.to_nat (occ_words n) → occ_disjoint (occ_words n) b1 b2 = true →
  0 ≤ k < n → bit b1 k && bit b2 k = false.
Proof.
  intros H1 H2 Hd Hk. destruct (word_index n k Hk) as [Hi Hm]. unfold occ_disjoint in Hd. rewrite forallb_forall in Hd.
  destruct (lookup_lt_is_Some_2 b1 (Z.to_nat (k / 64)) ltac:(lia)) as [w1 Hw1].
  destruct (lookup_lt_is_Some_2 b2 (Z.to_nat (k / 64)) ltac:(lia)) as [w2 Hw2].
  assert (Hl : (Z.land w1 w2 =? 0) = true).
  { apply (Hd (w1, w2)), list_elem_of_In, (list_elem_of_lookup_2 _ (Z.to_nat (k / 64))). rewrite lookup_take_lt by done.
    by rewrite lookup_zip_with, Hw1; cbn; rewrite Hw2. }
  unfold bit. rewrite (list_lookup_total_correct _ _ _ Hw1), (list_lookup_total_correct _ _ _ Hw2), <-Z.land_spec.
  apply Z.eqb_eq in Hl. by rewrite Hl, Z.bits_0.
Qed.
