(* ===== verification/MeshOps.v ===== *)
(** * MeshOps: how the loops of compaction run

    [build_occ] computes the occupancy of a slab, [copy_loop] copies the donor's objects,
    [rebuild_loop] threads the slots that are free in both. *)

From stdpp Require Import prelude gmap.
From S2P Require Import Prelude Memory SizeClass Freelist Heap Dll Pool PoolInv PoolFrame PoolRun PoolSys Tiering Mesh MeshMem.
Local Open Scope Z_scope.

(** Where the slots of a slab are in the file. *)
Definition file_off (h : heap) (d : Z) : Z := memfd_off (chunk_at h (chunk_of d)) + page_of d * BTM_PAGE_SIZE.

(** The bytes of a slab's data run. *)
Definition run_len (r : pool_ref) : Z := btm_sc_run_pages r.2 * BTM_PAGE_SIZE.

Section ops.
Context {F : FlOps} {FL : FlLaws F}.
Implicit Types s : mstate.

(** A slab in service, with free slots [l], on its own pages of the file. *)
Record mslab s (r : pool_ref) (d : Z) (l : list Z) : Prop := {
  mi_sc : valid_sc r.2;
  mi_in : slab_in r d;
  mi_chunk : has_chunk (p_heap s) (chunk_of d);
  mi_fields : slab_fields r (slab_at (p_heap s) d) d l;
  mi_head : free_head (slab_at (p_heap s) d) = hd0 l;
  mi_list : mlist (p_src s) (file_of s) l;
  mi_nodup : NoDup l;
  mi_slots : l ⊆ slab_slots r d;
  mi_off : file_off (p_heap s) d mod BTM_PAGE_SIZE = 0;
  mi_backed : backed (p_src s) (data_of d) (run_len r) (file_off (p_heap s) d);
}.

Section slab.
Context {s : mstate} {r : pool_ref} {d : Z} {l : list Z} (W : mslab s r d l).
Abbreviation sz := (btm_sc_to_size r.2).
Abbreviation ns := (slots_of_class r.2).

Lemma mslab_data : btm_slab_data d (slab_at (p_heap s) d) = data_of d.
Proof. unfold btm_slab_data, data_of. by rewrite (sf_first _ _ _ _ (mi_fields _ _ _ _ W)). Qed.

Lemma mslab_mapped : mapped (p_heap s) d.
Proof. apply W. Qed.

(** Slot number [k] and its place. *)
Lemma slot_backed k : 0 ≤ k < ns → backed (p_src s) (data_of d + k * sz) sz (file_off (p_heap s) d + k * sz).
Proof.
  intros Hk. pose proof (slots_fit r (mi_sc _ _ _ _ W) k Hk) as (? & ? & ?). eapply backed_sub; [apply W|done|unfold run_len; lia].
Qed.

Lemma link_backed k : 0 ≤ k < ns → backed (p_src s) (data_of d + k * sz) 8 (file_off (p_heap s) d + k * sz).
Proof.
  intros Hk. pose proof (slots_fit r (mi_sc _ _ _ _ W) k Hk) as (? & _ & _).
  pose proof (backed_sub _ _ _ _ 0 8 (slot_backed k Hk) ltac:(lia) ltac:(lia)) as Hbk. by rewrite !Z.add_0_r in Hbk.
Qed.

Lemma slot_number x : x ∈ slab_slots r d → 0 ≤ (x - data_of d) / sz < ns ∧ x = data_of d + (x - data_of d) / sz * sz.
Proof.
  intros (k & Hk & ->)%elem_of_slots. pose proof (sc_size_pos r.2 (mi_sc _ _ _ _ W)).
  replace (data_of d + k * sz - data_of d) with (k * sz) by lia. rewrite Z.div_mul by lia. done.
Qed.

Lemma slot_in k : 0 ≤ k < ns → data_of d + k * sz ∈ slab_slots r d.
Proof. intros Hk. apply elem_of_slots. by exists k. Qed.

Lemma slot_nonzero x : x ∈ slab_slots r d → 0 < x ∧ addr_ok x.
Proof. intros Hx. by apply (slot_addr r (mi_sc _ _ _ _ W) d x (mi_in _ _ _ _ W)). Qed.

Lemma slot_inj i j : data_of d + i * sz = data_of d + j * sz → i = j.
Proof. intros E. pose proof (sc_size_pos r.2 (mi_sc _ _ _ _ W)). nia. Qed.

(** [build_occ] *)
Lemma occ_free_loop_run fuel q bm :
  mlist (p_src s) (file_of s) q → q ⊆ slab_slots r d → (length q ≤ fuel)%nat → length bm = Z.to_nat (occ_words ns) →
  ∃ bm', occ_free_loop fuel (data_of d) sz (hd0 q) bm s = Ok (bm', s) ∧ length bm' = length bm ∧
    ∀ k, 0 ≤ k < ns → bit bm' k = bit bm k && bool_decide (data_of d + k * sz ∉ q).
Proof.
  revert q bm. induction fuel as [|fuel IH]; intros [|x q] bm Hq Hs Hf Hl; cbn [occ_free_loop hd0]; cbn in Hf; try lia.
  1, 2: exists bm; split; [done|]; split; [done|]; intros k Hk; rewrite bool_decide_eq_true_2, andb_true_r; [done|apply not_elem_of_nil].
  assert (Hx : x ∈ slab_slots r d) by (apply Hs; left). destruct (slot_nonzero x Hx) as [Hx0 _]. rewrite (proj2 (Z.eqb_neq x 0)) by lia.
  destruct (slot_number x Hx) as [Hi Ex]. set (i := (x - data_of d) / sz) in *.
  destruct (word_index ns i Hi) as [Hw _]. destruct (occ_clear_run bm i ltac:(lia) ltac:(lia)) as (bm1 & E1 & Hl1 & Hb1).
  erewrite run_bind; [|unfold of_option; rewrite E1; reflexivity]. destruct Hq as [Hn Hq].
  erewrite run_bind; [|eapply run_mesh_fl_get; rewrite Ex; apply link_backed, Hi]. rewrite Hn.
  destruct (IH q bm1 Hq) as (bm2 & E2 & Hl2 & Hb2); [set_solver|lia|congruence|]. exists bm2. split; [done|]. split; [congruence|].
  intros k Hk. rewrite Hb2, Hb1 by lia. rewrite (andb_comm (negb _)), <-andb_assoc. f_equal.
  rewrite <-bool_decide_not, <-bool_decide_and. apply bool_decide_ext. rewrite not_elem_of_cons, Ex. split; intros [H1 H2]; (split; [|done]).
  - intros E%slot_inj. done.
  - intros ->. done.
Qed.

Lemma build_occ_run :
  ∃ bm, build_occ d s = Ok (bm, s) ∧ length bm = Z.to_nat (occ_words ns) ∧ ∀ k, 0 ≤ k < ns → bit bm k = bool_decide (data_of d + k * sz ∉ l).
Proof.
  destruct W as [Hsc Hin Hc [E1 E2 E3 E4 E5 E6 E7] Eh Hl Hnd Hsub _ _]. pose proof (ns_range r Hsc) as Hns. unfold build_occ.
  erewrite run_bind by (apply run_get_slab, mslab_mapped). rewrite E3, E4, mslab_data, Eh. set (z := replicate _ 0).
  destruct (occ_fill_run (Z.to_nat ns) 0 z ltac:(lia)) as (bm & Ef & Hlen & Hb).
  { unfold z. rewrite length_replicate. by replace (0 + Z.of_nat (Z.to_nat ns)) with ns by lia. }
  erewrite run_bind; [|unfold of_option; rewrite Ef; reflexivity]. unfold z in Hlen. rewrite length_replicate in Hlen.
  destruct (occ_free_loop_run (Z.to_nat ns) l bm Hl Hsub) as (bm' & E & Hl' & Hb'); [|done|].
  - rewrite <-(slots_length r (data_of d)). by apply submseteq_length, NoDup_submseteq.
  - exists bm'. split; [done|]. split; [congruence|]. intros k Hk. rewrite Hb' by done. rewrite Hb, bool_decide_eq_true_2 by lia. done.
Qed.
End slab.

(** ** The copy loop, on the file *)

(** The file after the slots [k, k + n) marked in [bm] are copied from [src] to [dst]. *)
Definition copied (bm : list Z) (sz dst src k n : Z) (m m' : gmap Z Z) : Prop :=
  ∀ x, byte_at m' x = if decide (k ≤ (x - dst) / sz < k + n ∧ bit bm ((x - dst) / sz) = true) then byte_at m (src + (x - dst)) else byte_at m x.

Lemma slot_of_byte dst sz j x : 0 < sz → dst + j * sz ≤ x < dst + j * sz + sz ↔ (x - dst) / sz = j.
Proof.
  intros Hs. split.
  - intros H. symmetry. apply (Z.div_unique _ _ _ (x - dst - j * sz)); [lia|ring].
  - intros <-. pose proof (Z.div_mod (x - dst) sz ltac:(lia)). pose proof (Z.mod_pos_bound (x - dst) sz Hs). lia.
Qed.

Lemma copied_one bm sz dst src k m : 0 < sz → bit bm k = true → copied bm sz dst src k 1 m (memcpy m (dst + k * sz) (src + k * sz) sz).
Proof.
  intros Hs Hb x. rewrite byte_at_memcpy by lia. pose proof (slot_of_byte dst sz k x Hs) as E. destruct (decide ((x - dst) / sz = k)) as [Ek|Nk].
  - rewrite Ek. rewrite (decide_True (P := _ ≤ _ < _)) by (by apply E). rewrite decide_True by (split; [lia|done]). f_equal. lia.
  - rewrite (decide_False (P := _ ≤ _ < _)) by (intros Hx; by apply Nk, E). rewrite decide_False; [done|]. lia.
Qed.

Lemma copied_none bm sz dst src k m : bit bm k = false → copied bm sz dst src k 1 m m.
Proof. intros Hb x. rewrite decide_False; [done|]. intros [Hk E]. replace ((x - dst) / sz) with k in E by lia. congruence. Qed.

(** Two ranges of slots, one after the other; the source is not written. *)
Lemma copied_trans bm sz dst src k n1 n2 ns m m1 m2 :
  0 < sz → 0 ≤ k → 0 ≤ n1 → 0 ≤ n2 → k + n1 + n2 ≤ ns → disjoint_blocks dst (ns * sz) src (ns * sz) →
  copied bm sz dst src k n1 m m1 → copied bm sz dst src (k + n1) n2 m1 m2 → copied bm sz dst src k (n1 + n2) m m2.
Proof.
  intros Hs Hk Hn1 Hn2 Hns Hd H1 H2 x. rewrite H2. set (j := (x - dst) / sz). pose proof (proj2 (slot_of_byte dst sz j x Hs) eq_refl) as Hx.
  destruct (decide (k + n1 ≤ j < k + n1 + n2 ∧ bit bm j = true)) as [[Hj Hb]|Hno].
  - rewrite decide_True by (split; [lia|done]). rewrite H1. rewrite decide_False; [done|]. intros [Hj' _].
    assert (0 ≤ j * sz ∧ j * sz + sz ≤ ns * sz) by nia.
    assert (Hout : ¬ (0 ≤ src + (x - dst) - dst < ns * sz)) by (unfold disjoint_blocks in Hd; lia). apply Hout.
    pose proof (proj2 (slot_of_byte dst sz _ (src + (x - dst)) Hs) eq_refl) as Hy. set (i := (src + (x - dst) - dst) / sz) in *. nia.
  - rewrite H1. fold j. destruct (decide (k ≤ j < k + n1 ∧ bit bm j = true)) as [[Hj Hb]|Hno'].
    + rewrite decide_True by (split; [lia|done]). done.
    + rewrite decide_False; [done|]. intros [Hj Hb]. destruct (decide (j < k + n1)); [apply Hno'|apply Hno]; (split; [lia|done]).
Qed.

Lemma copy_loop_run n s k Rd Dd sz dst src bm ns :
  0 < sz → 0 ≤ k → k + Z.of_nat n ≤ ns → length bm = Z.to_nat (occ_words ns) → disjoint_blocks dst (ns * sz) src (ns * sz) →
  (∀ j, 0 ≤ j < ns → backed (p_src s) (Rd + j * sz) sz (dst + j * sz) ∧ backed (p_src s) (Dd + j * sz) sz (src + j * sz)) →
  ∃ m', copy_loop n k Rd Dd sz bm s = Ok (tt, set_file m' s) ∧ copied bm sz dst src k (Z.of_nat n) (file_of s) m'.
Proof.
  intros Hs. revert s k. induction n as [|n IH]; intros s k Hk Hn Hl Hd Hb; cbn [copy_loop].
  { exists (file_of s). split; [by destruct s as [[]]|]. intros x. rewrite decide_False; [done|]. lia. }
  destruct (word_index ns k ltac:(lia)) as [Hw _]. erewrite run_bind; [|unfold of_option; rewrite occ_bit_run by lia; reflexivity].
  destruct (Hb k ltac:(lia)) as [B1 B2].
  assert (Hone : ∃ m1, (if bit bm k then mesh_memcpy (Rd + k * sz) (Dd + k * sz) sz else mret tt) s = Ok (tt, set_file m1 s) ∧
      copied bm sz dst src k 1 (file_of s) m1).
  { destruct (bit bm k) eqn:Eb.
    - exists (memcpy (file_of s) (dst + k * sz) (src + k * sz) sz). split; [by apply run_mesh_memcpy; [lia|..]|by apply copied_one].
    - exists (file_of s). split; [by destruct s as [[]]|by apply copied_none]. }
  destruct Hone as (m1 & E1 & C1). rewrite (run_bind _ _ _ _ _ E1).
  destruct (IH (set_file m1 s) (k + 1) ltac:(lia) ltac:(lia) Hl Hd Hb) as (m2 & E2 & C2). exists m2. split; [done|].
  replace (Z.of_nat (S n)) with (1 + Z.of_nat n) by lia. apply (copied_trans bm sz dst src k 1 (Z.of_nat n) ns (file_of s) m1); by try lia.
Qed.

(** ** The rebuild loop *)

(** The slots below [n] that are free in both maps. *)
Definition free_both (b1 b2 : list Z) (data sz n : Z) : list Z :=
  (λ k, data + k * sz) <$> filter (λ k, bit b1 k = false ∧ bit b2 k = false) (seqZ 0 n).

Lemma elem_of_free_both b1 b2 data sz n x :
  x ∈ free_both b1 b2 data sz n ↔ ∃ k, 0 ≤ k < n ∧ x = data + k * sz ∧ bit b1 k = false ∧ bit b2 k = false.
Proof.
  unfold free_both. rewrite list_elem_of_fmap. setoid_rewrite list_elem_of_filter. setoid_rewrite elem_of_seqZ. split.
  - intros (k & -> & [? ?] & ?). exists k. split; [lia|done].
  - intros (k & ? & -> & ? & ?). exists k. split; [done|]. split; [done|lia].
Qed.

Lemma free_both_S b1 b2 data sz k :
  free_both b1 b2 data sz (Z.of_nat (S k)) =
    free_both b1 b2 data sz (Z.of_nat k) ++ (if bit b1 (Z.of_nat k) || bit b2 (Z.of_nat k) then [] else [data + Z.of_nat k * sz]).
Proof.
  unfold free_both. replace (Z.of_nat (S k)) with (Z.of_nat k + 1) by lia. rewrite seqZ_app by lia. rewrite filter_app, fmap_app. f_equal.
  rewrite Z.add_0_l. replace (seqZ (Z.of_nat k) 1) with [Z.of_nat k] by (unfold seqZ; change (Z.to_nat 1) with 1%nat; cbn [seq fmap list_fmap]; f_equal; lia).
  rewrite filter_cons. destruct (bit b1 (Z.of_nat k)), (bit b2 (Z.of_nat k)); case_decide; try done; naive_solver.
Qed.

Lemma free_both_NoDup b1 b2 data sz n : 0 < sz → NoDup (free_both b1 b2 data sz n).
Proof.
  intros Hs. unfold free_both. apply NoDup_fmap_2_strong; [|apply NoDup_filter, NoDup_seqZ]. intros i j _ _ E. nia.
Qed.

Lemma rebuild_loop_run k s Rd sz off b1 b2 ns q cnt :
  16 ≤ sz → Z.of_nat k ≤ ns → length b1 = Z.to_nat (occ_words ns) → length b2 = Z.to_nat (occ_words ns) →
  (∀ j, 0 ≤ j < ns → backed (p_src s) (Rd + j * sz) sz (off + j * sz) ∧ 0 < Rd + j * sz ∧ addr_ok (Rd + j * sz)) →
  mlist (p_src s) (file_of s) q → (∀ x, x ∈ q → ∃ j, Z.of_nat k ≤ j < ns ∧ x = Rd + j * sz) →
  let q' := free_both b1 b2 Rd sz (Z.of_nat k) ++ q in
  ∃ m', rebuild_loop k Rd sz b1 b2 (hd0 q) cnt s =
      Ok ((hd0 q', cnt + Z.of_nat (length (free_both b1 b2 Rd sz (Z.of_nat k)))), set_file m' s) ∧
    mlist (p_src s) m' q' ∧
    ∀ y, (∀ j, 0 ≤ j < Z.of_nat k → bit b1 j = false → bit b2 j = false → ¬ (off + j * sz ≤ y < off + j * sz + 8)) → byte_at m' y = byte_at (file_of s) y.
Proof.
  intros Hs. revert s q cnt. induction k as [|k IH]; intros s q cnt Hk H1 H2 Hb Hq Hin; cbn [rebuild_loop].
  { exists (file_of s). cbn. split; [by rewrite Z.add_0_r; destruct s as [[]]|]. split; [done|]. intros y _. done. }
  destruct (word_index ns (Z.of_nat k) ltac:(lia)) as [Hw _]. rewrite free_both_S.
  erewrite run_bind; [|unfold of_option; rewrite occ_bit_run by lia; reflexivity].
  erewrite run_bind; [|unfold of_option; rewrite occ_bit_run by lia; reflexivity].
  rewrite <-negb_orb. destruct (bit b1 (Z.of_nat k) || bit b2 (Z.of_nat k)) eqn:Eb; cbn [negb].
  - rewrite app_nil_r. destruct (IH s q cnt ltac:(lia) H1 H2 Hb Hq) as (m' & E & Hm & Ho).
    { intros x Hx. destruct (Hin x Hx) as (j & ? & ->). exists j. split; [lia|done]. }
    exists m'. split; [done|]. split; [done|]. intros y Hy. apply Ho. intros j Hj. apply Hy. lia.
  - apply orb_false_iff in Eb as [Eb1 Eb2]. set (x := Rd + Z.of_nat k * sz). destruct (Hb (Z.of_nat k) ltac:(lia)) as (Bx & Hx0 & Hxa). fold x in Bx, Hx0, Hxa.
    assert (Bl : backed (p_src s) x 8 (off + Z.of_nat k * sz)).
    { pose proof (backed_sub _ _ _ _ 0 8 Bx ltac:(lia) ltac:(lia)) as H. by rewrite !Z.add_0_r in H. }
    rewrite (run_bind _ _ _ _ _ (run_mesh_fl_set s x (hd0 q) _ Bl)). set (s1 := set_file _ s).
    assert (Hq1 : mlist (p_src s1) (file_of s1) (x :: q)).
    { split.
      - apply mlink_set; [done|done|]. destruct q as [|y q]; [cbn; unfold addr_ok; lia|]. destruct (Hin y ltac:(left)) as (j & ? & ->). cbn. apply Hb. lia.
      - apply (mlist_ext (p_src s) (file_of s)); [|done]. intros y z Hy Hz. destruct (Hin y Hy) as (j & Hj & ->). destruct (Hb j ltac:(lia)) as (By & _).
        change (p_src s1) with (p_src s). rewrite !(vbyte_backed _ _ _ _ _ z By) by lia. unfold s1, file_of at 2. cbn.
        rewrite byte_at_set_link, decide_False; [done|]. nia. }
    destruct (IH s1 (x :: q) (cnt + 1) ltac:(lia) H1 H2 Hb Hq1) as (m' & E & Hm & Ho).
    { intros y [->|Hy]%elem_of_cons; [exists (Z.of_nat k); split; [lia|done]|]. destruct (Hin y Hy) as (j & ? & ->). exists j. split; [lia|done]. }
    exists m'. rewrite <-app_assoc, length_app. cbn [length app]. split; [|split; [exact Hm|]].
    + change (hd0 (x :: q)) with x in E. rewrite E, Nat2Z.inj_add, <-Z.add_assoc, (Z.add_comm 1). done.
    + intros y Hy. rewrite Ho by (intros j Hj; apply Hy; lia). unfold s1, file_of at 1. cbn. rewrite byte_at_set_link, decide_False; [done|].
      apply (Hy (Z.of_nat k)); [lia|done|done].
Qed.
End ops.
