(* ===== verification/MeshInv.v ===== *)
(** * MeshInv: what meshing two slabs does

    [mesh_ok]: the slabs in service, each on its own pages of the file, the partial
    lists, and a set [V] of addresses in use, whose bytes are in no free slot.  An
    address in use may lie in a slab that was meshed away; then its page is one of the
    recipient's.  [paired]: what the loops of
    [mesh_pair] make of the file; copying and threading keep every byte in use as long as
    nobody else uses the donor's own pages.  [merged]: what has become of every slab and
    list after any number of such steps. *)

From stdpp Require Import prelude gmap.
From S2P Require Import Prelude Memory SizeClass Freelist Heap Dll Pool PoolInv PoolFrame PoolRun PoolSys Tiering Mesh MeshMem MeshOps.
Local Open Scope Z_scope.

(** The slabs in service, with their pools and free slots. *)
Abbreviation mslabs := (gmap Z (pool_ref * list Z)).

Section inv.
Context {F : FlOps} {FL : FlLaws F}.
Implicit Types (s : mstate) (A : mslabs) (P : gmap pool_ref (list Z)) (V : Z → Prop) (r : pool_ref).

Definition vread s (a : Z) : Z := vbyte (p_src s) (file_of s) a.

(** A slab does not see changes outside its data. *)
Lemma mslab_frame s s' r d l :
  mslab s r d l → h_chunks (p_heap s') = h_chunks (p_heap s) → same_core (slab_at (p_heap s) d) (slab_at (p_heap s') d) →
  (∀ a, data_of d ≤ a < data_of d + run_len r → translate (p_src s') a = translate (p_src s) a) →
  (∀ o, file_off (p_heap s) d ≤ o < file_off (p_heap s) d + run_len r → byte_at (file_of s') o = byte_at (file_of s) o) →
  mslab s' r d l.
Proof.
  intros W Hc Hk Ht Hf. pose proof W as [W1 W2 W3 W4 W5 W6 W7 W8 W9 W10].
  assert (Eo : file_off (p_heap s') d = file_off (p_heap s) d) by (unfold file_off, chunk_at; by rewrite Hc).
  split; rewrite ?Eo; try done.
  - unfold has_chunk. by rewrite Hc.
  - by apply (slab_fields_core r (slab_at (p_heap s) d)).
  - by rewrite (sk_head _ _ Hk).
  - apply (mlist_ext (p_src s) (file_of s)); [|done]. intros x y Hx Hy. destruct (slot_number W x (W8 _ Hx)) as [Hi Ex].
    pose proof (slots_fit r W1 _ Hi) as (? & ? & ?). unfold vbyte. rewrite Ht by (unfold run_len; lia).
    rewrite (backed_at _ _ _ _ y W10) by (unfold run_len; lia). symmetry. apply Hf. unfold run_len. lia.
  - intros i Hi. rewrite Ht by lia. by apply W10.
Qed.

(** ** The invariant *)
Record mesh_ok s A P V : Prop := {
  mo_slab d r l : A !! d = Some (r, l) → mslab s r d l;
  mo_file d1 r1 l1 d2 r2 l2 : A !! d1 = Some (r1, l1) → A !! d2 = Some (r2, l2) → d1 ≠ d2 →
    disjoint_blocks (file_off (p_heap s) d1) (run_len r1) (file_off (p_heap s) d2) (run_len r2);
  mo_virt d1 r1 l1 d2 r2 l2 : A !! d1 = Some (r1, l1) → A !! d2 = Some (r2, l2) → d1 ≠ d2 →
    disjoint_blocks (data_of d1) (run_len r1) (data_of d2) (run_len r2);
  mo_pool r L : P !! r = Some L → ∃ pl, p_pools s !! r = Some pl ∧ partial pl = hd0 L ∧ NoDup L ∧
    dll s_next s_prev (slab_at (p_heap s)) 0 L;
  mo_dom r L d : P !! r = Some L → d ∈ L → d ≠ 0 ∧ ∃ l, A !! d = Some (r, l);
  mo_live a : V a → is_Some (translate (p_src s) a);
  mo_kept a o d r l x : V a → translate (p_src s) a = Some o → A !! d = Some (r, l) → x ∈ l →
    ¬ (file_off (p_heap s) d + (x - data_of d) ≤ o < file_off (p_heap s) d + (x - data_of d) + btm_sc_to_size r.2);
  mo_used a d r l : V a → A !! d = Some (r, l) → data_of d ≤ a < data_of d + run_len r →
    ∃ x, x ∈ slab_slots r d ∧ (x ∉ l) ∧ x ≤ a < x + btm_sc_to_size r.2;
}.

(** What compaction makes of the slabs [A] and the lists [P]: [host d] is the slab that
    holds the objects of slab [d] afterwards.  A slab that stays in service is its own host,
    its free slots are the numbers that were free in all the slabs it now holds, no more and
    no less; one that was meshed away has a host in service and is retired; the lists are
    the lists of before without the slabs that were meshed away. *)
Record merged (host : Z → Z) s A P s' A' P' : Prop := {
  mg_host d r l : A !! d = Some (r, l) → ∃ l', A' !! host d = Some (r, l');
  mg_stays d r l' : A' !! d = Some (r, l') → host d = d ∧ ∃ l, A !! d = Some (r, l);
  mg_free d r l' i : A' !! d = Some (r, l') → 0 ≤ i < slots_of_class r.2 →
    data_of d + i * btm_sc_to_size r.2 ∈ l' ↔
    ∀ y l, A !! y = Some (r, l) → host y = d → data_of y + i * btm_sc_to_size r.2 ∈ l;
  mg_retired d : A' !! d = None → is_Some (A !! d) ∨ retired (slab_at (p_heap s) d) = true → retired (slab_at (p_heap s') d) = true;
  mg_lists r : P' !! r = filter (λ d, is_Some (A' !! d)) <$> P !! r;
}.

Lemma merged_refl s A P V : mesh_ok s A P V → merged id s A P s A P.
Proof.
  intros HM. split; cbn.
  - intros d r l Hd. by exists l.
  - intros d r l Hd. split; [done|]. by exists l.
  - intros d r l i Hd Hi. split; [intros Hin y l' Hy ->; congruence|auto].
  - intros d Hd [[]|H]; [congruence|done].
  - intros r. destruct (P !! r) as [L|] eqn:E; cbn; [|done]. f_equal. symmetry. apply filter_all. intros d Hd. destruct (mo_dom _ _ _ _ HM r L d E Hd) as (_ & l & ->). done.
Qed.

Lemma merged_trans h1 h2 s1 A1 P1 s2 A2 P2 s3 A3 P3 :
  merged h1 s1 A1 P1 s2 A2 P2 → merged h2 s2 A2 P2 s3 A3 P3 → merged (h2 ∘ h1) s1 A1 P1 s3 A3 P3.
Proof.
  intros [F1 F2 F3 F4 F5] [G1 G2 G3 G4 G5]. split; cbn.
  - intros d r l (l1 & H1)%F1. by apply (G1 _ _ l1).
  - intros d r l [E (l2 & H2)]%G2. destruct (F2 d r l2 H2) as [E1 H1]. by rewrite E1.
  - intros d r l i Hd Hi. rewrite (G3 d r l i Hd Hi). split.
    + intros H y ly Hy Hh. destruct (F1 y r ly Hy) as (l1 & H1). apply (F3 (h1 y) r l1 i H1 Hi); [by apply H|done|done].
    + intros H y l1 H1 Hh. apply (F3 y r l1 i H1 Hi). intros z lz Hz <-. by apply H.
  - intros d Hd Hr. apply G4; [done|]. destruct (A2 !! d) eqn:E; [left; by eexists|right; by apply F4].
  - intros r. rewrite G5, F5. destruct (P1 !! r) as [L|]; cbn; [|done]. f_equal. rewrite list_filter_filter.
    apply list_filter_iff. intros d. split; [by intros [? _]|]. intros [[r' l] Hd]. split; [by eexists|].
    destruct (G2 d r' l Hd) as (_ & l2 & ->). by eexists.
Qed.

(** Nobody but the slab's own addresses uses its pages of the file. *)
Definition private s V r (d : Z) : Prop := ∀ a o, V a → translate (p_src s) a = Some o →
  file_off (p_heap s) d ≤ o < file_off (p_heap s) d + run_len r → data_of d ≤ a < data_of d + run_len r.

(** The bitmap of a slab. *)
Definition occupancy r (d : Z) (l bm : list Z) : Prop :=
  length bm = Z.to_nat (occ_words (slots_of_class r.2)) ∧
  ∀ k, 0 ≤ k < slots_of_class r.2 → bit bm k = bool_decide (data_of d + k * btm_sc_to_size r.2 ∉ l).

(** ** Copying and threading *)
Section pair.
Context {s : mstate} {r : pool_ref} {R D : Z} {lR lD bR bD : list Z}.
Context (WR : mslab s r R lR) (WD : mslab s r D lD) (OR : occupancy r R lR bR) (OD : occupancy r D lD bD).
Context (Hfile : disjoint_blocks (file_off (p_heap s) R) (run_len r) (file_off (p_heap s) D) (run_len r)).
Context (Hdis : ∀ k, 0 ≤ k < slots_of_class r.2 → bit bR k && bit bD k = false).
Abbreviation sz := (btm_sc_to_size r.2).
Abbreviation ns := (slots_of_class r.2).
Abbreviation oR := (file_off (p_heap s) R).
Abbreviation oD := (file_off (p_heap s) D).

(** The free slots of the recipient afterwards. *)
Abbreviation lR' := (free_both bR bD (data_of R) sz ns).

(** The file after both loops: [m0] before them. *)
Record paired (m0 m : gmap Z Z) : Prop := {
  pd_other o : ¬ (oR ≤ o < oR + ns * sz) → byte_at m o = byte_at m0 o;
  pd_moved k i : 0 ≤ k < ns → 0 ≤ i < sz → bit bD k = true → byte_at m (oR + k * sz + i) = byte_at m0 (oD + k * sz + i);
  pd_kept k i : 0 ≤ k < ns → 0 ≤ i < sz → bit bR k = true → byte_at m (oR + k * sz + i) = byte_at m0 (oR + k * sz + i);
  pd_list : mlist (p_src s) m lR';
}.

Lemma size_facts : 16 ≤ sz ∧ 8 ≤ ns ≤ 256 ∧ ns * sz ≤ run_len r ∧ 0 < run_len r.
Proof.
  pose proof (mi_sc _ _ _ _ WR) as Hsc. pose proof (sc_size_pos r.2 Hsc). pose proof (ns_range r Hsc).
  pose proof (slots_fit r Hsc (ns - 1) ltac:(lia)) as (? & ? & ?). unfold run_len. split_and!; [lia..| |]; nia.
Qed.

Lemma slot_index x k : x = data_of R + k * sz → ∀ j, x = data_of R + j * sz → k = j.
Proof. intros -> j E. pose proof size_facts. nia. Qed.

Lemma pair_loops_run :
  ∃ m1 m2, copy_loop (Z.to_nat ns) 0 (data_of R) (data_of D) sz bD s = Ok (tt, set_file m1 s) ∧
    rebuild_loop (Z.to_nat ns) (data_of R) sz bR bD 0 0 (set_file m1 s) = Ok ((hd0 lR', Z.of_nat (length lR')), set_file m2 s) ∧
    paired (file_of s) m2.
Proof.
  pose proof size_facts as (Hs & Hns & Hrun & _). destruct OR as [LR BR], OD as [LD BD].
  assert (Hdj : disjoint_blocks oR (ns * sz) oD (ns * sz)) by (unfold disjoint_blocks in *; lia).
  destruct (copy_loop_run (Z.to_nat ns) s 0 (data_of R) (data_of D) sz oR oD bD ns ltac:(lia) ltac:(lia) ltac:(lia) LD Hdj) as (m1 & E1 & C1).
  { intros j Hj. split; [by apply (slot_backed WR)|by apply (slot_backed WD)]. }
  destruct (rebuild_loop_run (Z.to_nat ns) (set_file m1 s) (data_of R) sz oR bR bD ns [] 0 Hs ltac:(lia) LR LD) as (m2 & E2 & HL & Ho).
  { intros j Hj. split; [by apply (slot_backed WR)|]. apply (slot_nonzero WR), slot_in, Hj. }
  { done. }
  { by intros x Hx%elem_of_nil. }
  rewrite Z2Nat.id, app_nil_r in * by lia. exists m1, m2. split; [done|]. split; [exact E2|].
  assert (Hj : ∀ k i, 0 ≤ k < ns → 0 ≤ i < sz → (oR + k * sz + i - oR) / sz = k).
  { intros k i Hk Hi. apply slot_of_byte; lia. }
  assert (Hlink : ∀ k i, 0 ≤ k < ns → 0 ≤ i < sz → bit bR k = true ∨ bit bD k = true → byte_at m2 (oR + k * sz + i) = byte_at m1 (oR + k * sz + i)).
  { intros k i Hk Hi Hb. apply Ho. intros j Hj' F1 F2 Hy. assert (j = k) as -> by nia. destruct Hb; congruence. }
  split; [| | |done].
  - intros o Hout. rewrite Ho. { change (file_of (set_file m1 s)) with m1. rewrite C1, decide_False; [done|]. intros [Hq _].
      pose proof (proj2 (slot_of_byte oR sz _ o ltac:(lia)) eq_refl). nia. }
    intros j Hjr _ _ Hy. nia.
  - intros k i Hk Hi Hb. rewrite Hlink by auto. rewrite C1, Hj by done. rewrite decide_True by (split; [lia|done]). f_equal. lia.
  - intros k i Hk Hi Hb. rewrite Hlink by auto. rewrite C1, Hj by done. rewrite decide_False; [done|]. intros [_ Hb'].
    specialize (Hdis k Hk). by rewrite Hb, Hb' in Hdis.
Qed.

Lemma lR'_slots : lR' ⊆ slab_slots r R ∧ lR' ⊆ lR ∧ NoDup lR'.
Proof.
  pose proof size_facts as (Hs & _). split_and!; [| |apply free_both_NoDup; lia].
  - intros x (k & Hk & -> & _)%elem_of_free_both. by apply slot_in.
  - intros x (k & Hk & -> & Hb & _)%elem_of_free_both. rewrite (proj2 OR k Hk) in Hb. apply bool_decide_eq_false in Hb.
    by apply dec_stable in Hb.
Qed.
End pair.
End inv.
