(* ===== verification/MeshPair.v ===== *)
(** * MeshPair: meshing a pair of slabs keeps every byte in use

    A run of [mesh_pair], its remapping granted or refused ([mesh_pair_run]), and the
    invariant of the slabs that stay in service after it ([mesh_after]). *)

From stdpp Require Import prelude gmap.
From S2P Require Import Prelude Memory SizeClass Freelist Heap Dll Pool PoolInv PoolFrame PoolRun PoolSys Tiering Mesh MeshMem MeshOps MeshInv.
Local Open Scope Z_scope.

Lemma page_mul x : x mod BTM_PAGE_SIZE = 0 → x / BTM_PAGE_SIZE * BTM_PAGE_SIZE = x.
Proof. intros H. pose proof (Z.div_mod x BTM_PAGE_SIZE ltac:(unfold BTM_PAGE_SIZE; lia)). lia. Qed.

Lemma data_of_page r d : slab_in r d → data_of d mod BTM_PAGE_SIZE = 0.
Proof.
  intros ((_ & Hc & _) & _). unfold data_of. rewrite Z.mod_add by (unfold BTM_PAGE_SIZE; lia).
  unfold_geometry. apply Z.mod_divide in Hc as [k ->]; [|lia]. apply Z.mod_divide; [lia|]. exists (k * 512). lia.
Qed.

Section pair.
Context {F : FlOps} {FL : FlLaws F}.
Context (remap_ok : Z → Z → bool).
Implicit Types (s : mstate) (A : mslabs) (P : gmap pool_ref (list Z)) (V : Z → Prop) (r : pool_ref).

(** The page table and the file after a remap of [D] onto [R], when the kernel grants it. *)
Definition remapped s r (R D : Z) (pt : page_table) (m : gmap Z Z) (k : Z) (pt' : page_table) (m' : gmap Z Z) : Prop :=
  (k = 0 ∧ pt' = pt ∧ m' = m) ∨
  (k = run_len r ∧ pt' = map_pages (btm_sc_run_pages r.2) (data_of D / BTM_PAGE_SIZE) (file_off (p_heap s) R / BTM_PAGE_SIZE) pt ∧
   m' = zero_range m (file_off (p_heap s) D) (run_len r)).

Lemma remap_run s s3 r R D lR lD :
  mslab s r R lR → mslab s r D lD → h_chunks (p_heap s3) = h_chunks (p_heap s) →
  (npages (slab_at (p_heap s3) D) = btm_sc_run_pages r.2 ∧ first_page (slab_at (p_heap s3) D) = page_of D) →
  first_page (slab_at (p_heap s3) R) = page_of R →
  ∃ k pt' m', btm_mesh_remap remap_ok D R s3 = Ok (k, set_file m' (set_pages pt' s3)) ∧
    remapped s r R D (p_src s3) (file_of s3) k pt' m'.
Proof.
  intros WR WD Ec [ED1 ED2] ER. unfold btm_mesh_remap.
  assert (HD : mapped (p_heap s3) D) by (unfold mapped; rewrite Ec; apply WD). assert (HR : mapped (p_heap s3) R) by (unfold mapped; rewrite Ec; apply WR).
  assert (Ech : ∀ c, chunk_at (p_heap s3) c = chunk_at (p_heap s) c) by (intros c; unfold chunk_at; by rewrite Ec).
  pstep. pstep. erewrite run_bind by (apply run_get_chunk; exact HD). erewrite run_bind by (apply run_get_chunk; exact HR).
  rewrite ED1, ED2, ER, !Ech. change (_ * BTM_PAGE_SIZE) with (run_len r) at 2. destruct (remap_ok _ _).
  - do 3 eexists. split; [reflexivity|]. right. done.
  - exists 0, (p_src s3), (file_of s3). split; [by destruct s3 as [[]]|]. by left.
Qed.

(** What the call leaves. *)
Record meshed s r (R D : Z) (bR bD : list Z) (L : list Z) (k : Z) s' : Prop := {
  me_chunks : h_chunks (p_heap s') = h_chunks (p_heap s);
  me_pool : ∃ pl', p_pools s' = <[r := pl']> (p_pools s) ∧ partial pl' = hd0 L;
  me_dll : dll s_next s_prev (slab_at (p_heap s')) 0 L;
  me_core y : y ≠ R → y ≠ D → same_core (slab_at (p_heap s) y) (slab_at (p_heap s') y);
  me_links y : y ∉ L → y ≠ R → y ≠ D → slab_at (p_heap s') y = slab_at (p_heap s) y;
  me_free : let l := free_both bR bD (data_of R) (btm_sc_to_size r.2) (slots_of_class r.2) in
    same_core (slab_set_free (hd0 l) (Z.of_nat (length l)) (slab_at (p_heap s) R)) (slab_at (p_heap s') R);
  me_retired : retired (slab_at (p_heap s') D) = true;
  me_file : ∃ m, paired (s := s) (r := r) (R := R) (D := D) (bR := bR) (bD := bD) (file_of s) m ∧
    remapped s r R D (p_src s) m k (p_src s') (file_of s');
}.

Lemma mesh_pair_run s r R D lR lD bR bD pl L1 L2 :
  mslab s r R lR → mslab s r D lD → occupancy r R lR bR → occupancy r D lD bD → R ≠ D →
  disjoint_blocks (file_off (p_heap s) R) (run_len r) (file_off (p_heap s) D) (run_len r) →
  (∀ k, 0 ≤ k < slots_of_class r.2 → bit bR k && bit bD k = false) →
  p_pools s !! r = Some pl → partial pl = hd0 (L1 ++ D :: L2) → NoDup (L1 ++ D :: L2) →
  (∀ d, d ∈ L1 ++ D :: L2 → d ≠ 0 ∧ mapped (p_heap s) d) → dll s_next s_prev (slab_at (p_heap s)) 0 (L1 ++ D :: L2) →
  runs (mesh_pair remap_ok r R D bR bD) s (meshed s r R D bR bD (L1 ++ L2)).
Proof.
  intros WR WD OR OD Hne Hfile Hdis Hpl Hhd Hnd Hin Hdll.
  destruct (mi_fields _ _ _ _ WR) as [R1 R2 R3 R4 R5 R6 R7], (mi_fields _ _ _ _ WD) as [D1 D2 D3 D4 D5 D6 D7].
  destruct (pair_loops_run WR WD OR OD Hfile Hdis) as (m1 & m2 & E1 & E2 & HP).
  pose proof (mslab_mapped WR) as MR. pose proof (mslab_mapped WD) as MD. unfold mesh_pair.
  apply (runs_step _ _ _ s (slab_at (p_heap s) R)); [by apply run_get_slab|]. apply (runs_step _ _ _ s (slab_at (p_heap s) D)); [by apply run_get_slab|].
  rewrite D3, R3, R4, (mslab_data WR), (mslab_data WD). apply (runs_step _ _ _ _ _ _ E1), (runs_step _ _ _ _ _ _ E2).
  set (l := free_both bR bD (data_of R) (btm_sc_to_size r.2) (slots_of_class r.2)) in *. cbv beta iota.
  set (s3 := set_heap (heap_set_slab R (slab_set_free (hd0 l) (Z.of_nat (length l)) (slab_at (p_heap s) R)) (heap_set_mem m2 (p_heap s))) s).
  assert (E3 : ∀ y, slab_at (p_heap s3) y = if decide (y = R) then slab_set_free (hd0 l) (Z.of_nat (length l)) (slab_at (p_heap s) R) else slab_at (p_heap s) y).
  { intros y. unfold s3. pcbn. by rewrite slab_at_set. }
  apply (runs_step _ _ _ s3 tt); [by apply (run_upd_slab (set_file m2 s))|].
  destruct (remap_run s s3 r R D lR lD WR WD eq_refl) as (k & pt & m & E4 & Hre).
  { rewrite E3, decide_False by done. done. }
  { by rewrite E3, decide_True by done. }
  apply (runs_step _ _ _ _ _ _ E4). set (s4 := set_file m (set_pages pt s3)) in *.
  assert (Elink : ∀ y, s_next (slab_at (p_heap s4) y) = s_next (slab_at (p_heap s) y) ∧ s_prev (slab_at (p_heap s4) y) = s_prev (slab_at (p_heap s) y)).
  { intros y. change (slab_at (p_heap s4) y) with (slab_at (p_heap s3) y). rewrite E3. by case_decide as Ey; [subst y|]. }
  assert (Hdll4 : dll s_next s_prev (slab_at (p_heap s4)) 0 (L1 ++ D :: L2)).
  { apply (dll_ext s_next s_prev (slab_at (p_heap s))); [|done]. intros y _. split; apply Elink. }
  destruct (dll_neighbours s_next s_prev (slab_at (p_heap s4)) L1 D L2 Hnd (λ y Hy, proj1 (Hin y Hy)) Hdll4) as (N1 & N2 & N3 & N4 & N5).
  assert (Hsub : ∀ y, y ∈ L1 ++ L2 → mapped (p_heap s4) y).
  { intros y Hy. apply (Hin y). apply elem_of_app in Hy. apply elem_of_app. destruct Hy; [by left|right; by right]. }
  destruct (partial_remove_run s4 r pl D Hpl MD) as (h5 & E5 & M5 & C5 & S5).
  { split_and!; [intros ?; by apply Hsub, N4|intros ?; by apply Hsub, N5|done..]. }
  apply (runs_step _ _ _ _ _ _ E5). set (s5 := mk_pstate h5 _ _ _).
  assert (MD5 : mapped (p_heap s5) D) by (unfold mapped, s5; pcbn; by rewrite C5).
  set (s6 := set_heap (heap_set_slab D (slab_set_retired true (slab_at h5 D)) h5) s5).
  apply (runs_step _ _ _ s6 tt); [by apply run_upd_slab|]. apply runs_ret.
  assert (E6 : ∀ y, y ≠ D → slab_at (p_heap s6) y = slab_at h5 y) by (intros y Hy; unfold s6; pcbn; by rewrite slab_at_set, decide_False).
  assert (HDL : D ∉ L1 ++ L2).
  { apply NoDup_app in Hnd as (_ & Hd & [H2 _]%NoDup_cons). intros [Hy|Hy]%elem_of_app; [|done]. apply (Hd D Hy). left. }
  destruct (dll_remove s_next s_prev (slab_at (p_heap s4)) (slab_at (p_heap s6)) L1 D L2 Hnd (λ y Hy, proj1 (Hin y Hy)) Hdll4) as [Hdll6 Hhd6].
  { intros y Hy Hyd. rewrite E6 by done. rewrite S5, decide_False by done.
    destruct (Hin y Hy) as [Hy0 _]. set (vD := slab_at (p_heap s4) D) in *.
    destruct (decide (y = s_prev vD)) as [Ep|Np], (decide (y = s_next vD)) as [En|Nn].
    - exfalso. apply Hy0. rewrite Ep. apply N3. congruence.
    - rewrite decide_True by (split; congruence). done.
    - rewrite decide_False by (intros [? _]; done). rewrite decide_True by (split; congruence). done.
    - rewrite !decide_False by (intros [? _]; done). done. }
  assert (Hcore5 : ∀ y, y ≠ D → same_core (slab_at (p_heap s3) y) (slab_at (p_heap s6) y)).
  { intros y Hy. rewrite E6, S5, decide_False by done. repeat case_decide; by split. }
  split.
  - unfold s6. pcbn. cbn. rewrite C5. done.
  - exists (if decide (s_prev (slab_at (p_heap s4) D) = 0) then pool_set_partial (s_next (slab_at (p_heap s4) D)) pl else pl).
    split; [done|]. rewrite Hhd6. by case_decide.
  - done.
  - intros y HyR HyD. pose proof (Hcore5 y HyD) as Hk. rewrite E3, decide_False in Hk by done. done.
  - intros y HyL HyR HyD. rewrite E6, S5, decide_False by done. rewrite !decide_False; [change (slab_at (p_heap s4) y) with (slab_at (p_heap s3) y); by rewrite E3, decide_False|..].
    + intros [-> Hn]. by apply HyL, N5.
    + intros [-> Hn]. by apply HyL, N4.
  - intros l'. fold l in l'. subst l'. pose proof (Hcore5 R Hne) as Hk. by rewrite E3, decide_True in Hk by done.
  - unfold s6. pcbn. by rewrite slab_at_set, decide_True.
  - exists m2. split; [done|]. unfold s6. unfold file_of at 1. cbn. rewrite M5. exact Hre.
Qed.
End pair.

(** ** The invariant afterwards *)
Section after.
Context {F : FlOps} {FL : FlLaws F}.
Context {s s' : mstate} {A : mslabs} {P : gmap pool_ref (list Z)} {V : Z → Prop} {r : pool_ref} {R D k : Z} {lR lD bR bD L1 L2 : list Z}.
Context (HM : mesh_ok s A P V) (HR : A !! R = Some (r, lR)) (HD : A !! D = Some (r, lD)) (Hne : R ≠ D).
Context (OR : occupancy r R lR bR) (OD : occupancy r D lD bD).
Context (Hdis : ∀ k, 0 ≤ k < slots_of_class r.2 → bit bR k && bit bD k = false).
Context (HL : P !! r = Some (L1 ++ D :: L2)) (Hpriv : private s V r D).
Context (Hme : meshed s r R D bR bD (L1 ++ L2) k s').
Abbreviation sz := (btm_sc_to_size r.2).
Abbreviation ns := (slots_of_class r.2).
Abbreviation oR := (file_off (p_heap s) R).
Abbreviation oD := (file_off (p_heap s) D).
Abbreviation lR' := (free_both bR bD (data_of R) sz ns).

Lemma WR : mslab s r R lR. Proof. by apply (mo_slab _ _ _ _ HM). Qed.
Lemma WD : mslab s r D lD. Proof. by apply (mo_slab _ _ _ _ HM). Qed.
Lemma files_apart : disjoint_blocks oR (run_len r) oD (run_len r).
Proof. by apply (mo_file _ _ _ _ HM R r lR D r lD). Qed.
Lemma sizes : 16 ≤ sz ∧ 8 ≤ ns ≤ 256 ∧ ns * sz ≤ run_len r ∧ 0 < run_len r.
Proof. apply (size_facts WR). Qed.

Lemma off_same d : file_off (p_heap s') d = file_off (p_heap s) d.
Proof. unfold file_off, chunk_at. by rewrite (me_chunks _ _ _ _ _ _ _ _ _ Hme). Qed.

(** Addresses outside the donor are translated as before, those of the donor to its own
    pages or to the recipient's. *)
Lemma trans_other a : ¬ (data_of D ≤ a < data_of D + run_len r) → translate (p_src s') a = translate (p_src s) a.
Proof.
  intros Ha. destruct (me_file _ _ _ _ _ _ _ _ _ Hme) as (m & _ & [(_ & -> & _)|(_ & -> & _)]); [done|].
  apply map_pages_other. rewrite Z.mul_add_distr_r, page_mul by (apply (data_of_page r), WD). exact Ha.
Qed.

Lemma trans_donor :
  (∀ a, data_of D ≤ a < data_of D + run_len r → translate (p_src s') a = Some (oD + (a - data_of D))) ∨
  (∀ a, data_of D ≤ a < data_of D + run_len r → translate (p_src s') a = Some (oR + (a - data_of D))).
Proof.
  destruct (me_file _ _ _ _ _ _ _ _ _ Hme) as (m & _ & [(_ & -> & _)|(_ & -> & _)]).
  - left. intros a. apply backed_at, WD.
  - right. intros a Ha. pose proof (map_pages_backed (btm_sc_run_pages r.2) (data_of D / BTM_PAGE_SIZE) (oR / BTM_PAGE_SIZE) (p_src s)) as HB.
    rewrite !page_mul in HB by (first [apply (mi_off _ _ _ _ WR)|apply (data_of_page r), WD]). by apply (backed_at _ _ _ _ _ HB).
Qed.

(** The file outside the recipient's slots and the donor's pages. *)
Lemma file_same o : ¬ (oR ≤ o < oR + run_len r) → ¬ (oD ≤ o < oD + run_len r) → byte_at (file_of s') o = byte_at (file_of s) o.
Proof.
  intros H1 H2. pose proof sizes. destruct (me_file _ _ _ _ _ _ _ _ _ Hme) as (m & HP & [(_ & _ & ->)|(_ & _ & ->)]); [|rewrite byte_at_zero_range, decide_False by done];
    apply (pd_other _ _ HP); lia.
Qed.

(** The recipient's part of the file is as the loops left it. *)
Lemma file_recipient : ∃ m, paired (s := s) (r := r) (R := R) (D := D) (bR := bR) (bD := bD) (file_of s) m ∧
  ∀ o, oR ≤ o < oR + run_len r → byte_at (file_of s') o = byte_at m o.
Proof.
  pose proof files_apart as Hf. destruct (me_file _ _ _ _ _ _ _ _ _ Hme) as (m & HP & [(_ & _ & ->)|(_ & _ & ->)]); exists m; (split; [done|]); intros o Ho; [done|].
  rewrite byte_at_zero_range, decide_False; [done|]. unfold disjoint_blocks in Hf. lia.
Qed.

(** An address in use in the donor's data lies in an occupied slot. *)
Lemma donor_slot a : V a → data_of D ≤ a < data_of D + run_len r →
  ∃ k i, 0 ≤ k < ns ∧ 0 ≤ i < sz ∧ a = data_of D + k * sz + i ∧ bit bD k = true ∧ bit bR k = false.
Proof.
  intros Ha Hin. destruct (mo_used _ _ _ _ HM a D r lD Ha HD Hin) as (x & Hx & Hxl & Hax). destruct (slot_number WD x Hx) as [Hk Ex].
  set (j := (x - data_of D) / sz) in *. exists j, (a - x).
  assert (Hb : bit bD j = true) by (rewrite (proj2 OD j Hk); apply bool_decide_eq_true; by rewrite <-Ex).
  split_and!; [lia..|done|]. specialize (Hdis j Hk). rewrite Hb, andb_true_r in Hdis. done.
Qed.

(** Where an address in use is afterwards. *)
Lemma vaddr_place a o : V a → translate (p_src s') a = Some o →
  translate (p_src s) a = Some o ∨
  ∃ k i, 0 ≤ k < ns ∧ 0 ≤ i < sz ∧ o = oR + k * sz + i ∧ bit bD k = true ∧ bit bR k = false ∧ data_of D ≤ a < data_of D + run_len r.
Proof.
  intros Ha Ho. destruct (decide (data_of D ≤ a < data_of D + run_len r)) as [Hin|Hout]; [|left; by rewrite <-trans_other].
  destruct trans_donor as [Ht|Ht]; rewrite Ht in Ho by done; injection Ho as <-.
  - left. apply (backed_at _ _ _ _ _ (mi_backed _ _ _ _ WD) Hin).
  - right. destruct (donor_slot a Ha Hin) as (j & i & Hj & Hi & -> & H1 & H2). exists j, i. split_and!; try done; lia.
Qed.

Lemma recipient_slot o : oR ≤ o < oR + ns * sz → ∃ j i, 0 ≤ j < ns ∧ 0 ≤ i < sz ∧ o = oR + j * sz + i.
Proof.
  intros Ho. pose proof sizes. pose proof (proj2 (slot_of_byte oR sz _ o ltac:(lia)) eq_refl) as Hj. set (j := (o - oR) / sz) in *.
  exists j, (o - oR - j * sz). split_and!; nia.
Qed.

(** Every byte in use reads as before. *)
Lemma live_read a : V a → vread s' a = vread s a.
Proof.
  intros Ha. pose proof sizes as (Hs & Hns & Hrun & _). pose proof files_apart as Hf. destruct (mo_live _ _ _ _ HM a Ha) as [o Ho].
  unfold vread, vbyte. rewrite Ho. destruct file_recipient as (m & HP & Hm).
  destruct (decide (data_of D ≤ a < data_of D + run_len r)) as [Hin|Hout].
  - destruct (donor_slot a Ha Hin) as (j & i & Hj & Hi & Ea & Hb & _).
    rewrite (backed_at _ _ _ _ _ (mi_backed _ _ _ _ WD) Hin) in Ho. injection Ho as <-. destruct trans_donor as [Ht|Ht]; rewrite Ht by done.
    + destruct (me_file _ _ _ _ _ _ _ _ _ Hme) as (m' & HP' & [(_ & _ & ->)|(_ & Ep & _)]).
      * apply (pd_other _ _ HP'). unfold disjoint_blocks in Hf. lia.
      * exfalso. pose proof (map_pages_backed (btm_sc_run_pages r.2) (data_of D / BTM_PAGE_SIZE) (oR / BTM_PAGE_SIZE) (p_src s)) as HB.
        rewrite !page_mul in HB by (first [apply (mi_off _ _ _ _ WR)|apply (data_of_page r), WD]). rewrite <-Ep in HB.
        pose proof (backed_at _ _ _ _ a HB Hin) as E. rewrite Ht in E by done. injection E as E. unfold disjoint_blocks in Hf. lia.
    + assert (j * sz + i < ns * sz) by nia. assert (0 ≤ j * sz + i) by nia. rewrite Hm by lia.
      replace (oR + (a - data_of D)) with (oR + j * sz + i) by lia. rewrite (pd_moved _ _ HP j i Hj Hi Hb). f_equal. lia.
  - rewrite trans_other, Ho by done.
    assert (HoD : ¬ (oD ≤ o < oD + run_len r)) by (intros HoD; by apply Hout, (Hpriv a o)).
    destruct (decide (oR ≤ o < oR + run_len r)) as [HoR|]; [|by apply file_same]. rewrite Hm by done.
    destruct (decide (oR ≤ o < oR + ns * sz)) as [HoS|]; [|by apply (pd_other _ _ HP)].
    destruct (recipient_slot o HoS) as (j & i & Hj & Hi & ->). apply (pd_kept _ _ HP); [done..|]. rewrite (proj2 OR j Hj). apply bool_decide_eq_true.
    intros Hfree. apply (mo_kept _ _ _ _ HM a _ R r lR _ Ha Ho HR Hfree). lia.
Qed.

(** The slabs in service and the lists afterwards. *)
Abbreviation A' := (<[R := (r, lR')]> (delete D A)).
Abbreviation P' := (<[r := L1 ++ L2]> P).

Lemma slabs_after d r' l : A' !! d = Some (r', l) → (d = R ∧ r' = r ∧ l = lR') ∨ (d ≠ R ∧ d ≠ D ∧ A !! d = Some (r', l)).
Proof. intros [[<- [= <- <-]]|[Hd [Hd' Hl]%lookup_delete_Some]]%lookup_insert_Some; [by left|right; by split_and!]. Qed.

Lemma slabs_before d r' l : A' !! d = Some (r', l) → d ≠ D ∧ ∃ l0, A !! d = Some (r', l0) ∧ l ⊆ l0.
Proof.
  intros [(-> & -> & ->)|(? & ? & Hl)]%slabs_after; [|split; [done|]; by exists l]. split; [done|]. exists lR. split; [done|].
  apply (lR'_slots WR OR).
Qed.

Lemma recipient_after : mslab s' r R lR'.
Proof.
  pose proof WR as [W1 W2 W3 W4 W5 W6 W7 W8 W9 W10]. pose proof (lR'_slots (bD := bD) WR OR) as (S1 & S2 & S3).
  pose proof (me_free _ _ _ _ _ _ _ _ _ Hme) as Hk. cbv zeta in Hk.
  assert (Ht : ∀ a, data_of R ≤ a < data_of R + run_len r → translate (p_src s') a = translate (p_src s) a).
  { intros a Ha. apply trans_other. pose proof (mo_virt _ _ _ _ HM R r lR D r lD HR HD Hne) as Hv. unfold disjoint_blocks in Hv. lia. }
  split; rewrite ?off_same; try done.
  - unfold has_chunk. by rewrite (me_chunks _ _ _ _ _ _ _ _ _ Hme).
  - destruct Hk as [K1 K2 K3 K4 K5 K6 K7 K8 K9], W4 as [F1 F2 F3 F4 F5 F6 F7 F8]. cbn in *. split; [congruence..|auto].
  - apply (sk_head _ _ Hk).
  - destruct file_recipient as (m & HP & Hm). apply (mlist_ext (p_src s) m); [|apply HP]. intros x y Hx Hy.
    destruct (slot_number WR x (S1 _ Hx)) as [Hi Ex]. pose proof (slots_fit r W1 _ Hi) as (? & ? & ?).
    unfold vbyte. rewrite Ht by (unfold run_len; lia). rewrite (backed_at _ _ _ _ y W10) by (unfold run_len; lia). symmetry. apply Hm. unfold run_len. lia.
  - intros i Hi. rewrite Ht by lia. by apply W10.
Qed.

Lemma other_after d r' l : d ≠ R → d ≠ D → A !! d = Some (r', l) → mslab s' r' d l.
Proof.
  intros HdR HdD Hd. apply (mslab_frame s s' r' d l (mo_slab _ _ _ _ HM d r' l Hd)); [apply Hme|by apply Hme| |].
  - intros a Ha. apply trans_other. pose proof (mo_virt _ _ _ _ HM d r' l D r lD Hd HD HdD) as Hv. unfold disjoint_blocks in Hv. lia.
  - intros o Ho. pose proof (mo_file _ _ _ _ HM d r' l D r lD Hd HD HdD) as H1. pose proof (mo_file _ _ _ _ HM d r' l R r lR Hd HR HdR) as H2.
    unfold disjoint_blocks in *. apply file_same; lia.
Qed.

Lemma donor_listed d : d ∈ L1 ++ L2 → d ≠ D ∧ d ∈ L1 ++ D :: L2.
Proof.
  destruct (mo_pool _ _ _ _ HM r _ HL) as (pl & _ & _ & Hnd & _). intros Hd. apply NoDup_app in Hnd as (_ & Ha & [Hn _]%NoDup_cons). split.
  - intros ->. apply elem_of_app in Hd as [Hd|Hd]; [|done]. apply (Ha D Hd). left.
  - apply elem_of_app. apply elem_of_app in Hd as [?|?]; [by left|right; by right].
Qed.

(** Other pools' lists are not touched. *)
Lemma list_after r' L : r' ≠ r → P !! r' = Some L →
  ∃ pl, p_pools s' !! r' = Some pl ∧ partial pl = hd0 L ∧ NoDup L ∧ dll s_next s_prev (slab_at (p_heap s')) 0 L.
Proof.
  intros Hr HLr. destruct (mo_pool _ _ _ _ HM r' L HLr) as (pl & Hpl & Hhd & Hnd & Hdll). exists pl.
  destruct (me_pool _ _ _ _ _ _ _ _ _ Hme) as (pl' & -> & _). rewrite lookup_insert_ne by done. split_and!; [done..|].
  apply (dll_ext s_next s_prev (slab_at (p_heap s))); [|done]. intros d Hd. destruct (mo_dom _ _ _ _ HM r' L d HLr Hd) as (_ & l & Hl).
  rewrite (me_links _ _ _ _ _ _ _ _ _ Hme d); [done|..].
  - intros [_ Hd']%donor_listed. destruct (mo_dom _ _ _ _ HM r _ d HL Hd') as (_ & l' & Hl'). congruence.
  - intros ->. congruence.
  - intros ->. congruence.
Qed.

Lemma kept_after a o d r' l x : V a → translate (p_src s') a = Some o → A' !! d = Some (r', l) → x ∈ l →
  ¬ (file_off (p_heap s) d + (x - data_of d) ≤ o < file_off (p_heap s) d + (x - data_of d) + btm_sc_to_size r'.2).
Proof.
  intros Ha Ho Hd Hx. destruct (vaddr_place a o Ha Ho) as [Ho'|(j & i & Hj & Hi & -> & Hb & HbR & _)].
  - destruct (slabs_before d r' l Hd) as (_ & l0 & Hl0 & Hsub). by apply (mo_kept _ _ _ _ HM a o d r' l0 x Ha Ho' Hl0), Hsub.
  - pose proof sizes as (? & ? & ? & _). apply slabs_after in Hd as [(-> & -> & ->)|(HdR & HdD & Hd)].
    + apply elem_of_free_both in Hx as (j' & Hj' & -> & _ & Hb'). intros Hin. assert (j' = j) as -> by nia. congruence.
    + pose proof (mo_slab _ _ _ _ HM d r' l Hd) as W. destruct (slot_number W x (mi_slots _ _ _ _ W _ Hx)) as [Hi' Ex].
      pose proof (slots_fit r' (mi_sc _ _ _ _ W) _ Hi') as (? & ? & ?). pose proof (mo_file _ _ _ _ HM d r' l R r lR Hd HR HdR) as Hf.
      unfold disjoint_blocks, run_len in *. assert (0 ≤ j * sz + i < ns * sz) by nia. lia.
Qed.

Lemma mesh_after : mesh_ok s' A' P' V.
Proof.
  split.
  - intros d r' l [(-> & -> & ->)|(? & ? & Hd)]%slabs_after; [apply recipient_after|by apply other_after].
  - intros d1 r1 l1 d2 r2 l2 (_ & l1' & H1 & _)%slabs_before (_ & l2' & H2 & _)%slabs_before Hd. rewrite !off_same.
    by apply (mo_file _ _ _ _ HM d1 r1 l1' d2 r2 l2').
  - intros d1 r1 l1 d2 r2 l2 (_ & l1' & H1 & _)%slabs_before (_ & l2' & H2 & _)%slabs_before Hd. by apply (mo_virt _ _ _ _ HM d1 r1 l1' d2 r2 l2').
  - intros r' L [[<- <-]|[Hr HLr]]%lookup_insert_Some; [|apply list_after; [by apply not_eq_sym|done]].
    destruct (mo_pool _ _ _ _ HM r _ HL) as (_ & _ & _ & Hnd & _). destruct (me_pool _ _ _ _ _ _ _ _ _ Hme) as (pl' & -> & Hhd).
    exists pl'. rewrite lookup_insert_eq. split_and!; [done|done| |apply Hme].
    apply NoDup_app in Hnd as (N1 & N2 & [_ N3]%NoDup_cons). apply NoDup_app. split_and!; [done| |done]. intros d Hd Hd'. apply (N2 d Hd). by right.
  - intros r' L d [[<- <-]|[Hr HLr]]%lookup_insert_Some Hd.
    + apply donor_listed in Hd as [HdD Hd]. destruct (mo_dom _ _ _ _ HM r _ d HL Hd) as (H0 & l & Hl). split; [done|].
      destruct (decide (d = R)) as [->|]; [exists lR'; apply lookup_insert_eq|exists l; by rewrite lookup_insert_ne, lookup_delete_ne].
    + destruct (mo_dom _ _ _ _ HM r' L d HLr Hd) as (H0 & l & Hl). split; [done|]. exists l.
      rewrite lookup_insert_ne, lookup_delete_ne; [done|intros ->; congruence..].
  - intros a Ha. destruct (decide (data_of D ≤ a < data_of D + run_len r)) as [Hin|Hout].
    + destruct trans_donor as [Ht|Ht]; rewrite Ht by done; by eexists.
    + rewrite trans_other by done. by apply HM.
  - intros a o d r' l x Ha Ho Hd Hx. rewrite off_same. by apply (kept_after a o d r' l x).
  - intros a d r' l Ha Hd Hin. destruct (slabs_before d r' l Hd) as (_ & l0 & Hl0 & Hsub).
    destruct (mo_used _ _ _ _ HM a d r' l0 Ha Hl0 Hin) as (x & Hx & Hxl & Hax). exists x. split_and!; [done|by intros ?%Hsub|lia..].
Qed.

(** The donor's slots are the recipient's. *)
Lemma merged_after : merged (λ d, if decide (d = D) then R else d) s A P s' A' P'.
Proof.
  assert (HdR : ∀ d r' l, A' !! d = Some (r', l) → d ≠ D) by (intros d r' l (? & _)%slabs_before; done).
  split.
  - intros d r' l Hd. case_decide as E; [subst d; rewrite HD in Hd; injection Hd as <- <-; exists lR'; apply lookup_insert_eq|].
    destruct (decide (d = R)) as [->|]; [rewrite HR in Hd; injection Hd as <- <-; exists lR'; apply lookup_insert_eq|].
    exists l. by rewrite lookup_insert_ne, lookup_delete_ne.
  - intros d r' l Hd. pose proof (slabs_before d r' l Hd) as (HdD & l0 & Hl0 & _). rewrite decide_False by done. split; [done|]. by exists l0.
  - intros d r' l i Hd Hi. apply slabs_after in Hd as [(-> & -> & ->)|(HdR' & HdD & Hd)].
    + assert (Hfree : ∀ y b ly, A !! y = Some (r, ly) → occupancy r y ly b → data_of y + i * sz ∈ ly ↔ bit b i = false).
      { intros y b ly _ Hb. rewrite (proj2 Hb i Hi), bool_decide_eq_false. split; [by intros ? []|]. intros H. by apply dec_stable in H. }
      pose proof (Hfree R bR lR HR OR) as FR. pose proof (Hfree D bD lD HD OD) as FD. rewrite elem_of_free_both. split.
      * intros (j & Hj & E & H1 & H2) y ly Hy. pose proof sizes. assert (i = j) as <- by nia. case_decide as Ey; [subst y|intros ->];
          [rewrite HD in Hy|rewrite HR in Hy]; injection Hy as <-; [intros _; by apply FD|by apply FR].
      * intros H. exists i. split; [done|]. split; [done|]. split; [apply FR, (H R lR HR); by rewrite decide_False|apply FD, (H D lD HD); by rewrite decide_True].
    + split; [|intros H; apply (H d l Hd); by rewrite decide_False]. intros Hin y ly Hy. case_decide; [intros <-; done|intros ->]. congruence.
  - intros d Hd Hr. destruct (decide (d = D)) as [->|HdD]; [apply Hme|]. destruct (decide (d = R)) as [->|HdR']; [by rewrite lookup_insert_eq in Hd|].
    rewrite lookup_insert_ne, lookup_delete_ne in Hd by done. rewrite (sk_retired _ _ (me_core _ _ _ _ _ _ _ _ _ Hme d HdR' HdD)).
    destruct Hr as [[]|]; [congruence|done].
  - assert (Hk : ∀ L : list Z, (∀ d, d ∈ L → ∃ (r' : pool_ref) (l : list Z), A !! d = Some (r', l)) → (D ∉ L) → filter (λ d, is_Some (A' !! d)) L = L).
    { intros L Hin HDL. apply filter_all. intros d Hd. destruct (Hin d Hd) as (r' & l & Hl).
      destruct (decide (d = R)) as [->|]; [rewrite lookup_insert_eq; by eexists|]. rewrite lookup_insert_ne, lookup_delete_ne by (done || by intros ->). by eexists. }
    intros r'. destruct (decide (r' = r)) as [->|Hr].
    + rewrite lookup_insert_eq, HL. cbn. f_equal. rewrite filter_app, filter_cons_False.
      2: { rewrite lookup_insert_ne, lookup_delete_eq by done. by intros []. }
      rewrite <-filter_app, Hk; [done| |intros []%donor_listed; done]. intros d [_ Hd]%donor_listed.
      destruct (mo_dom _ _ _ _ HM r _ d HL Hd) as (_ & l & Hl). by exists r, l.
    + rewrite lookup_insert_ne by done. destruct (P !! r') as [L|] eqn:E; cbn; [|done]. f_equal. symmetry. apply Hk.
      * intros d Hd. destruct (mo_dom _ _ _ _ HM r' L d E Hd) as (_ & l & Hl). by exists r', l.
      * intros Hd. destruct (mo_dom _ _ _ _ HM r' L D E Hd) as (_ & l & Hl). congruence.
Qed.

(** The other slabs' pages stay their own. *)
Lemma private_after d r' l : d ≠ R → d ≠ D → A !! d = Some (r', l) → private s V r' d → private s' V r' d.
Proof.
  intros HdR HdD Hd Hp a o Ha Ho Hin. rewrite off_same in Hin. destruct (vaddr_place a o Ha Ho) as [Ho'|(j & i & Hj & Hi & -> & _)]; [by apply (Hp a o)|].
  pose proof (mo_file _ _ _ _ HM d r' l R r lR Hd HR HdR) as Hf. pose proof sizes as (? & ? & ? & _). unfold disjoint_blocks in Hf.
  assert (0 ≤ j * sz + i < ns * sz) by nia. lia.
Qed.
End after.
