(* ===== verification/MeshCompact.v ===== *)
(** * MeshCompact: a whole call of [btm_compact]

    The candidates of a pool take part in one pair each, so a donor's pages are its own
    when it is meshed, provided no slab shared its pages when the call began. *)

From stdpp Require Import prelude gmap.
From S2P Require Import Prelude Memory SizeClass Freelist Heap Dll Pool PoolInv PoolFrame PoolRun PoolSys Tiering Mesh MeshMem MeshOps MeshInv MeshPair.
Local Open Scope Z_scope.

Section compact.
Context {F : FlOps} {FL : FlLaws F}.
Context (remap_ok : Z → Z → bool) (V : Z → Prop).
Implicit Types (s : mstate) (A : mslabs) (P : gmap pool_ref (list Z)) (r : pool_ref).

Abbreviation mesh_ok s A P := (MeshInv.mesh_ok s A P V).
Abbreviation private s := (MeshInv.private s V).

(** ** The candidates *)
Definition candidate A r (c : Z * list Z) : Prop := ∃ l, A !! c.1 = Some (r, l) ∧ occupancy r c.1 l c.2.

Lemma gather_run s A P r q prev fuel nc :
  mesh_ok s A P → dll s_next s_prev (slab_at (p_heap s)) prev q → NoDup q → (∀ d, d ∈ q → d ≠ 0 ∧ ∃ l, A !! d = Some (r, l)) →
  (length q ≤ fuel)%nat →
  ∃ cand, gather fuel (hd0 q) nc s = Ok (cand, s) ∧ NoDup cand.*1 ∧ cand.*1 ⊆ q ∧ ∀ c, c ∈ cand → candidate A r c.
Proof.
  intros HM. revert q prev nc. induction fuel as [|fuel IH]; intros [|d q] prev nc Hd Hnd Hq Hf; cbn [gather hd0]; cbn in Hf; try lia.
  1, 2: exists []; split; [done|]; split; [constructor|]; split; [apply list_subseteq_nil|]; by intros c Hc%elem_of_nil.
  destruct (Hq d ltac:(left)) as (Hd0 & l & Hl). rewrite (proj2 (Z.eqb_neq d 0)) by done. cbn [orb].
  destruct (64 <=? Z.of_nat nc). { exists []. split; [done|]. split; [constructor|]. split; [apply list_subseteq_nil|]. by intros c Hc%elem_of_nil. }
  pose proof (mo_slab _ _ _ _ HM d r l Hl) as W. erewrite run_bind by (apply run_get_slab, (mslab_mapped W)). destruct Hd as (_ & Hn & Hd). rewrite Hn.
  apply NoDup_cons in Hnd as [Hdq Hnd]. assert (Hq' : ∀ y, y ∈ q → y ≠ 0 ∧ ∃ l, A !! y = Some (r, l)) by (intros y Hy; apply Hq; by right).
  destruct (_ || _ || _).
  - destruct (IH q d nc Hd Hnd Hq' ltac:(lia)) as (cand & E & H1 & H2 & H3). exists cand. split_and!; [done|done| |done].
    intros y Hy. right. by apply H2.
  - destruct (build_occ_run W) as (bm & Eb & Hlen & Hbits). rewrite (run_bind _ _ _ _ _ Eb).
    destruct (IH q d (S nc) Hd Hnd Hq' ltac:(lia)) as (cand & E & H1 & H2 & H3). rewrite (run_bind _ _ _ _ _ E).
    exists ((d, bm) :: cand). split; [done|]. split; [|split].
    + cbn. apply NoDup_cons. split; [|done]. intros Hin. by apply Hdq, H2.
    + cbn. intros y [->|Hy]%elem_of_cons; [left|right; by apply H2].
    + intros c [->|Hc]%elem_of_cons; [|by apply H3]. exists l. done.
Qed.

(** The choice of a donor reads the state only. *)
Lemma find_donor_run s A P r cand used i n j :
  mesh_ok s A P → (∀ i c, cand !! i = Some c → used !! i = Some false → candidate A r c) → length used = length cand →
  used !! i = Some false → (n + j ≤ length cand)%nat →
  ∃ o, find_donor n cand used i j s = Ok (o, s) ∧
    ∀ j', o = Some j' → i ≠ j' ∧ used !! j' = Some false ∧
      ∃ ci cj, cand !! i = Some ci ∧ cand !! j' = Some cj ∧ occ_disjoint (occ_words (slots_of_class r.2)) ci.2 cj.2 = true.
Proof.
  intros HM Hc Hlen Hi. revert j. induction n as [|n IH]; intros j Hj; cbn [find_donor]; [by exists None|].
  destruct (IH (S j) ltac:(lia)) as (o & E & Ho). destruct (bool_decide (i = j)) eqn:Eij; cbn [orb]; [by exists o|]. apply bool_decide_eq_false in Eij.
  destruct (lookup_lt_is_Some_2 used j ltac:(lia)) as [u Hu]. rewrite (list_lookup_total_correct _ _ _ Hu). destruct u; [by exists o|].
  destruct (lookup_lt_is_Some_2 cand i) as [ci Hci]; [rewrite <-Hlen; by apply lookup_lt_is_Some_1; eexists|].
  destruct (lookup_lt_is_Some_2 cand j ltac:(lia)) as [cj Hcj].
  destruct (Hc i ci Hci Hi) as (li & Hli & Oi), (Hc j cj Hcj Hu) as (lj & Hlj & Oj).
  pose proof (mo_slab _ _ _ _ HM _ _ _ Hli) as Wi. pose proof (mo_slab _ _ _ _ HM _ _ _ Hlj) as Wj.
  erewrite run_bind; [|unfold of_option; rewrite Hci; reflexivity]. erewrite run_bind; [|unfold of_option; rewrite Hcj; reflexivity].
  erewrite run_bind by (apply run_get_slab, (mslab_mapped Wi)). erewrite run_bind by (apply run_get_slab, (mslab_mapped Wj)).
  rewrite (sf_nslots _ _ _ _ (mi_fields _ _ _ _ Wi)), (sf_nslots _ _ _ _ (mi_fields _ _ _ _ Wj)), Z.eqb_refl. cbn [negb].
  destruct (occ_disjoint _ _ _) eqn:Ed; [|by exists o]. exists (Some j). split; [done|]. intros j' [= <-]. split_and!; [done..|]. by exists ci, cj.
Qed.

(** ** Pairing *)

(** Work on pool [r]: bytes in use are kept, the other pools' slabs stay as they are. *)
Record compacts r s A P s' A' P' : Prop := {
  cp_ok : mesh_ok s' A' P';
  cp_merged : ∃ host, merged host s A P s' A' P';
  cp_read a : V a → vread s' a = vread s a;
  cp_other d r' l : r' ≠ r → A !! d = Some (r', l) → A' !! d = Some (r', l) ∧ (private s r' d → private s' r' d);
  cp_lists r' : r' ≠ r → P' !! r' = P !! r';
}.

Lemma compacts_refl r s A P : mesh_ok s A P → compacts r s A P s A P.
Proof. intros HM. split; try done. exists id. by apply (merged_refl s A P V). Qed.

Lemma compacts_trans r s1 A1 P1 s2 A2 P2 s3 A3 P3 :
  compacts r s1 A1 P1 s2 A2 P2 → compacts r s2 A2 P2 s3 A3 P3 → compacts r s1 A1 P1 s3 A3 P3.
Proof.
  intros [H1 [h1 M1] H2 H3 H4] [G1 [h2 M2] G2 G3 G4]. split; [done| | | |].
  - exists (h2 ∘ h1). by apply (merged_trans h1 h2 s1 A1 P1 s2 A2 P2).
  - intros a Ha. by rewrite G2, H2.
  - intros d r' l Hr Hd. destruct (H3 d r' l Hr Hd) as [Hd2 Hp]. destruct (G3 d r' l Hr Hd2). split; [done|]. auto.
  - intros r' Hr. by rewrite G4, H4.
Qed.

(** One pair. *)
Lemma pair_step s A P r L R D lR lD bR bD :
  mesh_ok s A P → P !! r = Some L → A !! R = Some (r, lR) → A !! D = Some (r, lD) → D ∈ L → R ≠ D →
  occupancy r R lR bR → occupancy r D lD bD → occ_disjoint (occ_words (slots_of_class r.2)) bR bD = true → private s r D →
  runs (mesh_pair remap_ok r R D bR bD) s (λ k s', ∃ A' L', compacts r s A P s' A' (<[r := L']> P) ∧ (k = 0 ∨ k = run_len r) ∧
    (∀ d, d ∈ L → d ≠ D → d ∈ L') ∧ ∀ d l, A !! d = Some (r, l) → d ≠ R → d ≠ D → A' !! d = Some (r, l) ∧ (private s r d → private s' r d)).
Proof.
  intros HM HL HR HD HDL Hne OR OD Hdj Hpriv. apply list_elem_of_split in HDL as (L1 & L2 & ->).
  destruct (mo_pool _ _ _ _ HM r _ HL) as (pl & Hpl & Hhd & Hnd & Hdll).
  pose proof (mo_slab _ _ _ _ HM _ _ _ HR) as WR0. pose proof (mo_slab _ _ _ _ HM _ _ _ HD) as WD0.
  assert (Hdis : ∀ k, 0 ≤ k < slots_of_class r.2 → bit bR k && bit bD k = false).
  { intros k Hk. apply (occ_disjoint_bits (slots_of_class r.2)); [apply OR|apply OD|done|done]. }
  eapply runs_mono; [apply (mesh_pair_run remap_ok s r R D lR lD bR bD pl L1 L2 WR0 WD0 OR OD Hne); try done|].
  - by apply (mo_file _ _ _ _ HM R r lR D r lD).
  - intros d Hd. destruct (mo_dom _ _ _ _ HM r _ d HL Hd) as (H0 & l & Hl). split; [done|]. apply (mslab_mapped (mo_slab _ _ _ _ HM _ _ _ Hl)).
  - intros k s' Hme. exists (<[R := (r, free_both bR bD (data_of R) (btm_sc_to_size r.2) (slots_of_class r.2))]> (delete D A)), (L1 ++ L2).
    split; [split|split; [|split]].
    + by apply (mesh_after HM HR HD Hne OR OD Hdis HL Hpriv Hme).
    + exists (λ d, if decide (d = D) then R else d). by apply (merged_after HM HR HD Hne OR OD HL Hpriv Hme).
    + intros a Ha. by apply (live_read HM HR HD Hne OR OD Hdis Hpriv Hme).
    + intros d r' l Hr Hd. assert (d ≠ R) by (intros ->; congruence). assert (d ≠ D) by (intros ->; congruence).
      rewrite lookup_insert_ne, lookup_delete_ne by done. split; [done|]. by apply (private_after HM HR HD Hne OD Hdis Hme d r' l).
    + intros r' Hr. by rewrite lookup_insert_ne.
    + destruct (me_file _ _ _ _ _ _ _ _ _ Hme) as (m & _ & [(-> & _)|(-> & _)]); [by left|by right].
    + intros d [Hd|Hd]%elem_of_app HdD; apply elem_of_app; [by left|]. apply elem_of_cons in Hd as [->|Hd]; [done|by right].
    + intros d l Hd HdR HdD. rewrite lookup_insert_ne, lookup_delete_ne by done. split; [done|]. by apply (private_after HM HR HD Hne OD Hdis Hme d r l).
Qed.

(** The candidates that are still unpaired. *)
Definition unpaired s A r (L : list Z) (cand : list (Z * list Z)) (used : list bool) : Prop :=
  length used = length cand ∧
  ∀ i c, cand !! i = Some c → used !! i = Some false → candidate A r c ∧ c.1 ∈ L ∧ private s r c.1.

Lemma pair_loop_spec n r cand s A P L used i rec :
  NoDup cand.*1 → mesh_ok s A P → P !! r = Some L → unpaired s A r L cand used → (n + i ≤ length cand)%nat →
  runs (pair_loop remap_ok n r cand used i rec) s (λ _ s', ∃ A' P', compacts r s A P s' A' P').
Proof.
  intros Hnd. revert s A P L used i rec. induction n as [|n IH]; intros s A P L used i rec HM HL [Hlen Hun] Hn; cbn [pair_loop].
  { apply runs_ret. exists A, P. by apply compacts_refl. }
  destruct (lookup_lt_is_Some_2 used i ltac:(lia)) as [u Hu]. rewrite (list_lookup_total_correct _ _ _ Hu).
  destruct u; [apply (IH s A P L); try done; lia|].
  destruct (find_donor_run s A P r cand used i (length cand) 0 HM) as (o & E & Ho); [intros; by apply Hun with i0|done|done|lia|].
  apply (runs_step _ _ _ _ _ _ E). destruct o as [j|]; [|apply (IH s A P L); try done; lia].
  destruct (Ho j eq_refl) as (Hij & Huj & ci & cj & Hci & Hcj & Hdj).
  destruct (Hun i ci Hci Hu) as ((li & Hli & Oi) & _ & _), (Hun j cj Hcj Huj) as ((lj & Hlj & Oj) & HjL & Hpj).
  assert (Hinj : ∀ i1 i2 c1 c2, cand !! i1 = Some c1 → cand !! i2 = Some c2 → c1.1 = c2.1 → i1 = i2).
  { intros i1 i2 c1 c2 H1 H2 E12. apply (NoDup_lookup _ i1 i2 c1.1 Hnd); rewrite list_lookup_fmap; [by rewrite H1|by rewrite H2, E12]. }
  apply (runs_step _ _ _ s ci); [by unfold of_option; rewrite Hci|]. apply (runs_step _ _ _ s cj); [by unfold of_option; rewrite Hcj|].
  assert (Hne : ci.1 ≠ cj.1) by (intros Eq; by apply Hij, (Hinj i j ci cj)).
  eapply runs_bind; [apply (pair_step s A P r L ci.1 cj.1 li lj ci.2 cj.2 HM HL Hli Hlj HjL Hne Oi Oj Hdj Hpj)|].
  intros k s1 (A1 & L1 & HC & _ & HL1 & HA1).
  eapply runs_mono; [apply (IH s1 A1 (<[r := L1]> P) L1); [apply (cp_ok _ _ _ _ _ _ _ HC)|apply lookup_insert_eq| |lia]|].
  - split; [by rewrite !length_insert|]. intros m c Hm Hum.
    apply list_lookup_insert_Some in Hum as [(_ & ? & _)|[Hjm Hum]]; [done|]. apply list_lookup_insert_Some in Hum as [(_ & ? & _)|[Him Hum]]; [done|].
    destruct (Hun m c Hm Hum) as ((l & Hl & O) & HcL & Hp).
    assert (c.1 ≠ ci.1) by (intros Eq; by apply Him, (Hinj i m ci c)). assert (c.1 ≠ cj.1) by (intros Eq; by apply Hjm, (Hinj j m cj c)).
    destruct (HA1 c.1 l Hl) as [Hl1 Hp1]; [done..|]. split_and!; [by exists l|by apply HL1|by apply Hp1].
  - intros _ s2 (A2 & P2 & HC2). exists A2, P2. by apply (compacts_trans r s A P s1 A1 (<[r := L1]> P)).
Qed.

Lemma compact_pool_spec r s A P L rec :
  mesh_ok s A P → P !! r = Some L → (∀ d, d ∈ L → private s r d) →
  runs (compact_pool remap_ok r rec) s (λ _ s', ∃ A' P', compacts r s A P s' A' P').
Proof.
  intros HM HL Hp. unfold compact_pool. destruct (_ <? 2). { apply runs_ret. exists A, P. by apply compacts_refl. }
  destruct (mo_pool _ _ _ _ HM r L HL) as (pl & Hpl & Hhd & Hnd & Hdll).
  apply (runs_step _ _ _ s pl); [by apply run_get_pool|]. apply runs_gets. rewrite Hhd.
  destruct (gather_run s A P r L 0 (size (h_slabs (p_heap s))) 0 HM Hdll Hnd) as (cand & E & H1 & H2 & H3).
  { intros d Hd. by apply (mo_dom _ _ _ _ HM r L). }
  { apply keys_fuel; [done|]. intros d Hd. destruct (mo_dom _ _ _ _ HM r L d HL Hd) as (_ & l & Hl).
    pose proof (mo_slab _ _ _ _ HM d r l Hl) as W. destruct (h_slabs (p_heap s) !! d) eqn:Ed; [by eexists|exfalso].
    pose proof (sf_npages _ _ _ _ (mi_fields _ _ _ _ W)) as Hn. unfold slab_at in Hn. rewrite Ed in Hn. cbn in Hn.
    pose proof (sc_pages_range r.2 (mi_sc _ _ _ _ W)). lia. }
  apply (runs_step _ _ _ _ _ _ E). apply (pair_loop_spec _ r cand s A P L); [done..| |lia]. split; [apply length_replicate|].
  intros i c Hc _. assert (Hin : c ∈ cand) by (by apply list_elem_of_lookup_2 with i). assert (HcL : c.1 ∈ L) by (apply H2, list_elem_of_fmap; by exists c).
  split_and!; [by apply H3|done|by apply Hp].
Qed.

(** All pools, one after the other. *)
Lemma compact_pools_spec rs s A P rec :
  NoDup rs → mesh_ok s A P → (∀ r, r ∈ rs → ∃ L, P !! r = Some L ∧ ∀ d, d ∈ L → private s r d) →
  runs (compact_pools remap_ok rs rec) s (λ _ s', (∃ A' P' host, mesh_ok s' A' P' ∧ merged host s A P s' A' P') ∧ ∀ a, V a → vread s' a = vread s a).
Proof.
  revert s A P rec. induction rs as [|r rs IH]; intros s A P rec Hnd HM Hrs; cbn [compact_pools].
  { apply runs_ret. split; [|done]. exists A, P, id. split; [done|]. by apply (merged_refl s A P V). }
  apply NoDup_cons in Hnd as [Hr Hnd]. destruct (Hrs r ltac:(left)) as (L & HL & Hp).
  eapply runs_bind; [by apply (compact_pool_spec r s A P L rec)|]. intros k s1 (A1 & P1 & [C1 [h1 M1] C2 C3 C4]).
  eapply runs_mono; [apply (IH s1 A1 P1 k Hnd C1)|].
  - intros r' Hr'. assert (Hne : r' ≠ r) by (by intros ->). destruct (Hrs r' ltac:(by right)) as (L' & HL' & Hp'). exists L'. rewrite C4 by done. split; [done|].
    intros d Hd. destruct (mo_dom _ _ _ _ HM r' L' d HL' Hd) as (_ & l & Hl). by apply (C3 d r' l Hne Hl), Hp'.
  - intros _ s2 ((A2 & P2 & h2 & HM2 & M2) & H2). split; [exists A2, P2, (h2 ∘ h1); split; [done|by apply (merged_trans h1 h2 s A P s1 A1 P1)]|]. intros a Ha. by rewrite H2, C2.
Qed.

Lemma pool_refs_NoDup np : NoDup (pool_refs np).
Proof.
  unfold pool_refs. apply NoDup_bind; [|intros i _; apply NoDup_fmap_2_strong; [by intros x y _ _ [= ->]|apply NoDup_seqZ]|apply NoDup_seqZ].
  intros i j p _ _ (x & -> & _)%list_elem_of_fmap (y & E & _)%list_elem_of_fmap. by injection E.
Qed.
End compact.

(** ** Before the first compaction

    Every slab has its own pages, and the bytes in use are those of the slots that are out. *)
Section unmeshed.
Context {F : FlOps} {FL : FlLaws F}.
Implicit Types r : pool_ref.
Context {s : mstate} {A : mslabs} {P : gmap pool_ref (list Z)}.

Definition in_use A (a : Z) : Prop :=
  ∃ d (r : pool_ref) l x, (A : mslabs) !! d = Some (r, l) ∧ x ∈ slab_slots r d ∧ (x ∉ l) ∧ x ≤ a < x + btm_sc_to_size r.2.

Context (Hslab : ∀ d (r : pool_ref) l, A !! d = Some (r, l) → mslab s r d l).
Context (Hfile : ∀ d1 (r1 : pool_ref) l1 d2 (r2 : pool_ref) l2, A !! d1 = Some (r1, l1) → A !! d2 = Some (r2, l2) → d1 ≠ d2 →
  disjoint_blocks (file_off (p_heap s) d1) (run_len r1) (file_off (p_heap s) d2) (run_len r2)).
Context (Hvirt : ∀ d1 (r1 : pool_ref) l1 d2 (r2 : pool_ref) l2, A !! d1 = Some (r1, l1) → A !! d2 = Some (r2, l2) → d1 ≠ d2 →
  disjoint_blocks (data_of d1) (run_len r1) (data_of d2) (run_len r2)).

(** A slot lies in its slab's data. *)
Lemma slot_inside d r l x a : A !! d = Some (r, l) → x ∈ slab_slots r d → x ≤ a < x + btm_sc_to_size r.2 →
  data_of d ≤ a < data_of d + run_len r.
Proof.
  intros Hd Hx Ha. pose proof (Hslab d r l Hd) as W. destruct (slot_number W x Hx) as [Hi Ex].
  pose proof (slots_fit r (mi_sc _ _ _ _ W) _ Hi) as (? & ? & ?). unfold run_len. lia.
Qed.

Lemma in_use_place a o : in_use A a → translate (p_src s) a = Some o →
  ∃ d (r : pool_ref) l x, A !! d = Some (r, l) ∧ x ∈ slab_slots r d ∧ (x ∉ l) ∧ x ≤ a < x + btm_sc_to_size r.2 ∧
    data_of d ≤ a < data_of d + run_len r ∧ o = file_off (p_heap s) d + (a - data_of d).
Proof.
  intros (d & r & l & x & Hd & Hx & Hxl & Ha) Ho. exists d, r, l, x. pose proof (slot_inside d r l x a Hd Hx Ha) as Hin.
  rewrite (backed_at _ _ _ _ a (mi_backed _ _ _ _ (Hslab d r l Hd)) Hin) in Ho. by injection Ho as <-.
Qed.

Lemma unmeshed_private d r l : A !! d = Some (r, l) → private s (in_use A) r d.
Proof.
  intros Hd a o Ha Ho Hin. destruct (in_use_place a o Ha Ho) as (d' & r' & l' & x & Hd' & _ & _ & _ & Hin' & ->).
  destruct (decide (d' = d)) as [->|Hne]; [congruence|]. pose proof (Hfile d' r' l' d r l Hd' Hd Hne) as Hf. unfold disjoint_blocks in Hf. lia.
Qed.

Lemma unmeshed_kept a o d r l x : in_use A a → translate (p_src s) a = Some o → A !! d = Some (r, l) → x ∈ l →
  ¬ (file_off (p_heap s) d + (x - data_of d) ≤ o < file_off (p_heap s) d + (x - data_of d) + btm_sc_to_size r.2).
Proof.
  intros Ha Ho Hd Hx Hin. pose proof (Hslab d r l Hd) as W. pose proof (mi_slots _ _ _ _ W x Hx) as Hxs. destruct (slot_number W x Hxs) as [Hi Ex].
  pose proof (slots_fit r (mi_sc _ _ _ _ W) _ Hi) as (? & ? & ?).
  destruct (in_use_place a o Ha Ho) as (d' & r' & l' & y & Hd' & Hy & Hyl & Hay & Hin' & ->).
  destruct (decide (d' = d)) as [->|Hne].
  - simplify_eq. destruct (slot_number W y Hy) as [Hj Ey].
    set (i := (x - data_of d) / btm_sc_to_size r.2) in *. set (j := (y - data_of d) / btm_sc_to_size r.2) in *.
    assert (i = j) as Eij by nia. apply Hyl. by rewrite Ey, <-Eij, <-Ex.
  - pose proof (Hfile d' r' l' d r l Hd' Hd Hne) as Hf. unfold disjoint_blocks, run_len in *. lia.
Qed.

Lemma unmeshed_ok :
  (∀ r L, P !! r = Some L → ∃ pl, p_pools s !! r = Some pl ∧ partial pl = hd0 L ∧ NoDup L ∧ dll s_next s_prev (slab_at (p_heap s)) 0 L) →
  (∀ r L d, P !! r = Some L → d ∈ L → d ≠ 0 ∧ ∃ l, A !! d = Some (r, l)) →
  MeshInv.mesh_ok s A P (in_use A).
Proof.
  intros HP HD. split; [done..| |exact unmeshed_kept|].
  - intros a (d & r & l & x & Hd & Hx & _ & Ha). pose proof (slot_inside d r l x a Hd Hx Ha) as Hin.
    rewrite (backed_at _ _ _ _ a (mi_backed _ _ _ _ (Hslab d r l Hd)) Hin). by eexists.
  - intros a d r l Ha Hd Hin. destruct Ha as (d' & r' & l' & x & Hd' & Hx & Hxl & Ha). pose proof (slot_inside d' r' l' x a Hd' Hx Ha) as Hin'.
    destruct (decide (d' = d)) as [->|Hne]; [|pose proof (Hvirt d' r' l' d r l Hd' Hd Hne) as Hf; unfold disjoint_blocks in Hf; lia].
    simplify_eq. by exists x.
Qed.
End unmeshed.
