(* ===== verification/Space.v ===== *)
(** * Space: chunks and large objects in one address space

    The owner table and the kernel's mappings are shared by the 2 MiB chunks of
    src/src/background.c and the large objects of src/src/large.c.  [guests_ok]: every
    header describes a live, 2 MiB aligned object, and every address with an owner lies in
    a chunk or in the regions of such an object.  It follows that chunks and objects never
    overlap and that both are always registered on regions nobody owns. *)

From stdpp Require Import prelude gmap.
From S2P Require Import Prelude Memory Registry Os Large Heap.
Local Open Scope Z_scope.

(** ** Regions *)

(** With an aligned base, a region of the span is one whose first byte the span holds. *)
Lemma in_span_aligned base len p :
  0 ≤ base → base mod BTM_CHUNK_SIZE = 0 → 0 < len → base + len ≤ 2 ^ 47 → user_addr p →
  in_span base len (region_of p) ↔ base ≤ chunk_of p < base + len.
Proof.
  intros H0 Hm Hl H47 Hp. unfold user_addr in Hp. rewrite chunk_of_eq by lia.
  unfold in_span, first_region, last_region, region_of. unfold_geometry.
  apply Z.mod_divide in Hm as [k ->]; [|lia]. rewrite (u64_small (k * 2097152 + len)) by lia.
  rewrite u64_small by lia. rewrite !Z.shiftr_div_pow2 by lia. change (2 ^ 21) with 2097152.
  rewrite Z.div_mul by lia.
  pose proof (Z.div_mod p 2097152 ltac:(lia)). pose proof (Z.mod_pos_bound p 2097152 ltac:(lia)).
  pose proof (Z.div_mod (k * 2097152 + len - 1) 2097152 ltac:(lia)).
  pose proof (Z.mod_pos_bound (k * 2097152 + len - 1) 2097152 ltac:(lia)).
  set (q := p / 2097152) in *. set (e := (k * 2097152 + len - 1) / 2097152) in *. lia.
Qed.

Lemma chunk_user_span c : chunk_base c → user_span c BTM_CHUNK_SIZE.
Proof. intros (? & ? & ?). unfold user_span. glia. Qed.

Lemma chunk_base_apart c1 c2 x :
  chunk_base c1 → chunk_base c2 → c1 ≤ x < c1 + BTM_CHUNK_SIZE → c2 ≤ x < c2 + BTM_CHUNK_SIZE → c1 = c2.
Proof. intros H1 H2 Hx1 Hx2. rewrite <-(chunk_of_inside c1 x H1 Hx1). by apply chunk_of_inside. Qed.

(** The chunk-sized block around an address starts at or before it. *)
Lemma chunk_of_le p : user_addr p → 0 ≤ chunk_of p ≤ p ∧ p < chunk_of p + BTM_CHUNK_SIZE ∧ chunk_of p mod BTM_CHUNK_SIZE = 0.
Proof.
  intros Hp. unfold user_addr in Hp. rewrite chunk_of_eq by lia. unfold_geometry.
  pose proof (Z.div_mod p 2097152 ltac:(lia)). pose proof (Z.mod_pos_bound p 2097152 ltac:(lia)).
  assert (0 ≤ p / 2097152) by (apply Z.div_pos; lia). split_and!; [lia..|].
  apply Z.mod_divide; [lia|]. exists (p / 2097152). lia.
Qed.

Lemma in_span_chunk c p : chunk_base c → user_addr p → in_span c BTM_CHUNK_SIZE (region_of p) ↔ c ≤ p < c + BTM_CHUNK_SIZE.
Proof.
  intros Hc Hp. pose proof Hc as (H0 & Hm & H47). rewrite in_span_aligned by (try done; unfold BTM_CHUNK_SIZE in *; lia).
  destruct (chunk_of_le p Hp) as (H1 & H2 & H3). split.
  - intros Hin. assert (chunk_of p = c); [|unfold BTM_CHUNK_SIZE in *; lia]. unfold_geometry.
    apply Z.mod_divide in Hm as [k ->]; [|lia]. apply Z.mod_divide in H3 as [m Em]; [|lia]. lia.
  - intros Hin. rewrite (chunk_of_inside c p Hc Hin). unfold BTM_CHUNK_SIZE. lia.
Qed.

(** A tagged large base is no chunk base. *)
Lemma tagged_odd base c : c mod BTM_CHUNK_SIZE = 0 → Z.lor base 1 ≠ c.
Proof.
  intros Hc E. assert (Hb : Z.testbit (Z.lor base 1) 0 = true) by (rewrite Z.lor_spec; simpl; by rewrite orb_true_r).
  rewrite E in Hb. apply Z.mod_divide in Hc as [k ->]; [|done]. change BTM_CHUNK_SIZE with (2 ^ 21) in Hb.
  by rewrite Z.mul_pow2_bits_low in Hb by lia.
Qed.

Lemma tagged_inj b1 b2 : b1 mod BTM_CHUNK_SIZE = 0 → b2 mod BTM_CHUNK_SIZE = 0 → Z.lor b1 1 = Z.lor b2 1 → b1 = b2.
Proof.
  intros H1 H2 E. assert (Hu : ∀ b, Z.shiftr (Z.lor b 1) 21 = b / 2097152).
  { intros b. rewrite Z.shiftr_lor, Z.lor_0_r. apply Z.shiftr_div_pow2. lia. }
  pose proof (Hu b1) as E1. rewrite E, Hu in E1. unfold_geometry.
  pose proof (Z.div_mod b1 2097152 ltac:(lia)). pose proof (Z.div_mod b2 2097152 ltac:(lia)). lia.
Qed.

Section space.
Context {Krn : OS} {KL : OSLaws Krn} {T : Type} {OT : OwnerTable T} {TL : OwnerTableLaws T OT}.
Implicit Types (v : lstate T) (P : Z → Prop).

(** A chunk of the process: its range is mapped and resolves to it. *)
Record chunk_space (v : lstate T) (c : Z) : Prop := {
  ck_base : chunk_base c;
  ck_mapped x : c ≤ x < c + BTM_CHUNK_SIZE → k_mapped (l_kernel v) x = true;
  ck_owner p : c ≤ p < c + BTM_CHUNK_SIZE → ot_lookup (l_reg v) p = c;
}.

Definition large_at (v : lstate T) (base : Z) (hd : btm_large_hdr) : Prop :=
  l_hdrs v !! base = Some hd.

Record guests_ok (P : Z → Prop) (v : lstate T) : Prop := {
  gs_live : ot_live (l_reg v);
  gs_chunk c : P c → chunk_space v c;
  gs_large base hd : large_at v base hd → base mod BTM_CHUNK_SIZE = 0 ∧ large_live v base (lh_map_len hd) (lh_user_off hd);
  gs_owned p : user_addr p → ot_lookup (l_reg v) p ≠ 0 →
    P (chunk_of p) ∨ ∃ base hd, large_at v base hd ∧ in_span base (lh_map_len hd) (region_of p);
}.

(** A byte of a large object. *)
Definition large_byte (v : lstate T) (x : Z) : Prop := ∃ base hd, large_at v base hd ∧ base ≤ x < base + lh_map_len hd.

Lemma large_user v base total hdr x : large_live v base total hdr → base ≤ x < base + total → user_addr x.
Proof. intros Hl Hx. destruct (ll_place _ _ _ _ Hl) as (? & ? & ? & ?). unfold user_addr. lia. Qed.

Lemma large_span v base total hdr p :
  base mod BTM_CHUNK_SIZE = 0 → large_live v base total hdr → user_addr p →
  in_span base total (region_of p) ↔ base ≤ chunk_of p < base + total.
Proof. intros Hm Hl Hp. destruct (ll_place _ _ _ _ Hl) as (? & ? & ? & ?). apply in_span_aligned; (done || lia). Qed.

Lemma large_in_span v base total hdr x :
  base mod BTM_CHUNK_SIZE = 0 → large_live v base total hdr → base ≤ x < base + total → in_span base total (region_of x).
Proof.
  intros Hm Hl Hx. destruct (ll_place _ _ _ _ Hl) as (? & ? & ? & ?). apply in_span_ptr; [|done]. unfold span_ok. lia.
Qed.

(** No chunk holds a byte of a large object. *)
Lemma guest_chunk_apart P v c x : guests_ok P v → chunk_space v c → c ≤ x < c + BTM_CHUNK_SIZE → ¬ large_byte v x.
Proof.
  intros G Hc Hx (base & hd & Hb & Hin). destruct (gs_large _ _ G base hd Hb) as [Hm Hl].
  pose proof (large_user _ _ _ _ x Hl Hin) as Hu.
  pose proof (ll_owner _ _ _ _ Hl x Hu (large_in_span _ _ _ _ x Hm Hl Hin)) as H1.
  rewrite (ck_owner _ _ Hc x Hx) in H1. destruct (ck_base _ _ Hc) as (_ & Hcm & _). by apply (tagged_odd base c).
Qed.

(** Two large objects share no byte. *)
Lemma guests_apart P v b1 h1 b2 h2 x :
  guests_ok P v → large_at v b1 h1 → large_at v b2 h2 → b1 ≤ x < b1 + lh_map_len h1 → b2 ≤ x < b2 + lh_map_len h2 → b1 = b2.
Proof.
  intros G H1 H2 X1 X2. destruct (gs_large _ _ G _ _ H1) as [M1 L1], (gs_large _ _ G _ _ H2) as [M2 L2].
  pose proof (large_user _ _ _ _ x L1 X1) as Hu. apply tagged_inj; [done..|].
  rewrite <-(ll_owner _ _ _ _ L1 x Hu), <-(ll_owner _ _ _ _ L2 x Hu); [done|by eapply large_in_span..].
Qed.

(** An unmapped block is foreign: its 2 MiB region has no owner. *)
Lemma unmapped_foreign P v p :
  guests_ok P v → user_addr p → (∀ x, x = chunk_of p → k_mapped (l_kernel v) x = false) → ot_lookup (l_reg v) p = 0.
Proof.
  intros G Hp Hf. destruct (decide (ot_lookup (l_reg v) p = 0)) as [|Hne]; [done|exfalso].
  destruct (gs_owned _ _ G p Hp Hne) as [Hc|(base & hd & Hb & Hin)].
  - pose proof (gs_chunk _ _ G _ Hc) as Hck. pose proof (ck_mapped _ _ Hck (chunk_of p)) as Hm.
    rewrite Hf in Hm by done. discriminate Hm. unfold BTM_CHUNK_SIZE. lia.
  - destruct (gs_large _ _ G base hd Hb) as [Hm Hl]. apply (large_span _ _ _ _ p Hm Hl Hp) in Hin.
    pose proof (ll_mapped _ _ _ _ Hl (chunk_of p) Hin) as Hmap. rewrite Hf in Hmap by done. discriminate Hmap.
Qed.

(** Facts about a state carry over to one with the same space. *)
Record same_space (v v' : lstate T) : Prop := {
  ss_hdrs : l_hdrs v' = l_hdrs v;
  ss_live : ot_live (l_reg v) → ot_live (l_reg v');
  ss_reg p : user_addr p → ot_lookup (l_reg v') p = ot_lookup (l_reg v) p;
  ss_mapped x : k_mapped (l_kernel v') x = k_mapped (l_kernel v) x;
}.

Lemma chunk_space_same v v' c : same_space v v' → chunk_space v c → chunk_space v' c.
Proof.
  intros [E1 E0 E2 E3] [H1 H2 H3]. split; [done| |]; intros x Hx; [by rewrite E3; auto|].
  rewrite E2; [by apply H3|]. destruct H1 as (? & ? & ?). unfold user_addr. lia.
Qed.

Lemma large_live_same v v' base total hdr : same_space v v' → large_live v base total hdr → large_live v' base total hdr.
Proof.
  intros [E1 E0 E2 E3] [H1 H2 H3 H4 H5 H6 H7]. split; rewrite ?E1; try done.
  - intros q Hq Hin. rewrite E2 by done. auto.
  - intros x Hx. rewrite E3. auto.
Qed.

Lemma guests_same P P' v v' : same_space v v' → (∀ c, P c ↔ P' c) → guests_ok P v → guests_ok P' v'.
Proof.
  intros E HP [G1 G2 G3 G4]. pose proof E as [E1 E0 E2 E3]. split.
  - by apply E0.
  - intros c Hc. apply (chunk_space_same v); [done|]. by apply G2, HP.
  - intros base hd Hb. unfold large_at in *. rewrite E1 in Hb. destruct (G3 base hd Hb) as [Hm Hl]. split; [done|].
    by apply (large_live_same v).
  - intros p Hp. unfold large_at in *. rewrite E1, E2 by done. intros Hne. destruct (G4 p Hp Hne) as [Hc|Hb]; [left; by apply HP|by right].
Qed.

(** ** A fresh chunk *)
Lemma space_map_chunk P v v' c :
  guests_ok P v → chunk_base c → (∀ x, c ≤ x < c + BTM_CHUNK_SIZE → k_mapped (l_kernel v) x = false) →
  l_hdrs v' = l_hdrs v → l_reg v' = ot_insert (l_reg v) c BTM_CHUNK_SIZE c →
  (∀ x, k_mapped (l_kernel v') x = within c BTM_CHUNK_SIZE x || k_mapped (l_kernel v) x) →
  guests_ok (λ x, x = c ∨ P x) v' ∧ (∀ g, table_moves g (l_reg v) (l_reg v')) ∧ ∀ x, P x → x ≠ c.
Proof.
  intros G Hc Hf Eh Er Hk. pose proof G as [G1 G2 G3 G4]. pose proof Hc as (Hc0 & Hcm & Hc47).
  assert (HC : BTM_CHUNK_SIZE = 2097152) by done.
  assert (Hne : ∀ x, P x → x ≠ c).
  { intros x Hx ->. pose proof (ck_mapped _ _ (G2 c Hx) c) as Hm. rewrite Hf in Hm by lia. discriminate Hm. lia. }
  assert (Hlook : ∀ p, user_addr p → ot_lookup (l_reg v') p = if decide (c ≤ p < c + BTM_CHUNK_SIZE) then c else ot_lookup (l_reg v) p).
  { intros p Hp. rewrite Er, ot_lookup_insert by (try done; by apply chunk_user_span). apply decide_ext. by apply in_span_chunk. }
  assert (Hold : ∀ x, k_mapped (l_kernel v) x = true → k_mapped (l_kernel v') x = true ∧ ¬ (c ≤ x < c + BTM_CHUNK_SIZE)).
  { intros x Hx. rewrite Hk, Hx, orb_true_r. split; [done|]. intros Hin. rewrite Hf in Hx by done. done. }
  split_and!; [|intros g; rewrite Er; apply evolves_insert; [by apply chunk_user_span|]|done].
  - split.
    + rewrite Er. by apply ot_insert_live.
    + intros x [->|Hx].
      * split; [done| |].
        { intros y Hy. by rewrite Hk, (proj2 (within_spec _ _ _) Hy). }
        { intros p Hp. rewrite Hlook by (unfold user_addr; lia). by rewrite decide_True. }
      * destruct (G2 x Hx) as [X1 X2 X3]. split; [done| |].
        { intros y Hy. apply Hold, X2, Hy. }
        { intros p Hp. pose proof X1 as (? & ? & ?). rewrite Hlook by (unfold user_addr; lia).
          rewrite decide_False; [by apply X3|]. intros Hin. by apply (Hne x Hx), (chunk_base_apart x c p). }
    + intros base hd Hb. unfold large_at in *. rewrite Eh in Hb. destruct (G3 base hd Hb) as [Hm Hl]. split; [done|].
      pose proof Hl as [L1 L2 L3 L4 L5 L6 L7]. split; rewrite ?Eh; try done.
      * intros q Hq Hin. rewrite Hlook by done. rewrite decide_False; [by apply L5|]. intros Hqc.
        apply (large_span v base _ _ q Hm Hl Hq) in Hin. rewrite (chunk_of_inside c q Hc Hqc) in Hin.
        specialize (L6 c Hin). rewrite Hf in L6 by lia. done.
      * intros x Hx. apply Hold, L6, Hx.
    + intros p Hp. rewrite Hlook by done. case_decide as Hin.
      * intros _. left. left. by apply chunk_of_inside.
      * intros Hnz. unfold large_at in *. rewrite Eh. destruct (G4 p Hp Hnz); [left; by right|by right].
  - intros p Hp Hin. apply (unmapped_foreign P v p G Hp). intros x ->. apply in_span_chunk in Hin; [|done..].
    rewrite (chunk_of_inside c p Hc Hin). apply Hf. lia.
Qed.

(** ** A chunk goes away *)
Lemma space_unmap_chunk P v v' c :
  guests_ok P v → P c → l_hdrs v' = l_hdrs v → l_reg v' = ot_remove (l_reg v) c BTM_CHUNK_SIZE →
  (∀ x, k_mapped (l_kernel v') x = negb (within c BTM_CHUNK_SIZE x) && k_mapped (l_kernel v) x) →
  guests_ok (λ x, P x ∧ x ≠ c) v' ∧ table_evolves (l_reg v) (l_reg v').
Proof.
  intros G HPc Eh Er Hk. pose proof G as [G1 G2 G3 G4]. pose proof (G2 c HPc) as Hcs. pose proof (ck_base _ _ Hcs) as Hc.
  pose proof Hc as (Hc0 & Hcm & Hc47). assert (HC : BTM_CHUNK_SIZE = 2097152) by done.
  assert (Hlook : ∀ p, user_addr p → ot_lookup (l_reg v') p = if decide (c ≤ p < c + BTM_CHUNK_SIZE) then 0 else ot_lookup (l_reg v) p).
  { intros p Hp. rewrite Er, ot_lookup_remove by (try done; by apply chunk_user_span). apply decide_ext. by apply in_span_chunk. }
  assert (Hmap : ∀ x, ¬ (c ≤ x < c + BTM_CHUNK_SIZE) → k_mapped (l_kernel v') x = k_mapped (l_kernel v) x).
  { intros x Hx. rewrite Hk. by rewrite (proj2 (within_false _ _ _)). }
  split; [|rewrite Er; by apply evolves_remove, chunk_user_span]. split.
  - rewrite Er. by apply ot_remove_live.
  - intros x [Hx Hne]. destruct (G2 x Hx) as [X1 X2 X3]. split; [done| |].
    + intros y Hy. rewrite Hmap; [by apply X2|]. intros Hyc. by apply Hne, (chunk_base_apart x c y).
    + intros p Hp. pose proof X1 as (? & ? & ?). rewrite Hlook by (unfold user_addr; lia).
      rewrite decide_False; [by apply X3|]. intros Hin. by apply Hne, (chunk_base_apart x c p).
  - intros base hd Hb. unfold large_at in *. rewrite Eh in Hb. destruct (G3 base hd Hb) as [Hm Hl]. split; [done|].
    pose proof Hl as [L1 L2 L3 L4 L5 L6 L7]. split; rewrite ?Eh; try done.
    + intros q Hq Hin. rewrite Hlook by done. rewrite decide_False; [by apply L5|]. intros Hqc.
      specialize (L5 q Hq Hin). rewrite (ck_owner _ _ Hcs q Hqc) in L5. by apply (tagged_odd base c).
    + intros x Hx. rewrite Hmap; [by apply L6|]. intros Hxc.
      apply (guest_chunk_apart P v c x G Hcs Hxc). by exists base, hd.
  - intros p Hp. rewrite Hlook by done. case_decide as Hin; [done|]. intros Hnz. unfold large_at in *. rewrite Eh.
    destruct (G4 p Hp Hnz) as [Hpc|]; [left|by right]. split; [done|]. intros Ec.
    apply Hin. destruct (chunk_of_le p Hp) as (? & ? & ?). lia.
Qed.

(** ** Large objects *)

(** Registering an object on a fresh range, given what it does to headers and owners. *)
Lemma space_large_add P v v' base total hdr req :
  guests_ok P v → base mod BTM_CHUNK_SIZE = 0 → large_live v' base total hdr →
  l_hdrs v' !! base = Some (mk_large_hdr BTM_LARGE_MAGIC total hdr req) →
  (∀ x, base ≤ x < base + total → k_mapped (l_kernel v) x = false) →
  (∀ x, k_mapped (l_kernel v) x = true → k_mapped (l_kernel v') x = true) →
  (∀ b h, b ≠ base → l_hdrs v' !! b = Some h ↔ l_hdrs v !! b = Some h) → ot_live (l_reg v') →
  (∀ q, user_addr q → ot_lookup (l_reg v') q = if decide (in_span base total (region_of q)) then Z.lor base 1 else ot_lookup (l_reg v) q) →
  guests_ok P v' ∧ ∀ p, user_addr p → in_span base total (region_of p) → ot_lookup (l_reg v) p = 0.
Proof.
  intros G Hm Hl Hhd Hf Hmono Hh Hlive Ho. pose proof G as [G1 G2 G3 G4].
  assert (Hfree : ∀ p, user_addr p → in_span base total (region_of p) → ot_lookup (l_reg v) p = 0).
  { intros p Hp Hin. apply (unmapped_foreign P v p G Hp). intros x ->. by apply Hf, (large_span v' base total hdr p). }
  assert (Hkeep : ∀ p, user_addr p → ot_lookup (l_reg v) p ≠ 0 → ot_lookup (l_reg v') p = ot_lookup (l_reg v) p).
  { intros p Hp Hne. rewrite Ho by done. rewrite decide_False; [done|]. intros Hin. by apply Hne, Hfree. }
  split; [|done]. split; [done| | |].
  - intros c Hc. pose proof (G2 c Hc) as [K1 K2 K3]. pose proof K1 as (K1a & K1b & K1c). split; [done|auto|]. intros p Hp.
    rewrite Hkeep by (rewrite ?K3 by done; unfold user_addr; lia). auto.
  - intros b h Hb. destruct (decide (b = base)) as [->|Hne].
    + unfold large_at in Hb. rewrite Hhd in Hb. injection Hb as <-. done.
    + apply Hh in Hb; [|done]. destruct (G3 b h Hb) as [Hbm Hbl]. split; [done|]. destruct Hbl as [L1 L2 L3 L4 L5 L6 L7].
      destruct L1 as [req' L1]. split; try done; [exists req'; by apply Hh| |auto].
      intros q Hq Hin. specialize (L5 q Hq Hin). rewrite Hkeep; [done..|]. rewrite L5. intros E.
      assert (Hb1 : Z.testbit (Z.lor b 1) 0 = true) by (rewrite Z.lor_spec; simpl; by rewrite orb_true_r). by rewrite E in Hb1.
  - intros p Hp. rewrite Ho by done. case_decide as Hin.
    + intros _. right. exists base. by eexists.
    + intros Hne. destruct (G4 p Hp Hne) as [|(b & h & Hb & Hin')]; [by left|right]. exists b, h. split; [|done].
      apply Hh; [|done]. intros ->. destruct (G3 base h Hb) as [_ Hbl].
      pose proof (ll_mapped _ _ _ _ Hbl base) as Hmap. pose proof (ll_off _ _ _ _ Hbl). pose proof (ll_off _ _ _ _ Hl).
      rewrite Hf in Hmap by lia. discriminate Hmap. lia.
Qed.

Lemma space_large_alloc P v size a p v' base total hdr :
  0 < size → guests_ok P v → large_obtained size a v p v' base total hdr →
  guests_ok P v' ∧ (∀ g, table_moves g (l_reg v) (l_reg v')) ∧ (∀ x, large_byte v x → ¬ (base ≤ x < base + total)).
Proof.
  intros Hsz G O. pose proof (obtained_live _ _ _ _ _ _ _ _ Hsz O) as Hl. pose proof O as [(B1 & B2 & B3) [-> B4] _ _ Hhd Hf Hmap Ho Htp Ht Hh1 Hh2 _ _].
  destruct (space_large_add P v v' base total hdr size G B2 Hl Hhd Hf) as [G' Hfree].
  - intros x Hx. by rewrite Hmap, Hx, orb_true_r.
  - intros b h Hne. split.
    + intros Hb. by destruct (Hh2 b h Hb).
    + intros Hb. rewrite Hh1; [done..|]. destruct (gs_large _ _ G b h Hb) as [_ Hbl]. apply (ll_mapped _ _ _ _ Hbl).
      pose proof (ll_off _ _ _ _ Hbl). lia.
  - rewrite Ht. apply ot_insert_live, G.
  - done.
  - split_and!; [done| |].
    + intros g. rewrite Ht. apply evolves_insert; [by apply (ll_span _ _ _ _ Hl)|done].
    + intros x (b & h & Hb & Hx) Hin. destruct (gs_large _ _ G b h Hb) as [_ Hbl].
      pose proof (ll_mapped _ _ _ _ Hbl x Hx) as Hm. by rewrite Hf in Hm.
Qed.

(** An object goes away: from freeing it, or before it moves. *)
Lemma space_large_remove P v v' base hd :
  guests_ok P v → large_at v base hd → ot_live (l_reg v') →
  (∀ b h, l_hdrs v' !! b = Some h ↔ b ≠ base ∧ l_hdrs v !! b = Some h) →
  (∀ x, k_mapped (l_kernel v) x = true → ¬ (base ≤ x < base + lh_map_len hd) → k_mapped (l_kernel v') x = true) →
  (∀ q, user_addr q → ot_lookup (l_reg v') q = if decide (in_span base (lh_map_len hd) (region_of q)) then 0 else ot_lookup (l_reg v) q) →
  guests_ok P v'.
Proof.
  intros G Hb Hlive Hh Hmap Ho. pose proof G as [G1 G2 G3 G4]. destruct (G3 base hd Hb) as [Hm Hl].
  assert (Hkeep : ∀ p, user_addr p → ot_lookup (l_reg v) p ≠ Z.lor base 1 → ot_lookup (l_reg v') p = ot_lookup (l_reg v) p).
  { intros p Hp Hne. rewrite Ho by done. rewrite decide_False; [done|]. intros Hin. apply Hne. by apply (ll_owner _ _ _ _ Hl). }
  split; [done| | |].
  - intros c Hc. pose proof (G2 c Hc) as Hck. pose proof Hck as [K1 K2 K3]. pose proof K1 as (K1a & K1b & K1c). split; [done| |].
    + intros x Hx. apply Hmap; [auto|]. intros Hin. apply (guest_chunk_apart P v c x G Hck Hx). by exists base, hd.
    + intros p Hp. rewrite Hkeep; [auto|unfold user_addr; lia|]. rewrite K3 by done. by apply not_eq_sym, tagged_odd.
  - intros b h [Hne Hb']%Hh. destruct (G3 b h Hb') as [Hbm Hbl]. split; [done|]. pose proof Hbl as [L1 L2 L3 L4 L5 L6 L7].
    destruct L1 as [req' L1]. split; try done; [exists req'; by apply Hh| |].
    + intros q Hq Hin. specialize (L5 q Hq Hin). rewrite Hkeep; [done..|]. rewrite L5. intros E%tagged_inj; done.
    + intros x Hx. apply Hmap; [auto|]. intros Hin. by apply Hne, (guests_apart P v b h base hd x).
  - intros p Hp. rewrite Ho by done. case_decide as Hin; [done|]. intros Hne.
    destruct (G4 p Hp Hne) as [|(b & h & Hb' & Hin')]; [by left|right]. exists b, h. split; [|done].
    apply Hh. split; [|done]. intros ->. unfold large_at in *. congruence.
Qed.

Lemma space_large_free P v base hd :
  guests_ok P v → large_at v base hd →
  ∃ v', btm_large_free base v = Ok (tt, v') ∧ guests_ok P v' ∧ table_evolves (l_reg v) (l_reg v') ∧ l_mem v' = l_mem v ∧
    l_hdrs v' = delete base (l_hdrs v).
Proof.
  intros G Hb. destruct (gs_large _ _ G base hd Hb) as [Hm Hl].
  destruct (large_free_run v base _ _ (gs_live _ _ G) Hl) as (v' & Hrun & Hmem & Hh & Hreg & Hmap & Ho).
  assert (Hdel : l_hdrs v' = delete base (l_hdrs v)).
  { apply map_eq. intros b. rewrite Hh. destruct (decide (b = base)) as [->|Hne].
    - rewrite lookup_delete_eq. pose proof (ll_off _ _ _ _ Hl). by rewrite (proj2 (within_spec _ _ _)) by lia.
    - rewrite lookup_delete_ne by done. destruct (within base (lh_map_len hd) b) eqn:Ew; [|done].
      destruct (l_hdrs v !! b) as [h|] eqn:Eb; [|done]. exfalso. apply Hne. apply within_spec in Ew.
      destruct (gs_large _ _ G b h Eb) as [_ Hbl]. pose proof (ll_off _ _ _ _ Hbl). apply (guests_apart P v b h base hd b); (done || lia). }
  exists v'. split_and!; try done.
  - apply (space_large_remove P v v' base hd); try done.
    + rewrite Hreg. apply ot_remove_live, G.
    + intros b h. rewrite Hdel, lookup_delete_Some. split; intros [Hn ?]; (split; [by apply not_eq_sym|done]).
    + intros x Hx Hout. rewrite Hmap, Hx. by rewrite (proj2 (within_false _ _ _)).
  - rewrite Hreg. apply evolves_remove. by apply (ll_span _ _ _ _ Hl).
Qed.

(** A resized object, if the kernel put it at a 2 MiB boundary. *)
Lemma space_large_resized P v base hd newsz q v' nbase ntotal :
  guests_ok P v → large_at v base hd → large_resized v base (lh_map_len hd) (lh_user_off hd) newsz q v' nbase ntotal →
  nbase mod BTM_CHUNK_SIZE = 0 →
  guests_ok P v' ∧ table_evolves (l_reg v) (l_reg v').
Proof.
  intros G Hb [R1 R2 R3 R4 R5 R6 R7 R8 R9] Hnm. destruct (gs_large _ _ G base hd Hb) as [Hm Hl].
  set (total := lh_map_len hd) in *.
  (* the space without the object *)
  set (v0 := mk_lstate (l_mem v) (delete base (l_hdrs v)) (ot_remove (l_reg v) base total)
    (k_munmap (l_kernel v) base total)).
  assert (Hbp : base mod BTM_PAGE_SIZE = 0) by (apply (mod_0_weaken base 12 21); [lia|done]).
  pose proof (ll_pages _ _ _ _ Hl) as Htp.
  assert (Hm0 : ∀ x, k_mapped (l_kernel v0) x = negb (within base total x) && k_mapped (l_kernel v) x) by (intros x; by apply munmap_mapped).
  assert (Ho0 : ∀ p, user_addr p → ot_lookup (l_reg v0) p = if decide (in_span base total (region_of p)) then 0 else ot_lookup (l_reg v) p).
  { intros p Hp. apply ot_lookup_remove; [apply G|by apply (ll_span _ _ _ _ Hl)|done]. }
  assert (G0 : guests_ok P v0).
  { apply (space_large_remove P v v0 base hd); try done.
    - apply ot_remove_live, G.
    - intros b h. unfold v0. cbn [l_hdrs]. rewrite lookup_delete_Some. split; intros [Hn ?]; (split; [by apply not_eq_sym|done]).
    - intros x Hx Hout. rewrite Hm0, Hx. by rewrite (proj2 (within_false _ _ _)). }
  assert (Hlive' : ot_live (l_reg v')).
  { destruct R6 as [[-> _]| ->]; [apply G|]. apply ot_insert_live, ot_remove_live, G. }
  destruct (space_large_add P v0 v' nbase ntotal (lh_user_off hd) newsz G0 Hnm R3) as [G' Hfree].
  - by rewrite R5, lookup_insert_eq.
  - intros x Hx. rewrite Hm0. destruct (R7 x Hx) as [Hin%within_spec| ->]; [by rewrite Hin|by rewrite andb_false_r].
  - intros x. rewrite Hm0. intros [Hw%negb_true_iff%within_false Hx]%andb_true_iff. by apply R8.
  - intros b h Hne. unfold v0. cbn [l_hdrs]. by rewrite R5, lookup_insert_ne.
  - done.
  - intros p Hp. rewrite R9, Ho0 by done. done.
  - split; [done|]. destruct R6 as [(-> & -> & ->)| ->]; [done|].
    etrans; [apply evolves_remove, (ll_span _ _ _ _ Hl)|]. apply evolves_insert; [by apply (ll_span _ _ _ _ R3)|done].
Qed.
End space.
