(* ===== verification/Background.v ===== *)
(** * Background: src/src/background.c

    Where the pools' chunks come from: the warm-chunk pool, the mapping of fresh chunks,
    and the maintenance thread.  [background_source] gives the pools the interface
    [ChunkSource].  The state also holds the kernel's address space and the owner table,
    which the large objects of Large.v share.  In the default mode chunks are anonymous
    private mappings; with [btm_mesh_mode] they are shared mappings of the memfd, Memfd.v. *)

From stdpp Require Import prelude gmap.
From S2P Require Import Prelude Memory SizeClass Freelist Registry Os Large Heap Memfd Pool.
Local Open Scope Z_scope.

Definition BTM_WARM_LOW : Z := 8.
Definition BTM_WARM_HIGH : Z := 64.
Definition kDataOff : Z := BTM_DATA_START_PAGE * BTM_PAGE_SIZE.
Definition kData : Z := BTM_CHUNK_SIZE - BTM_DATA_START_PAGE * BTM_PAGE_SIZE.

(** The maintenance thread between two of its critical sections, with the chunks only it
    holds: [disp] taken off the dispose queue, [trim] to unmap, [n] chunks to map ahead. *)
Inductive bg_pc : Type :=
| BgIdle
| BgDecommit (disp : Z)
| BgRecycle (disp : Z)
| BgTrim (trim : Z) (deficit : Z)
| BgRefill (n : Z).

Section background.
Context {Krn : OS} {T : Type} {OT : OwnerTable T}.
(** liburing: whether [io_uring_get_sqe] finds an entry for the advise of a chunk. *)
Context (uring_sqe : Z → bool).

Record bstate := mk_bstate {
  b_kernel : kstate;
  b_table : T;
  b_hdrs : gmap Z btm_large_hdr;
  warm_head : Z;
  warm_count : Z;
  dispose_head : Z;
  bg_async : bool;
  bg_ring_ok : bool;
  bg_at : bg_pc;
  b_file : memfile;
}.

(** The heap and the state of this file. *)
Definition gstate : Type := heap * bstate.
Definition set_b (f : bstate → bstate) : M gstate unit := modify (λ s, (s.1, f s.2)).
Definition set_warm (hd n : Z) : M gstate unit :=
  set_b (λ b, mk_bstate (b_kernel b) (b_table b) (b_hdrs b) hd n (dispose_head b) (bg_async b) (bg_ring_ok b) (bg_at b) (b_file b)).
Definition set_dispose (hd : Z) : M gstate unit :=
  set_b (λ b, mk_bstate (b_kernel b) (b_table b) (b_hdrs b) (warm_head b) (warm_count b) hd (bg_async b) (bg_ring_ok b) (bg_at b) (b_file b)).
Definition set_at (pc : bg_pc) : M gstate unit :=
  set_b (λ b, mk_bstate (b_kernel b) (b_table b) (b_hdrs b) (warm_head b) (warm_count b) (dispose_head b) (bg_async b) (bg_ring_ok b) pc (b_file b)).
Definition set_table (f : T → T) : M gstate unit :=
  set_b (λ b, mk_bstate (b_kernel b) (f (b_table b)) (b_hdrs b) (warm_head b) (warm_count b) (dispose_head b) (bg_async b) (bg_ring_ok b) (bg_at b) (b_file b)).
Definition set_kernel (k : kstate) (b : bstate) : bstate :=
  mk_bstate k (b_table b) (b_hdrs b) (warm_head b) (warm_count b) (dispose_head b) (bg_async b) (bg_ring_ok b) (bg_at b) (b_file b).

Definition set_memfile (f : memfile) (b : bstate) : bstate :=
  mk_bstate (b_kernel b) (b_table b) (b_hdrs b) (warm_head b) (warm_count b) (dispose_head b) (bg_async b) (bg_ring_ok b) (bg_at b) f.
Definition mesh_mode : M gstate bool := gets (λ s, btm_mesh_mode (b_file s.2)).

(** The header of a chunk; a fault when the chunk is not mapped. *)
Definition g_chunk (c : Z) : M gstate btm_chunk := λ s,
  match h_chunks s.1 !! c with Some v => Ok (v, s) | None => Fault end.
Definition g_upd (c : Z) (f : btm_chunk → btm_chunk) : M gstate unit := λ s,
  match h_chunks s.1 !! c with Some v => Ok (tt, (heap_set_chunk c (f v) s.1, s.2)) | None => Fault end.

(** ** The memfd *)
Definition on_memfd {X : Type} (m : M memfd_t X) : M gstate X :=
  zoom (λ s : gstate, mf_fd (b_file s.2)) (λ m s, (s.1, set_memfile (mf_set_fd m (b_file s.2)) s.2)) m.
Definition alloc_off : M gstate Z := λ s, on_memfd (memfd_alloc_off (k_ftruncate (b_kernel s.2))) s.
Definition free_off (off : Z) : M gstate unit := λ s, on_memfd (memfd_free_off (k_fd_stack (b_kernel s.2)) off) s.

(** [want]: BTM_MESH asks for the mode. *)
Definition init_mesh (want : bool) : M gstate unit :=
  if want then
    ok ← (λ s, on_memfd (btm_mesh_enable (k_memfd_create (b_kernel s.2))) s);
    if ok =? 0 then mret tt
    else set_b (λ b, set_memfile (mk_memfile true (mf_fd (b_file b)) (mf_map (b_file b)) (mf_rest (b_file b))) b)
  else mret tt.

(** In the default mode nothing goes back to the file. *)
Definition give_off (off : Z) : M gstate unit := mesh ← mesh_mode; if mesh : bool then free_off off else mret tt.

(** ** Pages *)
Definition bg_release_pages (vaddr off len : Z) : M gstate unit :=
  mesh ← mesh_mode;
  if mesh : bool then modify (λ s, (punch_heap off len (b_file s.2) s.1, set_memfile (punch_file off len (b_file s.2)) s.2))
  else modify (λ s, (heap_zero vaddr len s.1, s.2)).

Definition chunk_decommit (c : Z) : M gstate unit :=
  v ← g_chunk c;
  bg_release_pages (c + kDataOff) ((memfd_off v +% kDataOff)%word) kData.

Definition k_unmap (a len : Z) : M gstate unit := modify (λ s, (s.1, set_kernel (k_munmap (b_kernel s.2) a len) s.2)).

(** [mmap] of the aligned range [base] with MAP_FIXED: of the memfd at [off] in mesh mode,
    else of zero pages. *)
Definition map_chunk (base off : Z) : M gstate bool :=
  mesh ← mesh_mode;
  p ← (λ s, let '(p, k) := k_mmap_fixed (b_kernel s.2) base BTM_CHUNK_SIZE in Ok (p, (s.1, set_kernel k s.2)));
  if p : bool then
    _ ← (if mesh : bool then modify (λ s, (share_heap base off (b_file s.2) s.1, set_memfile (share_file base off (b_file s.2)) s.2))
         else modify (λ s, (fresh_chunk base s.1, s.2)));
    mret true
  else mret false.

(** ** Fresh chunks *)

(** An aligned range of the size of a chunk: more than that is mapped, and the ends are unmapped. *)
Definition reserve_chunk : M gstate (option Z) := λ s,
  let want := BTM_CHUNK_SIZE * 2 in
  let '(raw, k) := k_mmap (b_kernel s.2) want in
  let s := (s.1, set_kernel k s.2) in
  match raw with
  | None => Ok (None, s)
  | Some raw =>
      let base := round_up raw BTM_CHUNK_SIZE in
      let front := (base -% raw)%word in
      let back := (want -% front -% BTM_CHUNK_SIZE)%word in
      (_ ← (if front =? 0 then mret tt else k_unmap raw front);
       _ ← (if back =? 0 then mret tt else k_unmap ((base +% BTM_CHUNK_SIZE)%word) back);
       mret (Some base)) s
  end.

Definition map_fresh : M gstate Z :=
  mesh ← mesh_mode;
  off ← (if mesh : bool then alloc_off else mret 0);
  if (mesh : bool) && (off =? UINT64_MAX) then mret 0
  else
    raw ← reserve_chunk;
    match raw with
    | None => _ ← give_off off; mret 0
    | Some base =>
        p ← map_chunk base off;
        if p : bool then
          _ ← set_table (λ t, ot_insert t base BTM_CHUNK_SIZE base);
          _ ← g_upd base (chunk_set_off off);
          mret base
        else
          _ ← k_unmap base BTM_CHUNK_SIZE;
          _ ← give_off off;
          mret 0
    end.

Definition chunk_init_header (c : Z) (pool : pool_ref) : M gstate unit :=
  g_upd c (λ v, mk_chunk BTM_CHUNK_MAGIC (Some pool) (c_sc v) (c_part_idx v) 0 0 BTM_DATA_START_PAGE 0 (memfd_off v)
                         (replicate 512 BTM_PAGE_NONE)).

(** A trimmed chunk: its registration, its mapping and its range of the file go back. *)
Definition unmap_chunk (c : Z) : M gstate unit :=
  v ← g_chunk c;
  _ ← set_table (λ t, ot_remove t c BTM_CHUNK_SIZE);
  _ ← modify (λ s, (clear_pages c BTM_CHUNK_SIZE s.1, set_memfile (unshare_file c s.1 (b_file s.2)) s.2));
  _ ← k_unmap c BTM_CHUNK_SIZE;
  give_off (memfd_off v).

(** ** Obtain and dispose *)
Definition chunk_obtain (pool : pool_ref) : M gstate Z :=
  c ← gets (λ s, warm_head s.2);
  n ← gets (λ s, warm_count s.2);
  _ ← (if c =? 0 then mret tt else v ← g_chunk c; set_warm (c_next v) (n - 1));
  c ← (if c =? 0 then map_fresh else mret c);
  if c =? 0 then mret 0
  else
    _ ← chunk_init_header c pool;
    mret c.

Definition warm_push (c : Z) : M gstate unit :=
  hd ← gets (λ s, warm_head s.2);
  n ← gets (λ s, warm_count s.2);
  _ ← g_upd c (chunk_set_next hd);
  set_warm c (n + 1).

Definition chunk_dispose (c : Z) : M gstate unit :=
  async ← gets (λ s, bg_async s.2);
  if async : bool then
    hd ← gets (λ s, dispose_head s.2);
    _ ← g_upd c (chunk_set_next hd);
    set_dispose c
  else
    _ ← chunk_decommit c;
    n ← gets (λ s, warm_count s.2);
    if n <? BTM_WARM_HIGH then warm_push c else unmap_chunk c.

(** ** The maintenance thread *)

(** io_uring advises [kData] bytes from the second page of the chunk; the synchronous
    path, the only one in mesh mode, releases the data pages. *)
Definition decommit_one (c : Z) : M gstate unit :=
  mesh ← mesh_mode;
  ring ← gets (λ s, bg_ring_ok s.2);
  if negb mesh && ring && uring_sqe c then modify (λ s, (zap (c + BTM_PAGE_SIZE) kData s.1, s.2)) else chunk_decommit c.

(** [for (c = list; c; c = c->next)] *)
Fixpoint decommit_batch (fuel : nat) (c : Z) : M gstate unit :=
  if c =? 0 then mret tt
  else
    match fuel with
    | O => no_fuel
    | S fuel' =>
        _ ← decommit_one c;
        v ← g_chunk c;
        decommit_batch fuel' (c_next v)
    end.

(** Cleaned chunks go to the warm pool up to its high mark, the others to [trim]. *)
Fixpoint recycle_loop (fuel : nat) (disp trim : Z) : M gstate Z :=
  if disp =? 0 then mret trim
  else
    match fuel with
    | O => no_fuel
    | S fuel' =>
        v ← g_chunk disp;
        n ← gets (λ s, warm_count s.2);
        if n <? BTM_WARM_HIGH then
          _ ← warm_push disp;
          recycle_loop fuel' (c_next v) trim
        else
          _ ← g_upd disp (chunk_set_next trim);
          recycle_loop fuel' (c_next v) disp
    end.

(** One step of the thread, between two points where other threads may run.  The lists are
    of distinct chunks, so the number of chunks bounds the loops over them. *)
Definition bg_step : M gstate unit :=
  pc ← gets (λ s, bg_at s.2);
  fuel ← gets (λ s, size (h_chunks s.1));
  match pc with
  | BgIdle =>
      disp ← gets (λ s, dispose_head s.2);
      n ← gets (λ s, warm_count s.2);
      if (disp =? 0) && (BTM_WARM_LOW <=? n) then mret tt
      else
        _ ← set_dispose 0;
        set_at (BgDecommit disp)
  | BgDecommit disp =>
      _ ← decommit_batch fuel disp;
      set_at (BgRecycle disp)
  | BgRecycle disp =>
      trim ← recycle_loop fuel disp 0;
      n ← gets (λ s, warm_count s.2);
      set_at (BgTrim trim (BTM_WARM_LOW - n))
  | BgTrim trim deficit =>
      if trim =? 0 then set_at (BgRefill deficit)
      else
        v ← g_chunk trim;
        _ ← unmap_chunk trim;
        set_at (BgTrim (c_next v) deficit)
  | BgRefill n =>
      if n <=? 0 then set_at BgIdle
      else
        c ← map_fresh;
        if c =? 0 then set_at BgIdle
        else
          _ ← warm_push c;
          set_at (BgRefill (n - 1))
  end.

(** [btm_bg_atfork_child]: the thread is gone in the child and so is its queue. *)
Definition btm_bg_atfork_child : M gstate unit :=
  set_b (λ b, mk_bstate (b_kernel b) (b_table b) (b_hdrs b) (warm_head b) (warm_count b) 0 false false BgIdle (b_file b)).

(** The memory of a forked child: in mesh mode MADV_DONTFORK keeps the chunks from it. *)
Definition lost_in_fork (s : gstate) : gstate :=
  map_fold (λ c _ s, (clear_pages c BTM_CHUNK_SIZE s.1, set_kernel (k_munmap (b_kernel s.2) c BTM_CHUNK_SIZE) s.2)) s (mf_map (b_file s.2)).
Definition fork_memory : M gstate unit := mesh ← mesh_mode; if mesh : bool then modify lost_in_fork else mret tt.

#[export] Instance background_source : ChunkSource bstate := {|
  btm_chunk_obtain r h b := match chunk_obtain r (h, b) with
    | Ok (c, (h', b')) => Ok (c, h', b') | Fault => Fault | Aborted => Aborted | OutOfFuel => OutOfFuel end;
  btm_chunk_dispose c h b := match chunk_dispose c (h, b) with
    | Ok (_, (h', b')) => Ok (h', b') | Fault => Fault | Aborted => Aborted | OutOfFuel => OutOfFuel end;
  btm_release_pages a off n h b := match bg_release_pages a off n (h, b) with
    | Ok (_, (h', b')) => (h', b') | _ => (h, b) end;
|}.
End background.
Arguments bstate {Krn} T.
Arguments gstate {Krn} T.
