(* ===== verification/Allocator.v ===== *)
(** * Allocator: the abstract allocator

    What the program may expect of the library, with nothing of the library in it: a map
    from the addresses of its blocks to their sizes, and the bytes in them.  Events are
    the calls of any of the program's threads, its writes, the exits of threads, cold
    tiering, the steps of the maintenance thread, and, where they are allowed, forks, after
    which the process is the child.  [abs_step ev v am am']: the allocator [am] may answer
    the event with [v] and become [am']; [allowed am ev]: the program may ask. *)

From stdpp Require Import prelude gmap.
From S2P Require Import Prelude Memory PoolSys.
Local Open Scope Z_scope.

Inductive event :=
  | EMalloc (me : nat) (size ra : Z)
  | ECalloc (me : nat) (n size ra : Z)
  | ERealloc (me : nat) (ptr size ra : Z)
  | EReallocarray (me : nat) (ptr n size ra : Z)
  | EMemalign (me : nat) (log size ra : Z)
  | EAligned (me : nat) (log size ra : Z)
  | EFree (me : nat) (ptr : Z)
  | EUsable (me : nat) (ptr : Z)
  | EWrite (a : Z) (bytes : list Z)
  | EExit (me : nat)
  | EPageout
  | EFork
  | EMaintain (uring_sqe : Z → bool).

Record amem := mk_amem { am_blocks : gmap Z Z; am_bytes : gmap Z Z }.

(** The largest request the theorems cover; beyond 2^64 - 32 the size arithmetic of
    src/src/large.c wraps. *)
Definition max_request : Z := 2 ^ 46.

(** The block a call resizes, and the size. *)
Definition resize (ev : event) : option (Z * Z) :=
  match ev with
  | ERealloc _ ptr size _ => Some (ptr, size)
  | EReallocarray _ ptr n size _ => if n * size <? 2 ^ 64 then Some (ptr, n * size) else None
  | _ => None
  end.

(** An allocation's size, the exponent of its alignment, and whether it is cleared. *)
Definition request (ev : event) : option (Z * Z * bool) :=
  match ev with
  | EMalloc _ size _ => Some (size, 4, false)
  | ECalloc _ n size _ => Some (n * size, 4, true)
  | EMemalign _ log size _ | EAligned _ log size _ => Some (size, log, false)
  | _ => '(ptr, size) ← resize ev; if ptr =? 0 then Some (size, 4, false) else None
  end.

(** When an event may leave the blocks alone and answer [v]: an allocation fails, there is
    nothing to free, or it does not concern the blocks. *)
Definition may_keep (ev : event) (v : Z) : Prop :=
  match ev with
  | EMalloc _ _ _ | ECalloc _ _ _ _ | EMemalign _ _ _ _ | EAligned _ _ _ _ => v = 0
  | ERealloc _ _ _ _ | EReallocarray _ _ _ _ _ => v = 0 ∧ ∀ ptr size, resize ev = Some (ptr, size) → ptr = 0 ∨ 0 < size
  | EFree _ ptr => ptr = 0
  | EUsable _ ptr => ptr = 0 ∧ v = 0
  | EWrite _ _ => False
  | EExit _ | EPageout | EFork | EMaintain _ => True
  end.

Section allocator.
(** The canary that marks freed slots, when double frees are looked for. *)
Context (canary : option (Z → Z)).
(** Whether the program may fork and go on in the child: not in mesh mode. *)
Context (forks : bool).

(** The program did not store the canary in the second word of its block. *)
Definition no_canary (am : amem) (x : Z) : Prop := ∀ f, canary = Some f → load64 (am_bytes am) (x + 8) ≠ f x.

Definition owned (am : amem) (x : Z) : Prop := is_Some (am_blocks am !! x) ∧ no_canary am x.

Definition allowed (am : amem) (ev : event) : Prop :=
  match ev with
  | EMalloc _ size ra => 0 ≤ size ≤ max_request ∧ ra ≠ 0
  | ECalloc _ n size ra => 0 ≤ n ∧ 0 ≤ size ∧ (n * size ≤ max_request ∨ 2 ^ 64 ≤ n * size) ∧ ra ≠ 0
  | ERealloc _ ptr size ra => (ptr = 0 ∨ owned am ptr) ∧ 0 ≤ size ≤ max_request ∧ ra ≠ 0
  | EReallocarray _ ptr n size ra =>
      (ptr = 0 ∨ owned am ptr) ∧ 0 ≤ n ∧ 0 ≤ size ∧ (n * size ≤ max_request ∨ 2 ^ 64 ≤ n * size) ∧ ra ≠ 0
  | EAligned _ log size ra => 0 ≤ log ≤ 40 ∧ 0 ≤ size ≤ max_request ∧ ra ≠ 0
  | EMemalign _ log size ra => 3 ≤ log ≤ 40 ∧ 0 ≤ size ≤ max_request ∧ ra ≠ 0
  | EFree _ ptr => ptr = 0 ∨ owned am ptr
  | EUsable _ ptr => ptr = 0 ∨ is_Some (am_blocks am !! ptr)
  | EWrite a l => ∃ x n, am_blocks am !! x = Some n ∧ x ≤ a ∧ a + Z.of_nat (length l) ≤ x + n
  | EFork => forks = true
  | EExit _ | EPageout | EMaintain _ => True
  end.

(** Blocks that stay keep their bytes. *)
Definition bytes_kept (am am' : amem) : Prop :=
  ∀ x n y, am_blocks am !! x = Some n → am_blocks am' !! x = Some n → x ≤ y < x + n → byte_at (am_bytes am') y = byte_at (am_bytes am) y.

(** No block of the program overlaps [x, x + n). *)
Definition apart_from (bl : gmap Z Z) (x n : Z) : Prop := ∀ y m, bl !! y = Some m → disjoint_blocks x n y m.

Inductive abs_step : event → Z → amem → amem → Prop :=
  | abs_quiet ev v am am' :
      may_keep ev v → am_blocks am' = am_blocks am → bytes_kept am am' → abs_step ev v am am'
  | abs_alloc ev size log zero v n am am' :
      request ev = Some (size, log, zero) → 0 < v → v mod 16 = 0 → v mod 2 ^ log = 0 → size ≤ n →
      apart_from (am_blocks am) v n → am_blocks am' = <[v := n]> (am_blocks am) → bytes_kept am am' →
      (zero = true → ∀ y, v ≤ y < v + size → byte_at (am_bytes am') y = 0) → abs_step ev v am am'
  | abs_free ev v ptr am am' :
      (∃ me, ev = EFree me ptr) ∨ (resize ev = Some (ptr, 0) ∧ v = 0) → ptr ≠ 0 →
      am_blocks am' = delete ptr (am_blocks am) → bytes_kept am am' → abs_step ev v am am'
  | abs_realloc ev ptr size n v m am am' :
      resize ev = Some (ptr, size) → am_blocks am !! ptr = Some n → 0 < size → 0 < v → v mod 16 = 0 → size ≤ m →
      apart_from (delete ptr (am_blocks am)) v m → am_blocks am' = <[v := m]> (delete ptr (am_blocks am)) → 
      (∀ x k y, x ≠ v → am_blocks am !! x = Some k → am_blocks am' !! x = Some k → x ≤ y < x + k →
        byte_at (am_bytes am') y = byte_at (am_bytes am) y) →
      (∀ i, 0 ≤ i < Z.min n size → byte_at (am_bytes am') (v + i) = byte_at (am_bytes am) (ptr + i)) →
      abs_step ev v am am'
  | abs_usable me ptr n am am' :
      am_blocks am !! ptr = Some n → am_blocks am' = am_blocks am → bytes_kept am am' → abs_step (EUsable me ptr) n am am'
  | abs_write a l v am : abs_step (EWrite a l) v am (mk_amem (am_blocks am) (store_bytes (am_bytes am) a l)).

(** A program, threads and schedule included: what it does next, from the events so far,
    oldest first, and their answers. *)
Definition program : Type := list (event * Z) → option event.

(** The program's runs on the abstract allocator. *)
Inductive abs_run (prog : program) (am0 : amem) : list (event * Z) → amem → Prop :=
  | abs_start : abs_run prog am0 [] am0
  | abs_more tr am ev v am' :
      abs_run prog am0 tr am → prog tr = Some ev → abs_step ev v am am' → abs_run prog am0 (tr ++ [(ev, v)]) am'.

(** A correct program: whatever the abstract allocator answers, it only asks what is allowed. *)
Definition well_behaved (prog : program) (am0 : amem) : Prop :=
  ∀ tr am ev, abs_run prog am0 tr am → prog tr = Some ev → allowed am ev.

(** ** The blocks of a program never overlap *)
Definition pairwise_apart (bl : gmap Z Z) : Prop :=
  ∀ x n y m, bl !! x = Some n → bl !! y = Some m → x ≠ y → disjoint_blocks x n y m.

Lemma pairwise_insert bl v n : pairwise_apart bl → apart_from bl v n → pairwise_apart (<[v := n]> bl).
Proof.
  intros Hd Ha x k y m. rewrite !lookup_insert_Some. intros [[<- <-]|[Hx Hxl]] [[<- <-]|[Hy Hyl]] Hne; [done|by apply Ha| |by apply Hd].
  specialize (Ha x k Hxl). unfold disjoint_blocks in *. tauto.
Qed.

Lemma pairwise_delete bl x : pairwise_apart bl → pairwise_apart (delete x bl).
Proof. intros Hd y n z m [_ Hy]%lookup_delete_Some [_ Hz]%lookup_delete_Some. by apply Hd. Qed.

Lemma abs_step_apart ev v am am' : abs_step ev v am am' → pairwise_apart (am_blocks am) → pairwise_apart (am_blocks am').
Proof.
  intros H Hd. destruct H as [? ? ? ? _ ->|? ? ? ? ? ? ? ? _ _ _ _ _ ? -> _ _|? ? ? ? ? _ _ ->|? ? ? ? ? ? ? ? _ _ _ _ _ _ ? ->|? ? ? ? ? _ ->|]; try done.
  - by apply pairwise_insert.
  - by apply pairwise_delete.
  - apply pairwise_insert; [by apply pairwise_delete|done].
Qed.

Lemma abs_run_apart prog am0 tr am : abs_run prog am0 tr am → pairwise_apart (am_blocks am0) → pairwise_apart (am_blocks am).
Proof. induction 1 as [|tr am ev v am2 _ IH _ Hs]; intros Hd; [done|]. by apply (abs_step_apart _ _ _ _ Hs), IH. Qed.
End allocator.
