(* ===== verification/Api.v ===== *)
(** * Api: src/src/btmalloc.c and src/src/tcache.c

    The public operations of the allocator, on the state of the whole process: the pools
    and the chunk source, the threads with their caches, and the globals of btmalloc.c.
    Each operation takes the thread [me] that calls it.  The allocator's own tables (the
    partition array, the interning table, the TLS blocks) are kept apart from the modelled
    address space; whether the kernel grants them is an argument of the section. *)

From stdpp Require Import prelude gmap.
From S2P Require Import Prelude Memory SizeClass Freelist Registry Engine Callsite Os Large Heap Memfd Pool Tiering Background.
Local Open Scope Z_scope.

Definition EINVAL : Z := 22.
Definition ENOMEM : Z := 12.
Definition sizeof_partition : Z := 8 + 36 * 104.
Definition sizeof_tls_bin : Z := 24.
Definition sizeof_intern_ent : Z := 16.

(** What [btm_do_init] and [btm_bg_ensure_started] read from the environment:
    BTM_PARTITIONS through [atol], BTM_PARTITION_MODE, BTM_HARDEN, BTM_NO_ASYNC and BTM_MESH. *)
Record environment := mk_env {
  env_partitions : option Z;
  env_intern : bool;
  env_harden : bool;
  env_no_async : bool;
  env_mesh : bool;
}.

Section api.
Context {F : FlOps} {Krn : OS} {T : Type} {OT : OwnerTable T} {OE : OwnerEngine T}.
(** The canary of a freed slot, when the build has BTM_HARDENING. *)
Context (df_canary : option (Z → Z)) (env : environment).
(** Whether [mmap] grants [len] bytes for a table, and [pthread_create] the thread. *)
Context (meta_mmap : kstate → Z → bool) (spawn : kstate → bool).

Record tls := mk_tls { rcache : oe_cache; bins : gmap Z btm_tls_bin }.
Record thread := mk_thread { th_tls : option tls; th_intern : intern_tls; th_errno : Z }.

(** A thread that never called the allocator. *)
Definition new_thread : thread := mk_thread None (mk_intern_tls 0 0) 0.

Record astate := mk_astate {
  g_pools : pstate (bstate T);
  g_partitions : bool;
  g_nparts : Z;
  g_ready : bool;
  g_once : bool;
  g_intern_mode : bool;
  g_intern : intern_state;
  g_harden_mode : bool;
  g_sample : gmap Z Z;
  g_bg_started : bool;
  g_threads : gmap nat thread;
}.

(** The globals' initial values, in a process whose address space is [k]. *)
Definition process_start (k : kstate) : astate :=
  mk_astate (mk_pstate (mk_heap ∅ ∅ ∅) ∅ 0 (mk_bstate k oe_table0 ∅ 0 0 0 false false BgIdle memfile0))
    false 1 false false false (mk_intern [] 0) false ∅ false ∅.

(** ** Field assignments *)
Definition set_pools (p : pstate (bstate T)) (s : astate) : astate :=
  mk_astate p (g_partitions s) (g_nparts s) (g_ready s) (g_once s) (g_intern_mode s) (g_intern s) (g_harden_mode s)
    (g_sample s) (g_bg_started s) (g_threads s).
Definition set_intern (i : intern_state) (s : astate) : astate :=
  mk_astate (g_pools s) (g_partitions s) (g_nparts s) (g_ready s) (g_once s) (g_intern_mode s) i (g_harden_mode s)
    (g_sample s) (g_bg_started s) (g_threads s).
Definition set_sample (m : gmap Z Z) (s : astate) : astate :=
  mk_astate (g_pools s) (g_partitions s) (g_nparts s) (g_ready s) (g_once s) (g_intern_mode s) (g_intern s) (g_harden_mode s)
    m (g_bg_started s) (g_threads s).
Definition set_bg_started (v : bool) (s : astate) : astate :=
  mk_astate (g_pools s) (g_partitions s) (g_nparts s) (g_ready s) (g_once s) (g_intern_mode s) (g_intern s) (g_harden_mode s)
    (g_sample s) v (g_threads s).
Definition set_thread (me : nat) (th : thread) (s : astate) : astate :=
  mk_astate (g_pools s) (g_partitions s) (g_nparts s) (g_ready s) (g_once s) (g_intern_mode s) (g_intern s) (g_harden_mode s)
    (g_sample s) (g_bg_started s) (<[me := th]> (g_threads s)).

(** ** Parts of the state *)
Definition thread_at (s : astate) (me : nat) : thread := default new_thread (g_threads s !! me).
Definition get_tls (me : nat) : M astate (option tls) := gets (λ s, th_tls (thread_at s me)).
Definition set_tls (me : nat) (t : option tls) : M astate unit :=
  modify (λ s, set_thread me (mk_thread t (th_intern (thread_at s me)) (th_errno (thread_at s me))) s).
Definition set_errno (me : nat) (e : Z) : M astate unit :=
  modify (λ s, set_thread me (mk_thread (th_tls (thread_at s me)) (th_intern (thread_at s me)) e) s).

Definition on_pools {A : Type} (m : M (pstate (bstate T)) A) : M astate A := zoom g_pools set_pools m.

(** The large objects see the bytes, the headers, the owner table and the kernel. *)
Definition large_view (p : pstate (bstate T)) : lstate T :=
  mk_lstate (h_mem (p_heap p)) (b_hdrs (p_src p)) (b_table (p_src p)) (b_kernel (p_src p)).
Definition set_large (v : lstate T) (p : pstate (bstate T)) : pstate (bstate T) :=
  let b := p_src p in
  mk_pstate (heap_set_mem (l_mem v) (p_heap p)) (p_pools p) (p_epoch p)
    (mk_bstate (l_kernel v) (l_reg v) (l_hdrs v) (warm_head b) (warm_count b) (dispose_head b) (bg_async b) (bg_ring_ok b) (bg_at b) (b_file b)).
Definition on_large {A : Type} (m : M (lstate T) A) : M astate A := on_pools (zoom large_view set_large m).

(** The maintenance thread and the chunk source. *)
Definition set_source (g : gstate T) (p : pstate (bstate T)) : pstate (bstate T) := mk_pstate g.1 (p_pools p) (p_epoch p) g.2.
Definition on_source {A : Type} (m : M (gstate T) A) : M astate A := on_pools (zoom (λ p, (p_heap p, p_src p)) set_source m).

Definition kernel_of (s : astate) : kstate := b_kernel (p_src (g_pools s)).
Definition mesh_on (s : astate) : bool := btm_mesh_mode (b_file (p_src (g_pools s))).
Definition table_of (s : astate) : T := b_table (p_src (g_pools s)).
Definition mem_of (s : astate) : gmap Z Z := h_mem (p_heap (g_pools s)).

(** Access to [n] bytes at [a]: a fault when one of them is not mapped. *)
Definition accessible (s : astate) (a n : Z) : bool := forallb (k_mapped (kernel_of s)) (seqZ a n).
Definition set_mem (m : gmap Z Z) (s : astate) : astate :=
  set_pools (mk_pstate (heap_set_mem m (p_heap (g_pools s))) (p_pools (g_pools s)) (p_epoch (g_pools s)) (p_src (g_pools s))) s.
Definition write_mem (a n : Z) (f : gmap Z Z → gmap Z Z) : M astate unit := λ s,
  if accessible s a n then Ok (tt, set_mem (f (mem_of s)) s) else Fault.
Definition c_memset (p c n : Z) : M astate unit := write_mem p n (λ m, memset m p c n).
Definition c_memcpy (dst src n : Z) : M astate unit := λ s,
  if accessible s src n then write_mem dst n (λ m, memcpy m dst src n) s else Fault.
Definition read_word (a : Z) : M astate Z := λ s, if accessible s a 8 then Ok (load64 (mem_of s) a, s) else Fault.
Definition write_word (a v : Z) : M astate unit := write_mem a 8 (λ m, store64 m a v).

(** ** Initialization *)
Definition empty_pools (np : Z) : gmap pool_ref btm_scpool :=
  list_to_map (i ← seqZ 0 np; (λ sc, ((i, sc), zero_pool)) <$> seqZ 0 BTM_NUM_SIZE_CLASSES).

(** 31 doublings reach 2^31, so the fuel is enough for every request the loops end on. *)
Definition btm_do_init : M astate unit := λ s,
  match read_nparts_env 31 (env_partitions env) with
  | None => OutOfFuel
  | Some np =>
      if meta_mmap (kernel_of s) (np * sizeof_partition) then
        match intern_init 31 np with
        | None => OutOfFuel
        | Some tbl =>
            (_ ← on_source (init_mesh (env_mesh env));
             modify (λ s,
               let intern := env_intern env && meta_mmap (kernel_of s) (intern_cap tbl * sizeof_intern_ent) in
               let p := g_pools s in
               mk_astate (mk_pstate (p_heap p) (empty_pools np) (p_epoch p) (p_src p)) true np true (g_once s)
                 intern (if intern then tbl else g_intern s) (bool_decide (is_Some df_canary) && env_harden env)
                 (g_sample s) (g_bg_started s) (g_threads s))) s
        end
      else Ok (tt, s)
  end.

(** [pthread_once] runs [btm_do_init] at most once, whether it succeeds or not. *)
Definition btm_ensure_init : M astate unit :=
  ready ← gets g_ready;
  if ready : bool then mret tt
  else
    once ← gets g_once;
    if once : bool then mret tt
    else
      _ ← modify (λ s, mk_astate (g_pools s) (g_partitions s) (g_nparts s) (g_ready s) true (g_intern_mode s) (g_intern s)
                         (g_harden_mode s) (g_sample s) (g_bg_started s) (g_threads s));
      btm_do_init.

(** ** tcache.c *)
Definition btm_tls_bytes (s : astate) : Z := oe_sizeof + g_nparts s * BTM_NUM_SIZE_CLASSES * sizeof_tls_bin.

(** [false]: no memory for the block. *)
Definition btm_tls_get (me : nat) : M astate bool :=
  t ← get_tls me;
  match t with
  | Some _ => mret true
  | None =>
      granted ← gets (λ s, meta_mmap (kernel_of s) (btm_tls_bytes s));
      if granted : bool then
        _ ← set_tls me (Some (mk_tls oe_new ∅));
        mret true
      else mret false
  end.

Definition bin_index (part sc : Z) : Z := part * BTM_NUM_SIZE_CLASSES + sc.

(** A bin nobody wrote reads as zeros; the array ends after the last partition. *)
Definition btm_tls_bin_at (me : nat) (part sc : Z) : M astate btm_tls_bin := λ s,
  match th_tls (thread_at s me) with
  | Some t => if bin_index part sc <? g_nparts s * BTM_NUM_SIZE_CLASSES
              then Ok (default zero_bin (bins t !! bin_index part sc), s) else Fault
  | None => Fault
  end.
Definition set_bin (me : nat) (part sc : Z) (b : btm_tls_bin) : M astate unit := λ s,
  match th_tls (thread_at s me) with
  | Some t => set_tls me (Some (mk_tls (rcache t) (<[bin_index part sc := b]> (bins t)))) s
  | None => Fault
  end.

(** [for (i = 0; i < nbins; i++)] *)
Fixpoint destroy_loop (k : nat) (i : Z) (bs : gmap Z btm_tls_bin) : M astate unit :=
  match k with
  | O => mret tt
  | S k' =>
      let b := default zero_bin (bs !! i) in
      _ ← (if negb (b_count b =? 0) && bool_decide (is_Some (b_pool b))
           then _ ← on_pools (btm_pool_flush b 0); mret tt
           else mret tt);
      destroy_loop k' (i + 1) bs
  end.

Definition btm_tls_destroy (me : nat) : M astate unit :=
  t ← get_tls me;
  match t with
  | None => mret tt
  | Some t =>
      _ ← set_tls me None;
      nbins ← gets (λ s, g_nparts s * BTM_NUM_SIZE_CLASSES);
      destroy_loop (Z.to_nat nbins) 0 (bins t)
  end.

(** ** background.c: starting the thread *)
Definition btm_bg_ensure_started : M astate unit :=
  started ← gets g_bg_started;
  if started : bool then mret tt
  else
    _ ← modify (set_bg_started true);
    ok ← gets (λ s, negb (env_no_async env) && spawn (kernel_of s));
    if ok : bool then
      on_source (set_b (λ b, mk_bstate (b_kernel b) (b_table b) (b_hdrs b) (warm_head b) (warm_count b) (dispose_head b) true (bg_ring_ok b) (bg_at b) (b_file b)))
    else mret tt.

(** The first lines of [bg_main]: [ok] tells whether io_uring could be set up. *)
Definition bg_ring_init (ok : bool) : M (gstate T) unit :=
  if ok then set_b (λ b, mk_bstate (b_kernel b) (b_table b) (b_hdrs b) (warm_head b) (warm_count b) (dispose_head b) (bg_async b) true (bg_at b) (b_file b))
  else mret tt.

(** ** Hot paths *)
Definition resolve_owner (me : nat) (ptr : Z) : M astate Z := λ s,
  let '(owner, c) := oe_resolve (rcache <$> th_tls (thread_at s me)) (table_of s) ptr in
  match th_tls (thread_at s me), c with
  | Some t, Some c => (_ ← set_tls me (Some (mk_tls c (bins t))); mret owner) s
  | _, _ => Ok (owner, s)
  end.

Definition partition_of (me : nat) (ra : Z) : M astate Z := λ s,
  match btm_partition_of (g_intern_mode s) (g_nparts s) (g_intern s) (th_intern (thread_at s me)) ra with
  | Some (part, i, t) =>
      Ok (part, set_thread me (mk_thread (th_tls (thread_at s me)) t (th_errno (thread_at s me))) (set_intern i s))
  | None => OutOfFuel
  end.

(** [btm_partitions[part]]: a fault past the array or when it was never mapped. *)
Definition sample_at (part : Z) : M astate Z := λ s,
  if g_partitions s && (part <? g_nparts s) then Ok (default 0 (g_sample s !! part), s) else Fault.
Definition record_sample (part ra : Z) : M astate unit :=
  cur ← sample_at part;
  if cur =? 0 then modify (λ s, set_sample (<[part := ra]> (g_sample s)) s) else mret tt.

(** The second word of a slot, when double frees are looked for. *)
Definition clear_canary (p : Z) : M astate unit :=
  on ← gets g_harden_mode;
  if on : bool then write_word (p + 8) 0 else mret tt.
Definition stamp_canary (p : Z) : M astate unit :=
  on ← gets g_harden_mode;
  match df_canary with
  | Some canary => if on : bool then write_word (p + 8) (canary p) else mret tt
  | None => mret tt
  end.
(** [btm_double_free] reports and aborts. *)
Definition check_canary (p : Z) : M astate unit :=
  on ← gets g_harden_mode;
  match df_canary with
  | Some canary => if on : bool then v ← read_word (p + 8); if v =? canary p then aborts else mret tt else mret tt
  | None => mret tt
  end.

(** A hit in the bin. *)
Definition malloc_hit (me : nat) (part sc : Z) (bin : btm_tls_bin) : M astate Z :=
  let p := b_free_head bin in
  next ← on_pools (fl_get p);
  _ ← set_bin me part sc (mk_bin next (b_pool bin) (u32 (b_count bin - 1)));
  _ ← clear_canary p;
  mret p.

(** The pools work on the bin in place. *)
Definition refill_bin (me : nat) (part sc : Z) (bin : btm_tls_bin) (want : Z) : M astate Z :=
  '(p, bin) ← on_pools (btm_pool_refill (part, sc) bin want);
  _ ← set_bin me part sc bin;
  mret p.
Definition flush_bin (me : nat) (part sc : Z) (bin : btm_tls_bin) (keep : Z) : M astate unit :=
  bin ← on_pools (btm_pool_flush bin keep);
  set_bin me part sc bin.

(** A miss: refill from the pool. *)
Definition malloc_miss (me : nat) (part sc ra : Z) (bin : btm_tls_bin) : M astate Z :=
  let bin := mk_bin (b_free_head bin) (Some (part, sc)) (b_count bin) in
  _ ← set_bin me part sc bin;
  _ ← record_sample part ra;
  let want := btm_cache_max sc / 2 in
  let want := if want <? 1 then 1 else want in
  p ← refill_bin me part sc bin want;
  _ ← (if p =? 0 then mret tt else clear_canary p);
  mret p.

Definition malloc_small (me : nat) (sc ra : Z) : M astate Z :=
  part ← partition_of me ra;
  bin ← btm_tls_bin_at me part sc;
  if b_free_head bin =? 0 then malloc_miss me part sc ra bin else malloc_hit me part sc bin.

Definition btm_malloc_at (me : nat) (size ra : Z) : M astate Z :=
  let sc := btm_size_to_sc size in
  if sc <? 0 then
    if size =? 0 then mret 0
    else
      _ ← btm_ensure_init;
      on_large (btm_large_alloc size BTM_ALIGNMENT)
  else
    t ← get_tls me;
    match t with
    | Some _ => malloc_small me sc ra
    | None =>
        _ ← btm_ensure_init;
        ok ← btm_tls_get me;
        if ok : bool then
          _ ← btm_bg_ensure_started;
          malloc_small me sc ra
        else mret 0
    end.

Definition owner_is_large (owner : Z) : bool := negb (Z.land owner 1 =? 0).
Definition large_base (owner : Z) : Z := Z.land owner (not64 1).

Definition get_chunk_hdr (c : Z) : M astate btm_chunk := on_pools (get_chunk c).

(** Push the slot on its bin; flush the bin when it is over its cap. *)
Definition free_cached (me : nat) (ptr : Z) (c : btm_chunk) : M astate unit :=
  let sc := c_sc c in
  _ ← check_canary ptr;
  bin ← btm_tls_bin_at me (c_part_idx c) sc;
  _ ← on_pools (fl_set ptr (b_free_head bin));
  let bin := mk_bin ptr (c_pool c) (u32 (b_count bin + 1)) in
  _ ← set_bin me (c_part_idx c) sc bin;
  _ ← stamp_canary ptr;
  if btm_cache_max sc <? b_count bin then flush_bin me (c_part_idx c) sc bin (btm_cache_max sc / 2)
  else mret tt.

Definition btm_free (me : nat) (ptr : Z) : M astate unit :=
  if ptr =? 0 then mret tt
  else
    owner ← resolve_owner me ptr;
    if owner =? 0 then mret tt
    else if owner_is_large owner then on_large (btm_large_free (large_base owner))
    else
      c ← get_chunk_hdr owner;
      t ← get_tls me;
      match t with
      | Some _ => free_cached me ptr c
      | None =>
          ok ← btm_tls_get me;
          if ok : bool then free_cached me ptr c
          else
            d ← on_pools (slab_of owner ptr);
            on_pools (btm_pool_free_one d ptr)
      end.

(** ** calloc and realloc *)

(** [__builtin_mul_overflow] on [size_t]. *)
Definition mul_overflow (n size : Z) : option Z := if n * size <? 2 ^ 64 then Some (n * size) else None.

Definition btm_calloc_at (me : nat) (n size ra : Z) : M astate Z :=
  match mul_overflow n size with
  | None => mret 0
  | Some bytes =>
      if bytes =? 0 then mret 0
      else if BTM_SMALL_MAX_SIZE <? bytes then
        _ ← btm_ensure_init;
        on_large (btm_large_alloc bytes BTM_ALIGNMENT)
      else
        p ← btm_malloc_at me bytes ra;
        _ ← (if p =? 0 then mret tt else c_memset p 0 bytes);
        mret p
  end.

(** Move a block of [old] bytes to a new one of [size] bytes; [release] frees the old. *)
Definition realloc_move (me : nat) (ptr old size ra : Z) (release : M astate unit) : M astate Z :=
  np ← btm_malloc_at me size ra;
  if np =? 0 then mret 0
  else
    _ ← c_memcpy np ptr (if old <? size then old else size);
    _ ← release;
    mret np.

Definition btm_realloc_at (me : nat) (ptr size ra : Z) : M astate Z :=
  if ptr =? 0 then btm_malloc_at me size ra
  else if size =? 0 then _ ← btm_free me ptr; mret 0
  else
    owner ← resolve_owner me ptr;
    if owner =? 0 then mret 0
    else if negb (owner_is_large owner) then
      c ← get_chunk_hdr owner;
      if btm_size_to_sc size =? c_sc c then mret ptr
      else realloc_move me ptr (btm_sc_to_size (c_sc c)) size ra (btm_free me ptr)
    else
      let base := large_base owner in
      old ← on_large (btm_large_usable_size base ptr);
      if size <=? BTM_SMALL_MAX_SIZE then realloc_move me ptr old size ra (on_large (btm_large_free base))
      else on_large (btm_large_realloc base ptr size).

(** ** The rest of the public API; [ra] is the caller's return address *)
Definition btm_malloc (me : nat) (size ra : Z) : M astate Z := btm_malloc_at me size ra.
Definition btm_calloc (me : nat) (n size ra : Z) : M astate Z := btm_calloc_at me n size ra.
Definition btm_realloc (me : nat) (ptr size ra : Z) : M astate Z := btm_realloc_at me ptr size ra.

Definition btm_reallocarray (me : nat) (ptr n size ra : Z) : M astate Z :=
  match mul_overflow n size with
  | None => _ ← set_errno me ENOMEM; mret 0
  | Some bytes => btm_realloc_at me ptr bytes ra
  end.

Definition is_pow2 (x : Z) : bool := negb (x =? 0) && (Z.land x (u64 (x - 1)) =? 0).

(** The result and what is stored in [*out], if anything; [out] itself is not [NULL]. *)
Definition btm_posix_memalign (me : nat) (alignment size ra : Z) : M astate (Z * option Z) :=
  if negb (is_pow2 alignment) || negb (alignment mod 8 =? 0) then mret (EINVAL, None)
  else if size =? 0 then mret (0, Some 0)
  else
    _ ← btm_ensure_init;
    p ← (if alignment <=? BTM_ALIGNMENT then btm_malloc_at me size ra
         else on_large (btm_large_alloc size alignment));
    if p =? 0 then mret (ENOMEM, None) else mret (0, Some p).

Definition btm_aligned_alloc (me : nat) (alignment size ra : Z) : M astate Z :=
  if negb (is_pow2 alignment) then _ ← set_errno me EINVAL; mret 0
  else if size =? 0 then mret 0
  else if negb (size mod alignment =? 0) then _ ← set_errno me EINVAL; mret 0
  else
    _ ← btm_ensure_init;
    if alignment <=? BTM_ALIGNMENT then btm_malloc_at me size ra
    else on_large (btm_large_alloc size alignment).

Definition btm_malloc_usable_size (me : nat) (ptr : Z) : M astate Z :=
  if ptr =? 0 then mret 0
  else
    owner ← resolve_owner me ptr;
    if owner =? 0 then mret 0
    else if negb (owner_is_large owner) then
      c ← get_chunk_hdr owner;
      mret (btm_sc_to_size (c_sc c))
    else on_large (btm_large_usable_size (large_base owner) ptr).

(** Cold tiering, on every pool of the process. *)
Definition btm_pageout_cold : M astate Z :=
  ready ← gets g_ready;
  if ready : bool then
    np ← gets g_nparts;
    on_pools (pageout np)
  else mret 0.

(** [btm_atfork_child], in the child of a fork between two operations: the locks are new,
    the maintenance thread is gone.  The other threads' blocks stay, with nobody to use them. *)
Definition btm_atfork_child : M astate unit :=
  _ ← on_source btm_bg_atfork_child;
  modify (set_bg_started false).

End api.
Arguments astate {Krn} T {OT OE}.
Arguments thread T {OT OE}.
Arguments tls T {OT OE}.
