(* ===== verification/BgLaws.v ===== *)
(** * BgLaws: the chunk source keeps its interface

    The invariant of src/src/background.c: every chunk is at a client, warm, queued or in
    the hands of the maintenance thread, mapped and registered, in mesh mode on a range of
    the memfd of its own; the large objects of the
    process keep their mappings and registrations beside the chunks; every other address
    is foreign.  [background_laws] discharges the interface of the pools, and
    [bg_step_spec] shows that the maintenance thread may run between any two steps. *)

From stdpp Require Import prelude gmap.
From S2P Require Import Prelude Memory SizeClass Freelist Registry Os Large Heap Memfd Dll Pool PoolInv PoolFrame PoolRun Space Background.
Local Open Scope Z_scope.

Section laws.
Context {Krn : OS} {KL : OSLaws Krn} {T : Type} {OT : OwnerTable T} {TL : OwnerTableLaws T OT}.
Implicit Types (h : heap) (b : bstate T).

(** ** The invariant *)

(** The address space, as the large objects see it. *)
Definition bview h b : lstate T := mk_lstate (h_mem h) (b_hdrs b) (b_table b) (b_kernel b).

(** The lists nobody but the maintenance thread holds, between its steps: first the one it
    works on, then those that were lost when the process forked. *)
Definition pc_list (pc : bg_pc) (Q : list (list Z)) : Prop :=
  match pc with
  | BgDecommit d | BgRecycle d | BgTrim d _ => ∃ P L, Q = P :: L ∧ d = hd0 P
  | BgIdle | BgRefill _ => True
  end.

(** The chunks of the process: [C] at the clients, [W] warm, [D] queued for disposal, [Q]
    the lists of the thread and those lost in a fork. *)
Definition process_chunk (C : gset Z) (W D : list Z) (Q : list (list Z)) (c : Z) : Prop := c ∈ C ∨ c ∈ W ++ D ++ concat Q.

(** A header is there, its offset in the file in 64 bits. *)
Definition header_ok (h : heap) (c : Z) : Prop := has_chunk h c ∧ 0 ≤ memfd_off (chunk_at h c) < 2 ^ 64.

Record src_inv (C : gset Z) (h : heap) (b : bstate T) (W D : list Z) (Q : list (list Z)) : Prop := {
  si_space : guests_ok (process_chunk C W D Q) (bview h b);
  si_warm : warm_head b = hd0 W;
  si_warm_list : sll c_next (chunk_at h) W;
  si_count : warm_count b = Z.of_nat (length W);
  si_disp : dispose_head b = hd0 D;
  si_disp_list : sll c_next (chunk_at h) D;
  si_priv P : P ∈ Q → sll c_next (chunk_at h) P;
  si_nodup : NoDup (W ++ D ++ concat Q);
  si_apart c : c ∈ W ++ D ++ concat Q → c ∉ C;
  si_hdr c : process_chunk C W D Q c → header_ok h c;
  si_file : btm_mesh_mode (b_file b) = true → shared_ok (process_chunk C W D Q) (λ c, memfd_off (chunk_at h c)) (b_file b);
}.

(** What the source keeps for the large objects: their headers and bytes; the owner table
    changes by valid registrations, and removals without [g]. *)
Record src_step (g : bool) (h : heap) (b : bstate T) (h' : heap) (b' : bstate T) : Prop := {
  st_hdrs : b_hdrs b' = b_hdrs b;
  st_bytes x : large_byte (bview h b) x → byte_at (h_mem h') x = byte_at (h_mem h) x;
  st_table : table_moves g (b_table b) (b_table b');
  st_mode : btm_mesh_mode (b_file b') = btm_mesh_mode (b_file b);
}.

Lemma src_step_refl g h b : src_step g h b h b.
Proof. by split. Qed.

Lemma src_step_trans g h1 b1 h2 b2 h3 b3 : src_step g h1 b1 h2 b2 → src_step g h2 b2 h3 b3 → src_step g h1 b1 h3 b3.
Proof.
  intros [A1 A2 A3 A4] [B1 B2 B3 B4]. split; [congruence| |by etrans|congruence].
  intros x Hx. rewrite B2, A2; [done..|]. unfold large_byte, large_at in *. cbn in *. by rewrite A1.
Qed.

(** A step that writes no large object's byte and leaves table and headers alone. *)
Lemma src_step_bytes g h b h' b' :
  b_hdrs b' = b_hdrs b → b_table b' = b_table b → btm_mesh_mode (b_file b') = btm_mesh_mode (b_file b) →
  (∀ x, large_byte (bview h b) x → byte_at (h_mem h') x = byte_at (h_mem h) x) → src_step g h b h' b'.
Proof. intros E1 E2 Em Hb. split; [done..| |done]. by rewrite E2. Qed.

Lemma src_step_mem g h b h' b' :
  b_hdrs b' = b_hdrs b → b_table b' = b_table b → btm_mesh_mode (b_file b') = btm_mesh_mode (b_file b) → h_mem h' = h_mem h → src_step g h b h' b'.
Proof. intros E1 E2 Em E3. apply src_step_bytes; [done..|]. intros x _. by rewrite E3. Qed.

Lemma priv_in P (Q : list (list Z)) W D x : P ∈ Q → x ∈ P → x ∈ W ++ D ++ concat Q.
Proof.
  intros HP Hx. rewrite !elem_of_app. right; right. apply list_elem_of_In, in_concat. exists P. by rewrite <-!list_elem_of_In.
Qed.

Lemma header_same h h' c : h_chunks h' !! c = h_chunks h !! c → header_ok h c → header_ok h' c.
Proof. intros E. unfold header_ok, has_chunk, chunk_at. by rewrite E. Qed.

Section facts.
Context {C : gset Z} {h : heap} {b : bstate T} {W D : list Z} {Q : list (list Z)} (HS : src_inv C h b W D Q).

Lemma held_space c : process_chunk C W D Q c → chunk_space (bview h b) c.
Proof. intros Hc. by apply (gs_chunk _ _ (si_space _ _ _ _ _ _ HS)). Qed.

Lemma held_header c : process_chunk C W D Q c → has_chunk h c.
Proof. intros Hc. apply (si_hdr _ _ _ _ _ _ HS c Hc). Qed.

Lemma held_base c : process_chunk C W D Q c → chunk_base c.
Proof. intros Hc. by apply (ck_base _ _ (held_space c Hc)). Qed.

Lemma held_nonzero c : process_chunk C W D Q c → c ≠ 0.
Proof. intros Hc. destruct (held_base c Hc). lia. Qed.

(** Pages of a chunk of the process belong to no large object. *)
Lemma held_apart c a n x :
  process_chunk C W D Q c → c ≤ a → a + n ≤ c + BTM_CHUNK_SIZE → large_byte (bview h b) x → ¬ (a ≤ x < a + n).
Proof.
  intros Hc Ha Hn Hx Hin. apply (guest_chunk_apart _ _ c x (si_space _ _ _ _ _ _ HS) (held_space c Hc)); [lia|done].
Qed.

(** A change inside a chunk writes no byte of a large object. *)
Lemma step_outside g c h' b' :
  process_chunk C W D Q c → same_outside c h h' → b_hdrs b' = b_hdrs b → b_table b' = b_table b →
  btm_mesh_mode (b_file b') = btm_mesh_mode (b_file b) → src_step g h b h' b'.
Proof.
  intros Hc Ho E1 E2 Em. apply src_step_bytes; [done..|]. intros x Hx. unfold byte_at.
  rewrite (ou_mem _ _ _ Ho); [done|]. by apply (held_apart c c BTM_CHUNK_SIZE); [|lia|lia|].
Qed.

(** Bookkeeping that moves no chunk. *)
Lemma src_move b' :
  b_hdrs b' = b_hdrs b → b_table b' = b_table b → (∀ x, k_mapped (b_kernel b') x = k_mapped (b_kernel b) x) →
  warm_head b' = warm_head b → warm_count b' = warm_count b → dispose_head b' = dispose_head b →
  (btm_mesh_mode (b_file b') = true → shared_ok (process_chunk C W D Q) (λ c, memfd_off (chunk_at h c)) (b_file b')) →
  src_inv C h b' W D Q.
Proof.
  intros E1 E2 E3 E4 E5 E6 Hf. destruct HS as [S1 S2 S3 S4 S5 S6 S7 S9 S10 S11 S12]. split; rewrite ?E4, ?E5, ?E6; try done.
  eapply guests_same; [|done|exact S1]. split; cbn; [done|by rewrite E2|intros; by rewrite E2|done].
Qed.

(** The file of mesh mode after a change of the headers. *)
Lemma file_keep (C' : gset Z) h' W' D' Q' :
  (∀ c, process_chunk C' W' D' Q' c ↔ process_chunk C W D Q c) →
  (∀ c, process_chunk C W D Q c → memfd_off (chunk_at h' c) = memfd_off (chunk_at h c)) →
  btm_mesh_mode (b_file b) = true → shared_ok (process_chunk C' W' D' Q') (λ c, memfd_off (chunk_at h' c)) (b_file b).
Proof. intros HP Hh Hm. by apply (shared_ext (si_file _ _ _ _ _ _ HS Hm)). Qed.
End facts.

(** A chunk goes from the clients to a list, or back. *)
Lemma chunk_to_list (C : gset Z) (c x : Z) (L L' : list Z) :
  c ∈ C → (x ∈ L' ↔ x = c ∨ x ∈ L) → x ∈ C ∨ x ∈ L ↔ x ∈ C ∖ {[c]} ∨ x ∈ L'.
Proof.
  intros Hc HL. rewrite elem_of_difference, elem_of_singleton, HL. destruct (decide (x = c)) as [->|]; tauto.
Qed.

Lemma chunk_from_list (C : gset Z) (c x : Z) (L L' : list Z) :
  (x ∈ L ↔ x = c ∨ x ∈ L') → x ∈ C ∨ x ∈ L ↔ x ∈ {[c]} ∪ C ∨ x ∈ L'.
Proof. intros HL. rewrite elem_of_union, elem_of_singleton, HL. tauto. Qed.

(** The invariant's parts that a change of the bookkeeping keeps. *)
Lemma space_keep C h b W D Q C' h' b' W' D' Q' :
  b_hdrs b' = b_hdrs b → b_table b' = b_table b → (∀ x, k_mapped (b_kernel b') x = k_mapped (b_kernel b) x) →
  (∀ c, process_chunk C W D Q c ↔ process_chunk C' W' D' Q' c) →
  guests_ok (process_chunk C W D Q) (bview h b) → guests_ok (process_chunk C' W' D' Q') (bview h' b').
Proof. intros E1 E2 E3 HP. apply guests_same; [|done]. split; cbn; [done|by rewrite E2|intros; by rewrite E2|done]. Qed.

(** ** Headers and lists *)
Lemma sll_other h c v l : c ∉ l → sll c_next (chunk_at h) l → sll c_next (chunk_at (heap_set_chunk c v h)) l.
Proof. intros Hc. apply sll_ext. intros x Hx. rewrite chunk_at_set, decide_False; [done|]. by intros ->. Qed.

Lemma run_g_chunk h b c : has_chunk h c → g_chunk c (h, b) = Ok (chunk_at h c, (h, b)).
Proof. intros [v Hv]. unfold g_chunk, chunk_at. cbn. by rewrite Hv. Qed.

Lemma run_g_upd h b c f : has_chunk h c → g_upd c f (h, b) = Ok (tt, (heap_set_chunk c (f (chunk_at h c)) h, b)).
Proof. intros [v Hv]. unfold g_upd, chunk_at. cbn. by rewrite Hv. Qed.

(** Whatever happens to chunks outside [C] is invisible to the clients. *)
Lemma agree_set_chunk (C : gset Z) h c v : c ∉ C → agree_on (λ x, x ∈ C) h (heap_set_chunk c v h).
Proof.
  intros Hc x Hx. split; [|done..]. cbn. rewrite lookup_insert_ne; [done|]. by intros ->.
Qed.

(** Two chunks of the process are apart. *)
Lemma other_chunk c x : chunk_base c → chunk_base x → x ≠ c → ¬ (c ≤ x < c + BTM_CHUNK_SIZE).
Proof. intros Hc Hx Hne Hin. apply Hne. apply (chunk_base_apart x c x); [done|done|unfold BTM_CHUNK_SIZE; lia|done]. Qed.

Lemma outside_chunk h h' c x : same_outside c h h' → chunk_base c → chunk_base x → x ≠ c → h_chunks h' !! x = h_chunks h !! x.
Proof. intros Ho Hc Hx Hne. apply (ou_chunks _ _ _ Ho). by apply other_chunk. Qed.

Lemma outside_at h h' c x : same_outside c h h' → chunk_base c → chunk_base x → x ≠ c → chunk_at h' x = chunk_at h x.
Proof. intros Ho Hc Hx Hne. unfold chunk_at. by rewrite (outside_chunk h h' c x). Qed.

Lemma outside_sll h h' c l :
  same_outside c h h' → chunk_base c → (∀ x, x ∈ l → chunk_base x) → c ∉ l → sll c_next (chunk_at h) l → sll c_next (chunk_at h') l.
Proof.
  intros Ho Hc Hl Hn. apply sll_ext. intros x Hx. f_equal. apply (outside_at h h' c); [done|done|by apply Hl|]. by intros ->.
Qed.

(** What happens in a chunk is invisible to the clients that do not hold it. *)
Lemma agree_outside (C : gset Z) h h' c :
  chunk_base c → (∀ x, x ∈ C → chunk_base x) → c ∉ C → same_outside c h h' → agree_on (λ x, x ∈ C) h h'.
Proof.
  intros Hb HC Hc Ho x Hx. assert (Hxc : x ≠ c) by congruence. assert (Hne : ∀ y, chunk_of y = x → ¬ (c ≤ y < c + BTM_CHUNK_SIZE)).
  { intros y <- Hy. apply Hc. by rewrite <-(chunk_of_inside c y Hb). }
  split.
  - apply (outside_chunk h h' c x Ho Hb); [by apply HC|done].
  - intros d Hd. unfold slab_at. by rewrite (ou_slabs _ _ _ Ho) by (by apply Hne).
  - intros y Hy. unfold byte_at. by rewrite (ou_mem _ _ _ Ho) by (by apply Hne).
Qed.

(** ** The ranges of the memfd *)

(** The file is [f], and [off] was taken from it for a chunk; in the default mode there is
    no file. *)
Definition taken_off (b : bstate T) (off : Z) (f : memfile) : Prop :=
  btm_mesh_mode f = btm_mesh_mode (b_file b) ∧
  (btm_mesh_mode f = true → ∃ m, f = mf_set_fd m (b_file b) ∧ memfd_ok m ({[off]} ∪ map_img (mf_map (b_file b))) ∧
     (off ∉ (map_img (mf_map (b_file b)) : gset Z))) ∧
  (btm_mesh_mode f = false → off = 0).

Lemma taken_range b off f : taken_off b off f → 0 ≤ off < 2 ^ 64.
Proof.
  intros (_ & Ht & H0). destruct (btm_mesh_mode f); [|by rewrite (H0 eq_refl)]. destruct (Ht eq_refl) as (m & _ & Hm & _).
  destruct (fd_used _ _ Hm off ltac:(set_solver)) as (? & _ & ?). destruct (fd_bump _ _ Hm). pose proof (fd_size _ _ Hm). unfold BTM_CHUNK_SIZE in *. lia.
Qed.

(** The file is as it was, but for the allocator of its ranges. *)
Definition same_shares (C : gset Z) h b W D Q (f : memfile) : Prop :=
  btm_mesh_mode f = btm_mesh_mode (b_file b) ∧
  (btm_mesh_mode f = true → shared_ok (process_chunk C W D Q) (λ c, memfd_off (chunk_at h c)) f).

Lemma same_shares_refl C h b W D Q : src_inv C h b W D Q → same_shares C h b W D Q (b_file b).
Proof. intros HS. split; [done|]. apply (si_file _ _ _ _ _ _ HS). Qed.

Lemma take_off C h b W D Q :
  src_inv C h b W D Q →
  ∃ off f, (mesh ← mesh_mode; if mesh : bool then alloc_off else mret 0) (h, b) = Ok (off, (h, set_memfile f b)) ∧
    ((btm_mesh_mode f = true ∧ off = UINT64_MAX ∧ same_shares C h b W D Q f) ∨
     ((btm_mesh_mode f = true → off ≠ UINT64_MAX) ∧ taken_off b off f)).
Proof.
  intros HS. unfold mesh_mode. rewrite (run_bind _ _ _ _ _ (run_gets _ _)). cbn [snd].
  destruct (btm_mesh_mode (b_file b)) eqn:Em.
  - pose proof (si_file _ _ _ _ _ _ HS Em) as HF.
    destruct (alloc_off_ok (k_ftruncate (b_kernel b)) (ftruncate_max (b_kernel b)) (mf_fd (b_file b)) _ (sh_fd _ _ _ HF))
      as (off & m & E & [[-> Hm]|(Hmax & Ho & _ & Hm)]);
      (exists off || exists UINT64_MAX); exists (mf_set_fd m (b_file b)); (split; [unfold alloc_off, on_memfd; by erewrite run_zoom by exact E|]).
    + left. split; [done|]. split; [done|]. split; [done|]. intros _. by apply (shared_set_fd HF).
    + right. split; [done|]. split; [done|]. cbn. rewrite Em. split; [|done]. intros _. by exists m.
  - exists 0, (b_file b). split; [by destruct b|]. right. split; [by rewrite Em|]. split; [done|]. by rewrite Em.
Qed.

(** A range that was taken goes back. *)
Lemma give_back C h b W D Q off f k :
  src_inv C h b W D Q → taken_off b off f →
  ∃ f', give_off off (h, set_memfile f (set_kernel k b)) = Ok (tt, (h, set_memfile f' (set_kernel k b))) ∧ same_shares C h b W D Q f'.
Proof.
  intros HS (Hm & Ht & _). unfold give_off, mesh_mode. rewrite (run_bind _ _ _ _ _ (run_gets _ _)). cbn [snd b_file set_memfile].
  destruct (btm_mesh_mode f) eqn:Em.
  - destruct (Ht eq_refl) as (m & -> & Hok & Ho). pose proof (si_file _ _ _ _ _ _ HS (eq_sym Hm)) as HF.
    destruct (free_off_ok (k_fd_stack k) m _ off Hok ltac:(set_solver)) as (m' & E & Hm' & _).
    exists (mf_set_fd m' (b_file b)). split; [unfold free_off, on_memfd; by erewrite run_zoom by exact E|]. split; [done|]. intros _. apply (shared_set_fd HF).
    by replace (map_img (mf_map (b_file b))) with (({[off]} ∪ map_img (mf_map (b_file b))) ∖ {[off]} : gset Z) by set_solver.
  - exists f. split; [done|]. split; [congruence|]. by rewrite Em.
Qed.

(** ** Mapping *)
Lemma reserve_run h b :
  ∃ k, (reserve_chunk (h, b) = Ok (None, (h, set_kernel k b)) ∧ ∀ x, k_mapped k x = k_mapped (b_kernel b) x) ∨
    ∃ base, reserve_chunk (h, b) = Ok (Some base, (h, set_kernel k b)) ∧ chunk_base base ∧
      (∀ x, base ≤ x < base + BTM_CHUNK_SIZE → k_mapped (b_kernel b) x = false) ∧
      (∀ x, k_mapped k x = within base BTM_CHUNK_SIZE x || k_mapped (b_kernel b) x).
Proof.
  unfold reserve_chunk. cbv zeta. cbn [snd fst].
  destruct (k_mmap (b_kernel b) (BTM_CHUNK_SIZE * 2)) as [[raw|] k1] eqn:Ek.
  2:{ exists k1. left. split; [done|]. by apply (mmap_none _ _ _ Ek). }
  destruct (mmap_some _ (BTM_CHUNK_SIZE * 2) _ _ ltac:(reflexivity) Ek) as ((Hr0 & _ & Hrp & Hr47) & Hfree & Hk1).
  unfold BTM_CHUNK_SIZE in Hr47. destruct (round_up_spec raw 21) as [Hbm Hbr]; [lia..|]. change (2 ^ 21) with BTM_CHUNK_SIZE in *.
  set (base := round_up raw BTM_CHUNK_SIZE) in *.
  assert (HC : BTM_CHUNK_SIZE = 2097152) by done.
  assert (Hbp : base mod BTM_PAGE_SIZE = 0) by (apply (mod_0_weaken base 12 21); [lia|done]).
  rewrite (u64_small (base - raw)), (u64_small (base + BTM_CHUNK_SIZE)) by lia.
  rewrite (u64_small (BTM_CHUNK_SIZE * 2 - (base - raw))) by lia.
  rewrite (u64_small (BTM_CHUNK_SIZE * 2 - (base - raw) - BTM_CHUNK_SIZE)) by lia.
  replace (BTM_CHUNK_SIZE * 2 - (base - raw) - BTM_CHUNK_SIZE) with (BTM_CHUNK_SIZE - (base - raw)) by lia.
  pose proof (trim_mapped (b_kernel b) k1 raw (BTM_CHUNK_SIZE * 2) base BTM_CHUNK_SIZE BTM_CHUNK_SIZE Hfree Hk1 Hrp Hbp
    ltac:(done) ltac:(done) ltac:(lia) ltac:(lia) ltac:(lia) ltac:(lia)) as Htrim. cbv zeta in Htrim.
  set (k2 := if base - raw =? 0 then k1 else _) in Htrim.
  assert (Efront : (if base - raw =? 0 then mret tt else k_unmap raw (base - raw)) (h, set_kernel k1 b) = Ok (tt, (h, set_kernel k2 b))).
  { unfold k2. by destruct (base - raw =? 0). }
  erewrite run_bind by exact Efront.
  rewrite (proj2 (Z.eqb_neq (BTM_CHUNK_SIZE - (base - raw)) 0)) by lia.
  erewrite run_bind by (apply run_modify). cbn [snd fst b_kernel set_kernel].
  set (k3 := k_munmap k2 (base + BTM_CHUNK_SIZE) (BTM_CHUNK_SIZE - (base - raw))) in *.
  exists k3. right. exists base. split_and!; [done|unfold chunk_base; lia| |done].
  intros x Hx. apply Hfree, within_spec. lia.
Qed.

(** The heap and the file after the mapping of [c]. *)
Definition mapped_heap (c off : Z) (f : memfile) h : heap := if btm_mesh_mode f then share_heap c off f h else fresh_chunk c h.
Definition mapped_file (c off : Z) (f : memfile) : memfile := if btm_mesh_mode f then share_file c off f else f.

Lemma mapped_outside c off f h : same_outside c h (mapped_heap c off f h).
Proof. unfold mapped_heap. destruct (btm_mesh_mode f); apply header_outside; [apply move_outside|apply clear_outside]. Qed.

Lemma mapped_header c off f h : has_chunk (mapped_heap c off f h) c.
Proof.
  unfold has_chunk, mapped_heap, share_heap, fresh_chunk. destruct (btm_mesh_mode f); rewrite with_header_chunk, decide_True by done; by eexists.
Qed.

Lemma map_chunk_run h b base off :
  ∃ k, (map_chunk base off (h, b) = Ok (false, (h, set_kernel k b)) ∧ k_mmap_fixed (b_kernel b) base BTM_CHUNK_SIZE = (false, k)) ∨
    (map_chunk base off (h, b) = Ok (true, (mapped_heap base off (b_file b) h, set_memfile (mapped_file base off (b_file b)) (set_kernel k b))) ∧
     k_mmap_fixed (b_kernel b) base BTM_CHUNK_SIZE = (true, k)).
Proof.
  unfold map_chunk, mesh_mode. rewrite (run_bind _ _ _ _ _ (run_gets _ _)). cbn [snd].
  destruct (k_mmap_fixed (b_kernel b) base BTM_CHUNK_SIZE) as [[|] k] eqn:Ef; exists k; [right|left]; (split; [|done]).
  - erewrite run_bind by (cbv beta; cbn [fst snd]; rewrite Ef; reflexivity).
    unfold mapped_heap, mapped_file. by destruct (btm_mesh_mode (b_file b)), b.
  - by erewrite run_bind by (cbv beta; cbn [fst snd]; rewrite Ef; reflexivity).
Qed.

(** ** Mapping a chunk keeps the invariant *)
Lemma src_map C h b W D Q c off f k :
  src_inv C h b W D Q → taken_off b off f → chunk_base c → (∀ x, c ≤ x < c + BTM_CHUNK_SIZE → k_mapped (b_kernel b) x = false) →
  (∀ x, k_mapped k x = within c BTM_CHUNK_SIZE x || k_mapped (b_kernel b) x) →
  let h1 := mapped_heap c off f h in
  let h' := heap_set_chunk c (chunk_set_off off (chunk_at h1 c)) h1 in
  let b' := mk_bstate k (ot_insert (b_table b) c BTM_CHUNK_SIZE c) (b_hdrs b) (warm_head b) (warm_count b) (dispose_head b) (bg_async b) (bg_ring_ok b)
              (bg_at b) (mapped_file c off f) in
  (c ∉ C) ∧ (c ∉ W ++ D ++ concat Q) ∧ agree_on (λ x, x ∈ C) h h' ∧ (∀ g, src_step g h b h' b') ∧ src_inv ({[c]} ∪ C) h' b' W D Q.
Proof.
  intros HS Htk Hc Hf Hk h1 h' b'. pose proof (taken_range _ _ _ Htk) as Hoff. destruct Htk as (Hm & Ht & _). pose proof HS as [S1 S2 S3 S4 S5 S6 S7 S9 S10 S11 S12].
  destruct (space_map_chunk _ (bview h b) (bview h' b') c S1 Hc Hf eq_refl eq_refl Hk) as (G & Hev & Hnew).
  assert (HcC : c ∉ C) by (intros Hin; by apply (Hnew c); [left|]).
  assert (HcW : c ∉ W ++ D ++ concat Q) by (intros Hin; by apply (Hnew c); [right|]).
  assert (Ho : same_outside c h h') by (apply set_chunk_outside, mapped_outside).
  assert (HP : ∀ x, process_chunk ({[c]} ∪ C) W D Q x ↔ x = c ∨ process_chunk C W D Q x) by (intros x; unfold process_chunk; set_solver).
  assert (Hat : ∀ x, process_chunk C W D Q x → h_chunks h' !! x = h_chunks h !! x).
  { intros x Hx. apply (outside_chunk h h' c); [done|done|by apply (held_base HS)|by apply Hnew]. }
  assert (Hll : ∀ l, (∀ x, x ∈ l → x ∈ W ++ D ++ concat Q) → sll c_next (chunk_at h) l → sll c_next (chunk_at h') l).
  { intros l Hl. apply (outside_sll h h' c); [done|done| |]; [|intros Hin; by apply HcW, Hl]. intros x Hx. apply (held_base HS). right. by apply Hl. }
  split_and!; [done|done| | |].
  - apply (agree_outside C h h' c); [done| |done|done]. intros x Hx. apply (held_base HS). by left.
  - intros g. split; [done| |apply Hev|].
    + intros x (base & hd & Hb & Hin). unfold byte_at. rewrite (ou_mem _ _ _ Ho); [done|].
      intros Hxc. destruct (gs_large _ _ S1 base hd Hb) as [_ Hl]. pose proof (ll_mapped _ _ _ _ Hl x Hin) as Hmx. cbn in Hmx. by rewrite Hf in Hmx.
    + cbn. unfold mapped_file. by destruct (btm_mesh_mode f) eqn:E; cbn; rewrite <-Hm.
  - split; cbn [b_file b' warm_head warm_count dispose_head]; try done.
    + apply (guests_same (λ x, x = c ∨ process_chunk C W D Q x) _ (bview h' b')); [done| |done]. intros x. by rewrite HP.
    + apply Hll; [intros x Hx; in_list|done].
    + apply Hll; [intros x Hx; in_list|done].
    + intros P HPQ. apply Hll; [|by apply S7]. intros x Hx. by apply (priv_in P).
    + intros x Hx. pose proof (S10 x Hx). assert (x ≠ c) by (by apply Hnew; right). set_solver.
    + intros x [->|Hx]%HP; [split; [apply has_chunk_set_eq|unfold h'; by rewrite chunk_at_set, decide_True]|]. apply (header_same h); [by apply Hat|by apply S11].
    + unfold mapped_file. destruct (btm_mesh_mode f) eqn:Em; cbn [btm_mesh_mode share_file]; [intros _|by rewrite Em].
      destruct (Ht eq_refl) as (m & -> & Hok & Hno). apply (shared_add (S12 (eq_sym Hm)) _ _ m c off); [|exact HP| | |done|done].
      * intros Hpc. by apply (Hnew c).
      * intros x Hx. unfold chunk_at. by rewrite Hat.
      * unfold chunk_at, h'. cbn. by rewrite lookup_insert_eq.
Qed.

Lemma map_fresh_spec C h b W D Q :
  src_inv C h b W D Q →
  ∃ c h' b', map_fresh (h, b) = Ok (c, (h', b')) ∧ agree_on (λ x, x ∈ C) h h' ∧ (∀ g, src_step g h b h' b') ∧
    bg_at b' = bg_at b ∧ warm_count b' = warm_count b ∧
    ((c = 0 ∧ src_inv C h' b' W D Q) ∨
     ((c ∉ C) ∧ (c ∉ W ++ D ++ concat Q) ∧ chunk_base c ∧ src_inv ({[c]} ∪ C) h' b' W D Q)).
Proof.
  intros HS.
  (** Every refusal leaves the process as it was. *)
  assert (Hnone : ∀ k f, (∀ x, k_mapped k x = k_mapped (b_kernel b) x) → same_shares C h b W D Q f →
    ∃ c h' b', Ok (0, (h, set_memfile f (set_kernel k b))) = Ok (c, (h', b')) ∧ agree_on (λ x, x ∈ C) h h' ∧ (∀ g, src_step g h b h' b') ∧
    bg_at b' = bg_at b ∧ warm_count b' = warm_count b ∧
    ((c = 0 ∧ src_inv C h' b' W D Q) ∨
     ((c ∉ C) ∧ (c ∉ W ++ D ++ concat Q) ∧ chunk_base c ∧ src_inv ({[c]} ∪ C) h' b' W D Q))).
  { intros k f Hk [Hm Hf]. do 3 eexists. split; [reflexivity|]. split; [apply agree_on_refl|]. split; [intros g; by apply src_step_mem|].
    split; [done|]. split; [done|]. left. split; [done|]. by apply (src_move HS). }
  unfold map_fresh. destruct (take_off C h b W D Q HS) as (off & f1 & Eoff & Hcase).
  unfold mesh_mode in *. rewrite (run_bind _ _ _ _ _ (run_gets _ _)) in Eoff. rewrite (run_bind _ _ _ _ _ (run_gets _ _)).
  erewrite run_bind by exact Eoff. cbn [snd].
  assert (Em : btm_mesh_mode f1 = btm_mesh_mode (b_file b)) by (by destruct Hcase as [(_ & _ & [? _])|[_ [? _]]]).
  destruct Hcase as [(Hm & -> & Hf)|[Hmax Ht]].
  { rewrite <-Em, Hm, Z.eqb_refl. cbn [andb]. apply (Hnone (b_kernel b) f1); [done|]. done. }
  replace (btm_mesh_mode (b_file b) && (off =? UINT64_MAX)) with false.
  2:{ symmetry. rewrite <-Em. destruct (btm_mesh_mode f1); [|done]. cbn. apply Z.eqb_neq. auto. }
  destruct (reserve_run h (set_memfile f1 b)) as (k1 & [[Er Hk1]|(base & Er & Hb & Hfree & Hk1)]); erewrite run_bind by exact Er.
  { destruct (give_back C h b W D Q off f1 k1 HS Ht) as (f2 & Eg & Hf2). erewrite run_bind by exact Eg. by apply Hnone. }
  cbn [b_kernel set_memfile] in *.
  destruct (map_chunk_run h (set_kernel k1 (set_memfile f1 b)) base off) as (k2 & [[Emap Ek]|[Emap Ek]]); erewrite run_bind by exact Emap; cbn [b_file b_kernel set_memfile set_kernel] in *.
  - pose proof (mmap_fixed_fail k1 base BTM_CHUNK_SIZE k2 Ek) as Hk2.
    erewrite run_bind by (apply run_modify). cbn [fst snd].
    destruct (give_back C h b W D Q off f1 (k_munmap k2 base BTM_CHUNK_SIZE) HS Ht) as (f2 & Eg & Hf2). erewrite run_bind by exact Eg.
    apply Hnone; [|done]. intros x. destruct Hb as (? & Hbm & ?).
    rewrite munmap_mapped, Hk2, Hk1 by (done || (apply (mod_0_weaken base 12 21); [lia|done])).
    destruct (within base BTM_CHUNK_SIZE x) eqn:Ew; [|done]. symmetry. by apply Hfree, within_spec.
  - assert (Hbp : base mod BTM_PAGE_SIZE = 0) by (destruct Hb as (? & Hbm & ?); apply (mod_0_weaken base 12 21); [lia|done]).
    pose proof (mmap_fixed_ok k1 base BTM_CHUNK_SIZE k2 Hbp ltac:(done) Ek) as Hk2.
    destruct (src_map C h b W D Q base off f1 k2 HS Ht Hb Hfree) as (H1 & H2 & H3 & H4 & H5).
    { intros x. rewrite Hk2, Hk1. by destruct (within base BTM_CHUNK_SIZE x). }
    eexists base, _, _. split.
    + erewrite run_bind by (apply run_modify). erewrite run_bind by (apply run_g_upd, mapped_header). reflexivity.
    + split_and!; [exact H3|exact H4|done|done|]. by right.
Qed.

(** Writing the header of a client's chunk. *)
Lemma src_upd_client C h b W D Q c v :
  src_inv C h b W D Q → c ∈ C → memfd_off v = memfd_off (chunk_at h c) → src_inv C (heap_set_chunk c v h) b W D Q.
Proof.
  intros HS Hc Hv. pose proof HS as [S1 S2 S3 S4 S5 S6 S7 S9 S10 S11 S12].
  assert (Hn : c ∉ W ++ D ++ concat Q) by (intros Hin; by apply (S10 c)).
  split; try done; try (apply sll_other; [list_mem; tauto|done]).
  - intros P HP. apply sll_other; [|by apply S7]. intros Hin. apply Hn. by apply (priv_in P).
  - intros x Hx. destruct (S11 x Hx) as [Hh Hof]. split; [by apply has_chunk_set|]. rewrite chunk_at_set. case_decide; [subst x; by rewrite Hv|done].
  - apply (file_keep HS); [done|]. intros x Hx. rewrite chunk_at_set. by case_decide; [subst|].
Qed.

(** A warm chunk goes to a client. *)
Lemma src_pop_warm C h b W D Q c :
  src_inv C h b (c :: W) D Q →
  src_inv ({[c]} ∪ C) h (mk_bstate (b_kernel b) (b_table b) (b_hdrs b) (hd0 W) (warm_count b - 1) (dispose_head b) (bg_async b) (bg_ring_ok b) (bg_at b) (b_file b)) W D Q.
Proof.
  intros HS. pose proof HS as [S1 S2 [S3a S3] S4 S5 S6 S7 S9 S10 S11 S12]. simpl in S9. apply NoDup_cons in S9 as [Hcn S9].
  assert (HP : ∀ x, process_chunk C (c :: W) D Q x ↔ process_chunk ({[c]} ∪ C) W D Q x).
  { intros x. apply chunk_from_list. simpl. by rewrite elem_of_cons. }
  split; try done.
  - by apply (space_keep C h b (c :: W) D Q).
  - cbn. rewrite S4. simpl. lia.
  - intros x Hx. assert (x ∉ C) by (apply S10; by right). assert (x ≠ c) by (by intros ->). set_solver.
  - intros x Hx. by apply S11, HP.
  - apply (file_keep HS); [|done]. intros x. by rewrite HP.
Qed.

Lemma chunk_obtain_spec C h b W D Q r :
  src_inv C h b W D Q →
  ∃ c h' b' W', chunk_obtain r (h, b) = Ok (c, (h', b')) ∧ agree_on (λ x, x ∈ C) h h' ∧ (∀ g, src_step g h b h' b') ∧ bg_at b' = bg_at b ∧
    ((c = 0 ∧ src_inv C h' b' W' D Q) ∨
     ((c ∉ C) ∧ chunk_base c ∧ (∃ v, h_chunks h' !! c = Some v ∧ fresh_header r v) ∧ src_inv ({[c]} ∪ C) h' b' W' D Q)).
Proof.
  intros HS. pose proof HS as [S1 S2 S3 S4 S5 S6 S7 S9 S10 S11 S12].
  assert (Hinit : ∀ c h1 b1 W1, src_inv ({[c]} ∪ C) h1 b1 W1 D Q → c ∉ C →
    ∃ h', chunk_init_header c r (h1, b1) = Ok (tt, (h', b1)) ∧ agree_on (λ x, x ∈ C) h1 h' ∧ h_mem h' = h_mem h1 ∧
      (∃ v, h_chunks h' !! c = Some v ∧ fresh_header r v) ∧ src_inv ({[c]} ∪ C) h' b1 W1 D Q).
  { intros c h1 b1 W1 HS1 Hc. assert (Hh : has_chunk h1 c) by (apply (held_header HS1); left; set_solver).
    unfold chunk_init_header. rewrite run_g_upd by done. eexists. split; [reflexivity|]. split_and!.
    - by apply agree_set_chunk.
    - done.
    - eexists. cbn. rewrite lookup_insert_eq. split; [reflexivity|]. by split_and!.
    - apply src_upd_client; [done|set_solver|done]. }
  unfold chunk_obtain. erewrite run_bind by (apply run_gets). erewrite run_bind by (apply run_gets). cbn [snd].
  destruct W as [|c W].
  - rewrite S2. simpl. erewrite run_bind by (apply run_ret).
    destruct (map_fresh_spec C h b [] D Q HS) as (c & h1 & b1 & Hrun & Hag & Hst & Hat & _ & [[-> HS1]|(Hc & _ & Hb & HS1)]).
    + exists 0, h1, b1, []. erewrite run_bind by exact Hrun. split_and!; [done|done|done|done|by left].
    + destruct (Hinit c h1 b1 [] HS1 Hc) as (h2 & Hi & Hag2 & Hm2 & Hv & HS2).
      exists c, h2, b1, []. erewrite run_bind by exact Hrun. rewrite (proj2 (Z.eqb_neq c 0)) by (destruct Hb; lia).
      erewrite run_bind by exact Hi. split_and!; [done|by eapply agree_on_trans| |done|by right].
      intros g. apply (src_step_trans _ _ _ _ _ _ _ (Hst g)). by apply src_step_mem.
  - destruct S3 as [S3a S3]. assert (Hpc : process_chunk C (c :: W) D Q c) by (right; by left).
    assert (HcC : c ∉ C) by (apply S10; by left). pose proof (held_nonzero HS c Hpc) as Hc0.
    rewrite S2. cbn [hd0]. rewrite (proj2 (Z.eqb_neq c 0)) by done.
    pose proof (src_pop_warm C h b W D Q c HS) as HS1. rewrite <-S3a in HS1.
    destruct (Hinit c h _ W HS1 HcC) as (h2 & Hi & Hag2 & Hm2 & Hv & HS2).
    erewrite run_bind; [|erewrite run_bind by (by apply run_g_chunk, (held_header HS)); unfold set_warm, set_b; rewrite run_modify; reflexivity].
    erewrite run_bind by (apply run_ret). rewrite (proj2 (Z.eqb_neq c 0)) by done.
    eexists c, h2, _, W. erewrite run_bind by exact Hi. split_and!; [done|done|intros g; by apply src_step_mem|done|right]. split_and!; try done. by apply (held_base HS).
Qed.

(** ** Taking chunks back *)
Definition with_warm (hd n : Z) (b : bstate T) : bstate T :=
  mk_bstate (b_kernel b) (b_table b) (b_hdrs b) hd n (dispose_head b) (bg_async b) (bg_ring_ok b) (bg_at b) (b_file b).
Definition with_dispose (hd : Z) (b : bstate T) : bstate T :=
  mk_bstate (b_kernel b) (b_table b) (b_hdrs b) (warm_head b) (warm_count b) hd (bg_async b) (bg_ring_ok b) (bg_at b) (b_file b).

(** A chunk that no list holds and no client either: [C] may let go of it. *)
Lemma src_push_warm C h b W D Q c :
  src_inv C h b W D Q → c ∈ C →
  src_inv (C ∖ {[c]}) (heap_set_chunk c (chunk_set_next (hd0 W) (chunk_at h c)) h) (with_warm c (warm_count b + 1) b) (c :: W) D Q.
Proof.
  intros HS Hc. pose proof (src_upd_client C h b W D Q c (chunk_set_next (hd0 W) (chunk_at h c)) HS Hc eq_refl) as HS'. pose proof HS' as [S1 S2 S3 S4 S5 S6 S7 S9 S10 S11 S12].
  assert (Hn : c ∉ W ++ D ++ concat Q) by (intros Hin; by apply (S10 c)).
  assert (HP : ∀ x, process_chunk C W D Q x ↔ process_chunk (C ∖ {[c]}) (c :: W) D Q x).
  { intros x. apply chunk_to_list; [done|]. simpl. by rewrite elem_of_cons. }
  split; cbn [b_table b_file warm_head warm_count dispose_head with_warm]; try done.
  - by apply (space_keep C _ b W D Q _ _ (with_warm c (warm_count b + 1) b)) with (5 := S1).
  - split; [|done]. by rewrite chunk_at_set, decide_True.
  - simpl. lia.
  - simpl. by apply NoDup_cons.
  - intros x. simpl. rewrite elem_of_cons. intros [->|Hx]; [set_solver|]. specialize (S10 x Hx). set_solver.
  - intros x Hx. by apply S11, HP.
  - apply (file_keep HS'); [|done]. intros x. by rewrite HP.
Qed.

Lemma src_push_dispose C h b W D Q c :
  src_inv C h b W D Q → c ∈ C →
  src_inv (C ∖ {[c]}) (heap_set_chunk c (chunk_set_next (hd0 D) (chunk_at h c)) h) (with_dispose c b) W (c :: D) Q.
Proof.
  intros HS Hc. pose proof (src_upd_client C h b W D Q c (chunk_set_next (hd0 D) (chunk_at h c)) HS Hc eq_refl) as HS'. pose proof HS' as [S1 S2 S3 S4 S5 S6 S7 S9 S10 S11 S12].
  assert (Hn : c ∉ W ++ D ++ concat Q) by (intros Hin; by apply (S10 c)).
  assert (Hp : ∀ x, x ∈ W ++ (c :: D) ++ concat Q ↔ x = c ∨ x ∈ W ++ D ++ concat Q) by (intros x; list_mem; tauto).
  assert (HP : ∀ x, process_chunk C W D Q x ↔ process_chunk (C ∖ {[c]}) W (c :: D) Q x).
  { intros x. apply chunk_to_list; [done|apply Hp]. }
  split; cbn [b_table b_file warm_head warm_count dispose_head with_dispose]; try done.
  - by apply (space_keep C _ b W D Q _ _ (with_dispose c b)) with (5 := S1).
  - split; [|done]. by rewrite chunk_at_set, decide_True.
  - simpl. rewrite <-Permutation_middle. by apply NoDup_cons.
  - intros x. rewrite Hp. intros [->|Hx]; [set_solver|]. specialize (S10 x Hx). set_solver.
  - intros x Hx. by apply S11, HP.
  - apply (file_keep HS'); [|done]. intros x. by rewrite HP.
Qed.

(** A change of the pages of a chunk of the process that leaves the headers. *)
Lemma src_pages C h b W D Q h' f :
  src_inv C h b W D Q → h_chunks h' = h_chunks h → same_shares C h b W D Q f → src_inv C h' (set_memfile f b) W D Q.
Proof.
  intros [S1 S2 S3 S4 S5 S6 S7 S9 S10 S11 S12] Hc [Hm Hf].
  assert (Hat : ∀ x, chunk_at h' x = chunk_at h x) by (intros x; unfold chunk_at; by rewrite Hc).
  split; try done.
  - by apply (space_keep C h b W D Q).
  - apply (sll_ext c_next (chunk_at h)); [|done]. intros x _. by rewrite Hat.
  - apply (sll_ext c_next (chunk_at h)); [|done]. intros x _. by rewrite Hat.
  - intros P HP. apply (sll_ext c_next (chunk_at h)); [|by apply S7]. intros x _. by rewrite Hat.
  - intros x Hx. apply (header_same h); [by rewrite Hc|by apply S11].
  - intros Hmm. apply (shared_ext (Hf Hmm)); [done|]. intros x _. by rewrite Hat.
Qed.

(** The pages of a chunk go back to the kernel, by address or by place in the file. *)
Lemma release_run C h b W D Q c a n :
  src_inv C h b W D Q → process_chunk C W D Q c → c ≤ a → 0 ≤ n → a + n ≤ c + BTM_CHUNK_SIZE →
  ∃ f, bg_release_pages a (u64 (memfd_off (chunk_at h c) + (a - c))) n (h, b) = Ok (tt, (heap_zero a n h, set_memfile f b)) ∧
    (∀ g, src_step g h b (heap_zero a n h) (set_memfile f b)) ∧ src_inv C (heap_zero a n h) (set_memfile f b) W D Q.
Proof.
  intros HS Hc Ha H0n Hn.
  assert (Hfin : ∀ f, same_shares C h b W D Q f →
    (∀ g, src_step g h b (heap_zero a n h) (set_memfile f b)) ∧ src_inv C (heap_zero a n h) (set_memfile f b) W D Q).
  { intros f Hf. split; [|by apply (src_pages C h)]. intros g. apply (step_outside HS g c); [done|by apply zero_outside|done|done|apply Hf]. }
  unfold bg_release_pages, mesh_mode. rewrite (run_bind _ _ _ _ _ (run_gets _ _)). cbn [snd].
  destruct (btm_mesh_mode (b_file b)) eqn:Em.
  - pose proof (si_file _ _ _ _ _ _ HS Em) as HF. pose proof (shared_small HF c Hc) as [H0 Hs]. rewrite u64_small by (unfold BTM_CHUNK_SIZE in *; lia).
    exists (punch_file (memfd_off (chunk_at h c) + (a - c)) n (b_file b)). split.
    + rewrite run_modify. cbn [fst snd]. rewrite (punch_zero HF) by (done || (intros x Hx; by apply (held_base HS))). done.
    + apply Hfin. split; [done|]. intros _. by apply shared_punch.
  - exists (b_file b). split; [by destruct b|]. apply Hfin. by apply same_shares_refl.
Qed.

Lemma decommit_run C h b W D Q c :
  src_inv C h b W D Q → process_chunk C W D Q c →
  ∃ f, let h' := heap_zero (c + kDataOff) kData h in
    chunk_decommit c (h, b) = Ok (tt, (h', set_memfile f b)) ∧ same_outside c h h' ∧
    (∀ g, src_step g h b h' (set_memfile f b)) ∧ src_inv C h' (set_memfile f b) W D Q.
Proof.
  intros HS Hc. assert (HK : 0 ≤ kDataOff ∧ 0 ≤ kData ∧ kDataOff + kData ≤ BTM_CHUNK_SIZE) by (vm_compute; split_and!; discriminate).
  destruct (release_run C h b W D Q c (c + kDataOff) kData HS Hc) as (f & Hrun & Hst & HS'); [lia..|].
  exists f. split; [|split; [by apply zero_outside; lia|done]].
  unfold chunk_decommit. erewrite run_bind by (by apply run_g_chunk, (held_header HS)).
  by replace (memfd_off (chunk_at h c) + kDataOff) with (memfd_off (chunk_at h c) + (c + kDataOff - c)) by lia.
Qed.

Definition unmapped (c : Z) (f : memfile) (b : bstate T) : bstate T :=
  mk_bstate (k_munmap (b_kernel b) c BTM_CHUNK_SIZE) (ot_remove (b_table b) c BTM_CHUNK_SIZE) (b_hdrs b) (warm_head b) (warm_count b)
    (dispose_head b) (bg_async b) (bg_ring_ok b) (bg_at b) f.
Definition drop_chunk (c : Z) (h : heap) : heap := clear_pages c BTM_CHUNK_SIZE h.

(** Its range of the file goes back with the chunk. *)
Lemma run_unmap_chunk C h b W D Q c :
  src_inv C h b W D Q → c ∈ C →
  ∃ f, unmap_chunk c (h, b) = Ok (tt, (drop_chunk c h, unmapped c f b)) ∧ btm_mesh_mode f = btm_mesh_mode (b_file b) ∧
    (btm_mesh_mode f = true → shared_ok (process_chunk (C ∖ {[c]}) W D Q) (λ x, memfd_off (chunk_at h x)) f).
Proof.
  intros HS Hc. assert (Hpc : process_chunk C W D Q c) by (by left).
  assert (Hmode : btm_mesh_mode (unshare_file c h (b_file b)) = btm_mesh_mode (b_file b)) by (unfold unshare_file; by case_match).
  assert (Hn : c ∉ W ++ D ++ concat Q) by (intros Hin; by apply (si_apart _ _ _ _ _ _ HS c)).
  unfold unmap_chunk. erewrite run_bind by (by apply run_g_chunk, (held_header HS)).
  erewrite run_bind by (apply run_modify). erewrite run_bind by (apply run_modify). erewrite run_bind by (apply run_modify). cbn [fst snd].
  unfold give_off, mesh_mode. rewrite (run_bind _ _ _ _ _ (run_gets _ _)). cbn [snd b_file set_memfile set_kernel]. rewrite Hmode.
  destruct (btm_mesh_mode (b_file b)) eqn:Em; [|exists (unshare_file c h (b_file b)); split; [reflexivity|]; split; [done|by rewrite Hmode]].
  pose proof (si_file _ _ _ _ _ _ HS Em) as HF. pose proof (sh_off _ _ _ HF c Hpc) as Ho.
  destruct (free_off_ok (k_fd_stack (k_munmap (b_kernel b) c BTM_CHUNK_SIZE)) (mf_fd (b_file b)) _ (memfd_off (chunk_at h c)) (sh_fd _ _ _ HF)) as (m & E & Hm & _).
  { apply elem_of_map_img. by exists c. }
  assert (Efd : mf_fd (unshare_file c h (b_file b)) = mf_fd (b_file b)) by (unfold unshare_file; by case_match).
  exists (mf_set_fd m (unshare_file c h (b_file b))). split.
  - unfold free_off, on_memfd. erewrite run_zoom; [reflexivity|]. cbn [snd fst b_file b_kernel set_memfile set_kernel]. rewrite Efd. exact E.
  - split; [done|]. intros _. apply (shared_del HF _ m c h Hpc); [|done].
    intros x. unfold process_chunk. rewrite elem_of_difference, elem_of_singleton. destruct (decide (x = c)) as [->|]; tauto.
Qed.

Lemma src_unmap C h b W D Q c :
  src_inv C h b W D Q → c ∈ C →
  ∃ f, unmap_chunk c (h, b) = Ok (tt, (drop_chunk c h, unmapped c f b)) ∧
    src_inv (C ∖ {[c]}) (drop_chunk c h) (unmapped c f b) W D Q ∧ src_step false h b (drop_chunk c h) (unmapped c f b).
Proof.
  intros HS Hc. destruct (run_unmap_chunk C h b W D Q c HS Hc) as (f & Hrun & Hmode & Hf). exists f. split; [done|].
  pose proof HS as [S1 S2 S3 S4 S5 S6 S7 S9 S10 S11 S12]. pose proof (held_base HS c (or_introl Hc)) as Hcb.
  assert (Hn : c ∉ W ++ D ++ concat Q) by (intros Hin; by apply (S10 c)).
  pose proof (clear_outside c h) as Ho. fold (drop_chunk c h) in Ho.
  destruct (space_unmap_chunk _ (bview h b) (bview (drop_chunk c h) (unmapped c f b)) c S1 (or_introl Hc)) as [G Hev]; [done..| |].
  { intros x. apply munmap_mapped; [|done]. destruct Hcb as (_ & Hm & _). by apply (mod_0_weaken c 12 21); [lia|]. }
  assert (Hlist : ∀ l, (∀ x, x ∈ l → x ∈ W ++ D ++ concat Q) → sll c_next (chunk_at h) l → sll c_next (chunk_at (drop_chunk c h)) l).
  { intros l Hl. apply (outside_sll h _ c); [done|done| |]; [|intros Hin; by apply Hn, Hl]. intros x Hx. apply (held_base HS). right. by apply Hl. }
  assert (Hset : ∀ x, process_chunk (C ∖ {[c]}) W D Q x ↔ process_chunk C W D Q x ∧ x ≠ c).
  { intros x. unfold process_chunk. rewrite elem_of_difference, elem_of_singleton. destruct (decide (x = c)) as [->|]; tauto. }
  assert (Hat : ∀ x, process_chunk (C ∖ {[c]}) W D Q x → h_chunks (drop_chunk c h) !! x = h_chunks h !! x).
  { intros x [Hx Hxc]%Hset. apply (outside_chunk h _ c); [done|done|by apply (held_base HS)|done]. }
  split.
  - split; cbn [b_table warm_head warm_count dispose_head unmapped]; try done.
    + apply (guests_same (λ x, process_chunk C W D Q x ∧ x ≠ c) _ (bview (drop_chunk c h) (unmapped c f b))); [done| |done].
      intros x. by rewrite Hset.
    + apply Hlist; [intros x Hx; in_list|done].
    + apply Hlist; [intros x Hx; in_list|done].
    + intros P HP. apply Hlist; [|by apply S7]. intros x Hx. by apply (priv_in P).
    + intros x Hx. specialize (S10 x Hx). rewrite elem_of_difference. tauto.
    + intros x Hx. apply (header_same h); [by apply Hat|]. apply Hset in Hx as [Hx _]. by apply S11.
    + intros Hm. apply (shared_ext (Hf Hm)); [done|]. intros x Hx. unfold chunk_at. by rewrite Hat.
  - destruct (step_outside HS false c (drop_chunk c h) (set_memfile f b)) as [T1 T2 T3 T4]; [by left|done..|]. split; [done|exact T2|apply Hev|done].
Qed.

Lemma agree_drop C h b W D Q c (C' : gset Z) :
  src_inv C h b W D Q → process_chunk C W D Q c → (∀ x, x ∈ C' → process_chunk C W D Q x) → c ∉ C' → agree_on (λ x, x ∈ C') h (drop_chunk c h).
Proof.
  intros HS Hc HC' Hn. apply (agree_outside C' h _ c); [by apply (held_base HS)|intros x Hx; by apply (held_base HS), HC'|done|apply clear_outside].
Qed.

Lemma run_warm_push h b c :
  has_chunk h c → warm_push c (h, b) = Ok (tt, (heap_set_chunk c (chunk_set_next (warm_head b) (chunk_at h c)) h, with_warm c (warm_count b + 1) b)).
Proof.
  intros Hh. unfold warm_push. erewrite run_bind by (apply run_gets). erewrite run_bind by (apply run_gets).
  erewrite run_bind by (by apply run_g_upd). done.
Qed.

Lemma chunk_dispose_spec C h b W D Q c :
  src_inv C h b W D Q → c ∈ C →
  ∃ h' b' W' D', chunk_dispose c (h, b) = Ok (tt, (h', b')) ∧ agree_on (λ x, x ∈ C ∧ x ≠ c) h h' ∧ src_step false h b h' b' ∧ bg_at b' = bg_at b ∧
    src_inv (C ∖ {[c]}) h' b' W' D' Q.
Proof.
  intros HS Hc. pose proof (held_header HS c (or_introl Hc)) as Hh. pose proof (held_base HS c (or_introl Hc)) as Hcb.
  assert (Hag : ∀ h', agree_on (λ x, x ∈ C ∖ {[c]}) h h' → agree_on (λ x, x ∈ C ∧ x ≠ c) h h').
  { intros h' Hag. eapply agree_on_weaken; [|exact Hag]. intros x [? ?]. set_solver. }
  assert (Hcn : c ∉ C ∖ {[c]}) by set_solver.
  unfold chunk_dispose. erewrite run_bind by (apply run_gets). cbn [snd]. destruct (bg_async b).
  - erewrite run_bind by (apply run_gets). erewrite run_bind by (apply run_g_upd, Hh). cbn [snd].
    rewrite (si_disp _ _ _ _ _ _ HS). eexists _, _, W, (c :: D). split; [reflexivity|].
    split_and!; [|by apply src_step_mem|done|by apply src_push_dispose]. apply Hag. by apply agree_set_chunk.
  - destruct (decommit_run C h b W D Q c HS (or_introl Hc)) as (f & Hrun1 & Ho1 & Hst1 & HS1).
    set (h1 := heap_zero _ _ _) in *. erewrite run_bind by exact Hrun1.
    assert (Hag1 : agree_on (λ x, x ∈ C ∖ {[c]}) h h1).
    { apply (agree_outside _ h h1 c); [done| |done|done]. intros x Hx. apply (held_base HS). left. set_solver. }
    erewrite run_bind by (apply run_gets). cbn [snd warm_count set_memfile]. destruct (warm_count b <? BTM_WARM_HIGH).
    + rewrite run_warm_push by (apply (held_header HS1); by left). cbn [warm_head set_memfile]. rewrite (si_warm _ _ _ _ _ _ HS).
      eexists _, _, (c :: W), D. split; [reflexivity|]. split_and!; [| |done|exact (src_push_warm _ _ _ _ _ _ c HS1 Hc)].
      * apply Hag. eapply agree_on_trans; [exact Hag1|]. by apply agree_set_chunk.
      * apply (src_step_trans _ _ _ _ _ _ _ (Hst1 _)). by apply src_step_mem.
    + destruct (src_unmap C h1 (set_memfile f b) W D Q c HS1 Hc) as (f2 & Hrun2 & HS2 & Hst2). rewrite Hrun2.
      eexists _, _, W, D. split; [reflexivity|]. split_and!; [| |done|done].
      * apply Hag. eapply agree_on_trans; [exact Hag1|]. apply (agree_drop C h1 (set_memfile f b) W D Q c); [done|by left| |done]. intros x Hx. left. set_solver.
      * by apply (src_step_trans _ _ _ _ _ _ _ (Hst1 _)).
Qed.

(** ** The interface of the pools *)
Definition source_ok (C : gset Z) (h : heap) (b : bstate T) : Prop :=
  ∃ W D Q, src_inv C h b W D Q ∧ pc_list (bg_at b) Q.

#[export] Program Instance background_laws : ChunkSourceLaws (bstate T) background_source := {|
  cs_ok := source_ok;
  cs_step := src_step;
  cs_step_refl := src_step_refl;
  cs_step_trans := src_step_trans;
|}.
Next Obligation.
  intros g C h h' b (W & D & Q & HS & _) Hag. apply src_step_bytes; [done..|]. intros x Hx.
  apply (ag_byte _ _ (chunk_of x)); [|done]. apply Hag. intros Hc.
  pose proof (held_space HS _ (or_introl Hc)) as Hs. pose proof Hx as (base & hd & Hb & Hin).
  destruct (gs_large _ _ (si_space _ _ _ _ _ _ HS) base hd Hb) as [_ Hl].
  destruct (chunk_of_le x (large_user _ _ _ _ x Hl Hin)) as (? & ? & _).
  apply (guest_chunk_apart _ _ _ x (si_space _ _ _ _ _ _ HS) Hs); [lia|done].
Qed.
Next Obligation.
  intros C h b c (W & D & Q & HS & _) Hc. split; [by apply (held_base HS); left|by apply (held_header HS); left].
Qed.
Next Obligation.
  intros C h b r (W & D & Q & HS & Hpc). destruct (chunk_obtain_spec C h b W D Q r HS) as (c & h' & b' & W' & Hrun & Hag & Hst & Hat & Hcase).
  exists c, h', b'. cbn. rewrite Hrun. split_and!; [done|done|done|].
  destruct Hcase as [[-> HS']|(Hn & Hb & Hv & HS')]; [left|right]; (split_and!; try done); exists W', D, Q; by rewrite Hat.
Qed.
Next Obligation.
  intros C h b c (W & D & Q & HS & Hpc) Hc. destruct (chunk_dispose_spec C h b W D Q c HS Hc) as (h' & b' & W' & D' & Hrun & Hag & Hst & Hat & HS').
  exists h', b'. cbn. rewrite Hrun. split_and!; try done. exists W', D', Q. by rewrite Hat.
Qed.
Next Obligation.
  intros C h b c a n (W & D & Q & HS & Hpc) Hc Ha H0 Hn.
  destruct (release_run C h b W D Q c a n HS (or_introl Hc) Ha H0 Hn) as (f & Hrun & Hst & HS').
  exists (set_memfile f b). cbn. rewrite Hrun. split_and!; [done|done|]. by exists W, D, Q.
Qed.
Next Obligation. intros C h b c (W & D & Q & HS & _) Hc. apply (si_hdr _ _ _ _ _ _ HS c). by left. Qed.
Next Obligation.
  intros C h h' b (W & D & Q & HS & Hpc) Hout Hin. pose proof HS as [S1 S2 S3 S4 S5 S6 S7 S9 S10 S11 S12]. exists W, D, Q. split; [|done].
  assert (Hat : ∀ x, x ∈ W ++ D ++ concat Q → chunk_at h' x = chunk_at h x).
  { intros x Hx. unfold chunk_at. rewrite Hout; [done|]. by apply S10. }
  split; try done.
  - by apply (space_keep C h b W D Q).
  - apply (sll_ext c_next (chunk_at h)); [|done]. intros x Hx. rewrite Hat; [done|in_list].
  - apply (sll_ext c_next (chunk_at h)); [|done]. intros x Hx. rewrite Hat; [done|in_list].
  - intros P HP. apply (sll_ext c_next (chunk_at h)); [|by apply S7]. intros x Hx. rewrite Hat; [done|]. by apply (priv_in P).
  - intros x Hx. pose proof (S11 x Hx) as HH. destruct (decide (x ∈ C)) as [Hc|Hc]; [|by apply (header_same h); [apply Hout|]].
    specialize (Hin x Hc). destruct HH as [[v Hv] Hof]. unfold header_ok, has_chunk, chunk_at in *. rewrite Hv in *.
    destruct (h_chunks h' !! x) as [v'|]; [|done]. split; [by eexists|]. injection Hin as Hin. cbn in *. by rewrite Hin.
  - apply (file_keep HS); [done|]. intros x Hx. pose proof (S11 x Hx) as [[v Hv] _]. unfold chunk_at.
    destruct (decide (x ∈ C)) as [Hc|Hc]; [|by rewrite Hout]. specialize (Hin x Hc). rewrite Hv in Hin |- *. by destruct (h_chunks h' !! x) as [v'|]; [injection Hin|].
Qed.

(** ** The maintenance thread *)
Context (uring_sqe : Z → bool).

Lemma src_pc C h b W D Q pc :
  src_inv C h b W D Q → src_inv C h (mk_bstate (b_kernel b) (b_table b) (b_hdrs b) (warm_head b) (warm_count b) (dispose_head b) (bg_async b) (bg_ring_ok b) pc (b_file b)) W D Q.
Proof. intros [S1 S2 S3 S4 S5 S6 S7 S9 S10 S11 S12]. by split. Qed.

(** The thread's private lists: a chunk off the first, a chunk onto the second. *)
Lemma src_priv_pop C h b W D c P Q :
  src_inv C h b W D ((c :: P) :: Q) → (c ∉ C) ∧ c_next (chunk_at h c) = hd0 P ∧ src_inv ({[c]} ∪ C) h b W D (P :: Q).
Proof.
  intros HS. pose proof HS as [S1 S2 S3 S4 S5 S6 S7 S9 S10 S11 S12].
  assert (Hp : ∀ x, x ∈ W ++ D ++ concat ((c :: P) :: Q) ↔ x = c ∨ x ∈ W ++ D ++ concat (P :: Q)) by (intros x; simpl; list_mem; tauto).
  destruct (S7 (c :: P)) as [Hcn Hcl]; [by left|].
  split_and!; [apply S10, Hp; by left|done|].
  assert (Hn : NoDup (c :: W ++ D ++ concat (P :: Q))).
  { simpl in *. by rewrite <-!Permutation_middle in S9. }
  apply NoDup_cons in Hn as [Hn Hnd].
  assert (Hset : ∀ x, process_chunk C W D ((c :: P) :: Q) x ↔ process_chunk ({[c]} ∪ C) W D (P :: Q) x).
  { intros x. by apply chunk_from_list, Hp. }
  split; try done.
  - by apply (space_keep C h b W D ((c :: P) :: Q)).
  - intros P' [->|HP']%elem_of_cons; [done|]. apply S7. by right.
  - intros x Hx. assert (x ∉ C) by (apply S10, Hp; by right). assert (x ≠ c) by (by intros ->). set_solver.
  - intros x Hx. by apply S11, Hset.
  - apply (file_keep HS); [|done]. intros x. by rewrite Hset.
Qed.

Lemma src_priv_push C h b W D c P1 P2 L :
  src_inv C h b W D (P1 :: P2 :: L) → c ∈ C →
  src_inv (C ∖ {[c]}) (heap_set_chunk c (chunk_set_next (hd0 P2) (chunk_at h c)) h) b W D (P1 :: (c :: P2) :: L).
Proof.
  intros HS Hc. pose proof (src_upd_client C h b W D _ c (chunk_set_next (hd0 P2) (chunk_at h c)) HS Hc eq_refl) as HS'. pose proof HS' as [S1 S2 S3 S4 S5 S6 S7 S9 S10 S11 S12].
  assert (Hn : c ∉ W ++ D ++ concat (P1 :: P2 :: L)) by (intros Hin; by apply (S10 c)).
  assert (Hp : ∀ x, x ∈ W ++ D ++ concat (P1 :: (c :: P2) :: L) ↔ x = c ∨ x ∈ W ++ D ++ concat (P1 :: P2 :: L)) by (intros x; simpl; list_mem; tauto).
  assert (Hset : ∀ x, process_chunk C W D (P1 :: P2 :: L) x ↔ process_chunk (C ∖ {[c]}) W D (P1 :: (c :: P2) :: L) x).
  { intros x. by apply chunk_to_list, Hp. }
  split; try done.
  - by apply (space_keep C (heap_set_chunk c (chunk_set_next (hd0 P2) (chunk_at h c)) h) b W D (P1 :: P2 :: L)).
  - intros P [->|[->|HP]%elem_of_cons]%elem_of_cons; [apply S7; by left| |apply S7; by do 2 right].
    split; [by rewrite chunk_at_set, decide_True|]. apply S7. right. by left.
  - simpl in *. rewrite <-!Permutation_middle. by apply NoDup_cons.
  - intros x. rewrite Hp. intros [->|Hx]; [set_solver|]. specialize (S10 x Hx). set_solver.
  - intros x Hx. by apply S11, Hset.
  - apply (file_keep HS'); [|done]. intros x. by rewrite Hset.
Qed.

Lemma src_priv_nil C h b W D Q : src_inv C h b W D ([] :: Q) ↔ src_inv C h b W D Q.
Proof.
  split; intros [S1 S2 S3 S4 S5 S6 S7 S9 S10 S11 S12]; split; try done.
  - intros P HP. apply S7. by right.
  - intros P [->|HP]%elem_of_cons; [done|by apply S7].
Qed.

Lemma add_remove (C : gset Z) c : c ∉ C → ({[c]} ∪ C) ∖ {[c]} = C.
Proof. intros Hc. set_solver. Qed.

(** The fuel of the loops: no more chunks on a list than there are. *)
Lemma list_fuel C h b W D Q P : src_inv C h b W D Q → P ∈ Q → (length P ≤ size (h_chunks h))%nat.
Proof.
  intros HS HP. pose proof (si_nodup _ _ _ _ _ _ HS) as Hnd. apply NoDup_app in Hnd as (_ & _ & Hnd). apply NoDup_app in Hnd as (_ & _ & Hnd).
  assert (HnP : NoDup P).
  { apply list_elem_of_split in HP as (Q1 & Q2 & ->). rewrite concat_app in Hnd. simpl in Hnd.
    apply NoDup_app in Hnd as (_ & _ & Hnd). by apply NoDup_app in Hnd as (? & _ & _). }
  apply keys_fuel; [done|]. intros y Hy. apply (held_header HS). right. by apply (priv_in P).
Qed.

Lemma decommit_one_spec C h b W D Q c :
  src_inv C h b W D Q → c ∈ W ++ D ++ concat Q →
  ∃ h1 f, decommit_one uring_sqe c (h, b) = Ok (tt, (h1, set_memfile f b)) ∧ h_chunks h1 = h_chunks h ∧ agree_on (λ x, x ∈ C) h h1 ∧
    src_step false h b h1 (set_memfile f b) ∧ src_inv C h1 (set_memfile f b) W D Q.
Proof.
  intros HS Hc. pose proof (held_base HS c (or_intror Hc)) as Hb. pose proof (si_apart _ _ _ _ _ _ HS c Hc) as HcC.
  assert (HCb : ∀ x, x ∈ C → chunk_base x) by (intros x Hx; apply (held_base HS); by left).
  unfold decommit_one, mesh_mode. rewrite !(run_bind _ _ _ _ _ (run_gets _ _)). cbn [snd]. destruct (negb _ && bg_ring_ok b && uring_sqe c).
  - assert (HK : 0 ≤ BTM_PAGE_SIZE ∧ BTM_PAGE_SIZE + kData ≤ BTM_CHUNK_SIZE) by (vm_compute; split; discriminate).
    pose proof (zap_outside c (c + BTM_PAGE_SIZE) kData h ltac:(lia) ltac:(lia)) as Ho.
    exists (zap (c + BTM_PAGE_SIZE) kData h), (b_file b). split; [rewrite run_modify; by destruct b|]. split_and!; [done| | |].
    + by apply (agree_outside C h _ c).
    + by apply (step_outside HS _ c); [right|..].
    + apply (src_pages C h); [done|done|by apply same_shares_refl].
  - destruct (decommit_run C h b W D Q c HS (or_intror Hc)) as (f & Hrun & Ho & Hst & HS1).
    exists (heap_zero (c + kDataOff) kData h), f. split_and!; [done|done|by apply (agree_outside C h _ c)|done|done].
Qed.

Lemma decommit_batch_spec C W D Q fuel : ∀ h b P,
  src_inv C h b W D Q → sll c_next (chunk_at h) P → (∀ c, c ∈ P → c ∈ W ++ D ++ concat Q) → (length P ≤ fuel)%nat →
  ∃ h' f, decommit_batch uring_sqe fuel (hd0 P) (h, b) = Ok (tt, (h', set_memfile f b)) ∧
    agree_on (λ x, x ∈ C) h h' ∧ src_step false h b h' (set_memfile f b) ∧ src_inv C h' (set_memfile f b) W D Q.
Proof.
  assert (Hnil : ∀ fuel h b, src_inv C h b W D Q → ∃ h' f, decommit_batch uring_sqe fuel (hd0 []) (h, b) = Ok (tt, (h', set_memfile f b)) ∧
    agree_on (λ x, x ∈ C) h h' ∧ src_step false h b h' (set_memfile f b) ∧ src_inv C h' (set_memfile f b) W D Q).
  { intros n h b HS. exists h, (b_file b). replace (set_memfile (b_file b) b) with b by (by destruct b).
    split_and!; [by destruct n|apply agree_on_refl|apply src_step_refl|done]. }
  induction fuel as [|fuel IH]; intros h b [|c P] HS Hl Hin Hfuel; [by apply Hnil|simpl in Hfuel; lia|by apply Hnil|].
  assert (Hc : c ∈ W ++ D ++ concat Q) by (apply Hin; by left). destruct Hl as [Hcn Hl].
  destruct (decommit_one_spec C h b W D Q c HS Hc) as (h1 & f1 & Hrun1 & Hc1 & Hag1 & Hst1 & HS1).
  cbn [decommit_batch]. change (hd0 (c :: P)) with c. rewrite (proj2 (Z.eqb_neq c 0)) by (apply (held_nonzero HS); by right).
  erewrite run_bind by exact Hrun1.
  assert (Hat : ∀ x, chunk_at h1 x = chunk_at h x) by (intros x; unfold chunk_at; by rewrite Hc1).
  erewrite run_bind by (apply run_g_chunk, (held_header HS1); by right). rewrite Hat, Hcn.
  destruct (IH h1 (set_memfile f1 b) P HS1) as (h2 & f2 & Hrun2 & Hag2 & Hst2 & HS2).
  - apply (sll_ext c_next (chunk_at h)); [|done]. intros x _. by rewrite Hat.
  - intros x Hx. apply Hin. by right.
  - simpl in Hfuel. lia.
  - exists h2, f2. split_and!; [done|by eapply agree_on_trans|by eapply src_step_trans|done].
Qed.

Lemma recycle_loop_spec C L fuel : ∀ h b W D P1 P2,
  src_inv C h b W D (P1 :: P2 :: L) → (length P1 ≤ fuel)%nat →
  ∃ h' b' W' P', recycle_loop fuel (hd0 P1) (hd0 P2) (h, b) = Ok (hd0 P', (h', b')) ∧ agree_on (λ x, x ∈ C) h h' ∧
    src_step false h b h' b' ∧ src_inv C h' b' W' D (P' :: L).
Proof.
  induction fuel as [|fuel IH]; intros h b W D [|c P1] P2 HS Hfuel; [|simpl in Hfuel; lia| |].
  - exists h, b, W, P2. split_and!; [done|apply agree_on_refl|apply src_step_refl|by apply src_priv_nil].
  - exists h, b, W, P2. split_and!; [done|apply agree_on_refl|apply src_step_refl|by apply src_priv_nil].
  - destruct (src_priv_pop C h b W D c P1 (P2 :: L) HS) as (Hc & Hcn & HS1).
    assert (Hc1 : process_chunk ({[c]} ∪ C) W D (P1 :: P2 :: L) c) by (left; set_solver). pose proof (held_header HS1 c Hc1) as Hh.
    cbn [recycle_loop]. change (hd0 (c :: P1)) with c. rewrite (proj2 (Z.eqb_neq c 0)) by (by apply (held_nonzero HS1)).
    erewrite run_bind by (apply run_g_chunk, Hh). erewrite run_bind by (apply run_gets). rewrite Hcn. cbn [snd].
    destruct (warm_count b <? BTM_WARM_HIGH).
    + erewrite run_bind by (apply run_warm_push, Hh). rewrite (si_warm _ _ _ _ _ _ HS).
      pose proof (src_push_warm _ _ _ _ _ _ c HS1 ltac:(set_solver)) as HS2. rewrite add_remove in HS2 by done.
      destruct (IH _ _ _ _ P1 P2 HS2) as (h' & b' & W' & P' & Hrun & Hag & Hst & HS'); [simpl in Hfuel; lia|].
      exists h', b', W', P'. split_and!; [done| | |done].
      * eapply agree_on_trans; [|exact Hag]. by apply agree_set_chunk.
      * refine (src_step_trans _ _ _ _ _ _ _ _ Hst). by apply src_step_mem.
    + erewrite run_bind by (apply run_g_upd, Hh).
      pose proof (src_priv_push _ _ _ _ _ c P1 P2 L HS1 ltac:(set_solver)) as HS2. rewrite add_remove in HS2 by done.
      destruct (IH _ _ _ _ P1 (c :: P2) HS2) as (h' & b' & W' & P' & Hrun & Hag & Hst & HS'); [simpl in Hfuel; lia|].
      exists h', b', W', P'. split_and!; [done| | |done].
      * eapply agree_on_trans; [|exact Hag]. by apply agree_set_chunk.
      * refine (src_step_trans _ _ _ _ _ _ _ _ Hst). by apply src_step_mem.
Qed.

Lemma src_priv_cons_nil C h b W D P L : src_inv C h b W D (P :: L) → src_inv C h b W D (P :: [] :: L).
Proof.
  intros [S1 S2 S3 S4 S5 S6 S7 S9 S10 S11 S12]. split; try done.
  intros P' HP'. rewrite !elem_of_cons in HP'. destruct HP' as [->|[->|HP']]; [apply S7; by left|done|apply S7; by right].
Qed.

(** The thread takes the whole dispose queue. *)
Lemma src_take_dispose C h b W D Q pc :
  src_inv C h b W D Q →
  src_inv C h (mk_bstate (b_kernel b) (b_table b) (b_hdrs b) (warm_head b) (warm_count b) 0 (bg_async b) (bg_ring_ok b) pc (b_file b)) W [] (D :: Q).
Proof.
  intros [S1 S2 S3 S4 S5 S6 S7 S9 S10 S11 S12].
  split; try done. by intros P [->|HP]%elem_of_cons; [|apply S7].
Qed.

(** A step of the thread is invisible to the clients and to the large objects. *)
Definition bg_ok (C : gset Z) h b (o : outcome (unit * (heap * bstate T))) : Prop :=
  ∃ h' b', o = Ok (tt, (h', b')) ∧ agree_on (λ x, x ∈ C) h h' ∧ src_step false h b h' b' ∧ source_ok C h' b'.

Lemma bg_ok_here C h b pc W D Q :
  src_inv C h b W D Q → pc_list pc Q → bg_ok C h b (set_at pc (h, b)).
Proof.
  intros HS Hpc. eexists h, _. split_and!; [reflexivity|apply agree_on_refl|by apply src_step_mem|].
  exists W, D, Q. split; [by apply src_pc|done].
Qed.

Lemma bg_ok_after C h b h1 b1 o :
  agree_on (λ x, x ∈ C) h h1 → src_step false h b h1 b1 → bg_ok C h1 b1 o → bg_ok C h b o.
Proof.
  intros Hag Hst (h' & b' & -> & Hag' & Hst' & HS). exists h', b'.
  split_and!; [done|by eapply agree_on_trans|by eapply src_step_trans|done].
Qed.

Lemma bg_idle_ok C h b W D Q :
  src_inv C h b W D Q → bg_at b = BgIdle → bg_ok C h b (bg_step uring_sqe (h, b)).
Proof.
  intros HS Eat. unfold bg_step. erewrite run_bind by (apply run_gets). erewrite run_bind by (apply run_gets). cbn [fst snd]. rewrite Eat.
  erewrite run_bind by (apply run_gets). erewrite run_bind by (apply run_gets). cbn [snd].
  destruct ((dispose_head b =? 0) && (BTM_WARM_LOW <=? warm_count b)).
  - exists h, b. split_and!; [done|apply agree_on_refl|apply src_step_refl|]. exists W, D, Q. by rewrite Eat.
  - rewrite (si_disp _ _ _ _ _ _ HS). eexists h, _. split_and!; [reflexivity|apply agree_on_refl|by apply src_step_mem|].
    exists W, [], (D :: Q). split; [|by exists D, Q]. exact (src_take_dispose C h b W D Q _ HS).
Qed.

Lemma bg_decommit_ok C h b W D P L :
  src_inv C h b W D (P :: L) → bg_at b = BgDecommit (hd0 P) → bg_ok C h b (bg_step uring_sqe (h, b)).
Proof.
  intros HS Eat. unfold bg_step. erewrite run_bind by (apply run_gets). erewrite run_bind by (apply run_gets). cbn [fst snd]. rewrite Eat.
  destruct (decommit_batch_spec C W D (P :: L) (size (h_chunks h)) h b P HS) as (h' & f & Hrun & Hag & Hst & HS').
  { apply (si_priv _ _ _ _ _ _ HS). by left. }
  { intros c Hc. apply (priv_in P); [by left|done]. }
  { apply (list_fuel C h b W D (P :: L)); [done|by left]. }
  erewrite run_bind by exact Hrun. apply (bg_ok_after C h b h' (set_memfile f b)); [done..|].
  apply (bg_ok_here C h' _ _ W D (P :: L)); [done|by exists P, L].
Qed.

Lemma bg_recycle_ok C h b W D P L :
  src_inv C h b W D (P :: L) → bg_at b = BgRecycle (hd0 P) → bg_ok C h b (bg_step uring_sqe (h, b)).
Proof.
  intros HS Eat. unfold bg_step. erewrite run_bind by (apply run_gets). erewrite run_bind by (apply run_gets). cbn [fst snd]. rewrite Eat.
  destruct (recycle_loop_spec C L (size (h_chunks h)) h b W D P []) as (h' & b' & W' & P' & Hrun & Hag & Hst & HS').
  { by apply src_priv_cons_nil. }
  { apply (list_fuel C h b W D (P :: L)); [done|by left]. }
  erewrite run_bind by exact Hrun. erewrite run_bind by (apply run_gets). cbn [snd].
  apply (bg_ok_after C h b h' b'); [done..|]. apply (bg_ok_here C h' b' _ W' D (P' :: L)); [done|by exists P', L].
Qed.

Lemma bg_trim_ok C h b W D P L n :
  src_inv C h b W D (P :: L) → bg_at b = BgTrim (hd0 P) n → bg_ok C h b (bg_step uring_sqe (h, b)).
Proof.
  intros HS Eat. unfold bg_step. erewrite run_bind by (apply run_gets). erewrite run_bind by (apply run_gets). cbn [fst snd]. rewrite Eat.
  destruct P as [|c P].
  - apply (bg_ok_here C h b _ W D L); [by apply src_priv_nil|done].
  - destruct (src_priv_pop C h b W D c P L HS) as (Hc & Hcn & HS1).
    assert (Hin : process_chunk ({[c]} ∪ C) W D (P :: L) c) by (left; set_solver).
    change (hd0 (c :: P)) with c. rewrite (proj2 (Z.eqb_neq c 0)) by (by apply (held_nonzero HS1)).
    erewrite run_bind by (apply run_g_chunk, (held_header HS1), Hin).
    destruct (src_unmap _ _ _ _ _ _ c HS1 ltac:(set_solver)) as (f & Hrun & HS2 & Hst). rewrite add_remove in HS2 by done. erewrite run_bind by exact Hrun.
    apply (bg_ok_after C h b (drop_chunk c h) (unmapped c f b)); [|done|].
    { apply (agree_drop ({[c]} ∪ C) h b W D (P :: L) c); [done|done| |done]. intros x Hx. left. set_solver. }
    rewrite Hcn. apply (bg_ok_here C (drop_chunk c h) (unmapped c f b) _ W D (P :: L)); [done|by exists P, L].
Qed.

Lemma bg_refill_ok C h b W D Q n :
  src_inv C h b W D Q → bg_at b = BgRefill n → bg_ok C h b (bg_step uring_sqe (h, b)).
Proof.
  intros HS Eat. unfold bg_step. erewrite run_bind by (apply run_gets). erewrite run_bind by (apply run_gets). cbn [fst snd]. rewrite Eat.
  destruct (n <=? 0).
  { by apply (bg_ok_here C h b _ W D Q). }
  destruct (map_fresh_spec C h b W D Q HS) as (c & h1 & b1 & Hrun & Hag & Hst & Hat & _ & [[-> HS1]|(Hc & _ & Hb & HS1)]);
    erewrite run_bind by exact Hrun; apply (bg_ok_after C h b h1 b1); try done.
  - by apply (bg_ok_here C h1 b1 _ W D Q).
  - rewrite (proj2 (Z.eqb_neq c 0)) by (destruct Hb; lia).
    assert (Hin : process_chunk ({[c]} ∪ C) W D Q c) by (left; set_solver).
    erewrite run_bind by (apply run_warm_push, (held_header HS1), Hin).
    pose proof (src_push_warm _ _ _ _ _ _ c HS1 ltac:(set_solver)) as HS2. rewrite add_remove in HS2 by done.
    rewrite <-(si_warm _ _ _ _ _ _ HS1) in HS2.
    apply (bg_ok_after C h1 b1 (heap_set_chunk c (chunk_set_next (warm_head b1) (chunk_at h1 c)) h1) (with_warm c (warm_count b1 + 1) b1));
      [by apply agree_set_chunk|by apply src_step_mem|].
    by apply (bg_ok_here C _ _ _ (c :: W) D Q).
Qed.

(** One step of the thread, at any point between the operations of the pools. *)
Lemma bg_step_spec C h b : source_ok C h b → bg_ok C h b (bg_step uring_sqe (h, b)).
Proof.
  intros (W & D & Q & HS & Hpc). destruct (bg_at b) as [|disp|disp|trim deficit|n] eqn:Eat; cbn [pc_list] in Hpc.
  - by apply (bg_idle_ok C h b W D Q).
  - destruct Hpc as (P & L & -> & ->). by apply (bg_decommit_ok C h b W D P L).
  - destruct Hpc as (P & L & -> & ->). by apply (bg_recycle_ok C h b W D P L).
  - destruct Hpc as (P & L & -> & ->). by apply (bg_trim_ok C h b W D P L deficit).
  - by apply (bg_refill_ok C h b W D Q n).
Qed.

(** A forked child: the dispose queue and the lists of the thread are lost, the clients
    and the warm chunks stay. *)
Lemma atfork_child_spec C h b : source_ok C h b →
  ∃ b', Background.btm_bg_atfork_child (h, b) = Ok (tt, (h, b')) ∧ source_ok C h b' ∧ src_step false h b h b' ∧
    b_kernel b' = b_kernel b ∧ b_table b' = b_table b ∧ warm_head b' = warm_head b ∧ warm_count b' = warm_count b ∧
    dispose_head b' = 0 ∧ bg_async b' = false ∧ bg_at b' = BgIdle.
Proof.
  intros (W & D & Q & HS & _). eexists. split; [reflexivity|]. split; [|split_and!; [by apply src_step_mem|done..]].
  exists W, [], (D :: Q). split; [|done]. pose proof (src_take_dispose C h b W D Q BgIdle HS) as [S1 S2 S3 S4 S5 S6 S7 S9 S10 S11 S12]. by split.
Qed.
End laws.
