(* ===== verification/ApiInv.v ===== *)
(** * ApiInv: the invariant of the whole process

    What holds between two calls of the API: the pools and the chunk source in their
    invariants, every thread's bins holding slots of their pools and nobody else's, every
    region cache trustworthy.  A [block] is what the program owns: a slot that is out of
    its pool and in no bin, or the user part of a large object. *)

From stdpp Require Import prelude gmap.
From S2P Require Import Prelude Memory SizeClass Freelist Registry Engine Callsite Os Large Heap Memfd Dll Pool PoolInv PoolFrame PoolRun PoolRefill PoolSys PoolOps Space Background BgLaws Api.
Local Open Scope Z_scope.

(** What the state alone does not show: the abstract pools and the slots in every bin. *)
Record aghost := mk_ghost {
  gh_sys : asys;
  gh_cache : gmap (nat * pool_ref) (list Z);
}.
Definition cached (G : aghost) (t : nat) (r : pool_ref) : list Z := gh_cache G !!! (t, r).

(** The pools of a process with [np] partitions. *)
Definition in_range (np : Z) (r : pool_ref) : Prop := 0 ≤ r.1 < np ∧ valid_sc r.2.
#[export] Instance in_range_dec np r : Decision (in_range np r).
Proof. unfold in_range, valid_sc. apply _. Defined.

Lemma bin_index_inj np r1 r2 : in_range np r1 → in_range np r2 → bin_index r1.1 r1.2 = bin_index r2.1 r2.2 → r1 = r2.
Proof.
  destruct r1 as [p1 c1], r2 as [p2 c2]. unfold in_range, valid_sc, bin_index. unfold_geometry. cbn.
  intros [] [] E. f_equal; lia.
Qed.

Lemma bin_index_range np r : in_range np r → 0 ≤ bin_index r.1 r.2 < np * BTM_NUM_SIZE_CLASSES.
Proof. unfold in_range, valid_sc, bin_index. unfold_geometry. nia. Qed.

Section inv.
Context {F : FlOps} {FL : FlLaws F} {Krn : OS} {KL : OSLaws Krn} {T : Type} {OT : OwnerTable T} {OE : OwnerEngine T}
  {EL : OwnerEngineLaws T OT OE}.
Implicit Types (p : pstate (bstate T)) (A : asys) (r : pool_ref) (s : astate T).

(** ** The chunk source and the large objects under the pools *)
Lemma sys_guests p A :
  sys_ok p A → ∃ P, guests_ok P (large_view p) ∧ ∀ c, c ∈ chunks_of A → P c ∧ has_chunk (p_heap p) c.
Proof.
  intros HS. destruct (so_src _ _ HS) as (W & D & Q & HI & _). exists (process_chunk (chunks_of A) W D Q).
  split; [apply (si_space _ _ _ _ _ _ HI)|]. intros c Hc. split; [by left|]. apply (held_header HI). by left.
Qed.

(** The header of the chunk under a live slot. *)
Lemma live_header p A r x :
  sys_ok p A → live_slot A r x →
  ∃ v, h_chunks (p_heap p) !! chunk_of x = Some v ∧ c_pool v = Some r ∧ c_sc v = r.2 ∧ c_part_idx v = r.1 ∧ chunk_of x ∈ chunks_of A.
Proof.
  intros HS Hx. destruct (live_place p A r x HS Hx) as (a & d & Ha & _ & _ & _ & Hc & Hin). rewrite <-Hc in Hin.
  destruct (so_pool _ _ HS r a Ha) as (pl & _ & I). destruct (pi_chunk _ _ _ _ _ I _ Hin) as [_ [v Hv] H1 H2 H3 _ _ _].
  unfold chunk_at in *. rewrite Hv in *. exists v. split_and!; try done. apply elem_of_chunks_of. by exists r, a.
Qed.

Lemma live_chunk_space p A r x :
  sys_ok p A → live_slot A r x → chunk_space (large_view p) (chunk_of x) ∧ chunk_of x ≤ x ∧ x + btm_sc_to_size r.2 ≤ chunk_of x + BTM_CHUNK_SIZE.
Proof.
  intros HS Hx. destruct (live_place p A r x HS Hx) as (a & d & Ha & _ & Hp & Hd & Hc & Hin).
  destruct (sys_guests p A HS) as (P & G & HP). split.
  - apply (gs_chunk _ _ G). apply HP, elem_of_chunks_of. exists r, a. by rewrite Hc.
  - pose proof (slot_bounds r (proj1 (so_ref _ _ HS _ _ Ha)) d x Hd Hp) as (_ & _ & _ & L & U). rewrite Hc. lia.
Qed.

(** A live slot is mapped, and resolves to its chunk. *)
Lemma live_mapped p A r x y :
  sys_ok p A → live_slot A r x → x ≤ y < x + btm_sc_to_size r.2 → k_mapped (b_kernel (p_src p)) y = true ∧ ¬ large_byte (large_view p) y.
Proof.
  intros HS Hx Hy. destruct (live_chunk_space p A r x HS Hx) as (Hc & H1 & H2).
  destruct (sys_guests p A HS) as (P & G & _). split; [apply (ck_mapped _ _ Hc); lia|].
  apply (guest_chunk_apart P _ _ y G Hc). lia.
Qed.

Lemma live_owner p A r x : sys_ok p A → live_slot A r x → ot_lookup (b_table (p_src p)) x = chunk_of x ∧ user_addr x.
Proof.
  intros HS Hx. destruct (live_chunk_space p A r x HS Hx) as (Hc & H1 & H2).
  destruct (live_place p A r x HS Hx) as (a & d & Ha & _ & Hp & Hd & _).
  pose proof (slot_bounds r (proj1 (so_ref _ _ HS _ _ Ha)) d x Hd Hp) as (_ & _ & ? & _).
  split; [apply (ck_owner _ _ Hc); lia|]. destruct (ck_base _ _ Hc) as (? & ? & ?). unfold user_addr. lia.
Qed.

Lemma live_size A r x p : sys_ok p A → live_slot A r x → 16 ≤ btm_sc_to_size r.2 ≤ BTM_SMALL_MAX_SIZE.
Proof. intros HS (a & Ha & _). apply sc_size_pos. apply (so_ref _ _ HS _ _ Ha). Qed.

(** A slot is live in one pool only. *)
Lemma live_unique p A r1 r2 x : sys_ok p A → live_slot A r1 x → live_slot A r2 x → r1 = r2.
Proof.
  intros HS H1 H2. destruct (decide (r1 = r2)) as [|Hne]; [done|].
  pose proof (live_size A r1 x p HS H1). pose proof (live_size A r2 x p HS H2).
  destruct (live_disjoint p A r1 r2 x x HS H1 H2); [congruence|lia..].
Qed.

(** ** Writing into memory the pools do not use *)

(** [m'] keeps the links of all free slots. *)
Definition links_kept A p (m' : gmap Z Z) : Prop :=
  ∀ r a d l x y, A !! r = Some a → a_free a !! d = Some l → x ∈ l → x ≤ y < x + 8 → byte_at m' y = byte_at (h_mem (p_heap p)) y.

Definition with_mem (m' : gmap Z Z) p : pstate (bstate T) := mk_pstate (heap_set_mem m' (p_heap p)) (p_pools p) (p_epoch p) (p_src p).

Lemma sys_mem p A m' : sys_ok p A → links_kept A p m' → sys_ok (with_mem m' p) A.
Proof.
  intros [S1 S2 S3 S4 S5 S6] Hk. split; [done| | |done..].
  - intros r a Ha. destruct (S2 r a Ha) as (pl & Hpl & I). exists pl. split; [done|].
    apply inv_mem; [done|]. intros d l x y Hd Hx Hy. by apply (Hk r a d l x y).
  - apply (cs_frame _ (p_heap p)); done.
Qed.

(** A free slot and a live one do not overlap. *)
Lemma free_clear p A r a d l x r' y :
  sys_ok p A → A !! r = Some a → a_free a !! d = Some l → x ∈ l → live_slot A r' y →
  disjoint_blocks x (btm_sc_to_size r.2) y (btm_sc_to_size r'.2).
Proof.
  intros HS Ha Hd Hx Hy. destruct (so_pool _ _ HS r a Ha) as (pl & _ & I). pose proof (so_ref _ _ HS r a Ha) as Hv.
  pose proof (pi_slab _ _ _ _ _ I d l Hd) as W. destruct (decide (r = r')) as [<-|Hne].
  - destruct Hy as (a2 & Ha2 & Hy). assert (a2 = a) as -> by congruence.
    assert (Hkp : known_slot r a x) by (exists d, l; split; [done|by apply W]).
    assert (x ≠ y).
    { intros ->. pose proof (free_apart r _ _ _ _ d l y y I Hv Hd Hx Hy) as Hap. unfold apart in Hap. lia. }
    by apply (known_apart r _ _ a [] x y I Hv Hkp (outstanding_known r _ _ Hy)).
  - destruct (live_place p A r' y HS Hy) as (a2 & d2 & Ha2 & _ & Hp2 & Hd2 & _ & Hc2).
    pose proof (inv_slab_in r Hv I d l Hd) as Hd1. pose proof (sw_slots _ _ _ _ _ W _ Hx) as Hp1.
    pose proof (slot_bounds r (proj1 Hv) d x Hd1 Hp1) as (_ & _ & _ & L1 & U1).
    pose proof (slot_bounds r' (proj1 (so_ref _ _ HS _ _ Ha2)) d2 y Hd2 Hp2) as (_ & _ & _ & L2 & U2).
    assert (chunk_of d ≠ chunk_of d2).
    { intros E. apply Hne. apply (so_apart _ _ HS r a r' a2 (chunk_of d)); [done..|apply W|by rewrite E]. }
    destruct Hd1 as ((P1 & M1 & _) & _), Hd2 as ((P2 & M2 & _) & _). unfold disjoint_blocks. unfold_geometry.
    apply Z.mod_divide in M1 as [k1 E1], M2 as [k2 E2]; [|lia..]. assert (k1 ≠ k2) by congruence. lia.
Qed.

(** Writes inside a live slot keep the links. *)
Lemma links_slot p A r x m' :
  sys_ok p A → live_slot A r x → (∀ y, ¬ (x ≤ y < x + btm_sc_to_size r.2) → byte_at m' y = byte_at (h_mem (p_heap p)) y) → links_kept A p m'.
Proof.
  intros HS Hx Hm r1 a1 d l z y Ha Hd Hz Hy. apply Hm.
  pose proof (free_clear p A r1 a1 d l z r x HS Ha Hd Hz Hx) as Hdj.
  pose proof (sc_size_pos r1.2 (proj1 (so_ref _ _ HS _ _ Ha))). unfold disjoint_blocks in Hdj. lia.
Qed.

(** So do writes to large objects. *)
Lemma links_large p A m' :
  sys_ok p A → (∀ y, ¬ large_byte (large_view p) y → byte_at m' y = byte_at (h_mem (p_heap p)) y) → links_kept A p m'.
Proof.
  intros HS Hm r a d l x y Ha Hd Hx Hy. apply Hm. destruct (so_pool _ _ HS r a Ha) as (pl & _ & I). pose proof (so_ref _ _ HS r a Ha) as Hv.
  pose proof (pi_slab _ _ _ _ _ I d l Hd) as W. pose proof (inv_slab_in r Hv I d l Hd) as Hd1.
  pose proof (slot_bounds r (proj1 Hv) d x Hd1 (sw_slots _ _ _ _ _ W _ Hx)) as (_ & _ & _ & L1 & U1).
  destruct (sys_guests p A HS) as (P & G & HP).
  assert (Hin : chunk_of d ∈ chunks_of A) by (apply elem_of_chunks_of; exists r, a; split; [done|apply W]).
  apply (guest_chunk_apart P _ (chunk_of d) y G); [apply (gs_chunk _ _ G), HP, Hin|].
  pose proof (sc_size_pos r.2 (proj1 Hv)). lia.
Qed.

(** ** Bins *)

(** The bin of pool [r] in thread [t], [None] without a TLS block. *)
Definition bin_at s (t : nat) r : option btm_tls_bin :=
  x ← th_tls (thread_at s t); Some (default zero_bin (bins x !! bin_index r.1 r.2)).

Record bin_good (m : gmap Z Z) A r (b : btm_tls_bin) (lb : list Z) : Prop := {
  bg_head : b_free_head b = hd0 lb;
  bg_count : b_count b = Z.of_nat (length lb);
  bg_nodup : NoDup lb;
  bg_list : flist m lb;
  bg_live x : x ∈ lb → live_slot A r x;
  bg_pool : b_pool b = Some r ∨ b_pool b = None ∧ lb = [];
  bg_cap : Z.of_nat (length lb) ≤ btm_cache_max r.2;
}.

Lemma bin_good_ok m A r a b lb : A !! r = Some a → bin_good m A r b lb → bin_ok r m a b lb.
Proof.
  intros Ha [B1 B2 B3 B4 B5 _ _]. split; try done. intros x Hx. destruct (B5 x Hx) as (a' & Ha' & Hout). congruence.
Qed.

Lemma bin_ok_good m A r a b lb :
  A !! r = Some a → bin_ok r m a b lb → b_pool b = Some r → Z.of_nat (length lb) ≤ btm_cache_max r.2 → bin_good m A r b lb.
Proof. intros Ha [B1 B2 B3 B4 B5] Hp Hc. split; try done; [intros x Hx; exists a; auto|by left]. Qed.

(** A bin does not see changes elsewhere. *)
Lemma bin_good_keep m m' A A' r b lb :
  bin_good m A r b lb → (∀ x, x ∈ lb → live_slot A' r x) →
  (∀ x y, x ∈ lb → x ≤ y < x + 8 → byte_at m' y = byte_at m y) → bin_good m' A' r b lb.
Proof.
  intros [B1 B2 B3 B4 B5 B6 B7] Hl Hm. split; try done. apply (flist_ext m); [|done].
  intros x y Hx Hy. symmetry. by apply (Hm x).
Qed.

Lemma zero_bin_good m A r : valid_sc r.2 → bin_good m A r zero_bin [].
Proof.
  intros Hsc. pose proof (sc_cache_range r.2 Hsc). split; [done|done|constructor|done| |by right|cbn; lia].
  intros x Hx. by apply elem_of_nil in Hx.
Qed.

(** ** The invariant *)
Definition bin_inv s (G : aghost) (t : nat) r : Prop :=
  match bin_at s t r with
  | Some b => bin_good (mem_of s) (gh_sys G) r b (cached G t r)
  | None => cached G t r = []
  end.

Record api_ok s (G : aghost) : Prop := {
  ao_ready : g_ready s = true ∧ g_partitions s = true;
  ao_nparts : ∃ k, 0 ≤ k ≤ 12 ∧ g_nparts s = 2 ^ k;
  ao_sys : sys_ok (g_pools s) (gh_sys G);
  ao_pools r : is_Some (gh_sys G !! r) ↔ in_range (g_nparts s) r;
  ao_table : table_evolves oe_table0 (table_of s);
  ao_bin t r : in_range (g_nparts s) r → bin_inv s G t r;
  ao_out t r : ¬ in_range (g_nparts s) r → cached G t r = [];
  ao_once t1 t2 r x : x ∈ cached G t1 r → x ∈ cached G t2 r → t1 = t2;
  ao_rcache t x : th_tls (thread_at s t) = Some x → oe_ok (table_of s) (rcache x);
  ao_intern : g_intern_mode s = true → intern_inv (g_intern s);
  ao_part t : 0 ≤ btm_tls_intern_part (th_intern (thread_at s t)) < g_nparts s;
}.

(** ** Blocks: what the program owns *)
Definition in_use (G : aghost) (x : Z) r : Prop := live_slot (gh_sys G) r x ∧ ∀ t, x ∉ cached G t r.

Definition large_block (v : lstate T) (x n : Z) : Prop :=
  ∃ base hd, large_at v base hd ∧ x = base + lh_user_off hd ∧ n = lh_map_len hd - lh_user_off hd.

Definition block s (G : aghost) (x n : Z) : Prop :=
  (∃ r, in_use G x r ∧ n = btm_sc_to_size r.2) ∨ large_block (large_view (g_pools s)) x n.

(** The call took the process from [s] to [s'], where it owns the blocks [P]; the blocks it
    had and still has keep their bytes. *)
Record goes s (G : aghost) s' (G' : aghost) (P : Z → Z → Prop) : Prop := {
  go_ok : api_ok s' G';
  go_blocks x n : block s' G' x n ↔ P x n;
  go_bytes x n y : block s G x n → P x n → x ≤ y < x + n → byte_at (mem_of s') y = byte_at (mem_of s) y;
  go_harden : g_harden_mode s' = g_harden_mode s;
  go_table : table_evolves (table_of s) (table_of s');
  go_mesh : mesh_on s' = mesh_on s;
}.

Section facts.
Context {s} {G : aghost} (HA : api_ok s G).

Lemma cached_bin t r x : x ∈ cached G t r → in_range (g_nparts s) r ∧ ∃ b, bin_at s t r = Some b ∧ bin_good (mem_of s) (gh_sys G) r b (cached G t r).
Proof.
  intros Hx. assert (Hr : in_range (g_nparts s) r).
  { destruct (decide (in_range (g_nparts s) r)) as [|Hn]; [done|]. rewrite (ao_out _ _ HA t r Hn) in Hx. by apply elem_of_nil in Hx. }
  split; [done|]. pose proof (ao_bin _ _ HA t r Hr) as HB. unfold bin_inv in HB. destruct (bin_at s t r) as [b|]; [by exists b|].
  rewrite HB in Hx. by apply elem_of_nil in Hx.
Qed.

Lemma cached_live t r x : x ∈ cached G t r → live_slot (gh_sys G) r x.
Proof. intros Hx. destruct (cached_bin t r x Hx) as (_ & b & _ & HB). by apply (bg_live _ _ _ _ _ HB). Qed.

Lemma live_in_range r x : live_slot (gh_sys G) r x → in_range (g_nparts s) r.
Proof. intros (a & Ha & _). apply (ao_pools _ _ HA). by exists a. Qed.

(** Distinct live slots are disjoint. *)
Lemma slots_apart r1 r2 x1 x2 :
  live_slot (gh_sys G) r1 x1 → live_slot (gh_sys G) r2 x2 → x1 ≠ x2 ∨ r1 ≠ r2 →
  disjoint_blocks x1 (btm_sc_to_size r1.2) x2 (btm_sc_to_size r2.2).
Proof. intros H1 H2 Hne. apply (live_disjoint (g_pools s) (gh_sys G)); [apply HA|done..|]. intros [= ??]. by destruct Hne. Qed.

(** The user part of a large object lies in the object. *)
Lemma large_block_byte x n y : large_block (large_view (g_pools s)) x n → x ≤ y < x + n → large_byte (large_view (g_pools s)) y.
Proof.
  intros (base & hd & Hb & -> & ->) Hy. exists base, hd. split; [done|]. destruct (sys_guests _ _ (ao_sys _ _ HA)) as (P & HG & _).
  destruct (gs_large _ _ HG base hd Hb) as [_ Hl]. pose proof (ll_off _ _ _ _ Hl). lia.
Qed.

(** Slots and large objects share no byte. *)
Lemma slot_not_large r x y : live_slot (gh_sys G) r x → x ≤ y < x + btm_sc_to_size r.2 → ¬ large_byte (large_view (g_pools s)) y.
Proof. intros Hx Hy. by apply (live_mapped (g_pools s) (gh_sys G) r x y (ao_sys _ _ HA)). Qed.
End facts.
End inv.
