(* ===== verification/Locks.v ===== *)
(** * Locks: the mutexes of the library

    What every function does to the library's mutexes: the sequence of
    pthread_mutex_lock and pthread_mutex_unlock on each of its paths, with the tests that
    choose the path left open.  Threads run these sequences against one table of owners.
    The locks have an order, and every function takes them in this order ([locks]), which
    [lock_ok] carries along every interleaving. *)

From stdpp Require Import prelude gmap list sets.
From S2P Require Import Prelude Heap Tiering.
Local Open Scope nat_scope.

(** ** Locks and what code does to them *)

(** The once controls of btmalloc.c and tcache.c block like locks: a thread that finds one
    taken waits until the routine returned. *)
Inductive lock : Type :=
| L_bg_start
| L_init_once
| L_key_once
| L_intern
| L_pool (r : pool_ref)
| L_bg
| L_registry
| L_memfd.
#[export] Instance lock_eq_dec : EqDecision lock.
Proof. solve_decision. Defined.
#[export] Instance lock_countable : Countable lock.
Proof.
  refine (inj_countable'
    (λ l, match l with
      | L_pool r => inl r | L_bg_start => inr 0 | L_init_once => inr 1 | L_key_once => inr 2
      | L_intern => inr 3 | L_bg => inr 4 | L_registry => inr 5 | L_memfd => inr 6 end)
    (λ x, match x with
      | inl r => L_pool r | inr 0 => L_bg_start | inr 1 => L_init_once | inr 2 => L_key_once
      | inr 3 => L_intern | inr 4 => L_bg | inr 5 => L_registry | inr _ => L_memfd end) _).
  by intros [].
Defined.

(** The order: a thread takes a lock only above all those it holds; the pools are on one
    level, so it never holds two. *)
Definition rank (l : lock) : nat :=
  match l with
  | L_bg_start => 0 | L_init_once => 1 | L_key_once => 2 | L_intern => 3
  | L_pool _ => 4 | L_bg => 5 | L_registry => 6 | L_memfd => 7
  end.

(** [Sleep]: pthread_cond_wait between giving its mutex back and taking it again.
    [Alt]: a test or an early return.  [Star]: a loop. *)
Inductive act : Type :=
| Acq (l : lock)
| Rel (l : lock)
| Sleep
| Alt (p q : list act)
| Star (p : list act).
Abbreviation code := (list act).

Definition wait (l : lock) : code := [Rel l; Sleep; Acq l].
Definition maybe (p : code) : act := Alt [] p.

(** ** The functions of the library: [f_locks] is what [f] does *)
Section ops.
(** btm_mesh_mode. *)
Context (mesh : bool).
Definition in_mesh (p : code) : code := if mesh then p else [].

(** chunk.c, both tables. *)
Definition btm_registry_insert_locks : code := [Acq L_registry; Rel L_registry].
Definition btm_registry_remove_locks : code := [Acq L_registry; Rel L_registry].

(** background.c *)
Definition memfd_alloc_off_locks : code := [Acq L_memfd; Rel L_memfd].
Definition memfd_free_off_locks : code := [Acq L_memfd; Rel L_memfd].

(** The alternatives: no range of the file; no address range; no mapping in it. *)
Definition map_fresh_locks : code :=
  let mapped := [Alt (in_mesh memfd_free_off_locks) [Alt (in_mesh memfd_free_off_locks) btm_registry_insert_locks]] in
  if mesh then memfd_alloc_off_locks ++ [maybe mapped] else mapped.

Definition bg_signal_locks : code := [Acq L_bg; Rel L_bg].

Definition btm_chunk_obtain_locks : code :=
  [Acq L_bg; Rel L_bg; maybe map_fresh_locks; maybe [maybe bg_signal_locks]].

Definition btm_chunk_dispose_locks : code :=
  [Alt [Acq L_bg; Rel L_bg]
       [Acq L_bg; Rel L_bg; maybe (btm_registry_remove_locks ++ in_mesh memfd_free_off_locks)]].

(** One round of the maintenance thread, from the loop's head. *)
Definition bg_round_locks : code :=
  [Acq L_bg; Star (wait L_bg); Rel L_bg;
   Acq L_bg; Rel L_bg;
   Star (btm_registry_remove_locks ++ in_mesh memfd_free_off_locks);
   Star (map_fresh_locks ++ [maybe [Acq L_bg; Rel L_bg]])].
Definition bg_main_locks : code := [Star bg_round_locks].

(** [create] is what pthread_create does. *)
Definition btm_bg_ensure_started_locks (create : code) : code :=
  [maybe [Acq L_bg_start; maybe [maybe create]; Rel L_bg_start]].

(** partition.c *)
Definition slab_became_free_locks : code := [maybe btm_chunk_dispose_locks].
Definition btm_slab_new_locks : code := [maybe btm_chunk_obtain_locks].

Definition btm_pool_refill_locks (r : pool_ref) : code :=
  [Acq (L_pool r);
   Alt [Rel (L_pool r)] (btm_slab_new_locks ++ [Alt [Rel (L_pool r)] [Rel (L_pool r)]])].

Definition btm_pool_flush_locks (r : pool_ref) : code :=
  [maybe [Acq (L_pool r); Star [maybe slab_became_free_locks]; Rel (L_pool r)]].

Definition btm_pool_free_one_locks (r : pool_ref) : code :=
  [Acq (L_pool r); maybe slab_became_free_locks; Rel (L_pool r)].

Definition per_pool (f : pool_ref → code) (rs : list pool_ref) : code := rs ≫= f.
Definition btm_compact_locks (np : Z) : code :=
  [maybe (per_pool (λ r, [maybe [Acq (L_pool r); Rel (L_pool r)]]) (pool_refs np))].
Definition btm_pageout_cold_locks (np : Z) : code :=
  [maybe (per_pool (λ r, [Acq (L_pool r); Rel (L_pool r)]) (pool_refs np))].

(** large.c *)
Definition btm_large_alloc_locks : code := [maybe btm_registry_insert_locks].
Definition btm_large_free_locks : code := btm_registry_remove_locks.
Definition btm_large_realloc_locks : code := [maybe (btm_registry_remove_locks ++ [Alt btm_registry_insert_locks btm_registry_insert_locks])].

(** tcache.c *)
Definition btm_tls_get_locks : code := [maybe [Acq L_key_once; Rel L_key_once]].
Definition btm_tls_destroy_locks (np : Z) : code := [maybe (per_pool (λ r, [maybe (btm_pool_flush_locks r)]) (pool_refs np))].

(** btmalloc.c; [start] is [btm_bg_ensure_started_locks], a call of pool [r] *)
Definition btm_intern_slow_locks : code := [Star [maybe [Acq L_intern; Alt [Rel L_intern] [Rel L_intern]]]].
Definition btm_ensure_init_locks : code := [maybe [Acq L_init_once; Rel L_init_once]].

Definition btm_malloc_at_locks (start : code) (r : pool_ref) : code :=
  [Alt [maybe (btm_ensure_init_locks ++ btm_large_alloc_locks)]
       [maybe (btm_ensure_init_locks ++ btm_tls_get_locks ++ [maybe start]);
        maybe [maybe btm_intern_slow_locks; maybe (btm_pool_refill_locks r)]]].

Definition btm_free_locks (r : pool_ref) : code :=
  [maybe [Alt btm_large_free_locks (btm_tls_get_locks ++ [Alt (btm_pool_free_one_locks r) [maybe (btm_pool_flush_locks r)]])]].

Definition btm_calloc_at_locks (start : code) (r : pool_ref) : code :=
  [maybe [Alt (btm_ensure_init_locks ++ btm_large_alloc_locks) (btm_malloc_at_locks start r)]].

(** [r] the pool of the old block, [r'] of the new. *)
Definition btm_realloc_at_locks (start : code) (r r' : pool_ref) : code :=
  [Alt (btm_malloc_at_locks start r')
    [Alt (btm_free_locks r)
      [maybe [Alt [maybe (btm_malloc_at_locks start r' ++ [maybe (btm_free_locks r)])]
        [Alt (btm_malloc_at_locks start r' ++ [maybe btm_large_free_locks]) btm_large_realloc_locks]]]]].

Definition btm_posix_memalign_locks (start : code) (r : pool_ref) : code :=
  [maybe (btm_ensure_init_locks ++ [Alt (btm_malloc_at_locks start r) btm_large_alloc_locks])].
Definition btm_aligned_alloc_locks (start : code) (r : pool_ref) : code :=
  [maybe (btm_ensure_init_locks ++ [Alt (btm_malloc_at_locks start r) btm_large_alloc_locks])].
End ops.

(** ** The order *)

(** [locks h k h']: running [k] from the held locks [h] ends with [h'] held; every lock is
    taken above all held ones, locks are given back last first, and nobody sleeps on one. *)
Inductive locks : list lock → code → list lock → Prop :=
| locks_done h : locks h [] h
| locks_acq h l k h' : (∀ x, x ∈ h → rank x < rank l) → locks (l :: h) k h' → locks h (Acq l :: k) h'
| locks_rel h l k h' : locks h k h' → locks (l :: h) (Rel l :: k) h'
| locks_sleep k h' : locks [] k h' → locks [] (Sleep :: k) h'
| locks_alt h p q k h1 h' : locks h p h1 → locks h q h1 → locks h1 k h' → locks h (Alt p q :: k) h'
| locks_star h p k h' : locks h p h → locks h k h' → locks h (Star p :: k) h'.

Lemma locks_app h p h1 k h' : locks h p h1 → locks h1 k h' → locks h (p ++ k) h'.
Proof. induction 1; intros; cbn [app]; [done|econstructor; eauto..]. Qed.

(** All held locks are below rank [n]. *)
Definition below (n : nat) (h : list lock) : Prop := ∀ x, x ∈ h → rank x < n.

Lemma below_nil n : below n [].
Proof. intros x Hx. by apply elem_of_nil in Hx. Qed.
Lemma below_weaken n m h : below n h → n ≤ m → below m h.
Proof. intros H Hn x Hx. specialize (H x Hx). lia. Qed.
Lemma below_cons n l h : rank l < n → below n h → below n (l :: h).
Proof. intros Hl H x [->|Hx]%elem_of_cons; [done|by apply H]. Qed.

Lemma locks_section h l k : below (rank l) h → locks h k h → locks h (Acq l :: Rel l :: k) h.
Proof. intros H Hk. by apply locks_acq; [|apply locks_rel]. Qed.
Lemma locks_maybe h p k h' : locks h p h → locks h k h' → locks h (maybe p :: k) h'.
Proof. intros Hp Hk. eapply locks_alt; [apply locks_done|done|done]. Qed.

Create HintDb locks.

(** Side conditions on the order. *)
Ltac lock_side :=
  match goal with
  | |- below _ (_ :: _) => apply below_cons; [cbn [rank]; lia|]; lock_side
  | |- below _ [] => apply below_nil
  | H : below _ ?h |- below _ ?h => apply (below_weaken _ _ _ H); cbn [rank]; lia
  | |- ∀ x, x ∈ ?h → rank x < ?n => change (below n h); lock_side
  end.
#[export] Hint Extern 0 (below _ _) => lock_side : locks.

(** Follow the paths of a function; the functions it calls are found in the database. *)
Ltac locks_run :=
  lazymatch goal with
  | |- locks _ [] _ => apply locks_done
  | |- locks _ (Acq _ :: _) _ => apply locks_acq; [lock_side|locks_run]
  | |- locks _ (Rel _ :: _) _ => apply locks_rel; locks_run
  | |- locks _ (Sleep :: _) _ => apply locks_sleep; locks_run
  | |- locks _ (maybe _ :: _) _ => apply locks_maybe; locks_run
  | |- locks _ (Alt _ _ :: _) _ => eapply locks_alt; locks_run
  | |- locks _ (Star _ :: _) _ => apply locks_star; locks_run
  | |- locks _ (_ ++ _) _ => eapply locks_app; locks_run
  | |- locks _ (if ?b then _ else _) _ => destruct b; locks_run
  | |- _ => solve [eauto with locks]
  end.

(** Every function ends with the locks it began with, when those are below its first. *)
Section discipline.

Lemma locks_registry_insert h : below 6 h → locks h btm_registry_insert_locks h.
Proof. intros H. unfold btm_registry_insert_locks. locks_run. Qed.
Lemma locks_registry_remove h : below 6 h → locks h btm_registry_remove_locks h.
Proof. intros H. unfold btm_registry_remove_locks. locks_run. Qed.
Lemma locks_memfd_alloc_off h : below 7 h → locks h memfd_alloc_off_locks h.
Proof. intros H. unfold memfd_alloc_off_locks. locks_run. Qed.
Lemma locks_free_off mesh h : below 7 h → locks h (in_mesh mesh memfd_free_off_locks) h.
Proof. intros H. unfold in_mesh, memfd_free_off_locks. locks_run. Qed.
#[local] Hint Resolve locks_registry_insert locks_registry_remove locks_memfd_alloc_off locks_free_off : locks.

Lemma locks_map_fresh mesh h : below 6 h → locks h (map_fresh_locks mesh) h.
Proof. intros H. unfold map_fresh_locks. cbv zeta. locks_run. Qed.
Lemma locks_bg_signal h : below 5 h → locks h bg_signal_locks h.
Proof. intros H. unfold bg_signal_locks. locks_run. Qed.
#[local] Hint Resolve locks_map_fresh locks_bg_signal : locks.

Lemma locks_chunk_obtain mesh h : below 5 h → locks h (btm_chunk_obtain_locks mesh) h.
Proof. intros H. unfold btm_chunk_obtain_locks. locks_run. Qed.
Lemma locks_chunk_dispose mesh h : below 5 h → locks h (btm_chunk_dispose_locks mesh) h.
Proof. intros H. unfold btm_chunk_dispose_locks. locks_run. Qed.
#[local] Hint Resolve locks_chunk_obtain locks_chunk_dispose : locks.

Lemma locks_bg_main mesh : locks [] (bg_main_locks mesh) [].
Proof. unfold bg_main_locks, bg_round_locks, wait. locks_run. Qed.

Lemma locks_became_free mesh h : below 5 h → locks h (slab_became_free_locks mesh) h.
Proof. intros H. unfold slab_became_free_locks. locks_run. Qed.
Lemma locks_slab_new mesh h : below 5 h → locks h (btm_slab_new_locks mesh) h.
Proof. intros H. unfold btm_slab_new_locks. locks_run. Qed.
#[local] Hint Resolve locks_became_free locks_slab_new : locks.

Lemma locks_pool_refill mesh r h : below 4 h → locks h (btm_pool_refill_locks mesh r) h.
Proof. intros H. unfold btm_pool_refill_locks. locks_run. Qed.
Lemma locks_pool_flush mesh r h : below 4 h → locks h (btm_pool_flush_locks mesh r) h.
Proof. intros H. unfold btm_pool_flush_locks. locks_run. Qed.
Lemma locks_pool_free_one mesh r h : below 4 h → locks h (btm_pool_free_one_locks mesh r) h.
Proof. intros H. unfold btm_pool_free_one_locks. locks_run. Qed.
#[local] Hint Resolve locks_pool_refill locks_pool_flush locks_pool_free_one : locks.

Lemma locks_per_pool f rs h : (∀ r, locks h (f r) h) → locks h (per_pool f rs) h.
Proof. intros Hf. unfold per_pool. induction rs as [|r rs IH]; cbn [mbind list_bind]; [apply locks_done|]. by eapply locks_app. Qed.
Lemma locks_compact np h : below 4 h → locks h (btm_compact_locks np) h.
Proof. intros H. unfold btm_compact_locks. apply locks_maybe; [|locks_run]. apply locks_per_pool. intros r. locks_run. Qed.
Lemma locks_pageout_cold np h : below 4 h → locks h (btm_pageout_cold_locks np) h.
Proof. intros H. unfold btm_pageout_cold_locks. apply locks_maybe; [|locks_run]. apply locks_per_pool. intros r. locks_run. Qed.
Lemma locks_tls_destroy mesh np h : below 4 h → locks h (btm_tls_destroy_locks mesh np) h.
Proof. intros H. unfold btm_tls_destroy_locks. apply locks_maybe; [|locks_run]. apply locks_per_pool. intros r. locks_run. Qed.

Lemma locks_large_alloc h : below 6 h → locks h btm_large_alloc_locks h.
Proof. intros H. unfold btm_large_alloc_locks. locks_run. Qed.
Lemma locks_large_free h : below 6 h → locks h btm_large_free_locks h.
Proof. exact (locks_registry_remove h). Qed.
Lemma locks_large_realloc h : below 6 h → locks h btm_large_realloc_locks h.
Proof. intros H. unfold btm_large_realloc_locks. locks_run. Qed.
Lemma locks_tls_get h : below 2 h → locks h btm_tls_get_locks h.
Proof. intros H. unfold btm_tls_get_locks. locks_run. Qed.
Lemma locks_ensure_init h : below 1 h → locks h btm_ensure_init_locks h.
Proof. intros H. unfold btm_ensure_init_locks. locks_run. Qed.
Lemma locks_intern_slow h : below 3 h → locks h btm_intern_slow_locks h.
Proof. intros H. unfold btm_intern_slow_locks. locks_run. Qed.
#[local] Hint Resolve locks_large_alloc locks_large_free locks_large_realloc locks_tls_get locks_ensure_init locks_intern_slow : locks.

(** The allocation functions, for any [start] that keeps the order. *)
Lemma locks_malloc_at mesh start r h : locks h start h → below 1 h → locks h (btm_malloc_at_locks mesh start r) h.
Proof. intros Hs H. unfold btm_malloc_at_locks. locks_run. Qed.
Lemma locks_free mesh r h : below 1 h → locks h (btm_free_locks mesh r) h.
Proof. intros H. unfold btm_free_locks. locks_run. Qed.
#[local] Hint Resolve locks_malloc_at locks_free : locks.
Lemma locks_calloc_at mesh start r h : locks h start h → below 1 h → locks h (btm_calloc_at_locks mesh start r) h.
Proof. intros Hs H. unfold btm_calloc_at_locks. locks_run. Qed.
Lemma locks_realloc_at mesh start r r' h : locks h start h → below 1 h → locks h (btm_realloc_at_locks mesh start r r') h.
Proof. intros Hs H. unfold btm_realloc_at_locks. locks_run. Qed.
Lemma locks_posix_memalign mesh start r h : locks h start h → below 1 h → locks h (btm_posix_memalign_locks mesh start r) h.
Proof. intros Hs H. unfold btm_posix_memalign_locks. locks_run. Qed.
Lemma locks_aligned_alloc mesh start r h : locks h start h → below 1 h → locks h (btm_aligned_alloc_locks mesh start r) h.
Proof. intros Hs H. unfold btm_aligned_alloc_locks. locks_run. Qed.
End discipline.

(** ** Threads *)
Record cfg := mk_cfg {
  lk_owner : gmap lock nat;
  lk_threads : list code;
}.

(** What one action does to the owners and to the thread's code. *)
Inductive astep (i : nat) : gmap lock nat → code → gmap lock nat → code → Prop :=
| astep_acq o l k : o !! l = None → astep i o (Acq l :: k) (<[l := i]> o) k
| astep_rel o l k : o !! l = Some i → astep i o (Rel l :: k) (delete l o) k
| astep_wake o k : astep i o (Sleep :: k) o k
| astep_left o p q k : astep i o (Alt p q :: k) o (p ++ k)
| astep_right o p q k : astep i o (Alt p q :: k) o (q ++ k)
| astep_leave o p k : astep i o (Star p :: k) o k
| astep_again o p k : astep i o (Star p :: k) o (p ++ Star p :: k).

Inductive step_of (i : nat) : cfg → cfg → Prop :=
| step_thread o ts k o' k' : ts !! i = Some k → astep i o k o' k' → step_of i (mk_cfg o ts) (mk_cfg o' (<[i := k']> ts)).
Definition step (c c' : cfg) : Prop := ∃ i, step_of i c c'.

(** Thread [i] stands at a lock that thread [j] holds. *)
Definition waits_for (c : cfg) (i j : nat) : Prop :=
  ∃ l k, lk_threads c !! i = Some (Acq l :: k) ∧ lk_owner c !! l = Some j.

(** Neither returned nor asleep. *)
Definition awake (c : cfg) (i : nat) : Prop := ∃ a k, lk_threads c !! i = Some (a :: k) ∧ a ≠ Sleep.

(** ** The invariant: what a thread holds is what its code expects *)
Definition holds (o : gmap lock nat) (i : nat) (h : list lock) : Prop := ∀ l, l ∈ h ↔ o !! l = Some i.

Definition thread_ok (o : gmap lock nat) (i : nat) (k : code) : Prop := ∃ h, locks h k [] ∧ NoDup h ∧ holds o i h.

Record lock_ok (c : cfg) : Prop := {
  lo_thread i k : lk_threads c !! i = Some k → thread_ok (lk_owner c) i k;
  lo_owner l i : lk_owner c !! l = Some i → is_Some (lk_threads c !! i);
}.

Lemma astep_ok i o k o' k' : thread_ok o i k → astep i o k o' k' → thread_ok o' i k'.
Proof.
  intros (h & Hk & Hnd & Hh) Hs. destruct Hs as [o l k Ho|o l k Ho|o k|o p q k|o p q k|o p k|o p k]; inversion Hk; subst; clear Hk.
  - exists (l :: h). split; [done|]. split.
    + constructor; [|done]. intros Hl%Hh. congruence.
    + intros x. rewrite elem_of_cons, (Hh x), lookup_insert_Some. naive_solver.
  - apply NoDup_cons in Hnd as [Hl Hnd]. eexists. split; [done|]. split; [done|]. intros x. rewrite lookup_delete_Some, <-(Hh x), elem_of_cons. naive_solver.
  - by exists [].
  - exists h. split; [by eapply locks_app|done].
  - exists h. split; [by eapply locks_app|done].
  - by exists h.
  - exists h. split; [|done]. eapply locks_app; [done|]. by apply locks_star.
Qed.

(** Other threads keep what they hold. *)
Lemma astep_other i j o k o' k' h : i ≠ j → astep i o k o' k' → holds o j h → holds o' j h.
Proof.
  intros Hne Hs Hh l. rewrite (Hh l). destruct Hs as [o x k Ho|o x k Ho| | | | |]; try done.
  - rewrite lookup_insert_Some. naive_solver.
  - rewrite lookup_delete_Some. naive_solver.
Qed.

Lemma step_ok c c' : lock_ok c → step c c' → lock_ok c'.
Proof.
  intros HL [i Hst]. destruct Hst as [o ts k o' k' Hk Hs]. destruct HL as [H1 H2]. cbn in *. pose proof (lookup_lt_Some _ _ _ Hk) as Hlt. split; cbn.
  - intros j kj [(<- & <- & _)|(Hne & Hj)]%list_lookup_insert_Some; [by apply (astep_ok i o k); [apply H1|]|].
    destruct (H1 j kj Hj) as (h & L1 & L2 & L3). exists h. split_and!; [done..|]. by apply (astep_other i j o k o' k').
  - intros l j Hl. apply lookup_lt_is_Some. rewrite length_insert. destruct (decide (j = i)) as [->|Hne]; [done|]. apply lookup_lt_is_Some, (H2 l).
    destruct Hs as [o x k Ho|o x k Ho| | | | |]; try done; [apply lookup_insert_Some in Hl|apply lookup_delete_Some in Hl]; naive_solver.
Qed.

Lemma steps_ok c c' : lock_ok c → rtc step c c' → lock_ok c'.
Proof. intros H. induction 1 as [|c c1 c' Hs _ IH]; [done|]. by apply IH, (step_ok c). Qed.

(** ** No deadlock *)
Lemma locks_end h : locks h [] [] → h = [].
Proof. by inversion 1. Qed.

(** A thread with a lock is in the middle of its code, and not asleep. *)
Lemma holder_awake c l j : lock_ok c → lk_owner c !! l = Some j → awake c j.
Proof.
  intros [H1 H2] Hl. destruct (H2 l j Hl) as [k Hk]. destruct (H1 j k Hk) as (h & L1 & _ & L3). apply L3 in Hl. destruct k as [|a k].
  - apply locks_end in L1 as ->. by apply elem_of_nil in Hl.
  - exists a, k. split; [done|]. intros ->. inversion L1; subst. by apply elem_of_nil in Hl.
Qed.

Lemma awake_runs c i : lock_ok c → awake c i →
  (∃ c', step_of i c c') ∨ ∃ l j k, lk_threads c !! i = Some (Acq l :: k) ∧ lk_owner c !! l = Some j.
Proof.
  destruct c as [o ts]. intros [H1 _] (a & k & Hk & Ha). cbn in *. assert (Hrun : ∀ o' k', astep i o (a :: k) o' k' → ∃ c', step_of i (mk_cfg o ts) c').
  { intros o' k' Hs. eexists. by apply (step_thread i o ts (a :: k) o' k'). }
  destruct a as [l|l| |p q|p]; [| |done| |].
  - destruct (o !! l) as [j|] eqn:E; [by right; exists l, j, k|]. left. by eapply Hrun, astep_acq.
  - left. destruct (H1 i _ Hk) as (h & L1 & _ & L3). inversion L1; subst. eapply Hrun, astep_rel. apply L3. by left.
  - left. by eapply Hrun, astep_left.
  - left. by eapply Hrun, astep_leave.
Qed.

(** The locks along a chain of waiting threads go up. *)
Lemma waits_up c i j l k l' k' : lock_ok c → lk_threads c !! i = Some (Acq l :: k) → lk_owner c !! l = Some j →
  lk_threads c !! j = Some (Acq l' :: k') → rank l < rank l'.
Proof.
  intros HL _ Hl Hj. destruct (lo_thread _ HL j _ Hj) as (h & L1 & _ & L3). inversion L1 as [|? ? ? ? Hb| | | |]; subst. apply Hb, L3, Hl.
Qed.

Lemma chain_runs c n : lock_ok c → ∀ i l k, lk_threads c !! i = Some (Acq l :: k) → 8 - rank l ≤ n →
  ∃ j, rtc (waits_for c) i j ∧ awake c j ∧ ∃ c', step_of j c c'.
Proof.
  intros HL. induction n as [|n IH]; intros i l k Hi Hn; [destruct l; cbn in Hn; lia|].
  destruct (awake_runs c i HL) as [Hr|(l1 & j & k1 & Hi1 & Hl)]; [by exists (Acq l), k|by exists i; repeat split; [done|exists (Acq l), k|]|].
  rewrite Hi in Hi1. injection Hi1 as <- <-. pose proof (holder_awake c l j HL Hl) as Hj. assert (Hw : waits_for c i j) by (by exists l, k).
  destruct (awake_runs c j HL Hj) as [Hr|(l' & j' & k' & Hj' & _)]; [exists j; split; [by apply rtc_once|done]|].
  pose proof (waits_up c i j l k l' k' HL Hi Hl Hj'). destruct (IH j l' k' Hj') as (j2 & H1 & H2); [lia|].
  exists j2. split; [by eapply rtc_l|done].
Qed.

Lemma lock_ok_progress c i : lock_ok c → awake c i → ∃ j, rtc (waits_for c) i j ∧ awake c j ∧ ∃ c', step_of j c c'.
Proof.
  intros HL Ha. destruct (awake_runs c i HL Ha) as [Hr|(l & j & k & Hi & _)]; [by exists i|]. by apply (chain_runs c (8 - rank l) HL i l k).
Qed.

(** ** The threads of a process *)
Section process.

Context (mesh : bool) (np : Z).
(** What pthread_create does: it allocates and frees through the library, which finds
    bg_started set. *)
Context (create : code).
Definition reentrant (p : code) : Prop :=
  ∃ r, p = btm_malloc_at_locks mesh [] r ∨ p = btm_calloc_at_locks mesh [] r ∨ p = btm_free_locks mesh r.
Context (create_calls : ∃ ps, Forall reentrant ps ∧ create = concat ps).

Abbreviation start := (btm_bg_ensure_started_locks create).

(** The calls a thread can make, its exit included. *)
Inductive call : code → Prop :=
| call_malloc r : call (btm_malloc_at_locks mesh start r)
| call_calloc r : call (btm_calloc_at_locks mesh start r)
| call_realloc r r' : call (btm_realloc_at_locks mesh start r r')
| call_free r : call (btm_free_locks mesh r)
| call_posix_memalign r : call (btm_posix_memalign_locks mesh start r)
| call_aligned_alloc r : call (btm_aligned_alloc_locks mesh start r)
| call_compact : call (btm_compact_locks np)
| call_pageout_cold : call (btm_pageout_cold_locks np)
| call_exit : call (btm_tls_destroy_locks mesh np).

(** Threads that are about to make any calls, and maintenance threads. *)
Definition thread_code (k : code) : Prop := k = bg_main_locks mesh ∨ ∃ ps, Forall call ps ∧ k = concat ps.
Definition lock_start (c : cfg) : Prop := lk_owner c = ∅ ∧ ∀ i k, lk_threads c !! i = Some k → thread_code k.

Lemma locks_concat h ps : (∀ p, p ∈ ps → locks h p h) → locks h (concat ps) h.
Proof.
  induction ps as [|p ps IH]; cbn [concat]; intros H; [apply locks_done|].
  eapply locks_app; [apply H; by left|]. apply IH. intros q Hq. apply H. by right.
Qed.

Lemma locks_create h : below 1 h → locks h create h.
Proof.
  intros Hh. destruct create_calls as (ps & Hps & ->). apply locks_concat. intros p Hp. rewrite Forall_forall in Hps.
  destruct (Hps p Hp) as (r & [->|[->| ->]]); [apply locks_malloc_at|apply locks_calloc_at|apply locks_free]; (done || apply locks_done).
Qed.

Lemma locks_start : locks [] start [].
Proof. unfold btm_bg_ensure_started_locks. pose proof locks_create as Hc. locks_run. Qed.

Lemma locks_call p : call p → locks [] p [].
Proof.
  pose proof locks_start as Hs. pose proof (below_nil 1) as H1. pose proof (below_nil 4) as H4. destruct 1.
  - by apply locks_malloc_at.
  - by apply locks_calloc_at.
  - by apply locks_realloc_at.
  - by apply locks_free.
  - by apply locks_posix_memalign.
  - by apply locks_aligned_alloc.
  - by apply locks_compact.
  - by apply locks_pageout_cold.
  - by apply locks_tls_destroy.
Qed.

Lemma lock_start_ok c : lock_start c → lock_ok c.
Proof.
  intros [H1 H2]. split.
  - intros i k Hk. exists []. split; [|split; [constructor|intros l; rewrite H1, lookup_empty; split; [by intros ?%elem_of_nil|done]]].
    destruct (H2 i k Hk) as [->|(ps & Hps & ->)]; [apply locks_bg_main|]. apply locks_concat. intros p Hp. apply locks_call. rewrite Forall_forall in Hps. by apply Hps.
  - intros l i Hl. by rewrite H1, lookup_empty in Hl.
Qed.

(** ** Fork *)

(** [btm_atfork_child]: the locks it makes new. *)
Definition reinit (l : lock) : bool := match l with L_pool _ | L_bg | L_bg_start => true | _ => false end.

(** The locks it leaves as they are.  A once control in the middle of its routine stays
    taken in this model; what it does in a child is up to the C library. *)
Definition forgotten (l : lock) : bool := match l with L_registry | L_memfd | L_intern => true | _ => false end.

(** The child: the forking thread alone, the locks as the parent left them, some made new. *)
Definition atfork_child (i : nat) (c : cfg) : cfg :=
  mk_cfg (filter (λ x, reinit x.1 = false) (lk_owner c)) (imap (λ j k, if decide (j = i) then k else []) (lk_threads c)).

Lemma child_thread c i j : lk_threads (atfork_child i c) !! j = (if decide (j = i) then lk_threads c !! i else (λ _, []) <$> lk_threads c !! j).
Proof.
  cbn. rewrite list_lookup_imap. case_decide as E; [subst|]; destruct (lk_threads c !! _); cbn; by rewrite ?decide_True, ?decide_False by done.
Qed.

Lemma child_owner c i l : lk_owner (atfork_child i c) !! l = (if reinit l then None else lk_owner c !! l).
Proof.
  cbn. destruct (reinit l) eqn:E.
  - apply map_lookup_filter_None. right. intros j _. cbn. by rewrite E.
  - destruct (lk_owner c !! l) as [j|] eqn:El; [by apply map_lookup_filter_Some|]. apply map_lookup_filter_None. by left.
Qed.

(** In the child only the forking thread moves, so a lock another thread held stays taken. *)
Definition orphaned (i : nat) (l : lock) (c : cfg) : Prop :=
  (∃ j, lk_owner c !! l = Some j ∧ j ≠ i) ∧ ∀ j k, lk_threads c !! j = Some k → j ≠ i → k = [].

Lemma orphaned_step i l c c' : orphaned i l c → step c c' →
  orphaned i l c' ∧ ∀ k, lk_threads c !! i = Some (Acq l :: k) → c' = c.
Proof.
  intros HO [j Hst]. destruct Hst as [o ts k o' k' Hk Hs]. destruct HO as [(j0 & Hl & Hne) Hother]. cbn in *.
  destruct (decide (j = i)) as [->|Hj]; [|rewrite (Hother j k Hk Hj) in Hs; inversion Hs]. split; [split; cbn|].
  - exists j0. split; [|done]. destruct Hs as [o x k Ho|o x k Ho| | | | |]; try done; [rewrite lookup_insert_ne by congruence|rewrite lookup_delete_ne by congruence]; done.
  - intros m km [(<- & _)|(_ & Hm)]%list_lookup_insert_Some Hmi; [done|by apply (Hother m)].
  - intros k1 E. rewrite Hk in E. injection E as ->. inversion Hs; subst. congruence.
Qed.

(** ** The properties *)

(** C13. The locks never deadlock.  Start any number of threads, each about to make any
    calls of the library, and the maintenance thread, in normal or mesh mode, creating the
    maintenance thread in the middle of a call included.  In every state they can reach, a
    thread that is neither done nor asleep waits, along a chain of lock holders, for a
    thread that can run; no thread waits for itself or unlocks a lock it does not hold; a
    thread that is done, or asleep, holds no lock. *)
Theorem no_deadlock c c' i :
  lock_start c → rtc step c c' →
  (awake c' i → ∃ j, rtc (waits_for c') i j ∧ awake c' j ∧ ∃ c'', step_of j c' c'') ∧
  ¬ waits_for c' i i ∧
  (∀ l k, lk_threads c' !! i = Some (Rel l :: k) → lk_owner c' !! l = Some i) ∧
  ∀ k, lk_threads c' !! i = Some k → k = [] ∨ (∃ k', k = Sleep :: k') → ∀ l, lk_owner c' !! l ≠ Some i.
Proof.
  intros H0 Hr. pose proof (steps_ok c c' (lock_start_ok c H0) Hr) as HL. split; [|split; [|split]].
  - by apply lock_ok_progress.
  - intros (l & k & Hk & Hl). pose proof (waits_up c' i i l k l k HL Hk Hl Hk). lia.
  - intros l k Hk. destruct (lo_thread _ HL i _ Hk) as (h & L1 & _ & L3). inversion L1; subst. apply L3. by left.
  - intros k Hk Hd l Hl. destruct (holder_awake c' l i HL Hl) as (a & k1 & Hk1 & Ha). rewrite Hk in Hk1. destruct Hd as [->|[k' ->]]; congruence.
Qed.

(** C14. What a fork does to the locks.  Thread [i] forks, between two calls, while others
    are anywhere.  If the locks the handler does not make new are free, the child's locks
    never deadlock either.  If another thread holds the lock of the owner table, of the
    memfd or of the interning table, it is never free again in the child: a call of the
    child that comes to it never returns. *)
Theorem fork_child_locks c c' i k :
  lock_start c → rtc step c c' → lk_threads c' !! i = Some k → (∀ l, lk_owner c' !! l ≠ Some i) →
  ((∀ l, lk_owner c' !! l ≠ None → reinit l = true) →
     ∀ c1 j, rtc step (atfork_child i c') c1 → awake c1 j → ∃ m, rtc (waits_for c1) j m ∧ awake c1 m ∧ ∃ c2, step_of m c1 c2) ∧
  (∀ l, lk_owner c' !! l ≠ None → forgotten l = true →
     ∀ c1, rtc step (atfork_child i c') c1 → lk_owner c1 !! l ≠ None ∧
       ∀ k1 c2, lk_threads c1 !! i = Some (Acq l :: k1) → rtc step c1 c2 → lk_threads c2 !! i = Some (Acq l :: k1)).
Proof.
  intros H0 Hr Hi Hnone. pose proof (steps_ok c c' (lock_start_ok c H0) Hr) as HL. split.
  - intros Hre c1 j Hs Ha. apply lock_ok_progress; [|done]. apply (steps_ok (atfork_child i c')); [|done].
    assert (Hfree : ∀ l, lk_owner (atfork_child i c') !! l = None).
    { intros l. rewrite child_owner. destruct (reinit l) eqn:E; [done|]. destruct (lk_owner c' !! l) eqn:El; [|done]. specialize (Hre l). rewrite El in Hre. rewrite Hre in E; done. }
    split; [|intros l m Hm; by rewrite Hfree in Hm]. intros m km Hm. exists []. split; [|split; [constructor|intros l; rewrite Hfree; split; [by intros ?%elem_of_nil|done]]].
    rewrite child_thread in Hm. case_decide as E; [subst m|].
    + destruct (lo_thread _ HL i km Hm) as (h & L1 & _ & L3). destruct h as [|l h]; [done|]. destruct (Hnone l). apply L3. by left.
    + destruct (lk_threads c' !! m); [|done]. injection Hm as <-. apply locks_done.
  - intros l Hl Hf. assert (Hre : reinit l = false) by (by destruct l). assert (Ho : orphaned i l (atfork_child i c')).
    { split.
      - rewrite child_owner, Hre. destruct (lk_owner c' !! l) as [j|] eqn:E; [|done]. exists j. split; [done|]. intros ->. by apply (Hnone l).
      - intros j kj Hj Hne. rewrite child_thread, decide_False in Hj by done. destruct (lk_threads c' !! j); [|done]. by injection Hj as <-. }
    assert (Hk : ∀ c1 c2, orphaned i l c1 → rtc step c1 c2 → orphaned i l c2 ∧ ∀ k1, lk_threads c1 !! i = Some (Acq l :: k1) → c2 = c1).
    { intros c1 c2 H1. induction 1 as [|c1 c3 c2 H13 _ IH]; [done|]. destruct (orphaned_step i l c1 c3 H1 H13) as [H3 E3].
      destruct (IH H3) as [H2 E2]. split; [done|]. intros k1 Hk1. specialize (E3 k1 Hk1). subst c3. by apply (E2 k1). }
    intros c1 Hs. destruct (Hk _ _ Ho Hs) as [H1 _]. split; [destruct H1 as [(j & -> & _) _]; done|].
    intros k1 c2 Hk1 H12. destruct (Hk c1 c2 H1 H12) as [_ E]. by rewrite (E k1).
Qed.
End process.

(** ** Schedules, for concrete runs *)

(** One action of thread [i]; [b] takes the left alternative, or another round. *)
Definition act_run (i : nat) (b : bool) (o : gmap lock nat) (k : code) : option (gmap lock nat * code) :=
  match k with
  | [] => None
  | Acq l :: k => if decide (o !! l = None) then Some (<[l := i]> o, k) else None
  | Rel l :: k => if decide (o !! l = Some i) then Some (delete l o, k) else None
  | Sleep :: k => Some (o, k)
  | Alt p q :: k => Some (o, (if b then p else q) ++ k)
  | Star p :: k => Some (o, if b then p ++ Star p :: k else k)
  end.

Fixpoint schedule (ss : list (nat * bool)) (c : cfg) : option cfg :=
  match ss with
  | [] => Some c
  | (i, b) :: ss =>
      k ← lk_threads c !! i;
      '(o, k) ← act_run i b (lk_owner c) k;
      schedule ss (mk_cfg o (<[i := k]> (lk_threads c)))
  end.

Lemma act_run_step i b o k o' k' : act_run i b o k = Some (o', k') → astep i o k o' k'.
Proof.
  unfold act_run. intros H. destruct k as [|[l|l| |p q|p] k]; simplify_option_eq.
  - by apply astep_acq.
  - by apply astep_rel.
  - by apply astep_wake.
  - destruct b; [apply astep_left|apply astep_right].
  - destruct b; [apply astep_again|apply astep_leave].
Qed.

Lemma schedule_steps ss c c' : schedule ss c = Some c' → rtc step c c'.
Proof.
  revert c. induction ss as [|[i b] ss IH]; cbn [schedule]; intros c H; [by injection H as ->|].
  destruct (lk_threads c !! i) as [k|] eqn:Hk; [|done]. cbn in H. destruct (act_run i b (lk_owner c) k) as [[o k']|] eqn:E; [|done]. cbn in H.
  apply rtc_l with (mk_cfg o (<[i := k']> (lk_threads c))); [|by apply IH]. exists i. destruct c as [oc ts]. by apply (step_thread i oc ts k), (act_run_step i b).
Qed.

Definition ran (ss : list (nat * bool)) (c : cfg) : cfg := default c (schedule ss c).
Lemma ran_steps ss c : rtc step c (ran ss c).
Proof. unfold ran. destruct (schedule ss c) as [c'|] eqn:E; [by apply (schedule_steps ss)|apply rtc_refl]. Qed.

(** A malloc stands at the lock of the warm chunks, holding its pool's, while the
    maintenance thread has it. *)
Definition two_threads : cfg :=
  mk_cfg ∅ [btm_malloc_at_locks false (btm_bg_ensure_started_locks []) (0, 0)%Z; bg_main_locks false].
Definition at_refill : cfg :=
  ran [(0, false); (0, true); (0, false); (0, true); (0, false); (0, true); (0, false); (0, false); (1, true); (1, true)] two_threads.

(** Thread 1 frees a large object and has the lock of the owner table when thread 0 forks;
    the child then asks for a large object. *)
Definition fork_threads : cfg :=
  mk_cfg ∅ [btm_malloc_at_locks false (btm_bg_ensure_started_locks []) (0, 0)%Z; btm_free_locks false (0, 0)%Z].
Definition at_fork : cfg := ran [(1, false); (1, true); (1, true)] fork_threads.
Definition in_child : cfg := ran [(0, true); (0, false); (0, true); (0, false)] (atfork_child 0 at_fork).

Lemma no_reentry : ∃ ps, Forall (reentrant false) ps ∧ [] = concat ps.
Proof. exists []. split; [constructor|done]. Qed.

Lemma one_call p : call false 1 [] p → thread_code false 1 [] p.
Proof. intros H. right. exists [p]. split; [by constructor|]. cbn. by rewrite app_nil_r. Qed.

Lemma two_threads_start : lock_start false 1 [] two_threads.
Proof.
  split; [done|]. intros [|[|i]] k [= <-]; [|by left]. apply one_call, call_malloc.
Qed.

Lemma fork_threads_start : lock_start false 1 [] fork_threads.
Proof.
  split; [done|]. intros [|[|i]] k [= <-]; apply one_call; [apply call_malloc|apply call_free].
Qed.

Lemma no_deadlock_witness :
  waits_for at_refill 0 1 ∧ ∃ j, rtc (waits_for at_refill) 0 j ∧ awake at_refill j ∧ ∃ c'', step_of j at_refill c''.
Proof.
  assert (Hw : ∃ k, lk_threads at_refill !! 0 = Some (Acq L_bg :: k)) by (eexists; vm_compute; reflexivity).
  destruct Hw as [k Hk]. split; [exists L_bg, k; split; [exact Hk|vm_compute; reflexivity]|].
  apply (no_deadlock false 1 [] no_reentry two_threads at_refill 0 two_threads_start (ran_steps _ _)). by exists (Acq L_bg), k.
Defined.

Lemma fork_child_locks_witness :
  lk_owner in_child !! L_registry ≠ None ∧ ∀ c2, rtc step in_child c2 → lk_threads c2 !! 0 = Some btm_registry_insert_locks.
Proof.
  assert (Hk : lk_threads in_child !! 0 = Some btm_registry_insert_locks) by (vm_compute; reflexivity).
  assert (H0 : ∃ k, lk_threads at_fork !! 0 = Some k) by (eexists; vm_compute; reflexivity). destruct H0 as [k H0].
  assert (Hl : lk_owner at_fork !! L_registry = Some 1) by (vm_compute; reflexivity).
  assert (Hn : ∀ l, lk_owner at_fork !! l ≠ Some 0).
  { intros l. replace (lk_owner at_fork) with ({[L_registry := 1]} : gmap lock nat) by (vm_compute; reflexivity). rewrite lookup_singleton_Some. by intros [_ ?]. }
  destruct (fork_child_locks false 1 [] no_reentry fork_threads at_fork 0 k fork_threads_start (ran_steps _ _) H0 Hn) as [_ H].
  destruct (H L_registry) with (c1 := in_child) as [H1 H2]; [by rewrite Hl|done|apply ran_steps|]. split; [exact H1|]. intros c2. by apply H2.
Defined.
