(* ===== verification/Profile.v ===== *)
(** * Profile: the heap profile of src/src/btmalloc.c

    [btm_heap_profile] adds up, partition by partition, the slots out of the pools by the
    pools' counters.  The model is the numbers of the report: the header's partition count,
    a row for every partition with bytes outstanding, and the total; the text made of them
    (snprintf, dladdr, write) is left out.  The counters are exact, so the numbers are: they
    are the bytes of the slots the program has and of those the threads cache. *)

From stdpp Require Import prelude gmap.
From S2P Require Import Prelude Memory SizeClass Freelist Registry Engine Callsite Os Large Heap Dll Pool PoolInv PoolFrame PoolRun PoolCount PoolSys Tiering Space Background BgLaws Api ApiInv.
Local Open Scope Z_scope.

Section profile.
Context {F : FlOps} {Krn : OS} {T : Type} {OT : OwnerTable T} {OE : OwnerEngine T}.

(** [for (sc = 0; sc < BTM_NUM_SIZE_CLASSES; sc++)] *)
Fixpoint profile_classes (n : nat) (i sc bytes : Z) : M (astate T) Z :=
  match n with
  | O => mret bytes
  | S n' =>
      pool ← on_pools (get_pool (i, sc));
      profile_classes n' i (sc + 1) (u64 (bytes + u64 (outstanding pool * btm_sc_to_size sc)))
  end.

(** [for (i = 0; i < btm_nparts; i++)]: the rows, as partition, bytes and sample call site. *)
Fixpoint profile_rows (n : nat) (i total : Z) : M (astate T) (list (Z * Z * Z) * Z) :=
  match n with
  | O => mret ([], total)
  | S n' =>
      bytes ← profile_classes (Z.to_nat BTM_NUM_SIZE_CLASSES) i 0 0;
      if bytes =? 0 then profile_rows n' (i + 1) total
      else
        ra ← sample_at i;
        '(rows, t) ← profile_rows n' (i + 1) (u64 (total + bytes));
        mret ((i, bytes, ra) :: rows, t)
  end.

(** Nothing before initialization. *)
Definition btm_heap_profile : M (astate T) (option (Z * list (Z * Z * Z) * Z)) :=
  ready ← gets g_ready;
  if ready : bool then
    np ← gets g_nparts;
    '(rows, total) ← profile_rows (Z.to_nat np) 0 0;
    mret (Some (np, rows, total))
  else mret None.
End profile.

Section spec.
Context {F : FlOps} {FL : FlLaws F} {Krn : OS} {KL : OSLaws Krn} {T : Type} {OT : OwnerTable T} {OE : OwnerEngine T}
  {EL : OwnerEngineLaws T OT OE}.
Context {s : astate T} {G : aghost} (HA : api_ok s G).
Abbreviation A := (gh_sys G).

(** The bytes of the slots out of one pool, of one partition's first classes, and of the
    first partitions. *)
Definition pool_byte (r : pool_ref) (y : Z) : Prop := ∃ x, live_slot A r x ∧ x ≤ y < x + btm_sc_to_size r.2.
Definition class_bytes (i k y : Z) : Prop := ∃ sc, 0 ≤ sc < k ∧ pool_byte (i, sc) y.
Definition part_bytes (k y : Z) : Prop := ∃ r, 0 ≤ r.1 < k ∧ pool_byte r y.

Lemma pool_byte_range r y : pool_byte r y → 0 ≤ y < 2 ^ 47.
Proof.
  intros (x & Hx & Hy). destruct (live_place _ _ r x (ao_sys _ _ HA) Hx) as (a & d & Ha & _ & Hxd & Hd & _).
  destruct (slot_bounds r (proj1 (so_ref _ _ (ao_sys _ _ HA) r a Ha)) d x Hd Hxd) as (_ & _ & ? & ? & ?). destruct Hd as ((? & _ & ?) & _). lia.
Qed.

Lemma pool_byte_apart r1 r2 y : pool_byte r1 y → pool_byte r2 y → r1 = r2.
Proof.
  intros (x1 & H1 & Y1) (x2 & H2 & Y2). destruct (decide (r1 = r2)) as [|Hne]; [done|exfalso].
  pose proof (slots_apart HA r1 r2 x1 x2 H1 H2 (or_intror Hne)) as Hd. unfold disjoint_blocks in Hd. lia.
Qed.

Lemma pool_bytes_measured r pl : in_range (g_nparts s) r → p_pools (g_pools s) !! r = Some pl →
  measures (pool_byte r) (outstanding pl * btm_sc_to_size r.2) ∧ 0 ≤ outstanding pl.
Proof.
  intros Hr Hpl. apply (ao_pools _ _ HA) in Hr as [a Ha]. destruct (sys_counter _ _ r a (ao_sys _ _ HA) Ha) as (n & Hn & Hc & Hb).
  unfold counters in Hn. rewrite lookup_fmap, Hpl in Hn. injection Hn as <-. split; [|lia].
  assert (Hl : ∀ x, live_slot A r x ↔ outstanding_slot r a x) by (intros x; split; [intros (a' & Ha' & Hx); congruence|by exists a]).
  pose proof (sc_size_pos r.2 (proj1 (so_ref _ _ (ao_sys _ _ HA) r a Ha))) as Hsz.
  eapply measures_iff; [|apply (measures_blocks _ _ (btm_sc_to_size r.2) ltac:(lia) Hc)].
  - intros y. unfold pool_byte. by setoid_rewrite Hl.
  - intros x y Hx%Hl Hy%Hl Hne. apply (slots_apart HA r r x y Hx Hy). by left.
Qed.

Lemma run_profile_pool r : in_range (g_nparts s) r → ∃ pl, on_pools (get_pool r) s = Ok (pl, s) ∧ p_pools (g_pools s) !! r = Some pl.
Proof.
  intros Hr. apply (ao_pools _ _ HA) in Hr as [a Ha]. destruct (so_pool _ _ (ao_sys _ _ HA) r a Ha) as (pl & Hpl & _). exists pl. split; [|done].
  unfold on_pools, zoom, get_pool. rewrite Hpl. by destruct s.
Qed.
Lemma class_bytes_range i k y : class_bytes i k y → 0 ≤ y < 2 ^ 47.
Proof. intros (sc & _ & Hy). by apply (pool_byte_range (i, sc)). Qed.

Lemma part_bytes_range k y : part_bytes k y → 0 ≤ y < 2 ^ 47.
Proof. intros (r & _ & Hy). by apply (pool_byte_range r). Qed.

Lemma profile_classes_run n i sc bytes : 0 ≤ i < g_nparts s → 0 ≤ sc → sc + Z.of_nat n ≤ BTM_NUM_SIZE_CLASSES →
  measures (class_bytes i sc) bytes →
  ∃ b, profile_classes n i sc bytes s = Ok (b, s) ∧ measures (class_bytes i (sc + Z.of_nat n)) b.
Proof.
  intros Hi. revert sc bytes. induction n as [|n IH]; intros sc bytes Hsc Hn Hb; cbn [profile_classes].
  { exists bytes. split; [done|]. by rewrite Z.add_0_r. }
  assert (Hr : in_range (g_nparts s) (i, sc)) by (split; [done|unfold valid_sc; cbn; lia]).
  destruct (run_profile_pool (i, sc) Hr) as (pl & E & Hpl). rewrite (run_bind _ _ _ _ _ E). cbn [snd fst].
  destruct (pool_bytes_measured (i, sc) pl Hr Hpl) as [Hm _]. cbn [snd] in Hm.
  assert (Hstep : measures (class_bytes i (sc + 1)) (bytes + outstanding pl * btm_sc_to_size sc)).
  { eapply measures_iff; [|apply (measures_add _ _ _ _ Hb Hm)].
    - intros y. split; [intros (c & Hc & Hy); destruct (decide (c = sc)) as [->|]; [by right|left; exists c; split; [lia|done]]|].
      intros [(c & Hc & Hy)|Hy]; [exists c; split; [lia|done]|exists sc; split; [lia|done]].
    - intros y (c & Hc & Hy) Hy'. pose proof (pool_byte_apart _ _ y Hy Hy') as [= ?]. lia. }
  pose proof (measures_bound _ _ (2 ^ 47) Hm (pool_byte_range _)) as B1. pose proof (measures_bound _ _ (2 ^ 47) Hstep (class_bytes_range i _)) as B2.
  rewrite (u64_small (outstanding pl * _)) by lia. rewrite u64_small by lia.
  destruct (IH (sc + 1) _ ltac:(lia) ltac:(lia) Hstep) as (b & E' & Hm'). exists b. split; [done|]. by replace (sc + Z.of_nat (S n)) with (sc + 1 + Z.of_nat n) by lia.
Qed.

(** All classes: every byte of the partition. *)
Lemma all_classes i y : class_bytes i BTM_NUM_SIZE_CLASSES y ↔ ∃ r, r.1 = i ∧ pool_byte r y.
Proof.
  split; [intros (sc & _ & Hy); by exists (i, sc)|]. intros ([i' sc] & <- & Hy). exists sc. split; [|done].
  pose proof Hy as (x & Hx & _). apply (live_in_range HA) in Hx as [_ Hsc]. exact Hsc.
Qed.

Definition sample_of (i : Z) : Z := default 0 (g_sample s !! i).

(** The rows of the partitions [i], ... whose bytes [f] counts. *)
Definition rows_of (f : Z → Z) (l : list Z) : list (Z * Z * Z) := (λ j, (j, f j, sample_of j)) <$> filter (λ j, f j ≠ 0) l.

Lemma rows_of_ext f g l : (∀ j, j ∈ l → f j = g j) → rows_of f l = rows_of g l.
Proof.
  unfold rows_of. induction l as [|j l IH]; [done|]. intros H. rewrite !filter_cons, (H j) by (by left).
  case_decide; [cbn [fmap list_fmap]; rewrite (H j) by (by left); f_equal|]; (apply IH; intros k Hk; apply H; by right).
Qed.

Lemma profile_rows_run n i total : 0 ≤ i → i + Z.of_nat n = g_nparts s → measures (part_bytes i) total →
  ∃ f t, profile_rows n i total s = Ok ((rows_of f (seqZ i (Z.of_nat n)), t), s) ∧ measures (part_bytes (g_nparts s)) t ∧
    ∀ j, i ≤ j < g_nparts s → measures (class_bytes j BTM_NUM_SIZE_CLASSES) (f j).
Proof.
  revert i total. induction n as [|n IH]; intros i total Hi Hn Ht; cbn [profile_rows].
  { exists (λ _, 0), total. rewrite Z.add_0_r in Hn. subst i. split; [done|]. split; [done|]. intros j Hj. lia. }
  destruct (profile_classes_run (Z.to_nat BTM_NUM_SIZE_CLASSES) i 0 0) as (b & E & Hb); [lia|lia|unfold BTM_NUM_SIZE_CLASSES; lia| |].
  { apply measures_none. intros y (sc & ? & _). lia. }
  rewrite (run_bind _ _ _ _ _ E). replace (0 + Z.of_nat (Z.to_nat BTM_NUM_SIZE_CLASSES)) with BTM_NUM_SIZE_CLASSES in Hb by done.
  assert (Hnext : measures (part_bytes (i + 1)) (total + b)).
  { apply (measures_iff (λ y, part_bytes i y ∨ class_bytes i BTM_NUM_SIZE_CLASSES y)); [|apply (measures_add _ _ _ _ Ht Hb)].
    - intros y. rewrite all_classes. split.
      + intros (r & Hr & Hy). destruct (decide (r.1 = i)); [right; by exists r|left; exists r; split; [lia|done]].
      + intros [(r & Hr & Hy)|(r & Hr & Hy)]; exists r; (split; [lia|done]).
    - intros y (r1 & H1 & Y1) (r2 & H2 & Y2)%all_classes. rewrite (pool_byte_apart r1 r2 y Y1 Y2) in H1. lia. }
  pose proof (measures_bound _ _ (2 ^ 47) Hnext (part_bytes_range _)) as B2. rewrite (u64_small (total + b)) by lia.
  rewrite (seqZ_cons i) by lia. replace (Z.pred (Z.of_nat (S n))) with (Z.of_nat n) by lia. change (Z.succ i) with (i + 1).
  assert (Hrest : ∃ f t, profile_rows n (i + 1) (total + b) s = Ok ((rows_of f (seqZ (i + 1) (Z.of_nat n)), t), s) ∧
    measures (part_bytes (g_nparts s)) t ∧ ∀ j, i + 1 ≤ j < g_nparts s → measures (class_bytes j BTM_NUM_SIZE_CLASSES) (f j)) by (apply IH; [lia..|done]).
  destruct Hrest as (f & t & E' & Hm & Hf). set (f' := λ j, if decide (j = i) then b else f j).
  assert (Hrows : rows_of f' (i :: seqZ (i + 1) (Z.of_nat n)) = (if decide (b ≠ 0) then [(i, b, sample_of i)] else []) ++ rows_of f (seqZ (i + 1) (Z.of_nat n))).
  { rewrite <-(rows_of_ext f' f) by (intros j Hj%elem_of_seqZ; unfold f'; by rewrite decide_False by lia).
    unfold rows_of at 1. rewrite filter_cons. replace (f' i) with b by (unfold f'; by rewrite decide_True). case_decide; [|done].
    cbn [fmap list_fmap]. unfold f' at 1. by rewrite decide_True. }
  exists f', t. rewrite Hrows. split; [|split; [done|]].
  - destruct (Z.eqb_spec b 0) as [->|Hb0]; [by rewrite Z.add_0_r in E'; rewrite decide_False by (by intros ?)|]. rewrite decide_True by done.
    erewrite (run_bind (sample_at i)); [|unfold sample_at; rewrite (proj2 (ao_ready _ _ HA)), (proj2 (Z.ltb_lt i (g_nparts s)) ltac:(lia)); reflexivity].
    by rewrite (run_bind _ _ _ _ _ E').
  - intros j Hj. unfold f'. destruct (decide (j = i)) as [->|]; [exact Hb|]. apply Hf. lia.
Qed.

(** The report. *)
Lemma heap_profile_run : ∃ f total,
  btm_heap_profile s = Ok (Some (g_nparts s, rows_of f (seqZ 0 (g_nparts s)), total), s) ∧
  (∀ j, 0 ≤ j < g_nparts s → measures (λ y, ∃ r, r.1 = j ∧ pool_byte r y) (f j)) ∧ measures (λ y, ∃ r, pool_byte r y) total.
Proof.
  destruct (ao_nparts _ _ HA) as (k & Hk & Hnp). assert (0 < g_nparts s) by (rewrite Hnp; lia).
  destruct (profile_rows_run (Z.to_nat (g_nparts s)) 0 0) as (f & t & E & Ht & Hf); [lia|lia| |].
  { apply measures_none. intros y (r & ? & _). lia. }
  rewrite Z2Nat.id in E by lia. exists f, t. split; [|split].
  - unfold btm_heap_profile. erewrite run_bind by apply run_gets. rewrite (proj1 (ao_ready _ _ HA)). erewrite run_bind by apply run_gets.
    by rewrite (run_bind _ _ _ _ _ E).
  - intros j Hj. apply (measures_iff (class_bytes j BTM_NUM_SIZE_CLASSES)); [|by apply Hf]. intros y. by rewrite all_classes.
  - apply (measures_iff (part_bytes (g_nparts s))); [|exact Ht]. intros y. split; [|intros (r & _ & Hy); by exists r].
    intros (r & Hy). exists r. split; [|done]. pose proof Hy as (x & Hx & _). by apply (live_in_range HA) in Hx as [? _].
Qed.
End spec.
