(* ===== verification/CTypes.v ===== *)
(** * CTypes: the models' fields are values of their C types

    The records of Heap.v hold unbounded integers where src/src/internal.h declares
    uint16_t, uint32_t and uint64_t.  Here: what it means for a record to fit its struct,
    and that every descriptor, chunk header, pool and cache bin of a consistent process
    does, with the bounds that keep it so.  The records cover every integer field of
    these structs but the constant magic number; the one-byte flags are booleans of the
    model, and pointers are addresses. *)

From stdpp Require Import prelude gmap.
From S2P Require Import Prelude Memory SizeClass Freelist Registry Engine Callsite Os Large Heap Dll Pool PoolInv PoolFrame PoolRun PoolCount PoolSys Space Background BgLaws Api ApiInv.
Local Open Scope Z_scope.

(** [x] is a value of an unsigned type of [w] bits. *)
Definition fits (w x : Z) : Prop := 0 ≤ x < 2 ^ w.

Lemma fits_le w x n : 0 ≤ w → 0 ≤ x ≤ n → n < 2 ^ w → fits w x.
Proof. unfold fits. lia. Qed.

(** struct btm_slab: the counts, the identity of the slab, the epoch of its last use. *)
Record slab_typed (v : btm_slab) : Prop := {
  ty_nslots : fits 32 (nslots v);
  ty_free_count : fits 32 (free_count v) ∧ free_count v ≤ nslots v;
  ty_s_sc : fits 16 (s_sc v);
  ty_npages : fits 16 (npages v);
  ty_s_part_idx : fits 16 (s_part_idx v);
  ty_first_page : fits 16 (first_page v);
  ty_epoch : fits 32 (epoch v);
}.

(** btm_chunk_t: [live_slabs] and the bump pointer never pass the pages of the chunk; the
    page table has an entry for every page, a page of the chunk or the mark for none. *)
Record chunk_typed (v : btm_chunk) : Prop := {
  ty_c_sc : fits 16 (c_sc v);
  ty_c_part_idx : fits 16 (c_part_idx v);
  ty_next_free_page : fits 32 (next_free_page v) ∧ next_free_page v ≤ BTM_PAGES_PER_CHUNK;
  ty_live_slabs : fits 32 (live_slabs v) ∧ live_slabs v ≤ BTM_PAGES_PER_CHUNK;
  ty_memfd_off : fits 64 (memfd_off v);
  ty_page_owner : length (page_owner v) = Z.to_nat BTM_PAGES_PER_CHUNK ∧
    Forall (λ q, fits 16 q ∧ (q < BTM_PAGES_PER_CHUNK ∨ q = BTM_PAGE_NONE)) (page_owner v);
}.

(** struct btm_scpool and btm_tls_bin_t. *)
Record pool_typed (v : btm_scpool) : Prop := {
  ty_warm_count : fits 32 (Heap.warm_count v) ∧ Heap.warm_count v ≤ BTM_KEEP_WARM_EMPTY;
  ty_nslabs : fits 64 (nslabs v);
  ty_outstanding : fits 64 (outstanding v);
}.
Definition bin_typed (r : pool_ref) (v : btm_tls_bin) : Prop := fits 32 (b_count v) ∧ b_count v ≤ btm_cache_max r.2.

Section pool.
Context {F : FlOps}.

(** A chunk has at most one live slab per page. *)
Lemma live_set_bound r h pl a c : valid_sc r.2 → pool_inv r h pl a [] → Z.of_nat (size (live_set a c)) ≤ BTM_PAGES_PER_CHUNK.
Proof.
  intros Hsc I. assert (Hsub : elements (live_set a c) ⊆+ (btm_chunk_desc c <$> seqZ 0 512)).
  { apply NoDup_submseteq; [apply NoDup_elements|]. intros d [<- Hd]%elem_of_elements%elem_of_filter. apply list_elem_of_fmap.
    apply (mb_live _ _ _ _ (pi_member _ _ _ _ _ I) d (not_elem_of_nil d)) in Hd as [[l Hl] _].
    pose proof (pi_slab _ _ _ _ _ I d l Hl) as W. exists (page_of d). split; [apply (sp_desc _ _ _ (sw_placed _ _ _ _ _ W))|].
    destruct (slab_bounds r Hsc h a d (pi_chunk _ _ _ _ _ I) (sw_chunk _ _ _ _ _ W) (sw_placed _ _ _ _ _ W)) as (_ & ? & ? & ?).
    apply elem_of_seqZ. lia. }
  apply submseteq_length in Hsub. rewrite length_fmap, length_seqZ in Hsub. unfold size, set_size. cbn [compose]. unfold BTM_PAGES_PER_CHUNK. lia.
Qed.

Lemma pool_slab_typed r h pl a d l : valid_ref r → pool_inv r h pl a [] → a_free a !! d = Some l → slab_typed (slab_at h d).
Proof.
  intros [Hsc Hp] I Hl. pose proof (pi_slab _ _ _ _ _ I d l Hl) as W. destruct (sw_fields _ _ _ _ _ W) as [F1 F2 F3 F4 F5 _ F7 F8].
  destruct (slab_bounds r Hsc h a d (pi_chunk _ _ _ _ _ I) (sw_chunk _ _ _ _ _ W) (sw_placed _ _ _ _ _ W)) as (_ & ? & ? & ?).
  pose proof (sc_slots_range r.2 Hsc) as Hn. assert (Hlen : Z.of_nat (length l) ≤ slots_of_class r.2).
  { pose proof (NoDup_submseteq _ _ (sw_nodup _ _ _ _ _ W) (sw_slots _ _ _ _ _ W)) as Hs. apply submseteq_length in Hs.
    unfold slab_slots in Hs. rewrite slots_length in Hs. lia. }
  split; rewrite ?F1, ?F2, ?F3, ?F4, ?F5, ?F7; unfold fits, valid_sc, BTM_NUM_SIZE_CLASSES in *; lia.
Qed.

(** An entry of the page table is a page of the chunk, or none. *)
Lemma page_run_fits r nfp q : valid_sc r.2 → nfp ≤ BTM_PAGES_PER_CHUNK →
  fits 16 (page_run r nfp q) ∧ (page_run r nfp q < BTM_PAGES_PER_CHUNK ∨ page_run r nfp q = BTM_PAGE_NONE).
Proof.
  intros Hsc Hn. unfold page_run. rewrite data_start_page. destruct (Z.leb_spec 7 q), (Z.ltb_spec q nfp); cbn [andb]; try (split; [by vm_compute|by right]).
  pose proof (sc_pages_range r.2 Hsc) as Hp. unfold BTM_PAGES_PER_CHUNK, fits in *.
  pose proof (Z.mul_div_le (q - 7) (btm_sc_run_pages r.2) ltac:(lia)). assert (0 ≤ (q - 7) / btm_sc_run_pages r.2) by (apply Z.div_pos; lia). nia.
Qed.

Lemma pool_chunk_typed r h pl a c :
  valid_ref r → pool_inv r h pl a [] → c ∈ a_chunks a → 0 ≤ memfd_off (chunk_at h c) < 2 ^ 64 → chunk_typed (chunk_at h c).
Proof.
  intros [Hsc Hp] I Hc Ho. destruct (pi_chunk _ _ _ _ _ I c Hc) as [_ _ _ C4 C5 C6 C7 C8 _ C10 _]. pose proof (live_set_bound r h pl a c Hsc I).
  rewrite data_start_page in C6. unfold valid_sc, BTM_NUM_SIZE_CLASSES, BTM_PAGES_PER_CHUNK in *.
  split; rewrite ?C4, ?C5, ?C8; try (unfold fits, BTM_PAGES_PER_CHUNK; lia).
  split; [done|]. apply Forall_forall. intros q [i Hi]%list_elem_of_lookup. pose proof (lookup_lt_Some _ _ _ Hi) as Hlt.
  specialize (C10 (Z.of_nat i) ltac:(lia)). rewrite Nat2Z.id, Hi in C10. injection C10 as ->. apply page_run_fits; [done|]. unfold BTM_PAGES_PER_CHUNK. lia.
Qed.
End pool.

Section process.
Context {F : FlOps} {FL : FlLaws F} {Krn : OS} {KL : OSLaws Krn} {T : Type} {OT : OwnerTable T} {OE : OwnerEngine T}
  {EL : OwnerEngineLaws T OT OE}.
Context {s : astate T} {G : aghost} (HA : api_ok s G).

Lemma process_pool r a : gh_sys G !! r = Some a →
  valid_ref r ∧ ∃ pl, p_pools (g_pools s) !! r = Some pl ∧ pool_inv r (p_heap (g_pools s)) pl a [].
Proof. intros Ha. split; [exact (so_ref _ _ (ao_sys _ _ HA) r a Ha)|exact (so_pool _ _ (ao_sys _ _ HA) r a Ha)]. Qed.

Lemma process_chunk_typed r a c : gh_sys G !! r = Some a → c ∈ a_chunks a → chunk_typed (chunk_at (p_heap (g_pools s)) c).
Proof.
  intros Ha Hc. destruct (process_pool r a Ha) as (Hr & pl & _ & I). apply (pool_chunk_typed r _ pl a c Hr I Hc).
  apply (cs_off _ _ _ _ (so_src _ _ (ao_sys _ _ HA))). apply elem_of_chunks_of. by exists r, a.
Qed.

Lemma process_pool_typed r pl : in_range (g_nparts s) r → p_pools (g_pools s) !! r = Some pl → pool_typed pl.
Proof.
  intros Hr Hpl. apply (ao_pools _ _ HA) in Hr as [a Ha]. destruct (process_pool r a Ha) as (_ & pl' & Hpl' & I).
  replace pl' with pl in * by congruence. destruct (sys_counter _ _ r a (ao_sys _ _ HA) Ha) as (n & Hn & _ & Hb).
  unfold counters in Hn. rewrite lookup_fmap, Hpl in Hn. injection Hn as <-.
  split; [|exact (co_nslabs _ _ _ (pi_chunks _ _ _ _ _ I))|unfold fits; lia]. rewrite (lk_warm_count _ _ _ (pi_lists _ _ _ _ _ I)).
  pose proof (mb_warm _ _ _ _ (pi_member _ _ _ _ _ I)). unfold fits, BTM_KEEP_WARM_EMPTY. lia.
Qed.

Lemma process_bin_typed t r b : in_range (g_nparts s) r → bin_at s t r = Some b → bin_typed r b.
Proof.
  intros Hr Hb. pose proof (ao_bin _ _ HA t r Hr) as Hi. unfold bin_inv in Hi. rewrite Hb in Hi.
  pose proof (sc_cache_range r.2 (proj2 Hr)). pose proof (bg_cap _ _ _ _ _ Hi). unfold bin_typed, fits. rewrite (bg_count _ _ _ _ _ Hi). lia.
Qed.
End process.
