(* ===== verification/ApiStep.v ===== *)
(** * ApiStep: how the invariant of the process moves

    [bin_step]: what a call does to the threads when it works on one bin.  [bin_step_ok]
    re-establishes the invariant after any change of one bin, its pool and the memory;
    the other lemmas are the steps around it: resolving a pointer, choosing a partition,
    creating a TLS block, starting the maintenance thread. *)

From stdpp Require Import prelude gmap.
From S2P Require Import Prelude Memory SizeClass Freelist Registry Engine Callsite Os Large Heap Memfd Dll Pool PoolInv PoolFrame PoolRun PoolRefill PoolSys PoolOps Space Background BgLaws Api ApiInv.
Local Open Scope Z_scope.

Section steps.
Context {F : FlOps} {FL : FlLaws F} {Krn : OS} {KL : OSLaws Krn} {T : Type} {OT : OwnerTable T} {OE : OwnerEngine T}
  {EL : OwnerEngineLaws T OT OE}.
Implicit Types (p : pstate (bstate T)) (A : asys) (r : pool_ref) (s : astate T) (G : aghost).

Lemma thread_at_set s me th t : thread_at (set_thread me th s) t = if decide (t = me) then th else thread_at s t.
Proof.
  unfold thread_at, set_thread. cbn [g_threads]. rewrite lookup_insert.
  destruct (decide (me = t)), (decide (t = me)); simpl; congruence.
Qed.

(** ** One bin changes *)
Record same_globals s s' : Prop := {
  sg_ready : g_ready s' = g_ready s ∧ g_partitions s' = g_partitions s;
  sg_nparts : g_nparts s' = g_nparts s;
  sg_intern : g_intern_mode s' = g_intern_mode s ∧ g_intern s' = g_intern s;
  sg_harden : g_harden_mode s' = g_harden_mode s;
}.

Record bin_step s (me : nat) r (b : btm_tls_bin) s' : Prop := {
  bs_globals : same_globals s s';
  bs_bin t r' : in_range (g_nparts s) r' → bin_at s' t r' = if decide (t = me ∧ r' = r) then Some b else bin_at s t r';
  bs_rcache t : rcache <$> th_tls (thread_at s' t) = rcache <$> th_tls (thread_at s t);
  bs_intern t : th_intern (thread_at s' t) = th_intern (thread_at s t);
}.

Lemma same_globals_refl s : same_globals s s.
Proof. by split. Qed.

Lemma same_globals_trans s1 s2 s3 : same_globals s1 s2 → same_globals s2 s3 → same_globals s1 s3.
Proof. intros [[] ? [] ?] [[] ? [] ?]. split; [split|..]; try congruence. split; congruence. Qed.

Lemma bin_step_refl s me r b : bin_at s me r = Some b → bin_step s me r b s.
Proof. intros Hb. split; [apply same_globals_refl| |done..]. intros t r' _. case_decide as E; [|done]. by destruct E as [-> ->]. Qed.

(** The threads do not see changes of the pools and the memory. *)
Lemma bin_step_pools s me r b p s1 : bin_step s me r b s1 → bin_step s me r b (set_pools p s1).
Proof. intros [[] ? ? ?]. by split. Qed.

Lemma bin_step_sample s me r b m s1 : bin_step s me r b s1 → bin_step s me r b (set_sample m s1).
Proof. intros [[] ? ? ?]. by split. Qed.

Lemma set_bin_run s me r b0 b :
  bin_at s me r = Some b0 → in_range (g_nparts s) r →
  ∃ s', set_bin me r.1 r.2 b s = Ok (tt, s') ∧ bin_step s me r b s' ∧ g_pools s' = g_pools s ∧ g_sample s' = g_sample s.
Proof.
  unfold bin_at, set_bin. destruct (th_tls (thread_at s me)) as [x|] eqn:Ex; [|done]. intros _ Hr.
  eexists. split; [reflexivity|]. split; [|done]. split; [by split| | |].
  - intros t r' Hr'. unfold bin_at. rewrite thread_at_set. destruct (decide (t = me)) as [->|Hne].
    + cbn. rewrite Ex. simpl. rewrite lookup_insert. destruct (decide (r' = r)) as [->|Hnr].
      * by rewrite decide_True, decide_True.
      * rewrite decide_False by (intros E; by apply Hnr, (bin_index_inj (g_nparts s))). by rewrite decide_False by naive_solver.
    + by rewrite decide_False by naive_solver.
  - intros t. rewrite thread_at_set. case_decide as E; [|done]. subst t. by rewrite Ex.
  - intros t. rewrite thread_at_set. by case_decide; subst.
Qed.

Lemma bin_at_run s me r b :
  bin_at s me r = Some b → in_range (g_nparts s) r → btm_tls_bin_at me r.1 r.2 s = Ok (b, s).
Proof.
  unfold bin_at, btm_tls_bin_at. destruct (th_tls (thread_at s me)) as [x|]; [|done]. intros [= <-] Hr.
  by rewrite (proj2 (Z.ltb_lt _ _) (proj2 (bin_index_range _ r Hr))).
Qed.

Lemma bin_step_trans s me r b1 b2 s1 s2 : bin_step s me r b1 s1 → bin_step s1 me r b2 s2 → bin_step s me r b2 s2.
Proof.
  intros [G1 B1 R1 I1] [G2 B2 R2 I2]. split; [by eapply same_globals_trans| | |].
  - intros t r' Hr'. rewrite B2 by (by rewrite (sg_nparts _ _ G1)). case_decide; [done|]. rewrite B1 by done. by rewrite decide_False.
  - intros t. by rewrite R2.
  - intros t. by rewrite I2.
Qed.

Definition gh_set (A : asys) (me : nat) r (lb : list Z) G : aghost :=
  mk_ghost A (<[(me, r) := lb]> (gh_cache G)).

Lemma cached_set A me r lb G t r' : cached (gh_set A me r lb G) t r' = if decide ((t, r') = (me, r)) then lb else cached G t r'.
Proof.
  unfold cached, gh_set. cbn [gh_cache]. case_decide as E; [injection E as -> ->; apply lookup_total_insert_eq|].
  apply lookup_total_insert_ne. congruence.
Qed.

(** What the rest of the process sees of a change: the other bins keep their slots. *)
Definition others_kept s G A' (m' : gmap Z Z) (me : nat) r : Prop :=
  ∀ t r' x, (t, r') ≠ (me, r) → x ∈ cached G t r' →
    live_slot A' r' x ∧ ∀ y, x ≤ y < x + 8 → byte_at m' y = byte_at (mem_of s) y.

Lemma bin_step_ok s G me r b lb A' s' :
  api_ok s G → bin_step s me r b s' → in_range (g_nparts s) r →
  sys_ok (g_pools s') A' → (∀ r', is_Some (A' !! r') ↔ is_Some (gh_sys G !! r')) →
  table_evolves (table_of s) (table_of s') →
  bin_good (mem_of s') A' r b lb → others_kept s G A' (mem_of s') me r →
  (∀ t x, t ≠ me → x ∈ lb → x ∉ cached G t r) →
  api_ok s' (gh_set A' me r lb G).
Proof.
  intros HA [[[G1 G1'] G2 [G3 G3'] _] B R I] Hr HS Hd Ht Hb Ho Hx. pose proof HA as [A1 A2 A3 A4 A6 A7 A8 A9 A10 A11 A12].
  split; rewrite ?G1, ?G1', ?G2, ?G3, ?G3'; try done.
  - intros r'. rewrite <-A4. apply Hd.
  - by etrans.
  - intros t r' Hr'. unfold bin_inv. rewrite B by done. rewrite cached_set. cbn [gh_sys gh_set]. destruct (decide (t = me ∧ r' = r)) as [[-> ->]|Hne].
    + by rewrite decide_True.
    + assert (Hne' : (t, r') ≠ (me, r)) by (intros [= -> ->]; by apply Hne).
      rewrite decide_False by done. specialize (A7 t r' Hr'). unfold bin_inv in A7.
      destruct (bin_at s t r') as [b'|]; [|done]. apply (bin_good_keep (mem_of s) _ (gh_sys G)); [done|..].
      * intros x Hin. by apply (Ho t r' x).
      * intros x y Hin. by apply (Ho t r' x).
  - intros t r' Hr'. rewrite cached_set. rewrite decide_False by (intros [= -> ->]; done). by apply A8.
  - intros t1 t2 r' x. rewrite !cached_set. destruct (decide _) as [E1|N1], (decide ((t2, r') = _)) as [E2|N2].
    + congruence.
    + injection E1 as -> ->. intros H1 H2. destruct (Hx t2 x); [congruence|done..].
    + injection E2 as -> ->. intros H1 H2. destruct (Hx t1 x); [congruence|done..].
    + apply A9.
  - intros t x' Hx'. pose proof (R t) as Rt. rewrite Hx' in Rt. destruct (th_tls (thread_at s t)) as [x0|] eqn:E0; [|done].
    injection Rt as ->. apply (oe_grow (table_of s)); [done|]. by apply (A10 t x0).
  - intros t. rewrite I. apply A12.
Qed.

(** The pools, the source and the memory change under the threads. *)
Lemma pools_ok s G A' p' :
  api_ok s G → sys_ok p' A' → (∀ r', is_Some (A' !! r') ↔ is_Some (gh_sys G !! r')) →
  table_evolves (table_of s) (b_table (p_src p')) →
  (∀ t r x, x ∈ cached G t r → live_slot A' r x ∧ ∀ y, x ≤ y < x + 8 → byte_at (h_mem (p_heap p')) y = byte_at (mem_of s) y) →
  api_ok (set_pools p' s) (mk_ghost A' (gh_cache G)).
Proof.
  intros HA HS Hd Ht Ho. pose proof HA as [A1 A2 A3 A4 A6 A7 A8 A9 A10 A11 A12]. split; try done.
  - intros r. cbn. by rewrite Hd.
  - by etrans.
  - intros t r Hr. specialize (A7 t r Hr). unfold bin_inv in *. change (bin_at (set_pools p' s) t r) with (bin_at s t r).
    destruct (bin_at s t r) as [b|]; [|done]. apply (bin_good_keep (mem_of s) _ (gh_sys G)); [done|..].
    + intros x Hx. by apply (Ho t r x).
    + intros x y Hx. by apply (Ho t r x).
  - intros t x Hx. apply (oe_grow (table_of s)); [done|]. by apply (A10 t x).
Qed.

(** ** The blocks after a change *)
Lemma large_block_hdrs p p' x n : b_hdrs (p_src p') = b_hdrs (p_src p) → large_block (large_view p') x n ↔ large_block (large_view p) x n.
Proof. intros E. unfold large_block, large_at, large_view. cbn [l_hdrs]. by rewrite E. Qed.

(** A call on the slots, as seen by the program: [U] is what is in use afterwards. *)
Definition slots_after s (U : Z → pool_ref → Prop) (x n : Z) : Prop :=
  (∃ r, U x r ∧ n = btm_sc_to_size r.2) ∨ large_block (large_view (g_pools s)) x n.

Lemma goes_slots s G s' G' (U : Z → pool_ref → Prop) :
  api_ok s G → api_ok s' G' → b_hdrs (p_src (g_pools s')) = b_hdrs (p_src (g_pools s)) → mesh_on s' = mesh_on s → g_harden_mode s' = g_harden_mode s →
  table_evolves (table_of s) (table_of s') →
  (∀ x r, in_use G' x r ↔ U x r) →
  (∀ x r r' y, in_use G x r → U x r' → x ≤ y < x + btm_sc_to_size r.2 → byte_at (mem_of s') y = byte_at (mem_of s) y) →
  (∀ y, large_byte (large_view (g_pools s)) y → byte_at (mem_of s') y = byte_at (mem_of s) y) →
  goes s G s' G' (slots_after s U).
Proof.
  intros HA HA' Eh Eo Em Ht HU Hs Hl. split; [done| | |done..].
  - intros x n. unfold block. rewrite (large_block_hdrs (g_pools s)) by done. unfold slots_after. by setoid_rewrite HU.
  - intros x n y [(r & Hr & ->)|Hb] HP Hy; [|by apply Hl, (large_block_byte HA x n)].
    destruct HP as [(r' & Hr' & _)|Hb]; [by apply (Hs x r r')|].
    destruct (slot_not_large HA r x y); [apply Hr|done|by apply (large_block_byte HA x _ y Hb)].
Qed.

(** [goes] up to the description of the blocks, and in sequence. *)
Lemma goes_iff s G s' G' (P Q : Z → Z → Prop) : goes s G s' G' P → (∀ x n, P x n ↔ Q x n) → goes s G s' G' Q.
Proof. intros [H1 H2 H3 H4 H5 H6] E. split; [done|intros; by rewrite H2|intros x n y Hb HQ; by apply H3, E|done..]. Qed.

Lemma goes_trans s1 G1 s2 G2 s3 G3 (P Q : Z → Z → Prop) :
  goes s1 G1 s2 G2 P → goes s2 G2 s3 G3 Q → (∀ x n, block s1 G1 x n → Q x n → P x n) → goes s1 G1 s3 G3 Q.
Proof.
  intros [A1 A2 A3 A4 A5 A6] [B1 B2 B3 B4 B5 B6] H. split; [done..| |congruence|by etrans|congruence]. intros x n y Hb HQ Hy.
  assert (HP : P x n) by auto. rewrite (B3 x n y), (A3 x n y); [done|done|done|done|by apply A2|done|done].
Qed.

(** A step the program does not see. *)
Definition quiet s G s' G' : Prop := goes s G s' G' (block s G) ∧ mem_of s' = mem_of s ∧ table_of s' = table_of s.

Lemma quiet_refl s G : api_ok s G → quiet s G s G.
Proof. intros HA. by split. Qed.

Lemma quiet_goes s1 G1 s2 G2 s3 G3 (P : Z → Z → Prop) :
  quiet s1 G1 s2 G2 → goes s2 G2 s3 G3 P → goes s1 G1 s3 G3 P.
Proof. intros [H1 _] H2. eapply goes_trans; [done|done|done]. Qed.

Lemma quiet_block s1 G1 s2 G2 x n : quiet s1 G1 s2 G2 → block s2 G2 x n ↔ block s1 G1 x n.
Proof. intros [[_ H _ _ _] _]. by rewrite H. Qed.

Lemma quiet_trans s1 G1 s2 G2 s3 G3 : quiet s1 G1 s2 G2 → quiet s2 G2 s3 G3 → quiet s1 G1 s3 G3.
Proof.
  intros H1 (H2 & M2 & T2). split; [|split; [rewrite M2|rewrite T2]; apply H1]. apply (quiet_goes s1 G1 s2 G2 s3 G3); [done|].
  eapply goes_iff; [done|]. intros x n. by apply quiet_block.
Qed.

(** Same pools, same ghost: only threads and globals change. *)
Lemma quiet_same s G s' : api_ok s G → api_ok s' G → g_pools s' = g_pools s → g_harden_mode s' = g_harden_mode s → quiet s G s' G.
Proof.
  intros HA HA' E Em. unfold quiet, mem_of, table_of. rewrite E. split; [|done].
  split; [done| | |done|unfold table_of; by rewrite E|unfold mesh_on; by rewrite E].
  - intros x n. unfold block. by rewrite E.
  - intros x n y _ _ _. unfold mem_of. by rewrite E.
Qed.

(** ** Quiet steps *)

(** Changing one thread's record and the interning table. *)
Lemma set_thread_ok s G me th i :
  api_ok s G →
  bins <$> th_tls th = bins <$> th_tls (thread_at s me) →
  (∀ x, th_tls th = Some x → oe_ok (table_of s) (rcache x)) →
  0 ≤ btm_tls_intern_part (th_intern th) < g_nparts s →
  (g_intern_mode s = true → intern_inv i) →
  quiet s G (set_thread me th (set_intern i s)) G.
Proof.
  intros HA Hb Hc Hp Hi. apply quiet_same; [done| |done|done]. pose proof HA as [A1 A2 A3 A4 A6 A7 A8 A9 A10 A11 A12].
  assert (Hat : ∀ t, thread_at (set_thread me th (set_intern i s)) t = if decide (t = me) then th else thread_at s t).
  { intros t. rewrite thread_at_set. done. }
  split; try done.
  - intros t r Hr. specialize (A7 t r Hr). unfold bin_inv, bin_at in *. rewrite Hat. case_decide as E; [|done]. subst t.
    destruct (th_tls th) as [x|], (th_tls (thread_at s me)) as [x0|]; try discriminate Hb; [|done].
    injection Hb as Hb. simpl in *. by rewrite Hb.
  - intros t x. rewrite Hat. case_decide; [apply Hc|apply A10].
  - intros t. rewrite Hat. case_decide; [done|apply A12].
Qed.

Lemma set_intern_same s : set_intern (g_intern s) s = s.
Proof. by destruct s. Qed.

(** Resolving a pointer answers what the table holds. *)
Lemma resolve_owner_spec s G me x :
  api_ok s G → oe_bound (table_of s) → user_addr x →
  runs (resolve_owner me x) s (λ o s', o = ot_lookup (table_of s) x ∧ quiet s G s' G ∧ g_pools s' = g_pools s ∧
    same_globals s s' ∧ ∀ t, bins <$> th_tls (thread_at s' t) = bins <$> th_tls (thread_at s t)).
Proof.
  intros HA Hbd Hx. unfold resolve_owner, runs. destruct (th_tls (thread_at s me)) as [t|] eqn:Et.
  - destruct (oe_resolve_some (table_of s) (rcache t) x Hbd (ao_rcache _ _ HA me t Et) Hx) as (c & Hrun & Hc).
    cbn [fmap option_fmap option_map]. rewrite Hrun. do 2 eexists. split; [reflexivity|].
    split_and!; [done| |done|by split|].
    + rewrite <-(set_intern_same s) at 2. apply set_thread_ok; [done|cbn; by rewrite Et|by intros y [= <-]|apply HA|apply HA].
    + intros t'. rewrite thread_at_set. case_decide as E; [|done]. subst t'. cbn. by rewrite Et.
  - cbn [fmap option_fmap option_map]. rewrite oe_resolve_none. exists (ot_lookup (table_of s) x), s.
    split; [done|]. split_and!; [done|by apply quiet_refl|done|by split|done].
Qed.

(** Choosing a partition ends with one of the process's partitions. *)
Lemma partition_of_spec s G me ra :
  api_ok s G → ra ≠ 0 →
  runs (partition_of me ra) s (λ part s', 0 ≤ part < g_nparts s ∧ quiet s G s' G ∧ g_pools s' = g_pools s ∧
    g_nparts s' = g_nparts s ∧ ∀ t, th_tls (thread_at s' t) = th_tls (thread_at s t)).
Proof.
  intros HA Hra. destruct (ao_nparts _ _ HA) as (k & Hk & En). unfold partition_of, runs, btm_partition_of. rewrite En.
  assert (Hfin : ∀ part i t, 0 ≤ part < 2 ^ k → 0 ≤ btm_tls_intern_part t < 2 ^ k → (g_intern_mode s = true → intern_inv i) →
    let s' := set_thread me (mk_thread (th_tls (thread_at s me)) t (th_errno (thread_at s me))) (set_intern i s) in
    0 ≤ part < 2 ^ k ∧ quiet s G s' G ∧ g_pools s' = g_pools s ∧ g_nparts s' = 2 ^ k ∧
      ∀ t, th_tls (thread_at s' t) = th_tls (thread_at s t)).
  { intros part i t Hp Ht Hi s'. split_and!; [lia..| |done|done|].
    - apply set_thread_ok; [done|done|cbn; intros y Hy; by apply (ao_rcache _ _ HA me)|by rewrite En|done].
    - intros t'. unfold s'. rewrite thread_at_set. case_decide as E; [by subst t'|done]. }
  pose proof (ao_part _ _ HA me) as Hpart. rewrite En in Hpart.
  destruct (g_intern_mode s) eqn:Em; [destruct (Z.eqb_spec ra (btm_tls_intern_ra (th_intern (thread_at s me))))|].
  - do 2 eexists. split; [reflexivity|]. apply Hfin; [done|done|intros _; by apply (ao_intern _ _ HA)].
  - destruct (intern_slow_run (2 ^ k) (g_intern s) ra (ao_intern _ _ HA Em) Hra) as (i & pc & part & Hrun & Hpc & _ & Hi & _).
    pose proof (intern_partition_range k ra pc part ltac:(lia) Hpc) as Hr.
    rewrite Hrun. do 2 eexists. split; [reflexivity|]. by apply Hfin.
  - do 2 eexists. split; [reflexivity|]. apply Hfin; [|done|done].
    rewrite land_mask by lia. apply Z.mod_pos_bound. apply Z.pow_pos_nonneg; lia.
Qed.

(** A TLS block of zero pages: every bin is empty. *)
Lemma new_tls_ok s G me :
  api_ok s G → th_tls (thread_at s me) = None →
  quiet s G (set_thread me (mk_thread (Some (mk_tls oe_new ∅)) (th_intern (thread_at s me)) (th_errno (thread_at s me))) s) G.
Proof.
  intros HA Ht. apply quiet_same; [done| |done|done]. pose proof HA as [A1 A2 A3 A4 A6 A7 A8 A9 A10 A11 A12]. split; try done.
  - intros t r Hr. specialize (A7 t r Hr). unfold bin_inv, bin_at in *. rewrite thread_at_set. case_decide as E; [|done]. subst t.
    cbn. rewrite Ht in A7. simpl in A7. rewrite A7, lookup_empty. simpl. apply zero_bin_good, Hr.
  - intros t x. rewrite thread_at_set. case_decide; [|apply A10]. cbn. intros [= <-]. apply oe_new_ok, HA.
  - intros t. rewrite thread_at_set. case_decide; apply A12.
Qed.

Lemma errno_ok s G me e : api_ok s G →
  quiet s G (set_thread me (mk_thread (th_tls (thread_at s me)) (th_intern (thread_at s me)) e) s) G.
Proof.
  intros HA. rewrite <-(set_intern_same s) at 2. apply set_thread_ok; [done|done|intros x; apply HA|apply HA|apply HA].
Qed.

(** ** The maintenance thread and the memory *)
Lemma sys_agree p A h' b' :
  sys_ok p A → agree_on (λ c, c ∈ chunks_of A) (p_heap p) h' → source_ok (chunks_of A) h' b' →
  sys_ok (mk_pstate h' (p_pools p) (p_epoch p) b') A.
Proof.
  intros [S1 S2 S3 S4 S5 S6] Hag HS. split; [done| |done..]. intros r a Ha. destruct (S2 r a Ha) as (pl & Hpl & I).
  exists pl. split; [done|]. apply (pool_inv_agree r (S1 r a Ha) (p_heap p)); [|done]. intros c Hc. apply Hag, elem_of_chunks_of. by exists r, a.
Qed.

(** A live byte lies in a client's chunk. *)
Lemma live_agree p A h' x y r :
  sys_ok p A → agree_on (λ c, c ∈ chunks_of A) (p_heap p) h' → live_slot A r x → x ≤ y < x + btm_sc_to_size r.2 →
  byte_at (h_mem h') y = byte_at (h_mem (p_heap p)) y.
Proof.
  intros HS Hag Hx Hy. destruct (live_header p A r x HS Hx) as (_ & _ & _ & _ & _ & Hc).
  destruct (live_chunk_space p A r x HS Hx) as (Hck & H1 & H2). apply (ag_byte _ _ (chunk_of x)); [by apply Hag|].
  apply chunk_of_inside; [apply (ck_base _ _ Hck)|lia].
Qed.

(** A step of the chunk source's own state, between calls. *)
Lemma source_step_goes s G h' b' :
  api_ok s G → agree_on (λ c, c ∈ chunks_of (gh_sys G)) (p_heap (g_pools s)) h' →
  src_step false (p_heap (g_pools s)) (p_src (g_pools s)) h' b' → source_ok (chunks_of (gh_sys G)) h' b' →
  goes s G (set_pools (set_source (h', b') (g_pools s)) s) G (block s G).
Proof.
  intros HA Hag [H1 H2 H3] HS.
  assert (HA' : api_ok (set_pools (set_source (h', b') (g_pools s)) s) G).
  { replace G with (mk_ghost (gh_sys G) (gh_cache G)) by (by destruct G). apply pools_ok; try done; [by apply sys_agree; [apply HA|..]|]. intros t r x Hx. pose proof (cached_live HA t r x Hx) as Hl. split; [done|].
    intros y Hy. pose proof (live_size _ _ _ _ (ao_sys _ _ HA) Hl). apply (live_agree _ _ h' x y r (ao_sys _ _ HA) Hag Hl). lia. }
  eapply goes_iff; [apply (goes_slots s G _ _ (in_use G) HA HA'); [done..| |exact H2]|done].
  intros x r r' y [Hx _] _ Hy. by apply (live_agree _ _ h' x y r (ao_sys _ _ HA) Hag Hx).
Qed.

(** Writes outside the links of free slots, and outside the links of cached ones. *)
Lemma set_mem_ok s G m' :
  api_ok s G → links_kept (gh_sys G) (g_pools s) m' →
  (∀ t r x y, x ∈ cached G t r → x ≤ y < x + 8 → byte_at m' y = byte_at (mem_of s) y) → api_ok (set_mem m' s) G.
Proof.
  intros HA Hl Hc. replace G with (mk_ghost (gh_sys G) (gh_cache G)) by (by destruct G).
  apply pools_ok; try done; [by apply sys_mem; [apply HA|]|].
  intros t r x Hx. split; [by apply (cached_live HA t)|]. intros y Hy. by apply (Hc t r x).
Qed.

(** The program writes into a block: nothing else changes. *)
Lemma write_block_ok s G x n m' :
  api_ok s G → block s G x n → (∀ y, ¬ (x ≤ y < x + n) → byte_at m' y = byte_at (mem_of s) y) → api_ok (set_mem m' s) G.
Proof.
  intros HA [(r & [Hx Hn] & ->)|Hb] Hm.
  - apply set_mem_ok; [done|by apply (links_slot _ _ r x _ (ao_sys _ _ HA))|]. intros t r' z y Hz Hy. apply Hm. intros Hyx.
    pose proof (cached_live HA t r' z Hz) as Hzl. pose proof (live_size _ _ _ _ (ao_sys _ _ HA) Hzl).
    destruct (slots_apart HA r' r z x Hzl Hx); [|lia..]. destruct (decide (r' = r)) as [->|]; [left|by right]. intros ->. by apply (Hn t).
  - assert (Hl : ∀ y, ¬ large_byte (large_view (g_pools s)) y → byte_at m' y = byte_at (mem_of s) y).
    { intros y Hy. apply Hm. intros Hin. apply Hy. by apply (large_block_byte HA x n). }
    apply set_mem_ok; [done|by apply links_large; [apply HA|]|]. intros t r z y Hz Hy. apply Hl.
    pose proof (cached_live HA t r z Hz) as Hzl. pose proof (live_size _ _ _ _ (ao_sys _ _ HA) Hzl).
    apply (slot_not_large HA r z y Hzl). lia.
Qed.

(** Blocks are pairwise disjoint, and a block has one size. *)
Lemma blocks_apart s G x1 n1 x2 n2 :
  api_ok s G → block s G x1 n1 → block s G x2 n2 → (x1 = x2 ∧ n1 = n2) ∨ disjoint_blocks x1 n1 x2 n2.
Proof.
  intros HA H1 H2.
  assert (Hsl : ∀ x n y m, (∃ r, in_use G x r ∧ n = btm_sc_to_size r.2) → large_block (large_view (g_pools s)) y m → disjoint_blocks x n y m).
  { intros x n y m (r & [Hx _] & ->) Hb. pose proof (live_size _ _ _ _ (ao_sys _ _ HA) Hx).
    destruct (decide (disjoint_blocks x (btm_sc_to_size r.2) y m)) as [|Hn]; [done|exfalso]. unfold disjoint_blocks in Hn.
    destruct (decide (m ≤ 0)).
    - destruct Hb as (base & hd & Hb & Ey & Em). destruct (sys_guests _ _ (ao_sys _ _ HA)) as (P & HG & _).
      destruct (gs_large _ _ HG base hd Hb) as [_ Hl]. pose proof (ll_off _ _ _ _ Hl). lia.
    - apply (slot_not_large HA r x (Z.max x y) Hx); [lia|]. apply (large_block_byte HA y m); [done|lia]. }
  destruct H1 as [H1|H1], H2 as [H2|H2].
  - destruct H1 as (r1 & [X1 _] & ->), H2 as (r2 & [X2 _] & ->). destruct (decide (x1 = x2 ∧ r1 = r2)) as [[-> ->]|Hne]; [by left|right].
    apply (slots_apart HA); [done..|]. destruct (decide (x1 = x2)); [right|by left]. intros ->. by apply Hne.
  - right. by apply Hsl.
  - right. destruct (Hsl x2 n2 x1 n1 H2 H1); unfold disjoint_blocks; lia.
  - destruct (decide (x1 = x2 ∧ n1 = n2)) as [|Hne]; [by left|]. destruct H1 as (b1 & h1 & B1 & -> & ->), H2 as (b2 & h2 & B2 & -> & ->).
    destruct (sys_guests _ _ (ao_sys _ _ HA)) as (P & HG & _). destruct (gs_large _ _ HG b1 h1 B1) as [_ L1], (gs_large _ _ HG b2 h2 B2) as [_ L2].
    pose proof (ll_off _ _ _ _ L1). pose proof (ll_off _ _ _ _ L2). right. unfold disjoint_blocks.
    destruct (decide (b1 = b2)) as [->|Hb]; [unfold large_at in *; destruct Hne; split; congruence|].
    destruct (decide (b1 + lh_map_len h1 ≤ b2 + lh_user_off h2)); [lia|]. destruct (decide (b2 + lh_map_len h2 ≤ b1 + lh_user_off h1)); [lia|].
    exfalso. apply Hb. apply (guests_apart P _ b1 h1 b2 h2 (Z.max (b1 + lh_user_off h1) (b2 + lh_user_off h2)) HG B1 B2); lia.
Qed.

Lemma block_facts s G x n : api_ok s G → block s G x n → 0 < x ∧ 0 < n ∧ user_addr x.
Proof.
  intros HA [(r & [Hx _] & ->)|(base & hd & Hb & -> & ->)].
  - pose proof (live_size _ _ _ _ (ao_sys _ _ HA) Hx). destruct (live_aligned _ _ r x (ao_sys _ _ HA) Hx) as (? & _).
    split_and!; [done|lia|]. by apply (live_owner _ _ r x (ao_sys _ _ HA)).
  - destruct (sys_guests _ _ (ao_sys _ _ HA)) as (P & HG & _). destruct (gs_large _ _ HG base hd Hb) as [_ Hl].
    pose proof (ll_off _ _ _ _ Hl). destruct (ll_place _ _ _ _ Hl) as (? & ? & ? & ?). unfold user_addr. lia.
Qed.
End steps.
