(* ===== verification/ApiSmall.v ===== *)
(** * ApiSmall: the small-object paths of the API

    A hit and a miss of [btm_malloc_at], the cached path of [btm_free] with its flush, the
    direct free, and the writes of the program into its blocks. *)

From stdpp Require Import prelude gmap.
From S2P Require Import Prelude Memory SizeClass Freelist Registry Engine Callsite Os Large Heap Memfd Dll Pool PoolInv PoolFrame PoolRun PoolRefill PoolSys PoolOps Space Background BgLaws Api ApiInv ApiStep.
Local Open Scope Z_scope.

Section small.
Context {F : FlOps} {FL : FlLaws F} {Krn : OS} {KL : OSLaws Krn} {T : Type} {OT : OwnerTable T} {OE : OwnerEngine T}
  {EL : OwnerEngineLaws T OT OE}.
Context (df_canary : option (Z → Z)).
Implicit Types (p : pstate (bstate T)) (A : asys) (r : pool_ref) (s : astate T) (G : aghost).

(** ** Memory accesses *)
Lemma accessible_live s A r x a n :
  sys_ok (g_pools s) A → live_slot A r x → x ≤ a → a + n ≤ x + btm_sc_to_size r.2 → accessible s a n = true.
Proof.
  intros HS Hx Ha Hn. apply forallb_forall. intros y Hy%list_elem_of_In%elem_of_seqZ.
  apply (live_mapped (g_pools s) A r x y HS Hx). lia.
Qed.

Lemma accessible_large s A x n a k :
  sys_ok (g_pools s) A → large_block (large_view (g_pools s)) x n → x ≤ a → a + k ≤ x + n → accessible s a k = true.
Proof.
  intros HS (base & hd & Hb & -> & ->) Ha Hn. apply forallb_forall. intros y Hy%list_elem_of_In%elem_of_seqZ.
  destruct (sys_guests _ _ HS) as (P & G & _). destruct (gs_large _ _ G base hd Hb) as [_ Hl].
  pose proof (ll_off _ _ _ _ Hl). apply (ll_mapped _ _ _ _ Hl). lia.
Qed.

Lemma set_mem_same s : set_mem (mem_of s) s = s.
Proof. destruct s as [[[] ? ? ?] ? ? ? ? ? ? ? ? ? ?]. done. Qed.

Lemma write_mem_run s a n f : accessible s a n = true → write_mem a n f s = Ok (tt, set_mem (f (mem_of s)) s).
Proof. intros H. unfold write_mem. by rewrite H. Qed.

(** What the canary writes may touch. *)
Definition second_word (x y : Z) : Prop := x + 8 ≤ y < x + 16.

Lemma word_write_run s A r x v :
  sys_ok (g_pools s) A → live_slot A r x →
  ∃ m', write_word (x + 8) v s = Ok (tt, set_mem m' s) ∧ (∀ y, ¬ second_word x y → byte_at m' y = byte_at (mem_of s) y) ∧
    (0 ≤ v < 2 ^ 64 → load64 m' (x + 8) = v).
Proof.
  intros HS Hx. pose proof (live_size A r x _ HS Hx). exists (store64 (mem_of s) (x + 8) v). split; [|split; [|by apply load64_store64_same]].
  - apply (write_mem_run s (x + 8) 8 (λ m, store64 m (x + 8) v)). apply (accessible_live s A r x); [done|done|lia|lia].
  - intros y Hy. apply byte_at_store64_other. unfold second_word in Hy. lia.
Qed.

Lemma clear_canary_run s A r x :
  sys_ok (g_pools s) A → live_slot A r x →
  ∃ m', clear_canary x s = Ok (tt, set_mem m' s) ∧ ∀ y, ¬ second_word x y → byte_at m' y = byte_at (mem_of s) y.
Proof.
  intros HS Hx. unfold clear_canary. rewrite (run_bind _ _ _ _ _ (run_gets _ _)). destruct (g_harden_mode s).
  - destruct (word_write_run s A r x 0 HS Hx) as (m' & Hrun & Hm & _). by exists m'.
  - exists (mem_of s). by rewrite set_mem_same.
Qed.

Lemma stamp_canary_run s A r x :
  sys_ok (g_pools s) A → live_slot A r x →
  ∃ m', stamp_canary df_canary x s = Ok (tt, set_mem m' s) ∧ (∀ y, ¬ second_word x y → byte_at m' y = byte_at (mem_of s) y) ∧
    (g_harden_mode s = true → ∀ f, df_canary = Some f → 0 ≤ f x < 2 ^ 64 → load64 m' (x + 8) = f x).
Proof.
  intros HS Hx. unfold stamp_canary. rewrite (run_bind _ _ _ _ _ (run_gets _ _)).
  assert (Hid : ∃ m', (mret tt : M (astate T) unit) s = Ok (tt, set_mem m' s) ∧ ∀ y, ¬ second_word x y → byte_at m' y = byte_at (mem_of s) y).
  { exists (mem_of s). by rewrite set_mem_same. }
  destruct Hid as (m0 & Hr0 & Hm0). destruct df_canary as [canary|]; [|by exists m0]. destruct (g_harden_mode s); [|by exists m0].
  destruct (word_write_run s A r x (canary x) HS Hx) as (m' & Hrun & Hm & Hl). exists m'. split_and!; [done..|]. by intros _ f [= <-].
Qed.

(** The slot's second word is its canary, and double frees are looked for. *)
Definition looks_freed s (x : Z) : Prop :=
  g_harden_mode s = true ∧ ∃ canary, df_canary = Some canary ∧ load64 (mem_of s) (x + 8) = canary x.

Lemma check_canary_run s A r x :
  sys_ok (g_pools s) A → live_slot A r x →
  (looks_freed s x → check_canary df_canary x s = Aborted) ∧ (¬ looks_freed s x → check_canary df_canary x s = Ok (tt, s)).
Proof.
  intros HS Hx. pose proof (live_size A r x _ HS Hx). unfold check_canary, looks_freed. rewrite (run_bind _ _ _ _ _ (run_gets _ _)).
  destruct df_canary as [canary|]; [|split; [intros (_ & c & E & _); discriminate|done]].
  destruct (g_harden_mode s); [|split; [by intros [? _]|done]].
  assert (Hr : read_word (x + 8) s = Ok (load64 (mem_of s) (x + 8), s)).
  { unfold read_word. rewrite (accessible_live s A r x); [done..|lia|lia]. }
  rewrite (run_bind _ _ _ _ _ Hr). split.
  - intros (_ & c & [= ->] & E). by rewrite E, Z.eqb_refl.
  - intros Hn. rewrite (proj2 (Z.eqb_neq _ _)); [done|]. intros E. apply Hn. eauto.
Qed.

Lemma live_not_null A p r x : sys_ok p A → live_slot A r x → 0 < x.
Proof. intros HS Hx. by apply (live_aligned p A r x HS Hx). Qed.

(** The links of the pools' clients. *)
Lemma fl_get_run A s r x :
  sys_ok (g_pools s) A → live_slot A r x → on_pools (fl_get x) s = Ok (btm_fl_get (mem_of s) x, s).
Proof.
  intros HS Hx. destruct (live_header _ _ r x HS Hx) as (v & Hv & _). unfold on_pools, zoom, fl_get. rewrite Hv.
  by destruct s.
Qed.

Lemma fl_set_run A s r x next :
  sys_ok (g_pools s) A → live_slot A r x → on_pools (fl_set x next) s = Ok (tt, set_mem (btm_fl_set (mem_of s) x next) s).
Proof.
  intros HS Hx. destruct (live_header _ _ r x HS Hx) as (v & Hv & _). unfold on_pools, zoom, fl_set. by rewrite Hv.
Qed.

(** ** Uses of slots *)
Lemma cached_nil_null s G me r b :
  api_ok s G → bin_at s me r = Some b → in_range (g_nparts s) r → b_free_head b = 0 → cached G me r = [].
Proof.
  intros HA Hb Hr H0. pose proof (ao_bin _ _ HA me r Hr) as HB. unfold bin_inv in HB. rewrite Hb in HB.
  destruct (cached G me r) as [|x l] eqn:E; [done|]. pose proof (bg_head _ _ _ _ _ HB) as Hh. simpl in Hh.
  pose proof (live_not_null _ _ r x (ao_sys _ _ HA) (bg_live _ _ _ _ _ HB x ltac:(left))). lia.
Qed.

(** Every other cached slot is clear of the slot [x]. *)
Lemma others_clear s G me r x m' lb :
  api_ok s G → live_slot (gh_sys G) r x → cached G me r = lb → (∀ t, t ≠ me → x ∉ cached G t r) →
  (∀ y, ¬ (x ≤ y < x + btm_sc_to_size r.2) → byte_at m' y = byte_at (mem_of s) y) → others_kept s G (gh_sys G) m' me r.
Proof.
  intros HA Hx Hlb Hn Hm t r' z Hne Hz. pose proof (cached_live HA t r' z Hz) as Hzl. split; [done|].
  intros y Hy. apply Hm. intros Hyx. pose proof (live_size _ _ _ _ (ao_sys _ _ HA) Hzl).
  assert (z ≠ x ∨ r' ≠ r) as Hd.
  { destruct (decide (r' = r)) as [->|]; [left|by right]. intros ->. apply (Hn t); [|done]. intros ->. by apply Hne. }
  destruct (slots_apart HA r' r z x Hzl Hx Hd); lia.
Qed.

(** Bytes outside the slot [x] of chunks are those of other slots and of large objects. *)
Lemma large_bytes_clear s G r x m' :
  api_ok s G → live_slot (gh_sys G) r x →
  (∀ y, ¬ (x ≤ y < x + btm_sc_to_size r.2) → byte_at m' y = byte_at (mem_of s) y) →
  ∀ y, large_byte (large_view (g_pools s)) y → byte_at m' y = byte_at (mem_of s) y.
Proof. intros HA Hx Hm y Hy. apply Hm. intros Hin. by apply (slot_not_large HA r x y Hx Hin). Qed.

(** ** A hit *)
Lemma malloc_hit_spec s G me r b x lb :
  api_ok s G → in_range (g_nparts s) r → bin_at s me r = Some b → cached G me r = x :: lb →
  runs (malloc_hit me r.1 r.2 b) s (λ v s', v = x ∧ table_of s' = table_of s ∧
    let G' := gh_set (gh_sys G) me r lb G in
    goes s G s' G' (slots_after s (λ y r', in_use G y r' ∨ (y = x ∧ r' = r))) ∧ live_slot (gh_sys G) r x).
Proof.
  intros HA Hr Hb Hc. pose proof (ao_bin _ _ HA me r Hr) as HB. unfold bin_inv in HB. rewrite Hb, Hc in HB.
  pose proof HB as [B1 B2 B3 [B4 B4'] B5 B6 B7]. pose proof (sc_cache_range r.2 (proj2 Hr)).
  assert (Hx : live_slot (gh_sys G) r x) by (apply B5; left). unfold malloc_hit. rewrite B1. cbn [hd0].
  apply (runs_step _ _ _ _ _ _ (fl_get_run (gh_sys G) s r x (ao_sys _ _ HA) Hx)). rewrite B4.
  set (b' := mk_bin _ _ _). destruct (set_bin_run s me r b b' Hb Hr) as (s1 & Hrun1 & Hst1 & Hp1 & _).
  apply (runs_step _ _ _ _ _ _ Hrun1).
  destruct (clear_canary_run s1 (gh_sys G) r x) as (m' & Hrun2 & Hm'); [rewrite Hp1; apply HA|done|].
  assert (Hm1 : mem_of s1 = mem_of s) by (unfold mem_of; by rewrite Hp1). rewrite Hm1 in Hm'.
  apply (runs_step _ _ _ _ _ _ Hrun2). apply runs_ret. split; [done|]. cbv zeta.
  pose proof (live_size _ _ _ _ (ao_sys _ _ HA) Hx) as Hsz.
  assert (Hmem : ∀ y, ¬ (x ≤ y < x + btm_sc_to_size r.2) → byte_at m' y = byte_at (mem_of s) y).
  { intros y Hy. apply Hm'. unfold second_word. lia. }
  assert (Hone : ∀ t, t ≠ me → x ∉ cached G t r).
  { intros t Ht Hin. apply Ht. apply (ao_once _ _ HA t me r x Hin). rewrite Hc. left. }
  apply NoDup_cons in B3 as [Hxl Hnd]. split; [|split; [|done]].
  { unfold table_of. cbn. by rewrite Hp1. }
  assert (Ht : table_of (set_mem m' s1) = table_of s) by (unfold table_of; cbn; by rewrite Hp1).
  assert (HA' : api_ok (set_mem m' s1) (gh_set (gh_sys G) me r lb G)).
  { apply (bin_step_ok s G me r b' lb (gh_sys G)); try done.
    - by apply bin_step_pools.
    - cbn. rewrite Hp1. apply (sys_mem _ _ m' (ao_sys _ _ HA)). apply (links_slot _ _ r x); [apply HA|done|done].
    - by rewrite Ht.
    - split; try done; cbn [b_count b_pool b']; cbn in B2, B7.
      + rewrite B2, u32_small by lia. lia.
      + apply (flist_ext (mem_of s)); [|done]. intros z y Hz Hy. symmetry. apply Hmem. intros Hyx.
        destruct (slots_apart HA r r z x) as [Hd|Hd]; [apply B5; by right|done|left; by intros ->|lia..].
      + intros z Hz. apply B5. by right.
      + destruct B6 as [?|[_ ?]]; [by left|done].
      + lia.
    - by apply (others_clear s G me r x m' (x :: lb)).
    - intros t y Hne Hy Hin. apply Hne. apply (ao_once _ _ HA t me r y Hin). rewrite Hc. by right. }
  apply goes_slots; [done|done|cbn; by rewrite Hp1|unfold mesh_on; cbn; by rewrite Hp1|apply (bs_globals _ _ _ _ _ Hst1)|by rewrite Ht| | |].
  - intros y r'. unfold in_use. cbn [gh_sys gh_set]. split.
    + intros [Hl Hn]. destruct (decide (y = x ∧ r' = r)) as [|Hne]; [by right|left]. split; [done|]. intros t Hin.
      apply (Hn t). rewrite cached_set. case_decide as E; [|done]. injection E as -> ->. rewrite Hc in Hin.
      apply elem_of_cons in Hin as [->|]; [|done]. by destruct Hne.
    + intros [[Hl Hn]|[-> ->]].
      * split; [done|]. intros t. rewrite cached_set. case_decide as E; [|done]. injection E as -> ->.
        intros Hin. apply (Hn me). rewrite Hc. by right.
      * split; [done|]. intros t. rewrite cached_set. case_decide as E; [done|]. apply Hone. congruence.
  - intros z r1 r2 y [Hz Hzn] _ Hy. cbn. apply Hmem. intros Hyx.
    destruct (slots_apart HA r1 r z x Hz Hx); [|lia..].
    destruct (decide (r1 = r)) as [->|]; [left|by right]. intros ->. apply (Hzn me). rewrite Hc. left.
  - by apply (large_bytes_clear s G r x m').
Qed.

(** ** A miss *)

(** What a call of the pools does to the owner table and the large objects. *)
Lemma source_table g s p p' :
  p_src p = p_src (g_pools s) → same_source g p p' →
  b_hdrs (p_src p') = b_hdrs (p_src (g_pools s)) ∧
  (∀ y, large_byte (large_view (g_pools s)) y → byte_at (h_mem (p_heap p')) y = byte_at (h_mem (p_heap p)) y) ∧
  table_moves g (table_of s) (b_table (p_src p')) ∧ btm_mesh_mode (b_file (p_src p')) = mesh_on s.
Proof. intros Ep [H1 H2 H3 H4]. rewrite Ep in *. split_and!; [done| |done|done]. intros y Hy. apply H2. exact Hy. Qed.

(** Live bytes kept, seen from the bins. *)
Lemma keeps_others s G A' p' me r :
  api_ok s G → keeps (live_byte (gh_sys G)) (g_pools s) p' →
  (∀ t r' x, (t, r') ≠ (me, r) → x ∈ cached G t r' → live_slot A' r' x) →
  others_kept s G A' (h_mem (p_heap p')) me r.
Proof.
  intros HA HK Hl t r' x Hne Hx. split; [by apply (Hl t)|]. intros y Hy. apply HK.
  pose proof (cached_live HA t r' x Hx) as Hlx. pose proof (live_size _ _ _ _ (ao_sys _ _ HA) Hlx).
  destruct Hlx as (a & Ha & Hout). exists r', a. split; [done|]. exists x. split; [done|lia].
Qed.

Lemma in_use_byte A r x y p : sys_ok p A → live_slot A r x → x ≤ y < x + btm_sc_to_size r.2 → live_byte A y.
Proof. intros _ (a & Ha & Hx) Hy. exists r, a. split; [done|]. by exists x. Qed.

(** Refill found no memory: only the bin's pool pointer was set. *)
Lemma miss_null_ok s G me r b s' :
  api_ok s G → in_range (g_nparts s) r → cached G me r = [] → b_free_head b = 0 → b_count b = 0 → b_pool b = Some r →
  bin_step s me r b s' → sys_ok (g_pools s') (gh_sys G) → keeps (live_byte (gh_sys G)) (g_pools s) (g_pools s') →
  same_source true (g_pools s) (g_pools s') →
  ∃ G', goes s G s' G' (block s G).
Proof.
  intros HA Hr Hc Hb1 Hb2 Hb3 Hst HS HK Hsrc. destruct (source_table true s _ _ eq_refl Hsrc) as (Hh & Hl & Htab%moves_evolves & Hmm).
  pose proof (sc_cache_range r.2 (proj2 Hr)). exists (gh_set (gh_sys G) me r [] G).
  assert (HA' : api_ok s' (gh_set (gh_sys G) me r [] G)).
  { apply (bin_step_ok s G me r b [] (gh_sys G)); try done.
    - split; try done; [constructor|intros x Hx; by apply elem_of_nil in Hx|by left|cbn; lia].
    - apply keeps_others; [done..|]. intros t r' x _. apply (cached_live HA).
    - intros t x _ Hx. by apply elem_of_nil in Hx. }
  eapply goes_iff; [apply (goes_slots s G s' _ (in_use G)); try done; [apply (bs_globals _ _ _ _ _ Hst)| |]|done].
  - intros x r'. unfold in_use. cbn [gh_sys gh_set]. apply and_iff_compat_l. split; intros Hn t.
    + destruct (decide ((t, r') = (me, r))) as [[= -> ->]|Hne]; [rewrite Hc; apply not_elem_of_nil|].
      specialize (Hn t). by rewrite cached_set, decide_False in Hn.
    + rewrite cached_set. case_decide; [apply not_elem_of_nil|apply Hn].
  - intros x r' r'' y [Hx _] _ Hy. apply HK. by apply (in_use_byte _ r' x y _ (ao_sys _ _ HA)).
Qed.

(** Refill took [x] for the caller and [q] for the bin. *)
Lemma miss_some_ok s G me r b x q a a' p' m' s' :
  api_ok s G → in_range (g_nparts s) r → cached G me r = [] → gh_sys G !! r = Some a →
  sys_ok p' (<[r := a']> (gh_sys G)) → keeps (live_byte (gh_sys G)) (g_pools s) p' → taken r a a' (x :: q) →
  bin_ok r (h_mem (p_heap p')) a' b q → b_pool b = Some r → Z.of_nat (length (x :: q)) ≤ btm_cache_max r.2 →
  same_source true (g_pools s) p' → bin_step s me r b s' → g_pools s' = with_mem m' p' →
  (∀ y, ¬ second_word x y → byte_at m' y = byte_at (h_mem (p_heap p')) y) →
  ∃ G', goes s G s' G' (slots_after s (λ y r', in_use G y r' ∨ (y = x ∧ r' = r))) ∧
    live_slot (gh_sys G') r x ∧ ∀ r', ¬ live_slot (gh_sys G) r' x.
Proof.
  intros HA Hr Hc Ha HS HK HT HB Hbp Hlen Hsrc Hst Hp' Hm'. destruct (source_table true s _ _ eq_refl Hsrc) as (Hh & Hl & Htab%moves_evolves & Hmm).
  set (A' := <[r := a']> (gh_sys G)) in *. pose proof HT as [T1 T2 T3].
  pose proof (λ r' y, taken_live (gh_sys G) r a a' (x :: q) r' y Ha HT) as Hgrow. fold A' in Hgrow.
  assert (Hx : live_slot A' r x) by (apply Hgrow; right; split; [done|left]).
  pose proof (live_size A' r x p' HS Hx) as Hsz.
  assert (Hfresh : ∀ r' y z, live_slot (gh_sys G) r' z → y ∈ x :: q → disjoint_blocks y (btm_sc_to_size r.2) z (btm_sc_to_size r'.2)).
  { intros r' y z Hz Hy. by apply (taken_fresh p' (gh_sys G) r a a' (x :: q) y Ha HT HS Hy). }
  assert (Hnew : ∀ r' y, y ∈ x :: q → ¬ live_slot (gh_sys G) r' y).
  { intros r' y Hy Hz. pose proof (live_size _ _ _ _ (ao_sys _ _ HA) Hz). destruct (Hfresh r' y y Hz Hy); lia. }
  assert (Hmem : ∀ y, ¬ (x ≤ y < x + btm_sc_to_size r.2) → byte_at (mem_of s') y = byte_at (h_mem (p_heap p')) y).
  { intros y Hy. unfold mem_of. rewrite Hp'. apply Hm'. unfold second_word. lia. }
  assert (Hold : ∀ r' z y, live_slot (gh_sys G) r' z → z ≤ y < z + btm_sc_to_size r'.2 → byte_at (mem_of s') y = byte_at (mem_of s) y).
  { intros r' z y Hz Hy. rewrite Hmem.
    - apply HK. by apply (in_use_byte _ r' z y _ (ao_sys _ _ HA)).
    - intros Hyx. destruct (Hfresh r' x z Hz ltac:(left)); lia. }
  apply NoDup_cons in T1 as [Hxq Hnd]. exists (gh_set A' me r q G).
  assert (HA' : api_ok s' (gh_set A' me r q G)).
  { apply (bin_step_ok s G me r b q A'); try done.
    - rewrite Hp'. apply sys_mem; [done|]. apply (links_slot _ _ r x); [done..|].
      intros y Hy. rewrite <-Hmem by done. unfold mem_of. by rewrite Hp'.
    - intros r'. unfold A'. destruct (decide (r' = r)) as [->|Hne]; [rewrite lookup_insert_eq, Ha; split; by eexists|].
      by rewrite lookup_insert_ne.
    - unfold table_of. by rewrite Hp'.
    - apply (bin_ok_good _ A' r a'); [apply lookup_insert_eq| |done|cbn [length] in Hlen; lia].
      destruct HB as [B1 B2 B3 B4 B5]. split; try done. apply (flist_ext (h_mem (p_heap p'))); [|done].
      intros z y Hz Hy. symmetry. apply Hmem. intros Hyx.
      assert (Hzl : live_slot A' r z) by (apply Hgrow; right; split; [done|by right]).
      destruct (live_disjoint p' A' r r z x HS Hzl Hx); [intros [= ->]; done|lia..].
    - intros t r' z Hne Hz. pose proof (cached_live HA t r' z Hz) as Hlz. split; [apply Hgrow; by left|].
      intros y Hy. pose proof (live_size _ _ _ _ (ao_sys _ _ HA) Hlz). apply (Hold r' z); [done|lia].
    - intros t z _ Hz Hin. apply (Hnew r z); [by right|]. by apply (cached_live HA t). }
  split; [|split; [done|intros r'; apply Hnew; left]]. apply goes_slots; try done; [by rewrite Hp'|unfold mesh_on; by rewrite Hp'|apply (bs_globals _ _ _ _ _ Hst)|unfold table_of; by rewrite Hp'| | |].
  - intros y r'. unfold in_use. cbn [gh_sys gh_set]. rewrite Hgrow. split.
    + intros [[Hl'|[-> Hy]] Hn].
      * left. split; [done|]. intros t Hin. apply (Hn t). rewrite cached_set. case_decide as E; [|done].
        injection E as -> ->. rewrite Hc in Hin. by apply elem_of_nil in Hin.
      * right. apply elem_of_cons in Hy as [->|Hy]; [done|]. destruct (Hn me). rewrite cached_set. by rewrite decide_True.
    + intros [[Hl' Hn]|[-> ->]].
      * split; [by left|]. intros t. rewrite cached_set. case_decide as E; [|done]. injection E as -> ->.
        intros Hin. by apply (Hnew r y); [right|].
      * split; [right; split; [done|left]|]. intros t. rewrite cached_set. case_decide; [done|]. intros Hin.
        apply (Hnew r x); [left|]. by apply (cached_live HA t).
  - intros z r1 r2 y [Hz _] _ Hy. by apply (Hold r1 z).
  - intros y Hy. rewrite Hmem; [by apply Hl|]. intros Hyx.
    destruct (sys_guests p' A' HS) as (P & HG & _). apply (live_mapped p' A' r x y HS Hx); [lia|].
    unfold large_byte, large_at, large_view in *. cbn [l_hdrs] in *. by rewrite Hh.
Qed.

(** What [btm_malloc_at] promises: NULL and nothing changed, or a new block; the owner
    table only grows. *)
Definition malloc_gives s G (size : Z) (x : Z) s' : Prop :=
  table_moves true (table_of s) (table_of s') ∧
  ∃ G', (x = 0 ∧ goes s G s' G' (block s G)) ∨
    (0 < x ∧ x mod BTM_ALIGNMENT = 0 ∧ ∃ n, size ≤ n ∧ (∀ m, ¬ block s G x m) ∧
      goes s G s' G' (λ y m, block s G y m ∨ (y = x ∧ m = n))).

Lemma gives_slot s G r x s' G' (Hfresh : ∀ m, ¬ block s G x m) :
  table_moves true (table_of s) (table_of s') →
  goes s G s' G' (slots_after s (λ y r', in_use G y r' ∨ (y = x ∧ r' = r))) → live_slot (gh_sys G') r x →
  ∀ size, size ≤ btm_sc_to_size r.2 → malloc_gives s G size x s'.
Proof.
  intros Ht HG Hx size Hs. split; [done|]. exists G'. right. destruct (live_aligned _ _ r x (ao_sys _ _ (go_ok _ _ _ _ _ HG)) Hx) as (? & _ & ?).
  split; [done|]. split; [done|]. exists (btm_sc_to_size r.2). split; [done|]. split; [done|].
  eapply goes_iff; [exact HG|]. intros y m. unfold slots_after, block. split.
  - intros [(r' & [Hu|[-> ->]] & ->)|Hl]; [left; left; by exists r'|by right|left; by right].
  - intros [[(r' & Hu & ->)|Hl]|[-> ->]]; [left; exists r'; split; [by left|done]|by right|].
    left. exists r. split; [by right|done].
Qed.

(** A slot is no large block; a cached slot is no block at all. *)
Lemma slot_large_block s G r x m : api_ok s G → live_slot (gh_sys G) r x → ¬ large_block (large_view (g_pools s)) x m.
Proof.
  intros HA Hx (base & hd & Hb & Ex & _). pose proof (live_size _ _ _ _ (ao_sys _ _ HA) Hx).
  apply (slot_not_large HA r x x Hx); [lia|].
  destruct (sys_guests _ _ (ao_sys _ _ HA)) as (P & HG & _). destruct (gs_large _ _ HG base hd Hb) as [_ Hl].
  pose proof (ll_off _ _ _ _ Hl). exists base, hd. split; [done|lia].
Qed.

Lemma cached_no_block s G t r x m : api_ok s G → x ∈ cached G t r → ¬ block s G x m.
Proof.
  intros HA Hx [(r' & [Hl Hn] & _)|Hb]; pose proof (cached_live HA t r x Hx) as Hlx; [|by apply (slot_large_block s G r x m)].
  assert (r' = r) as -> by (apply (live_unique (g_pools s) (gh_sys G) r' r x); [apply HA|done..]). by apply (Hn t).
Qed.

(** ** The bin and its pool *)
Lemma on_bin_run s0 s me r b b' p' :
  bin_step s0 me r b s → in_range (g_nparts s0) r →
  ∃ s', set_bin me r.1 r.2 b' (set_pools p' s) = Ok (tt, s') ∧ bin_step s0 me r b' s' ∧ g_pools s' = p'.
Proof.
  intros Hst Hr. pose proof (bin_step_pools s0 me r b p' s Hst) as Hst'.
  assert (Hb : bin_at (set_pools p' s) me r = Some b) by (rewrite (bs_bin _ _ _ _ _ Hst') by done; by rewrite decide_True).
  assert (Hr' : in_range (g_nparts (set_pools p' s)) r) by (by rewrite (sg_nparts _ _ (bs_globals _ _ _ _ _ Hst'))).
  destruct (set_bin_run _ me r b b' Hb Hr') as (s' & Hrun & Hst2 & Hp & _). exists s'.
  split_and!; [done|by eapply bin_step_trans|done].
Qed.

Lemma refill_bin_run s0 s me r b b' want x p' :
  bin_step s0 me r b s → in_range (g_nparts s0) r → btm_pool_refill r b want (g_pools s) = Ok ((x, b'), p') →
  ∃ s', refill_bin me r.1 r.2 b want s = Ok (x, s') ∧ bin_step s0 me r b' s' ∧ g_pools s' = p'.
Proof.
  intros Hst Hr Hrun. destruct (on_bin_run s0 s me r b b' p' Hst Hr) as (s' & Hset & Hst' & Hp). exists s'.
  split; [|done]. unfold refill_bin. rewrite <-surjective_pairing. erewrite run_bind by (apply run_zoom, Hrun). cbv beta iota.
  by erewrite run_bind by exact Hset.
Qed.

Lemma flush_bin_run s0 s me r b b' keep p' :
  bin_step s0 me r b s → in_range (g_nparts s0) r → btm_pool_flush b keep (g_pools s) = Ok (b', p') →
  ∃ s', flush_bin me r.1 r.2 b keep s = Ok (tt, s') ∧ bin_step s0 me r b' s' ∧ g_pools s' = p'.
Proof.
  intros Hst Hr Hrun. destruct (on_bin_run s0 s me r b b' p' Hst Hr) as (s' & Hset & Hst' & Hp). exists s'.
  split; [|done]. unfold flush_bin. by erewrite run_bind by (apply run_zoom, Hrun).
Qed.

Lemma record_sample_run s0 s me r b part ra :
  g_partitions s0 = true → bin_step s0 me r b s → part < g_nparts s0 → ∃ m, record_sample part ra s = Ok (tt, set_sample m s).
Proof.
  intros Hp [[[_ Gp] Gn _ _] _ _ _] Hlt. unfold record_sample, sample_at, mbind, M_bind. rewrite Gp, Hp, Gn.
  rewrite (proj2 (Z.ltb_lt _ _)) by done. cbn [andb]. destruct (_ =? 0); [by eexists|]. exists (g_sample s). by destruct s.
Qed.

Lemma miss_gives s G me r b x q a a' p' m' s' size :
  api_ok s G → in_range (g_nparts s) r → cached G me r = [] → gh_sys G !! r = Some a →
  sys_ok p' (<[r := a']> (gh_sys G)) → keeps (live_byte (gh_sys G)) (g_pools s) p' → taken r a a' (x :: q) →
  bin_ok r (h_mem (p_heap p')) a' b q → b_pool b = Some r → Z.of_nat (length (x :: q)) ≤ btm_cache_max r.2 →
  same_source true (g_pools s) p' → bin_step s me r b s' → g_pools s' = with_mem m' p' →
  (∀ y, ¬ second_word x y → byte_at m' y = byte_at (h_mem (p_heap p')) y) → size ≤ btm_sc_to_size r.2 →
  malloc_gives s G size x s'.
Proof.
  intros HA Hr Hc Ha HS HK HT HB Hbp Hlen Hsrc Hst Hp' Hm' Hsize.
  destruct (miss_some_ok s G me r b x q a a' p' m' s' HA Hr Hc Ha HS HK HT HB Hbp Hlen Hsrc Hst Hp' Hm') as (G' & HG & Hl & Hnew).
  destruct (source_table true s _ p' eq_refl Hsrc) as (Hh & _ & Htab & Hmm).
  apply (gives_slot s G r x s' G'); [|unfold table_of at 2; by rewrite Hp'|done..]. intros n [(r' & [Hu _] & _)|Hb]; [by apply (Hnew r')|].
  apply (slot_large_block s' G' r x n (go_ok _ _ _ _ _ HG) Hl).
  apply (large_block_hdrs (g_pools s)); [by rewrite Hp'|done].
Qed.

Lemma malloc_miss_spec s G me r b ra size :
  api_ok s G → in_range (g_nparts s) r → bin_at s me r = Some b → cached G me r = [] → size ≤ btm_sc_to_size r.2 →
  runs (malloc_miss me r.1 r.2 ra b) s (malloc_gives s G size).
Proof.
  intros HA Hr Hb Hc Hsize. pose proof (ao_bin _ _ HA me r Hr) as HB. unfold bin_inv in HB. rewrite Hb, Hc in HB.
  pose proof HB as [B1 B2 _ _ _ _ _]. cbn in B1, B2. pose proof (sc_cache_range r.2 (proj2 Hr)) as Hcap.
  unfold malloc_miss. rewrite B1, B2, <-surjective_pairing. set (b1 := mk_bin 0 (Some r) 0).
  destruct (set_bin_run s me r b b1 Hb Hr) as (s1 & Hrun1 & Hst1 & Hp1 & _). apply (runs_step _ _ _ _ _ _ Hrun1).
  destruct (record_sample_run s s1 me r b1 r.1 ra (proj2 (ao_ready _ _ HA)) Hst1 (proj2 (proj1 Hr))) as (m & Hrun2).
  apply (runs_step _ _ _ _ _ _ Hrun2). pose proof (bin_step_sample s me r b1 m s1 Hst1) as Hst2.
  rewrite (proj2 (Z.ltb_ge _ _)) by (apply Z.div_le_lower_bound; lia). set (want := btm_cache_max r.2 / 2).
  assert (Hw : 1 ≤ want ≤ 128) by (unfold want; split; [apply Z.div_le_lower_bound|apply Z.div_le_upper_bound]; lia).
  assert (Hwc : want ≤ btm_cache_max r.2) by (apply Z.div_le_upper_bound; lia).
  destruct (proj2 (ao_pools _ _ HA r) Hr) as [a Ha].
  assert (HB1 : bin_ok r (h_mem (p_heap (g_pools s))) a b1 []) by (split; [done|done|constructor|done|intros y Hy; by apply elem_of_nil in Hy]).
  destruct (sys_refill true (g_pools s) (gh_sys G) r a b1 [] want (ao_sys _ _ HA) Ha HB1)
    as [(p' & Hrun & HS & HK & Hsrc)|(x & q & p' & a' & b' & Hrun & HS & HK & HT & HB' & Hn & Hbp & Hsrc)]; [lia|cbn; lia|..];
    rewrite <-Hp1 in Hrun; destruct (refill_bin_run s (set_sample m s1) me r b1 _ want _ p' Hst2 Hr Hrun) as (s3 & Hrun3 & Hst3 & Hp3);
    apply (runs_step _ _ _ _ _ _ Hrun3).
  - apply (runs_step _ _ _ s3 tt); [done|]. apply runs_ret. rewrite <-Hp3 in *.
    destruct (miss_null_ok s G me r b1 s3 HA Hr Hc) as (G' & HG); try done. split; [apply (source_table true s _ _ eq_refl Hsrc)|]. exists G'. by left.
  - rewrite app_nil_r in HB'.
    assert (Hlx : live_slot (<[r := a']> (gh_sys G)) r x) by (eapply taken_live; [done..|]; right; split; [done|left]).
    pose proof (live_not_null _ _ r x HS Hlx). rewrite (proj2 (Z.eqb_neq x 0)) by lia.
    destruct (clear_canary_run s3 (<[r := a']> (gh_sys G)) r x) as (m' & Hrun4 & Hm'); [by rewrite Hp3|done|].
    apply (runs_step _ _ _ _ _ _ Hrun4). apply runs_ret. unfold mem_of in Hm'. rewrite Hp3 in Hm'.
    apply (miss_gives s G me r b' x q a a' p' m'); try done; [lia|by apply bin_step_pools|].
    unfold set_mem. cbn. by rewrite Hp3.
Qed.

(** Quiet steps before an allocation. *)
Lemma quiet_gives s G s1 G1 size x s' : quiet s G s1 G1 → malloc_gives s1 G1 size x s' → malloc_gives s G size x s'.
Proof.
  intros HQ [Ht (G' & [[-> HG]|(Hx & Hal & n & Hs & Hfr & HG)])]; (split; [by rewrite <-(proj2 (proj2 HQ))|]); exists G'; [left|right].
  - split; [done|]. eapply goes_iff; [by eapply quiet_goes|]. intros y n. by apply quiet_block.
  - split_and!; [done..|]. exists n. split_and!; [done| |].
    + intros m Hb'. apply (Hfr m). by apply (quiet_block s G s1 G1).
    + eapply goes_iff; [by eapply quiet_goes|]. intros y m. cbv beta. by rewrite (quiet_block s G s1 G1) by done.
Qed.

(** The whole small path, with a TLS block. *)
Lemma malloc_small_spec s G me sc ra size :
  api_ok s G → valid_sc sc → size ≤ btm_sc_to_size sc → ra ≠ 0 → is_Some (th_tls (thread_at s me)) →
  runs (malloc_small me sc ra) s (malloc_gives s G size).
Proof.
  intros HA Hsc Hsize Hra [t Ht]. unfold malloc_small.
  apply (runs_bind _ _ _ _ _ (partition_of_spec s G me ra HA Hra)). intros part s1 (Hpart & HQ & Hp & Hn & Hth).
  pose proof (go_ok _ _ _ _ _ (proj1 HQ)) as HA1. set (r := (part, sc)). assert (Hr : in_range (g_nparts s1) r) by (rewrite Hn; by split).
  assert (Hb : ∃ b, bin_at s1 me r = Some b) by (unfold bin_at; rewrite Hth, Ht; by eexists). destruct Hb as [b Hb].
  apply (runs_step _ _ _ _ _ _ (bin_at_run s1 me r b Hb Hr)).
  eapply runs_mono; [|intros x s'; by apply (quiet_gives s G s1 G)]. destruct (Z.eqb_spec (b_free_head b) 0) as [H0|H0].
  - apply (malloc_miss_spec s1 G me r b ra size); try done. by apply (cached_nil_null s1 G me r b).
  - pose proof (ao_bin _ _ HA1 me r Hr) as HB. unfold bin_inv in HB. rewrite Hb in HB.
    destruct (cached G me r) as [|x lb] eqn:Hc; [by rewrite (bg_head _ _ _ _ _ HB) in H0|].
    eapply runs_mono; [by apply (malloc_hit_spec s1 G me r b x lb)|]. intros y s' (-> & Ht' & HG & Hl).
    eapply gives_slot; [|by rewrite Ht'|exact HG|exact Hl|done]. intros m. apply (cached_no_block s1 G me r); [done|]. rewrite Hc. left.
Qed.

(** ** Freeing a slot *)

(** The slots out of the pools after the first [k] of [L] went back to pool [r]. *)
Definition flushed A A' r (k : nat) (L : list Z) : Prop :=
  (∀ r', is_Some (A' !! r') ↔ is_Some (A !! r')) ∧
  ∀ r' y, live_slot A' r' y ↔ live_slot A r' y ∧ ¬ (r' = r ∧ y ∈ take k L).

Lemma flushed_refl A r L : flushed A A r 0 L.
Proof. split; [done|]. intros r' y. rewrite take_0. split; [|by intros [? _]]. intros H. split; [done|]. intros [_ Hn]. by apply elem_of_nil in Hn. Qed.

Lemma flushed_insert A r a a' k L :
  A !! r = Some a → (∀ x, outstanding_slot r a' x ↔ outstanding_slot r a x ∧ x ∉ take k L) → flushed A (<[r := a']> A) r k L.
Proof.
  intros Ha Hout. split.
  - intros r'. destruct (decide (r' = r)) as [->|]; [rewrite lookup_insert_eq, Ha; split; by eexists|by rewrite lookup_insert_ne].
  - intros r' y. unfold live_slot. destruct (decide (r' = r)) as [->|Hne].
    + rewrite lookup_insert_eq. split.
      * intros (a2 & [= <-] & [Hy Hn]%Hout). split; [by exists a|]. by intros [_ ?].
      * intros [(a2 & Ha2 & Hy) Hn]. exists a'. split; [done|]. apply Hout. assert (a2 = a) as -> by congruence. split; [done|]. tauto.
    + rewrite lookup_insert_ne by done. split; [|by intros [? _]]. intros H. split; [done|]. by intros [? _].
Qed.

(** A freed slot [x] is in front of the bin; [k] slots of the bin went back to the pool. *)
Lemma freed_ok s G me r b x k A' p' s' m :
  api_ok s G → in_range (g_nparts s) r → in_use G x r → let L := x :: cached G me r in
  (∀ y, ¬ (x ≤ y < x + btm_sc_to_size r.2) → byte_at m y = byte_at (mem_of s) y) →
  flushed (gh_sys G) A' r k L → keeps (live_byte A') (with_mem m (g_pools s)) p' → same_source false (with_mem m (g_pools s)) p' →
  sys_ok p' A' → bin_good (h_mem (p_heap p')) A' r b (drop k L) → bin_step s me r b s' → g_pools s' = p' →
  ∃ G', goes s G s' G' (slots_after s (λ y r', in_use G y r' ∧ ¬ (y = x ∧ r' = r))) ∧
    cached G' me r = drop k L.
Proof.
  intros HA Hr [Hx Hxn] L Hm [Hdom Hlive] HK Hsrc HS HB Hst Hp'.
  destruct (source_table false s (with_mem m (g_pools s)) p' eq_refl Hsrc) as (Hh & Hl & Htab & Hmm).
  exists (gh_set A' me r (drop k L) G).
  assert (Hold : ∀ r' z y, live_slot A' r' z → z ≠ x → z ≤ y < z + btm_sc_to_size r'.2 → byte_at (mem_of s') y = byte_at (mem_of s) y).
  { intros r' z y Hz Hne Hy. unfold mem_of at 1. rewrite Hp', HK by (by apply (in_use_byte A' r' z y p' HS)). apply Hm.
    intros Hyx. apply Hlive in Hz as [Hz _]. destruct (slots_apart HA r' r z x Hz Hx ltac:(by left)); lia. }
  assert (HL : ∀ t z, z ∈ L → t ≠ me → z ∉ cached G t r).
  { intros t z [->|Hz]%elem_of_cons Ht; [apply Hxn|]. intros Hin. apply Ht. by apply (ao_once _ _ HA t me r z). }
  assert (HA' : api_ok s' (gh_set A' me r (drop k L) G)).
  { apply (bin_step_ok s G me r b (drop k L) A'); try done; [by rewrite Hp'|unfold table_of; by rewrite Hp'|unfold mem_of; by rewrite Hp'| |].
    - intros t r' z Hne Hz. pose proof (cached_live HA t r' z Hz) as Hlz.
      assert (Hz' : live_slot A' r' z).
      { apply Hlive. split; [done|]. intros [-> Hin]. apply (HL t z); [by eapply subseteq_take|congruence|done]. }
      split; [done|]. intros y Hy. pose proof (live_size _ _ _ _ (ao_sys _ _ HA) Hlz). apply (Hold r' z); [done| |lia].
      intros ->. apply (Hxn t). by rewrite (live_unique (g_pools s) (gh_sys G) r r' x (ao_sys _ _ HA) Hx Hlz).
    - intros t z Ht Hz. apply HL; [by eapply subseteq_drop|done]. }
  split; [|by rewrite cached_set, decide_True].
  apply goes_slots; try done; [by rewrite Hp'|unfold mesh_on; by rewrite Hp'|apply (bs_globals _ _ _ _ _ Hst)|unfold table_of; by rewrite Hp'| | |].
  - intros y r'. unfold in_use. cbn [gh_sys gh_set]. rewrite Hlive. split.
    + intros [[Hy Hnt] Hn]. assert (HyL : ¬ (r' = r ∧ y ∈ L)).
      { intros [-> Hin]. rewrite <-(take_drop k L) in Hin. apply elem_of_app in Hin as [|Hin]; [by apply Hnt|].
        apply (Hn me). by rewrite cached_set, decide_True. }
      split; [split; [done|]|intros [-> ->]; apply HyL; split; [done|left]].
      intros t Hin. apply (Hn t). rewrite cached_set. case_decide as E; [|done]. injection E as -> ->.
      destruct HyL. split; [done|by right].
    + intros [[Hy Hn] Hne]. assert (HyL : ¬ (r' = r ∧ y ∈ L)).
      { intros [-> [->|Hin]%elem_of_cons]; [by apply Hne|by apply (Hn me)]. }
      split; [split; [done|]|].
      * intros [-> Hin]. apply HyL. split; [done|]. by eapply subseteq_take.
      * intros t. rewrite cached_set. case_decide as E; [|apply Hn]. injection E as -> ->. intros Hin. apply HyL. split; [done|].
        by eapply subseteq_drop.
  - intros z r1 r2 y [Hz Hzn] [[Hz2 _] Hne] Hy.
    assert (r2 = r1) as -> by (by apply (live_unique (g_pools s) (gh_sys G) r2 r1 z (ao_sys _ _ HA))).
    apply (Hold r1 z); [| |done].
    + apply Hlive. split; [done|]. intros [-> Hin]. assert (HinL : z ∈ L) by (by eapply subseteq_take).
      apply elem_of_cons in HinL as [->|HinL]; [by apply Hne|by apply (Hzn me)].
    + intros ->. apply Hne. split; [done|]. by apply (live_unique (g_pools s) (gh_sys G) r1 r x (ao_sys _ _ HA)).
  - intros y Hy. unfold mem_of at 1. rewrite Hp', Hl by done. by apply (large_bytes_clear s G r x m HA Hx Hm).
Qed.

(** The bin with the freed slot in front, whatever is stamped past its link. *)
Lemma push_bin s G me r b x m :
  api_ok s G → in_range (g_nparts s) r → bin_at s me r = Some b → in_use G x r →
  (∀ y, ¬ second_word x y → byte_at m y = byte_at (btm_fl_set (mem_of s) x (b_free_head b)) y) →
  let b1 := mk_bin x (Some r) (u32 (b_count b + 1)) in let L := x :: cached G me r in
  (∀ y, ¬ (x ≤ y < x + btm_sc_to_size r.2) → byte_at m y = byte_at (mem_of s) y) ∧
  Z.of_nat (length L) ≤ btm_cache_max r.2 + 1 ∧ b_count b1 = Z.of_nat (length L) ∧
  ∃ a, gh_sys G !! r = Some a ∧ bin_ok r m a b1 L.
Proof.
  intros HA Hr Hb [Hx Hxn] Hm b1 L. pose proof (ao_bin _ _ HA me r Hr) as HB. unfold bin_inv in HB. rewrite Hb in HB.
  pose proof HB as [B1 B2 B3 B4 B5 _ B7]. pose proof (sc_cache_range r.2 (proj2 Hr)) as Hcap.
  pose proof (live_size _ _ _ _ (ao_sys _ _ HA) Hx) as Hsz. destruct (live_aligned _ _ r x (ao_sys _ _ HA) Hx) as (_ & Hxa & _).
  assert (Hmem : ∀ y, ¬ (x ≤ y < x + btm_sc_to_size r.2) → byte_at m y = byte_at (mem_of s) y).
  { intros y Hy. rewrite Hm by (unfold second_word; lia). apply fl_set_outside. lia. }
  assert (Hcnt : b_count b1 = Z.of_nat (length L)) by (cbn; rewrite B2, u32_small; lia).
  split_and!; [done|cbn [length L]; lia|done|]. destruct (proj2 (ao_pools _ _ HA r) Hr) as [a Ha]. exists a. split; [done|].
  pose proof (bin_good_ok _ _ r a b _ Ha HB) as [_ _ _ _ C5]. split; [done|done|apply NoDup_cons; split; [apply Hxn|done]| |].
  - cbn [flist L]. split.
    + rewrite <-B1. etrans; [apply (fl_get_ext m (btm_fl_set (mem_of s) x (b_free_head b)))|apply fl_get_set_same; [done|]].
      * intros y Hy. apply Hm. unfold second_word. lia.
      * rewrite B1. destruct (cached G me r) as [|z l]; [unfold addr_ok; simpl; lia|].
        apply (live_aligned _ _ r z (ao_sys _ _ HA)). apply B5. left.
    + apply (flist_ext (mem_of s)); [|done]. intros z y Hz Hy. symmetry. apply Hmem. intros Hyx.
      destruct (slots_apart HA r r z x (B5 z Hz) Hx); [left; intros ->; by apply (Hxn me)|lia..].
  - intros z [->|Hz]%elem_of_cons; [|by apply C5]. destruct Hx as (a2 & Ha2 & Hx). congruence.
Qed.

(** A thread keeps its block. *)
Lemma bin_step_tls s me r b s' : bin_step s me r b s' → is_Some (th_tls (thread_at s me)) → is_Some (th_tls (thread_at s' me)).
Proof. intros [_ _ R _] [t Ht]. specialize (R me). rewrite Ht in R. destruct (th_tls (thread_at s' me)); [by eexists|done]. Qed.

Lemma free_cached_spec s G me r x v :
  api_ok s G → in_use G x r → is_Some (th_tls (thread_at s me)) → c_sc v = r.2 → c_part_idx v = r.1 → c_pool v = Some r →
  ¬ looks_freed s x →
  runs (free_cached df_canary me x v) s (λ _ s', ∃ G',
    goes s G s' G' (slots_after s (λ y r', in_use G y r' ∧ ¬ (y = x ∧ r' = r))) ∧ is_Some (th_tls (thread_at s' me)) ∧
    (Z.of_nat (length (cached G me r)) < btm_cache_max r.2 → cached G' me r = x :: cached G me r ∧ table_of s' = table_of s ∧
      ∀ f, df_canary = Some f → g_harden_mode s = true → 0 ≤ f x < 2 ^ 64 → looks_freed s' x)).
Proof.
  intros HA Hu [t Ht] E1 E2 E3 Hnf. pose proof (proj1 Hu) as Hx. pose proof (live_in_range HA r x Hx) as Hr.
  assert (Hb : ∃ b, bin_at s me r = Some b) by (unfold bin_at; rewrite Ht; by eexists). destruct Hb as [b Hb].
  unfold free_cached. rewrite E1, E2, E3.
  apply (runs_step _ _ _ _ _ _ (proj2 (check_canary_run s (gh_sys G) r x (ao_sys _ _ HA) Hx) Hnf)).
  apply (runs_step _ _ _ _ _ _ (bin_at_run s me r b Hb Hr)).
  set (m1 := btm_fl_set (mem_of s) x (b_free_head b)). set (b1 := mk_bin x (Some r) (u32 (b_count b + 1))).
  apply (runs_step _ _ _ _ _ _ (fl_set_run (gh_sys G) s r x _ (ao_sys _ _ HA) Hx)). fold m1.
  pose proof (bin_step_pools s me r b (g_pools (set_mem m1 s)) s (bin_step_refl s me r b Hb)) as Hst0.
  destruct (set_bin_run (set_mem m1 s) me r b b1 Hb Hr) as (s1 & Hrun1 & Hst1 & Hp1 & _). apply (runs_step _ _ _ _ _ _ Hrun1).
  pose proof (bin_step_trans s me r b b1 _ s1 Hst0 Hst1) as Hst.
  pose proof (live_size _ _ _ _ (ao_sys _ _ HA) Hx) as Hsz.
  assert (HS1 : sys_ok (g_pools s1) (gh_sys G)).
  { rewrite Hp1. apply (sys_mem _ _ m1 (ao_sys _ _ HA)), (links_slot _ _ r x _ (ao_sys _ _ HA) Hx). intros y Hy. apply fl_set_outside. lia. }
  destruct (stamp_canary_run s1 (gh_sys G) r x HS1 Hx) as (m & Hrun2 & Hm & Hcan). apply (runs_step _ _ _ _ _ _ Hrun2).
  assert (Hm1 : mem_of s1 = m1) by (unfold mem_of; by rewrite Hp1). rewrite Hm1 in Hm.
  destruct (push_bin s G me r b x m HA Hr Hb Hu Hm) as (Hmem & Hlen & Hcnt & a & Ha & HB).
  assert (Hp2 : g_pools (set_mem m s1) = with_mem m (g_pools s)) by (unfold set_mem; cbn; by rewrite Hp1).
  assert (HS2 : sys_ok (with_mem m (g_pools s)) (gh_sys G)) by (apply (sys_mem _ _ m (ao_sys _ _ HA)), (links_slot _ _ r x _ (ao_sys _ _ HA) Hx Hmem)).
  pose proof (bin_step_pools s me r b1 (g_pools (set_mem m s1)) s1 Hst) as Hst2. set (L := x :: cached G me r) in *.
  pose proof (sc_cache_range r.2 (proj2 Hr)) as Hcap. fold b1 in Hcnt. rewrite Hcnt. destruct (Z.ltb_spec (btm_cache_max r.2) (Z.of_nat (length L))) as [Hfull|Hroom].
  - set (keep := btm_cache_max r.2 / 2).
    assert (0 ≤ keep ≤ btm_cache_max r.2) by (unfold keep; split; [apply Z.div_pos|apply Z.div_le_upper_bound]; lia).
    destruct (sys_flush (with_mem m (g_pools s)) (gh_sys G) r a b1 L keep HS2 Ha HB eq_refl) as (p' & a' & b2 & Hrun3 & HS3 & HK & HB2 & Hbp & Hout & Hsrc); [lia..|].
    rewrite <-Hp2 in Hrun3. destruct (flush_bin_run s _ me r b1 b2 keep p' Hst2 Hr Hrun3) as (s3 & Hrun4 & Hst3 & Hp3).
    exists tt, s3. split; [done|]. pose proof (bin_step_tls s me r b2 s3 Hst3 ltac:(by rewrite Ht)) as Ht3.
    destruct (freed_ok s G me r b2 x _ (<[r := a']> (gh_sys G)) p' s3 m HA Hr Hu Hmem (flushed_insert _ r a a' _ L Ha Hout) HK Hsrc HS3) as (G' & HG & _); [|done..|].
    + apply (bin_ok_good _ _ r a'); [apply lookup_insert_eq|done|done|]. rewrite length_drop, Hcnt. fold L. lia.
    + exists G'. split_and!; [done..|]. intros Hlt. unfold L in Hfull. cbn [length] in Hfull. lia.
  - exists tt. eexists. split; [reflexivity|].
    destruct (freed_ok s G me r b1 x 0 (gh_sys G) (with_mem m (g_pools s)) (set_mem m s1) m HA Hr Hu Hmem (flushed_refl _ r L)) as (G' & HG & Hc'); try done.
    + rewrite drop_0. by apply (bin_ok_good _ _ r a).
    + exists G'. split; [done|]. split; [apply (bin_step_tls s me r b1 _ Hst2); by rewrite Ht|]. intros _. split; [by rewrite Hc', drop_0|].
      split; [unfold table_of; by rewrite Hp2|]. intros f Ef Eh Hf. pose proof (sg_harden _ _ (bs_globals _ _ _ _ _ Hst)) as Eh1.
      split; [cbn; by rewrite Eh1|]. exists f. split; [done|]. apply Hcan; [by rewrite Eh1|done|done].
Qed.
End small.
