(* ===== verification/ApiLarge.v ===== *)
(** * ApiLarge: large objects among the blocks of the process

    [btm_large_alloc], [btm_large_free], [btm_large_usable_size] and [btm_large_realloc]
    as the API runs them on the whole process: what they do to the blocks, and that the
    pools, the bins and the chunk source do not see them.  A resizing that the kernel
    answers with a place off the 2 MiB boundaries ([displaces]) keeps the blocks and breaks
    the owner table ([realloc_displaced]). *)

From stdpp Require Import prelude gmap.
From S2P Require Import Prelude Memory SizeClass Freelist Registry Engine Callsite Os Large Heap Memfd Dll Pool PoolInv PoolFrame PoolRun PoolRefill PoolSys PoolOps Space Background BgLaws Api ApiInv ApiStep ApiSmall.
Local Open Scope Z_scope.

Section large_api.
Context {F : FlOps} {FL : FlLaws F} {Krn : OS} {KL : OSLaws Krn} {T : Type} {OT : OwnerTable T} {OE : OwnerEngine T}
  {EL : OwnerEngineLaws T OT OE}.
Implicit Types (p : pstate (bstate T)) (A : asys) (r : pool_ref) (s : astate T) (G : aghost) (v : lstate T).

(** The address [y] lies in a chunk of the pools. *)
Definition chunk_byte A (y : Z) : Prop := ∃ c, c ∈ chunks_of A ∧ c ≤ y < c + BTM_CHUNK_SIZE.

(** The large objects change beside the pools and the chunk source. *)
Lemma sys_large p A v' :
  sys_ok p A → (∀ P, guests_ok P (large_view p) → guests_ok P v') →
  (∀ y, chunk_byte A y → byte_at (l_mem v') y = byte_at (h_mem (p_heap p)) y) → sys_ok (set_large v' p) A.
Proof.
  intros HS HG Hm. pose proof HS as [S1 S2 S3 S4 S5 S6].
  assert (Hl : links_kept A p (l_mem v')).
  { intros r a d l x y Ha Hd Hx Hy. apply Hm. destruct (S2 r a Ha) as (pl & _ & I). pose proof (S1 r a Ha) as Hv.
    pose proof (inv_slab_in r Hv I d l Hd) as Hd1. pose proof (pi_slab _ _ _ _ _ I d l Hd) as W.
    pose proof (slot_bounds r (proj1 Hv) d x Hd1 (sw_slots _ _ _ _ _ W _ Hx)) as (_ & _ & ? & L1 & U1).
    exists (chunk_of d). split; [apply elem_of_chunks_of; exists r, a; split; [done|apply W]|lia]. }
  pose proof (sys_mem p A (l_mem v') HS Hl) as [_ M2 _ _ _ _]. split; [done|exact M2| |done..].
  destruct S3 as (W & D & Q & [I1 I2 I3 I4 I5 I6 I7 I8 I9 I10] & Hpc). exists W, D, Q. split; [|done].
  split; try done. destruct v'. exact (HG _ I1).
Qed.

(** What a call on the large objects leaves of the rest of the process. *)
Lemma large_goes s G v' (P : Z → Z → Prop) :
  api_ok s G → (∀ P, guests_ok P (large_view (g_pools s)) → guests_ok P v') → table_evolves (table_of s) (l_reg v') →
  (∀ y, chunk_byte (gh_sys G) y → byte_at (l_mem v') y = byte_at (mem_of s) y) →
  (∀ x n, large_block v' x n ↔ P x n) →
  (∀ x n y, large_block (large_view (g_pools s)) x n → P x n → x ≤ y < x + n → byte_at (l_mem v') y = byte_at (mem_of s) y) →
  goes s G (set_pools (set_large v' (g_pools s)) s) G (λ x n, (∃ r, in_use G x r ∧ n = btm_sc_to_size r.2) ∨ P x n).
Proof.
  intros HA HG Ht Hm HP Hb. 
  assert (Hlive : ∀ r x y, live_slot (gh_sys G) r x → x ≤ y < x + btm_sc_to_size r.2 → byte_at (l_mem v') y = byte_at (mem_of s) y).
  { intros r x y Hx Hy. apply Hm. destruct (live_header _ _ r x (ao_sys _ _ HA) Hx) as (_ & _ & _ & _ & _ & Hc).
    destruct (live_chunk_space _ _ r x (ao_sys _ _ HA) Hx) as (_ & ? & ?). exists (chunk_of x). split; [done|lia]. }
  split; [| | |done..].
  - replace G with (mk_ghost (gh_sys G) (gh_cache G)) by (by destruct G). apply pools_ok; try done; [by apply sys_large; [apply HA|..]|]. intros t r x Hx. pose proof (cached_live HA t r x Hx) as Hl. split; [done|].
    intros y Hy. pose proof (live_size _ _ _ _ (ao_sys _ _ HA) Hl). apply (Hlive r x y Hl). lia.
  - intros x n. unfold block. cbn [gh_sys]. apply or_iff_compat_l. apply HP.
  - intros x n y [(r & [Hx _] & ->)|Hl] HPx Hy; [by apply (Hlive r x)|]. apply (Hb x n y Hl); [|done].
    destruct HPx as [(r & [Hx _] & _)|]; [|done]. by destruct (slot_large_block s G r x n HA Hx Hl).
Qed.

(** Bytes of chunks and of large objects are mapped. *)
Lemma chunk_byte_mapped p A y : sys_ok p A → chunk_byte A y → k_mapped (b_kernel (p_src p)) y = true ∧ ¬ large_byte (large_view p) y.
Proof.
  intros HS (c & Hc & Hy). destruct (sys_guests p A HS) as (P & HG & HP). pose proof (gs_chunk _ _ HG c (proj1 (HP c Hc))) as Hck.
  split; [by apply (ck_mapped _ _ Hck)|by apply (guest_chunk_apart P _ c y HG Hck)].
Qed.

Lemma large_block_mapped s G x n y : api_ok s G → large_block (large_view (g_pools s)) x n → x ≤ y < x + n → k_mapped (kernel_of s) y = true.
Proof.
  intros HA Hb Hy. destruct (large_block_byte HA x n y Hb Hy) as (base & hd & Hl & Hin). destruct (sys_guests _ _ (ao_sys _ _ HA)) as (P & HG & _).
  destruct (gs_large _ _ HG base hd Hl) as [_ Hlv]. by apply (ll_mapped _ _ _ _ Hlv).
Qed.

(** ** Allocation *)
Lemma obtained_blocks P v size a x v' base total hdr :
  0 < size → guests_ok P v → large_obtained size a v x v' base total hdr →
  ∀ y n, large_block v' y n ↔ large_block v y n ∨ (y = x ∧ n = base + total - x).
Proof.
  intros Hs HG O. pose proof (lo_ptr _ _ _ _ _ _ _ _ O) as [Ex Hh]. intros y n. split.
  - intros (b & h & Hb & -> & ->). destruct (lo_hdrs_inv _ _ _ _ _ _ _ _ O b h Hb) as [->|Hb'].
    + right. unfold large_at in Hb. rewrite (lo_hdr _ _ _ _ _ _ _ _ O) in Hb. injection Hb as <-. cbn. lia.
    + left. by exists b, h.
  - intros [(b & h & Hb & -> & ->)|[-> ->]].
    + exists b, h. split; [|done]. unfold large_at. destruct (gs_large _ _ HG b h Hb) as [_ Hl].
      assert (Hm : k_mapped (l_kernel v) b = true) by (apply (ll_mapped _ _ _ _ Hl); pose proof (ll_off _ _ _ _ Hl); lia).
      rewrite (lo_hdrs _ _ _ _ _ _ _ _ O); [done| |done]. intros ->.
      rewrite (lo_fresh _ _ _ _ _ _ _ _ O) in Hm; [done|]. pose proof (lo_room _ _ _ _ _ _ _ _ O). lia.
    + exists base. eexists. split; [apply (lo_hdr _ _ _ _ _ _ _ _ O)|]. cbn. lia.
Qed.

Lemma large_alloc_spec s G size a :
  api_ok s G → 0 ≤ a ≤ 40 → 0 < size ≤ 2 ^ 46 →
  runs (on_large (btm_large_alloc size (2 ^ a))) s (λ x s', malloc_gives s G size x s' ∧ x mod 2 ^ a = 0 ∧
    (x ≠ 0 → ∀ y, x ≤ y < x + size → byte_at (mem_of s') y = 0)).
Proof.
  intros HA Ha Hs. destruct (sys_guests _ _ (ao_sys _ _ HA)) as (P0 & HG0 & _). set (v := large_view (g_pools s)) in *.
  destruct (large_alloc_run size a v (gs_live _ _ HG0) Ha ltac:(lia)) as (x & v' & Hrun & Hcase).
  exists x, (set_pools (set_large v' (g_pools s)) s). split; [by apply run_zoom, run_zoom|].
  destruct Hcase as [(-> & Em & Eh & Er & Ek)|(Hx & base & total & hdr & O)].
  - split; [split; [change (table_of (set_pools (set_large v' (g_pools s)) s)) with (l_reg v'); by rewrite Er|]|split; [apply Z.mod_0_l, Z.pow_nonzero; lia|done]].
    unshelve epose proof (large_goes s G v' (large_block v) HA _ _ _ _ _) as HGo.
    + intros P HG. apply (guests_same P P v v'); [split; [done|by rewrite Er|intros; by rewrite Er|done]|done|done].
    + by rewrite Er.
    + intros y _. by rewrite Em.
    + intros y n. unfold large_block, large_at. by rewrite Eh.
    + intros y n z _ _ _. by rewrite Em.
    + exists G. left. split; [done|exact HGo].
  - pose proof (lo_align _ _ _ _ _ _ _ _ O) as [Ha1 Ha2]. pose proof (lo_ptr _ _ _ _ _ _ _ _ O) as [Ex Hh].
    split; [|split; [done|intros _; apply (lo_zero _ _ _ _ _ _ _ _ O)]].
    pose proof (obtained_blocks P0 v size a x v' base total hdr ltac:(lia) HG0 O) as Hb'.
    destruct (space_large_alloc P0 v size a x v' base total hdr ltac:(lia) HG0 O) as (_ & Hev & Hfresh). split; [exact (Hev true)|].
    unshelve epose proof (large_goes s G v' (λ y n, large_block v y n ∨ (y = x ∧ n = base + total - x)) HA _ (Hev false) _ Hb' _) as HGo.
    + intros P HG. by destruct (space_large_alloc P v size a x v' base total hdr ltac:(lia) HG O).
    + intros y Hy. apply (lo_frame _ _ _ _ _ _ _ _ O). by apply (chunk_byte_mapped _ _ _ (ao_sys _ _ HA) Hy).
    + intros y n z Hb _ Hz. apply (lo_frame _ _ _ _ _ _ _ _ O). by apply (large_block_mapped s G y n).
    + exists G. right. split; [done|]. split; [done|]. exists (base + total - x). pose proof (lo_room _ _ _ _ _ _ _ _ O). split; [lia|]. split.
      * intros m [(r & [Hxl _] & _)|Hb].
        -- pose proof (live_size _ _ _ _ (ao_sys _ _ HA) Hxl). destruct (live_mapped _ _ r x x (ao_sys _ _ HA) Hxl) as [Hm _]; [lia|].
           pose proof (lo_fresh _ _ _ _ _ _ _ _ O x) as Hf. cbn in Hf. rewrite Hm in Hf. discriminate Hf. lia.
        -- destruct (block_facts s G x m HA (or_intror Hb)) as (_ & ? & _). destruct (Hfresh x); [|lia].
           apply (large_block_byte HA x m); [done|lia].
      * eapply goes_iff; [exact HGo|]. intros y m. unfold block. cbv beta. tauto.
Qed.

(** ** The owner of a large block *)
Lemma lor_even b : 0 ≤ b → b mod 2 = 0 → Z.lor b 1 = b + 1.
Proof. intros H0 Hb. apply Z.mod_divide in Hb as [k ->]; [|lia]. destruct k; [done|by rewrite Z.mul_comm|lia]. Qed.

Lemma large_tag base : 0 ≤ base < 2 ^ 64 - 1 → base mod BTM_CHUNK_SIZE = 0 →
  Z.lor base 1 ≠ 0 ∧ owner_is_large (Z.lor base 1) = true ∧ large_base (Z.lor base 1) = base.
Proof.
  intros Hb Hm. assert (H2 : base mod 2 = 0) by (apply (mod_0_weaken base 1 21); [lia|done]). rewrite lor_even by (done || lia).
  assert (Ho : (base + 1) mod 2 = 1) by (rewrite Zplus_mod, H2; done).
  split_and!; [lia| |].
  - unfold owner_is_large. change 1 with (2 ^ 1 - 1) at 2. rewrite land_mask by lia. change (2 ^ 1) with 2. by rewrite Ho.
  - unfold large_base. change 1 with (2 ^ 1 - 1) at 2. rewrite land_not64 by lia. change (2 ^ 1) with 2. lia.
Qed.

Lemma chunk_tag c : 0 ≤ c → c mod BTM_CHUNK_SIZE = 0 → owner_is_large c = false.
Proof.
  intros Hc Hm. assert (H2 : c mod 2 = 0) by (apply (mod_0_weaken c 1 21); [lia|done]).
  unfold owner_is_large. change 1 with (2 ^ 1 - 1). rewrite land_mask by lia. change (2 ^ 1) with 2. by rewrite H2.
Qed.

Lemma large_block_owner s G x n :
  api_ok s G → large_block (large_view (g_pools s)) x n →
  ∃ base hd, large_at (large_view (g_pools s)) base hd ∧ x = base + lh_user_off hd ∧ n = lh_map_len hd - lh_user_off hd ∧
    ot_lookup (table_of s) x = Z.lor base 1 ∧ Z.lor base 1 ≠ 0 ∧ owner_is_large (Z.lor base 1) = true ∧ large_base (Z.lor base 1) = base.
Proof.
  intros HA (base & hd & Hb & -> & ->). exists base, hd. destruct (sys_guests _ _ (ao_sys _ _ HA)) as (P & HG & _).
  destruct (gs_large _ _ HG base hd Hb) as [Hm Hl]. pose proof (ll_off _ _ _ _ Hl). destruct (ll_place _ _ _ _ Hl) as (? & ? & ? & ?).
  destruct (large_tag base ltac:(lia) Hm) as (T1 & T2 & T3). split_and!; try done.
  apply (ll_owner _ _ _ _ Hl); [unfold user_addr; lia|]. apply (large_in_span _ _ _ _ _ Hm Hl). lia.
Qed.

(** ** Free and usable size *)
Lemma large_free_spec s G x base hd :
  api_ok s G → large_at (large_view (g_pools s)) base hd → x = base + lh_user_off hd →
  runs (on_large (btm_large_free base)) s (λ _ s', ∃ G', goes s G s' G' (λ y m, block s G y m ∧ y ≠ x)).
Proof.
  intros HA Hb ->. destruct (sys_guests _ _ (ao_sys _ _ HA)) as (P0 & HG0 & _). set (v := large_view (g_pools s)) in *.
  destruct (space_large_free P0 v base hd HG0 Hb) as (v' & Hrun & _ & Hev & Em & Eh).
  exists tt, (set_pools (set_large v' (g_pools s)) s). split; [by apply run_zoom, run_zoom|].
  assert (Hx : large_block v (base + lh_user_off hd) (lh_map_len hd - lh_user_off hd)) by (by exists base, hd).
  unshelve epose proof (large_goes s G v' (λ y m, large_block v y m ∧ y ≠ base + lh_user_off hd) HA _ Hev _ _ _) as HGo.
  - intros P HG. destruct (space_large_free P v base hd HG Hb) as (v2 & Hrun2 & HG2 & _). congruence.
  - intros y _. by rewrite Em.
  - intros y m. split.
    + intros (b & h & Hb2 & -> & ->). unfold large_at in Hb2. rewrite Eh in Hb2. apply lookup_delete_Some in Hb2 as [Hne Hb2].
      split; [by exists b, h|]. intros E. apply Hne. symmetry. destruct (gs_large _ _ HG0 b h Hb2) as [_ L1], (gs_large _ _ HG0 base hd Hb) as [_ L2].
      pose proof (ll_off _ _ _ _ L1). pose proof (ll_off _ _ _ _ L2). apply (guests_apart P0 v b h base hd (b + lh_user_off h) HG0 Hb2 Hb); lia.
    + intros [(b & h & Hb2 & -> & ->) Hne]. exists b, h. split; [|done]. unfold large_at. rewrite Eh. apply lookup_delete_Some.
      split; [|done]. intros <-. apply Hne. unfold large_at in *. congruence.
  - intros y m z _ _ _. by rewrite Em.
  - eexists. eapply goes_iff; [exact HGo|]. intros y m. unfold block. cbv beta. split.
    + intros [(r & Hr & ->)|[Hl Hne]]; [|by split; [right|]]. split; [left; by exists r|]. intros ->.
      by apply (slot_large_block s G r _ _ HA (proj1 Hr) Hx).
    + intros [[Hs|Hl] Hne]; [by left|right; by split].
Qed.

Lemma set_large_same s : set_pools (set_large (large_view (g_pools s)) (g_pools s)) s = s.
Proof. destruct s as [[[] ? ? []] ? ? ? ? ? ? ? ? ? ?]. done. Qed.

Lemma large_usable_run s G base hd :
  api_ok s G → large_at (large_view (g_pools s)) base hd →
  on_large (btm_large_usable_size base (base + lh_user_off hd)) s = Ok (lh_map_len hd - lh_user_off hd, s).
Proof.
  intros HA Hb. destruct (sys_guests _ _ (ao_sys _ _ HA)) as (P & HG & _). destruct (gs_large _ _ HG base hd Hb) as [_ Hl].
  pose proof (ll_off _ _ _ _ Hl). destruct (ll_place _ _ _ _ Hl) as (? & ? & ? & ?).
  unfold on_large, on_pools, zoom, btm_large_usable_size, get_hdr, mbind, M_bind. unfold large_at in Hb. rewrite Hb.
  unfold mret, M_ret. rewrite set_large_same. rewrite (u64_small (base + _ - base)), u64_small by lia. do 2 f_equal. lia.
Qed.

(** ** Resizing *)

(** The kernel answers the resizing of the large block [x] with a place [nbase] that is not
    on a 2 MiB boundary; mremap aligns to pages only. *)
Record displaces s (x size base : Z) (hd : btm_large_hdr) (nbase ntotal : Z) : Prop := {
  dp_large : large_at (large_view (g_pools s)) base hd;
  dp_ptr : x = base + lh_user_off hd;
  dp_size : BTM_SMALL_MAX_SIZE < size;
  dp_moves : moves_to (large_view (g_pools s)) base (lh_map_len hd) (lh_user_off hd) size nbase ntotal;
  dp_off : nbase mod BTM_CHUNK_SIZE ≠ 0;
}.

(** [realloc] of [x] to [size] is such a call. *)
Definition displaced s (x size : Z) : Prop := ∃ base hd nbase ntotal, displaces s x size base hd nbase ntotal.

(** What [realloc] promises for the block [x] of [n] bytes: NULL and nothing changed, or a
    block that holds the old bytes up to the shorter length, in place of the old block. *)
Definition realloc_gives s G (x n size : Z) (q : Z) s' : Prop :=
  ∃ G', (q = 0 ∧ goes s G s' G' (block s G)) ∨
    (0 < q ∧ q mod BTM_ALIGNMENT = 0 ∧ ∃ m, size ≤ m ∧ (q = x ∨ ∀ k, ¬ block s G q k) ∧
      goes s G s' G' (λ y k, (block s G y k ∧ y ≠ x) ∨ (y = q ∧ k = m)) ∧
      ∀ i, 0 ≤ i < Z.min n size → byte_at (mem_of s') (q + i) = byte_at (mem_of s) (x + i)).

(** What it does for a displaced object: the bytes are at the new place, all other blocks are
    mapped and keep theirs, and every pointer of the 2 MiB regions the new place touches
    resolves to the object, also those that belonged to a chunk or to another object. *)
Definition realloc_displaced s G (x n size : Z) (q : Z) s' : Prop :=
  ∃ base hd nbase ntotal, displaces s x size base hd nbase ntotal ∧
    q = nbase + lh_user_off hd ∧ 0 < q ∧ q mod BTM_ALIGNMENT = 0 ∧ size ≤ nbase + ntotal - q ∧ (∀ k, ¬ block s G q k) ∧
    (∀ i, 0 ≤ i < Z.min n size → byte_at (mem_of s') (q + i) = byte_at (mem_of s) (x + i)) ∧
    (∀ y, q ≤ y < nbase + ntotal → k_mapped (kernel_of s') y = true) ∧
    (∀ y k z, block s G y k → y ≠ x → y ≤ z < y + k →
       k_mapped (kernel_of s') z = true ∧ byte_at (mem_of s') z = byte_at (mem_of s) z ∧ ¬ (nbase ≤ z < nbase + ntotal)) ∧
    (∀ y, user_addr y → ot_lookup (table_of s') y =
       if decide (in_span nbase ntotal (region_of y)) then Z.lor nbase 1
       else if decide (in_span base (lh_map_len hd) (region_of y)) then 0 else ot_lookup (table_of s) y).

Section resized.
Context {P0 : Z → Prop} {v v' : lstate T} {base : Z} {hd : btm_large_hdr} {size q nbase ntotal : Z}.
Context (HG : guests_ok P0 v) (Hb : large_at v base hd).
Context (R : large_resized v base (lh_map_len hd) (lh_user_off hd) size q v' nbase ntotal).

(** The object's new place was its own, or unmapped. *)
Lemma resized_other b h : large_at v b h → b ≠ base → b ≠ nbase ∧ ∀ y, b ≤ y < b + lh_map_len h → ¬ (nbase ≤ y < nbase + ntotal).
Proof.
  intros Hbh Hne. assert (Hno : ∀ y, b ≤ y < b + lh_map_len h → ¬ (nbase ≤ y < nbase + ntotal)).
  { intros y Hy Hin. destruct (lr_fresh _ _ _ _ _ _ _ _ _ R y Hin) as [Hold|Hun].
    - apply Hne. by apply (guests_apart P0 v b h base hd y).
    - destruct (gs_large _ _ HG b h Hbh) as [_ Hl]. by rewrite (ll_mapped _ _ _ _ Hl) in Hun. }
  split; [|done]. intros ->. destruct (gs_large _ _ HG nbase h Hbh) as [_ Hl]. pose proof (ll_off _ _ _ _ Hl).
  pose proof (ll_off _ _ _ _ (lr_live _ _ _ _ _ _ _ _ _ R)). apply (Hno nbase); lia.
Qed.

Lemma resized_blocks y k :
  large_block v' y k ↔ (large_block v y k ∧ y ≠ base + lh_user_off hd) ∨ (y = q ∧ k = nbase + ntotal - q).
Proof.
  pose proof (lr_ptr _ _ _ _ _ _ _ _ _ R) as Hq. pose proof (lr_hdrs _ _ _ _ _ _ _ _ _ R) as Hh. split.
  - intros (b & h & Hbh & -> & ->). unfold large_at in Hbh. rewrite Hh in Hbh.
    apply lookup_insert_Some in Hbh as [[<- <-]|[Hne [Hnb Hbh]%lookup_delete_Some]]; [right; cbn; lia|left].
    split; [by exists b, h|]. intros E. apply Hnb. symmetry.
    destruct (gs_large _ _ HG b h Hbh) as [_ L1], (gs_large _ _ HG base hd Hb) as [_ L2].
    pose proof (ll_off _ _ _ _ L1). pose proof (ll_off _ _ _ _ L2). apply (guests_apart P0 v b h base hd (b + lh_user_off h) HG Hbh Hb); lia.
  - intros [[(b & h & Hbh & -> & ->) Hne]|[-> ->]].
    + assert (Hnb : b ≠ base) by (intros ->; apply Hne; unfold large_at in *; congruence).
      exists b, h. split; [|done]. unfold large_at. rewrite Hh.
      rewrite lookup_insert_ne by (apply not_eq_sym, (resized_other b h Hbh Hnb)). by rewrite lookup_delete_ne.
    + exists nbase. eexists. split; [unfold large_at; rewrite Hh; apply lookup_insert_eq|]. cbn. lia.
Qed.

(** Bytes outside the old object that were mapped are kept. *)
Lemma resized_bytes y : k_mapped (l_kernel v) y = true → ¬ (base ≤ y < base + lh_map_len hd) → byte_at (l_mem v') y = byte_at (l_mem v) y.
Proof. intros Hm Hn. by apply (lr_others _ _ _ _ _ _ _ _ _ R). Qed.

(** The object of a block, by one of its bytes. *)
Lemma block_object b h y k z : large_at v b h → y = b + lh_user_off h → k = lh_map_len h - lh_user_off h → y ≤ z < y + k →
  k_mapped (l_kernel v) z = true ∧ (base ≤ z < base + lh_map_len hd → y = base + lh_user_off hd).
Proof.
  intros Hbh -> -> Hz. destruct (gs_large _ _ HG b h Hbh) as [_ L]. pose proof (ll_off _ _ _ _ L).
  split; [apply (ll_mapped _ _ _ _ L); lia|]. intros Hin.
  assert (b = base) as -> by (apply (guests_apart P0 v b h base hd z HG Hbh Hb); lia). unfold large_at in *. congruence.
Qed.

Lemma resized_kept y k z :
  large_block v y k → (large_block v y k ∧ y ≠ base + lh_user_off hd) ∨ (y = q ∧ k = nbase + ntotal - q) → y ≤ z < y + k →
  byte_at (l_mem v') z = byte_at (l_mem v) z.
Proof.
  intros (b & h & Hbh & Ey & Ek) HP Hz. destruct (block_object b h y k z Hbh Ey Ek Hz) as [Hm Hin]. destruct HP as [[_ Hne]|[-> Ek2]].
  - apply resized_bytes; [done|]. intros H. by apply Hne, Hin.
  - destruct (decide (b = base)) as [->|Hbne].
    + assert (h = hd) as -> by (unfold large_at in *; congruence). pose proof (lr_ptr _ _ _ _ _ _ _ _ _ R) as Hq.
      assert (nbase = base) as -> by lia. replace z with (base + (z - base)) by lia.
      destruct (gs_large _ _ HG base hd Hbh) as [_ L]. pose proof (ll_off _ _ _ _ L). apply (lr_copy _ _ _ _ _ _ _ _ _ R). lia.
    + destruct (resized_other b h Hbh Hbne) as [_ Hno]. destruct (gs_large _ _ HG b h Hbh) as [_ L]. pose proof (ll_off _ _ _ _ L).
      pose proof (lr_live _ _ _ _ _ _ _ _ _ R) as Hl'. pose proof (ll_off _ _ _ _ Hl'). pose proof (lr_ptr _ _ _ _ _ _ _ _ _ R). destruct (Hno q); lia.
Qed.
End resized.

(** The bytes of the other blocks are mapped and lie outside the object. *)
Lemma other_byte s G base hd y k z :
  api_ok s G → large_at (large_view (g_pools s)) base hd → block s G y k → y ≠ base + lh_user_off hd → y ≤ z < y + k →
  k_mapped (kernel_of s) z = true ∧ ¬ (base ≤ z < base + lh_map_len hd).
Proof.
  intros HA Hb Hy Hne Hz. destruct Hy as [(r & [Hx _] & ->)|(b & h & Hbh & Ey & Ek)].
  - destruct (live_mapped _ _ r y z (ao_sys _ _ HA) Hx Hz) as [? Hn]. split; [done|]. intros Hin. apply Hn. by exists base, hd.
  - destruct (sys_guests _ _ (ao_sys _ _ HA)) as (P0 & HG0 & _).
    destruct (block_object HG0 Hb b h y k z Hbh Ey Ek Hz) as [? Hin]. split; [done|]. intros Hq. by apply Hne, Hin.
Qed.

(** The new place holds no byte of another block. *)
Lemma other_place s G base hd size q v' nbase ntotal y k z :
  api_ok s G → large_at (large_view (g_pools s)) base hd →
  large_resized (large_view (g_pools s)) base (lh_map_len hd) (lh_user_off hd) size q v' nbase ntotal →
  block s G y k → y ≠ base + lh_user_off hd → y ≤ z < y + k → ¬ (nbase ≤ z < nbase + ntotal).
Proof.
  intros HA Hb R Hy Hne Hz Hin. destruct (other_byte s G base hd y k z HA Hb Hy Hne Hz) as [Hm Hn].
  destruct (lr_fresh _ _ _ _ _ _ _ _ _ R z Hin) as [|Hun]; [done|]. unfold kernel_of in Hm. cbn in Hun. congruence.
Qed.

(** The new pointer is the old one or no block. *)
Lemma resized_fresh s G base hd size q v' nbase ntotal :
  api_ok s G → large_at (large_view (g_pools s)) base hd → 0 < size →
  large_resized (large_view (g_pools s)) base (lh_map_len hd) (lh_user_off hd) size q v' nbase ntotal →
  q = base + lh_user_off hd ∨ ∀ k, ¬ block s G q k.
Proof.
  intros HA Hb Hs R. pose proof (ll_off _ _ _ _ (lr_live _ _ _ _ _ _ _ _ _ R)). pose proof (lr_ptr _ _ _ _ _ _ _ _ _ R).
  pose proof (lr_room _ _ _ _ _ _ _ _ _ R). destruct (decide (q = base + lh_user_off hd)) as [|Hne]; [by left|right]. intros k Hbk.
  destruct (block_facts s G q k HA Hbk) as (_ & ? & _). apply (other_place s G base hd size q v' nbase ntotal q k q HA Hb R Hbk Hne); lia.
Qed.

Lemma large_realloc_null s G base hd v' :
  api_ok s G → let v := large_view (g_pools s) in large_at v base hd →
  l_mem v' = l_mem v → l_hdrs v' = l_hdrs v → (∀ y, k_mapped (l_kernel v') y = k_mapped (l_kernel v) y) →
  (∀ y, user_addr y → ot_lookup (l_reg v') y = ot_lookup (l_reg v) y) →
  l_reg v' = ot_insert (ot_remove (l_reg v) base (lh_map_len hd)) base (lh_map_len hd) (Z.lor base 1) →
  ∃ G', goes s G (set_pools (set_large v' (g_pools s)) s) G' (block s G).
Proof.
  intros HA v Hb Em Eh Ek Eo Er. destruct (sys_guests _ _ (ao_sys _ _ HA)) as (P0 & HG0 & _).
  destruct (gs_large _ _ HG0 base hd Hb) as [_ Hl]. pose proof (ll_span _ _ _ _ Hl) as Hsp.
  unshelve epose proof (large_goes s G v' (large_block v) HA _ _ _ _ _) as HGo.
  - intros P HG. apply (guests_same P P v v'); [|done|done]. split; [done| |done|done].
    intros Hlv. rewrite Er. auto with btm.
  - rewrite Er. etrans; [by apply evolves_remove|]. apply evolves_insert; [done|]. intros p Hp Hin.
    rewrite ot_lookup_remove by (try done; apply (gs_live _ _ HG0)). by rewrite decide_True.
  - intros y _. by rewrite Em.
  - intros y n. unfold large_block, large_at. by rewrite Eh.
  - intros y n z _ _ _. by rewrite Em.
  - eexists. exact HGo.
Qed.

(** A new pointer is as aligned as the old one: the place is at a page boundary. *)
Lemma resized_ptr s base hd size q v' nbase ntotal :
  0 < size → large_live (large_view (g_pools s)) base (lh_map_len hd) (lh_user_off hd) →
  large_resized (large_view (g_pools s)) base (lh_map_len hd) (lh_user_off hd) size q v' nbase ntotal →
  0 < q ∧ q mod BTM_ALIGNMENT = 0 ∧ lh_user_off hd + size ≤ ntotal.
Proof.
  intros Hs Hl R. pose proof (lr_live _ _ _ _ _ _ _ _ _ R) as Hl'. destruct (ll_place _ _ _ _ Hl') as (? & ? & Hp & ?).
  pose proof (ll_off _ _ _ _ Hl'). pose proof (lr_ptr _ _ _ _ _ _ _ _ _ R) as Hq. pose proof (lr_room _ _ _ _ _ _ _ _ _ R).
  split; [lia|]. split; [|lia]. rewrite Hq, Zplus_mod, (ll_align _ _ _ _ Hl).
  assert (E16 : nbase mod BTM_ALIGNMENT = 0) by (apply (mod_0_weaken nbase 4 12); [lia|done]). by rewrite E16.
Qed.

Section resizing.
Context {s : astate T} {G : aghost} {base : Z} {hd : btm_large_hdr} {size q : Z} {v' : lstate T} {nbase ntotal : Z}.
Context (HA : api_ok s G) (Hb : large_at (large_view (g_pools s)) base hd) (Hs : 0 < size ≤ 2 ^ 46).
Context (R : large_resized (large_view (g_pools s)) base (lh_map_len hd) (lh_user_off hd) size q v' nbase ntotal).
Abbreviation x := (base + lh_user_off hd).
Abbreviation n := (lh_map_len hd - lh_user_off hd).
Abbreviation s' := (set_pools (set_large v' (g_pools s)) s).

Lemma resized_live : large_live (large_view (g_pools s)) base (lh_map_len hd) (lh_user_off hd).
Proof. destruct (sys_guests _ _ (ao_sys _ _ HA)) as (P0 & HG0 & _). by destruct (gs_large _ _ HG0 base hd Hb). Qed.

Lemma resized_copy i : 0 ≤ i < Z.min n size → byte_at (mem_of s') (q + i) = byte_at (mem_of s) (x + i).
Proof.
  intros Hi. destruct (resized_ptr _ _ _ _ _ _ _ _ (proj1 Hs) resized_live R) as (_ & _ & Hroom). pose proof (ll_off _ _ _ _ resized_live).
  rewrite (lr_ptr _ _ _ _ _ _ _ _ _ R), <-!Z.add_assoc. apply (lr_copy _ _ _ _ _ _ _ _ _ R). lia.
Qed.

(** On a 2 MiB boundary the process is in order again. *)
Lemma resized_gives : nbase mod BTM_CHUNK_SIZE = 0 → realloc_gives s G x n size q s'.
Proof.
  intros Hnm. destruct (sys_guests _ _ (ao_sys _ _ HA)) as (P0 & HG0 & _). destruct (resized_ptr _ _ _ _ _ _ _ _ (proj1 Hs) resized_live R) as (Hq0 & Hqa & Hroom).
  pose proof (lr_ptr _ _ _ _ _ _ _ _ _ R) as Hq. set (v := large_view (g_pools s)) in *.
  destruct (space_large_resized P0 v base hd size q v' nbase ntotal HG0 Hb R Hnm) as [_ Hev].
  unshelve epose proof (large_goes s G v' (λ y k, (large_block v y k ∧ y ≠ x) ∨ (y = q ∧ k = nbase + ntotal - q)) HA _ Hev _ (resized_blocks HG0 Hb R) (resized_kept HG0 Hb R)) as HGo.
  - intros P HG. by apply (space_large_resized P v base hd size q v' nbase ntotal HG Hb R Hnm).
  - intros y Hy. destruct (chunk_byte_mapped _ _ y (ao_sys _ _ HA) Hy) as [Hmy Hny].
    apply (resized_bytes R); [done|]. intros Hin. apply Hny. by exists base, hd.
  - exists G. right. split; [done|]. split; [done|]. exists (nbase + ntotal - q). split; [lia|].
    split; [by apply (resized_fresh s G base hd size q v' nbase ntotal HA Hb (proj1 Hs) R)|]. split; [|exact resized_copy].
    eapply goes_iff; [exact HGo|]. intros y k. unfold block. cbv beta. split.
    + intros [(r & Hr & ->)|[[Hlb Hne]|Hnew]]; [left|left; split; [by right|done]|by right]. split; [left; by exists r|].
      intros ->. apply (slot_large_block s G r _ n HA (proj1 Hr)). by exists base, hd.
    + intros [[[Hsl|Hlb] Hne]|Hnew]; [by left|right; left; by split|right; by right].
Qed.

(** Off a boundary the blocks are right and the owner table is not. *)
Lemma resized_displaced : displaces s x size base hd nbase ntotal → realloc_displaced s G x n size q s'.
Proof.
  intros D. destruct (resized_ptr _ _ _ _ _ _ _ _ (proj1 Hs) resized_live R) as (Hq0 & Hqa & Hroom).
  pose proof (lr_ptr _ _ _ _ _ _ _ _ _ R) as Hq. pose proof (ll_off _ _ _ _ resized_live).
  exists base, hd, nbase, ntotal. split; [done|]. split; [done|]. split; [done|]. split; [done|]. split; [lia|]. split; [|split; [exact resized_copy|split; [|split]]].
  - destruct (resized_fresh s G base hd size q v' nbase ntotal HA Hb (proj1 Hs) R) as [E|]; [exfalso|done].
    apply (dp_off _ _ _ _ _ _ _ D). assert (nbase = base) as -> by lia.
    destruct (sys_guests _ _ (ao_sys _ _ HA)) as (P0 & HG0 & _). by destruct (gs_large _ _ HG0 base hd Hb).
  - intros y Hy. apply (ll_mapped _ _ _ _ (lr_live _ _ _ _ _ _ _ _ _ R)). lia.
  - intros y k z Hy Hne Hz. destruct (other_byte s G base hd y k z HA Hb Hy Hne Hz) as [Hm Hn].
    destruct (lr_others _ _ _ _ _ _ _ _ _ R z Hm Hn) as [Hm' Hbz]. split; [exact Hm'|]. split; [exact Hbz|].
    exact (other_place s G base hd size q v' nbase ntotal y k z HA Hb R Hy Hne Hz).
  - intros y Hy. exact (lr_owner _ _ _ _ _ _ _ _ _ R y Hy).
Qed.
End resizing.

Lemma large_realloc_spec s G base hd size :
  api_ok s G → large_at (large_view (g_pools s)) base hd → BTM_SMALL_MAX_SIZE < size ≤ 2 ^ 46 →
  let x := base + lh_user_off hd in let n := lh_map_len hd - lh_user_off hd in
  runs (on_large (btm_large_realloc base x size)) s (λ q s', realloc_gives s G x n size q s' ∨ realloc_displaced s G x n size q s').
Proof.
  intros HA Hb Hs x n. assert (Hs0 : 0 < size ≤ 2 ^ 46) by (unfold_geometry; lia). pose proof (resized_live HA Hb) as Hl.
  destruct (sys_guests _ _ (ao_sys _ _ HA)) as (P0 & HG0 & _). destruct (gs_large _ _ HG0 base hd Hb) as [Hm _].
  pose proof (ll_off _ _ _ _ Hl) as Hoff. destruct (ll_place _ _ _ _ Hl) as (? & ? & ? & ?).
  destruct (large_realloc_run _ base _ _ size (gs_live _ _ HG0) Hl ltac:(lia) Hs0) as (q & v' & Hrun & Hcase).
  exists q, (set_pools (set_large v' (g_pools s)) s). split; [by apply run_zoom, run_zoom|].
  destruct Hcase as [(-> & Em & Eh & Ek & Eo & Er)|(nbase & ntotal & R & Hnb)].
  { left. destruct (large_realloc_null s G base hd v' HA Hb Em Eh Ek Eo Er) as (G' & HGo). exists G'. by left. }
  destruct (decide (nbase mod BTM_CHUNK_SIZE = 0)) as [Hnm|Hnm]; [left; by apply (resized_gives HA Hb Hs0 R)|right].
  apply (resized_displaced HA Hb Hs0 R). destruct Hnb as [->|Hmv]; [done|]. split; [done|done|lia|done|done].
Qed.
End large_api.
