(* ===== verification/ApiSpec.v ===== *)
(** * ApiSpec: the public operations, one by one

    For every operation of Api.v: from a state in the invariant it ends normally (unless a
    double free is found), in a state in the invariant, and does to the blocks of the
    program what its contract says. *)

From stdpp Require Import prelude gmap.
From S2P Require Import Prelude Memory SizeClass Freelist Registry Engine Callsite Os Large Heap Memfd Dll Pool PoolInv PoolFrame PoolRun PoolRefill PoolSys PoolOps Tiering Space Background BgLaws Api ApiInv ApiStep ApiSmall ApiLarge.
Local Open Scope Z_scope.

Section spec.
Context {F : FlOps} {FL : FlLaws F} {Krn : OS} {KL : OSLaws Krn} {T : Type} {OT : OwnerTable T} {OE : OwnerEngine T}
  {EL : OwnerEngineLaws T OT OE}.
Context (df_canary : option (Z → Z)) (env : environment) (meta_mmap : kstate → Z → bool) (spawn : kstate → bool).
Implicit Types (r : pool_ref) (s : astate T) (G : aghost).

Abbreviation ensure_init := (btm_ensure_init df_canary env meta_mmap).
Abbreviation malloc_at := (btm_malloc_at df_canary env meta_mmap spawn).
Abbreviation calloc_at := (btm_calloc_at df_canary env meta_mmap spawn).
Abbreviation realloc_at := (btm_realloc_at df_canary env meta_mmap spawn).
Abbreviation free := (btm_free df_canary meta_mmap).

(** ** The steps before a call *)
Lemma ensure_init_run s G : api_ok s G → ensure_init s = Ok (tt, s).
Proof. intros HA. unfold btm_ensure_init. erewrite run_bind by apply run_gets. by rewrite (proj1 (ao_ready _ _ HA)). Qed.

Lemma tls_get_spec s G me :
  api_ok s G → runs (btm_tls_get meta_mmap me) s (λ ok s', quiet s G s' G ∧ g_pools s' = g_pools s ∧ same_globals s s' ∧
    if ok then is_Some (th_tls (thread_at s' me)) else s' = s ∧ th_tls (thread_at s me) = None).
Proof.
  intros HA. unfold btm_tls_get, get_tls. apply runs_gets. destruct (th_tls (thread_at s me)) as [t|] eqn:Et.
  - apply runs_ret. split_and!; [by apply quiet_refl|done|by split|by eexists].
  - apply runs_gets. destruct (meta_mmap _ _).
    + unfold set_tls. apply runs_modify. apply runs_ret. split_and!; [by apply new_tls_ok|done|by split|].
      rewrite thread_at_set, decide_True by done. by eexists.
    + apply runs_ret. split_and!; [by apply quiet_refl|done|by split|done|done].
Qed.

(** Flags of the chunk source do not matter to its invariant. *)
Lemma source_flags_goes s G b' :
  api_ok s G → b_kernel b' = b_kernel (p_src (g_pools s)) → b_table b' = b_table (p_src (g_pools s)) →
  b_hdrs b' = b_hdrs (p_src (g_pools s)) → warm_head b' = warm_head (p_src (g_pools s)) →
  Background.warm_count b' = Background.warm_count (p_src (g_pools s)) →
  dispose_head b' = dispose_head (p_src (g_pools s)) → bg_at b' = bg_at (p_src (g_pools s)) → b_file b' = b_file (p_src (g_pools s)) →
  quiet s G (set_pools (set_source (p_heap (g_pools s), b') (g_pools s)) s) G.
Proof.
  intros HA E1 E2 E3 E4 E5 E6 E7 E8.
  split; [|split; [done|exact E2]]. apply source_step_goes; [done|apply agree_on_refl| |].
  - apply src_step_mem; [done|done|by rewrite E8|done].
  - destruct (so_src _ _ (ao_sys _ _ HA)) as (W & D & Q & HI & Hpc). exists W, D, Q.
    rewrite E7. split; [|done]. apply (src_move HI); try done; [by rewrite E1|]. rewrite E8. apply (si_file _ _ _ _ _ _ HI).
Qed.

Lemma set_bg_started_ok s G v : api_ok s G → quiet s G (set_bg_started v s) G.
Proof. intros HA. apply quiet_same; [done| |done|done]. by destruct HA. Qed.

Lemma bg_ensure_started_spec s G :
  api_ok s G → runs (btm_bg_ensure_started env spawn) s (λ _ s', quiet s G s' G ∧ g_threads s' = g_threads s).
Proof.
  intros HA. unfold btm_bg_ensure_started. apply runs_gets. destruct (g_bg_started s).
  { apply runs_ret. split; [by apply quiet_refl|done]. }
  apply runs_modify, runs_gets. pose proof (set_bg_started_ok s G true HA) as HQ. destruct (_ && _).
  - do 2 eexists. split; [reflexivity|]. split; [|done].
    apply (quiet_trans _ _ _ G _ _ HQ). apply (source_flags_goes (set_bg_started true s) G (mk_bstate (b_kernel (p_src (g_pools s))) (b_table (p_src (g_pools s)))
      (b_hdrs (p_src (g_pools s))) (warm_head (p_src (g_pools s))) (Background.warm_count (p_src (g_pools s))) (dispose_head (p_src (g_pools s)))
      true (bg_ring_ok (p_src (g_pools s))) (bg_at (p_src (g_pools s))) (b_file (p_src (g_pools s)))) (go_ok _ _ _ _ _ (proj1 HQ))); done.
  - by apply runs_ret.
Qed.

(** ** malloc *)
Lemma gives_null s G size : api_ok s G → malloc_gives s G size 0 s.
Proof. intros HA. split; [done|]. exists G. left. split; [done|]. by apply quiet_refl. Qed.

Lemma malloc_at_spec s G me size ra :
  api_ok s G → 0 ≤ size ≤ 2 ^ 46 → ra ≠ 0 →
  runs (malloc_at me size ra) s (malloc_gives s G size).
Proof.
  intros HA Hs Hra. unfold btm_malloc_at. destruct (decide (0 < size ≤ BTM_SMALL_MAX_SIZE)) as [Hsm|Hlg].
  - destruct (size_to_sc_valid size ltac:(lia)) as (Hsc & Hfit). destruct (Z.ltb_spec (btm_size_to_sc size) 0); [unfold valid_sc in Hsc; lia|].
    unfold get_tls. apply runs_gets. destruct (th_tls (thread_at s me)) as [t|] eqn:Et.
    + by apply malloc_small_spec.
    + apply (runs_step _ _ _ _ _ _ (ensure_init_run s G HA)). apply (runs_bind _ _ _ _ _ (tls_get_spec s G me HA)).
      intros ok s1 (HQ1 & _ & _ & Hok). destruct ok; [|destruct Hok as [-> _]; apply runs_ret; by apply gives_null].
      apply (runs_bind _ _ _ _ _ (bg_ensure_started_spec s1 G (go_ok _ _ _ _ _ (proj1 HQ1)))). intros _ s2 (HQ2 & Hth).
      pose proof (quiet_trans _ _ _ _ _ _ HQ1 HQ2) as HQ.
      eapply runs_mono; [apply (malloc_small_spec s2 G me (btm_size_to_sc size) ra size)|intros x s'; by apply quiet_gives]; try done.
      * apply (go_ok _ _ _ _ _ (proj1 HQ2)).
      * unfold thread_at in *. by rewrite Hth.
  - rewrite size_to_sc_none by lia. cbn [Z.ltb Z.compare]. destruct (Z.eqb_spec size 0) as [->|].
    + apply runs_ret. by apply gives_null.
    + apply (runs_step _ _ _ _ _ _ (ensure_init_run s G HA)).
      eapply runs_mono; [apply (large_alloc_spec s G size 4); [done|lia|lia]|]. by intros x s' [? _].
Qed.

(** ** Accesses to a block *)
Lemma block_accessible s G x n a k : api_ok s G → block s G x n → x ≤ a → a + k ≤ x + n → accessible s a k = true.
Proof.
  intros HA [(r & [Hx _] & ->)|Hb] Ha Hk; [by apply (accessible_live s (gh_sys G) r x); [apply HA|..]|].
  by apply (accessible_large s (gh_sys G) x n); [apply HA|..].
Qed.

(** Writing into a block the program just got. *)
Lemma goes_write s G s1 G1 (P : Z → Z → Prop) x n m' :
  goes s G s1 G1 P → P x n → (∀ k, ¬ block s G x k) → (∀ y, ¬ (x ≤ y < x + n) → byte_at m' y = byte_at (mem_of s1) y) →
  goes s G (set_mem m' s1) G1 P.
Proof.
  intros [H1 H2 H3 H4 H5 H6] Hx Hn Hm. split; [|exact H2| |done..].
  - apply (write_block_ok s1 G1 x n); [done|by apply H2|done].
  - intros y k z Hb HP Hz. unfold mem_of at 1. cbn. rewrite Hm; [by apply (H3 y k)|]. intros Hin.
    destruct (blocks_apart s1 G1 x n y k H1) as [[-> ->]|Hd]; [by apply H2|by apply H2|by apply (Hn k)|unfold disjoint_blocks in Hd; lia].
Qed.

(** ** calloc *)
Definition zeroed s (x n : Z) : Prop := x ≠ 0 → ∀ y, x ≤ y < x + n → byte_at (mem_of s) y = 0.

Lemma calloc_at_spec s G me n size ra :
  api_ok s G → 0 ≤ n → 0 ≤ size → n * size ≤ 2 ^ 46 → ra ≠ 0 →
  runs (calloc_at me n size ra) s (λ x s', malloc_gives s G (n * size) x s' ∧ zeroed s' x (n * size)).
Proof.
  intros HA Hn Hs Hb Hra. unfold btm_calloc_at, mul_overflow. rewrite (proj2 (Z.ltb_lt _ _)) by lia.
  destruct (Z.eqb_spec (n * size) 0) as [->|].
  { apply runs_ret. split; [by apply gives_null|by intros ?]. }
  assert (0 < n * size) by nia. destruct (Z.ltb_spec BTM_SMALL_MAX_SIZE (n * size)).
  - apply (runs_step _ _ _ _ _ _ (ensure_init_run s G HA)).
    eapply runs_mono; [apply (large_alloc_spec s G (n * size) 4); [done|lia|lia]|]. intros x s' (? & _ & ?). by split.
  - apply (runs_bind _ _ _ _ _ (malloc_at_spec s G me (n * size) ra HA ltac:(lia) Hra)).
    intros x s1 (Ht & G1 & [[-> HG]|(Hx & Hal & k & Hk & Hfr & HG)]).
    + apply (runs_step _ _ _ s1 tt); [done|]. apply runs_ret. split; [split; [done|]; exists G1; by left|by intros ?].
    + rewrite (proj2 (Z.eqb_neq x 0)) by lia. pose proof (go_ok _ _ _ _ _ HG) as HA1.
      assert (Hbk : block s1 G1 x k) by (apply HG; by right).
      eapply runs_step.
      { apply write_mem_run. apply (block_accessible s1 G1 x k); [done|done|lia|lia]. }
      apply runs_ret. assert (Hms : ∀ y, byte_at (memset (mem_of s1) x 0 (n * size)) y = if decide (x ≤ y < x + n * size) then 0 else byte_at (mem_of s1) y).
      { intros y. apply byte_at_memset. lia. }
      split; [|intros _ y Hy; unfold mem_of; cbn; by rewrite Hms, decide_True].
      split; [done|]. exists G1. right. split_and!; [done..|]. exists k. split_and!; [done..|].
      apply (goes_write s G s1 G1 _ x k); [done|by right|done|]. intros y Hy. rewrite Hms. by rewrite decide_False by lia.
Qed.

(** ** free *)

(** The program gives up the block [x] and nothing else. *)
Definition free_gives s G (x : Z) s' : Prop := ∃ G', goes s G s' G' (λ y m, block s G y m ∧ y ≠ x).

Lemma quiet_free s G s1 G1 x s' : quiet s G s1 G1 → free_gives s1 G1 x s' → free_gives s G x s'.
Proof.
  intros HQ (G' & HG). exists G'. eapply goes_iff; [by eapply quiet_goes|]. intros y m. cbv beta. by rewrite (quiet_block s G s1 G1).
Qed.

Lemma freed_blocks s G r x y m :
  api_ok s G → in_use G x r → slots_after s (λ y r', in_use G y r' ∧ ¬ (y = x ∧ r' = r)) y m ↔ block s G y m ∧ y ≠ x.
Proof.
  intros HA Hu. unfold slots_after, block. split.
  - intros [(r' & [Hy Hne] & ->)|Hl].
    + split; [left; by exists r'|]. intros ->. apply Hne. split; [done|].
      by apply (live_unique (g_pools s) (gh_sys G) r' r x (ao_sys _ _ HA) (proj1 Hy) (proj1 Hu)).
    + split; [by right|]. intros ->. by apply (slot_large_block s G r x m HA (proj1 Hu)).
  - intros [[(r' & Hy & ->)|Hl] Hne]; [left|by right]. exists r'. split; [|done]. split; [done|]. by intros [-> _].
Qed.

(** The direct free of a slot, without the thread's cache. *)
Lemma free_one_spec s G r x :
  api_ok s G → in_use G x r →
  runs (d ← on_pools (slab_of (chunk_of x) x); on_pools (btm_pool_free_one d x)) s (λ _ s', free_gives s G x s').
Proof.
  intros HA [Hx Hn]. destruct (sys_slab_of _ _ r x (ao_sys _ _ HA) Hx) as (d & Hd). destruct Hx as (a & Ha & Hout).
  apply (runs_step _ _ _ s d). { unfold on_pools, zoom, slab_of. rewrite Hd. by destruct s. }
  destruct (sys_free_one _ _ r a x d (ao_sys _ _ HA) Ha Hout Hd) as (p' & a' & Hrun & HS & HK & Hout' & Hsrc).
  exists tt, (set_pools p' s). split; [by apply run_zoom|]. set (A' := <[r := a']> (gh_sys G)) in *.
  destruct (flushed_insert (gh_sys G) r a a' 1 [x] Ha) as [Hdom Hlive].
  { intros y. rewrite Hout'. cbn [take]. by rewrite list_elem_of_singleton. }
  fold A' in Hdom, Hlive. cbn [take] in Hlive. setoid_rewrite list_elem_of_singleton in Hlive.
  destruct (source_table false s (g_pools s) p' eq_refl Hsrc) as (Hh & Hl & Htab & Hmm).
  assert (Hu : in_use G x r) by (split; [by exists a|done]).
  assert (Hold : ∀ r' z y, live_slot A' r' z → z ≤ y < z + btm_sc_to_size r'.2 → byte_at (h_mem (p_heap p')) y = byte_at (mem_of s) y).
  { intros r' z y Hz Hy. apply HK. by apply (in_use_byte A' r' z y p' HS). }
  exists (mk_ghost A' (gh_cache G)).
  assert (HA' : api_ok (set_pools p' s) (mk_ghost A' (gh_cache G))).
  { apply pools_ok; try done. intros t r' z Hz. pose proof (cached_live HA t r' z Hz) as Hzl.
    assert (Hz' : live_slot A' r' z) by (apply Hlive; split; [done|]; intros [-> ->]; by apply (Hn t)).
    split; [done|]. intros y Hy. pose proof (live_size _ _ _ _ HS Hz'). apply (Hold r' z); [done|lia]. }
  eapply goes_iff; [apply (goes_slots s G _ _ (λ y r', in_use G y r' ∧ ¬ (y = x ∧ r' = r)) HA HA')|intros y m; by apply freed_blocks]; try done.
  - intros y r'. unfold in_use. cbn [gh_sys]. rewrite Hlive. unfold cached. cbn [gh_cache]. tauto.
  - intros z r1 r2 y [Hz _] [[Hz2 _] Hne] Hy.
    assert (r2 = r1) as -> by (by apply (live_unique (g_pools s) (gh_sys G) r2 r1 z (ao_sys _ _ HA))).
    apply (Hold r1 z); [|done]. apply Hlive. split; [done|]. tauto.
Qed.

Lemma resolve_owner_tls me x s o s1 : resolve_owner me x s = Ok (o, s1) → is_Some (th_tls (thread_at s me)) → is_Some (th_tls (thread_at s1 me)).
Proof.
  unfold resolve_owner. intros H [t Ht]. rewrite Ht in H. destruct (oe_resolve _ _ _) as [o' [c|]]; injection H as <- <-.
  - rewrite thread_at_set, decide_True by done. by eexists.
  - by rewrite Ht.
Qed.

(** Resolving a slot in use. *)
Lemma resolve_slot s G me r x :
  api_ok s G → oe_bound (table_of s) → live_slot (gh_sys G) r x →
  runs (resolve_owner me x) s (λ o s', o = chunk_of x ∧ chunk_of x ≠ 0 ∧ owner_is_large (chunk_of x) = false ∧ quiet s G s' G ∧
    same_globals s s' ∧ ∃ v, get_chunk_hdr (chunk_of x) s' = Ok (v, s') ∧ c_pool v = Some r ∧ c_sc v = r.2 ∧ c_part_idx v = r.1).
Proof.
  intros HA Hbd Hx. destruct (live_owner _ _ r x (ao_sys _ _ HA) Hx) as [Ho Hu]. destruct (live_chunk_space _ _ r x (ao_sys _ _ HA) Hx) as (Hck & _).
  destruct (ck_base _ _ Hck) as (Hc0 & Hcm & _). destruct (live_header _ _ r x (ao_sys _ _ HA) Hx) as (v & Hv & E1 & E2 & E3 & _).
  eapply runs_mono; [by apply (resolve_owner_spec s G me x)|]. intros o s' (-> & HQ & Hp & Hsg & _).
  split; [done|]. split; [lia|]. split; [by apply chunk_tag; [lia|]|]. split; [done|]. split; [done|]. exists v.
  split; [|done]. unfold get_chunk_hdr, on_pools, zoom, get_chunk. rewrite Hp, Hv. rewrite <-Hp. by destruct s'.
Qed.

(** Resolving a large block. *)
Lemma resolve_large s G me x n :
  api_ok s G → oe_bound (table_of s) → large_block (large_view (g_pools s)) x n →
  runs (resolve_owner me x) s (λ o s', o ≠ 0 ∧ owner_is_large o = true ∧ quiet s G s' G ∧ g_pools s' = g_pools s ∧
    ∃ hd, large_at (large_view (g_pools s')) (large_base o) hd ∧ x = large_base o + lh_user_off hd ∧ n = lh_map_len hd - lh_user_off hd).
Proof.
  intros HA Hbd Hb. destruct (large_block_owner s G x n HA Hb) as (base & hd & Hbh & Ex & En & Ho & H1 & H2 & H3).
  destruct (block_facts s G x n HA (or_intror Hb)) as (_ & _ & Hu).
  eapply runs_mono; [by apply (resolve_owner_spec s G me x)|]. intros o s' (-> & HQ & Hp & _). rewrite Ho, Hp.
  split_and!; try done. exists hd. rewrite H3. by split_and!.
Qed.

Lemma looks_freed_quiet s G s' G' x : quiet s G s' G' → looks_freed df_canary s' x ↔ looks_freed df_canary s x.
Proof. intros (HG & Hm & _). unfold looks_freed. by rewrite (go_harden _ _ _ _ _ HG), Hm. Qed.

Lemma free_spec s G me x n :
  api_ok s G → oe_bound (table_of s) → block s G x n → ¬ looks_freed df_canary s x →
  runs (free me x) s (λ _ s', free_gives s G x s').
Proof.
  intros HA Hbd Hb Hnf. destruct (block_facts s G x n HA Hb) as (Hx0 & _ & _). unfold btm_free.
  rewrite (proj2 (Z.eqb_neq x 0)) by lia. destruct Hb as [(r & Hu & ->)|Hb].
  - apply (runs_bind _ _ _ _ _ (resolve_slot s G me r x HA Hbd (proj1 Hu))).
    intros o s1 (-> & Hc0 & -> & HQ & Hsg & v & Hv & E1 & E2 & E3). rewrite (proj2 (Z.eqb_neq _ 0)) by done.
    apply (runs_step _ _ _ _ _ _ Hv). unfold get_tls. apply runs_gets. pose proof (go_ok _ _ _ _ _ (proj1 HQ)) as HA1.
    assert (Hcached : ∀ s2, quiet s G s2 G → is_Some (th_tls (thread_at s2 me)) → runs (free_cached df_canary me x v) s2 (λ _ s', free_gives s G x s')).
    { intros s2 HQ2 Ht. pose proof (go_ok _ _ _ _ _ (proj1 HQ2)) as HA2. eapply runs_mono.
      - apply (free_cached_spec df_canary s2 G me r x v HA2 Hu Ht E2 E3 E1). by rewrite (looks_freed_quiet s G s2 G x HQ2).
      - intros _ s' (G' & HG & _). apply (quiet_free s G s2 G x s' HQ2). exists G'. eapply goes_iff; [exact HG|]. intros y m. by apply freed_blocks. }
    destruct (th_tls (thread_at s1 me)) as [t|] eqn:Et; [apply Hcached; [done|rewrite Et; by eexists]|].
    apply (runs_bind _ _ _ _ _ (tls_get_spec s1 G me HA1)). intros ok s2 (HQ2 & _ & _ & Hok). destruct ok.
    + apply Hcached; [by eapply quiet_trans|done].
    + destruct Hok as [-> _]. eapply runs_mono; [by apply (free_one_spec s1 G r x)|]. intros u s'. by apply quiet_free.
  - apply (runs_bind _ _ _ _ _ (resolve_large s G me x n HA Hbd Hb)).
    intros o s1 (Ho & -> & HQ & Hp & hd & Hbh & Ex & _). rewrite (proj2 (Z.eqb_neq o 0)) by done.
    eapply runs_mono; [by apply (large_free_spec s1 G x (large_base o) hd (go_ok _ _ _ _ _ (proj1 HQ)))|].
    intros u s'. by apply quiet_free.
Qed.

(** Freeing a slot on a thread with a block: unless its bin was full, the slot is in the
    bin and carries its canary. *)
Lemma free_slot_spec s G me r x :
  api_ok s G → oe_bound (table_of s) → in_use G x r → is_Some (th_tls (thread_at s me)) → ¬ looks_freed df_canary s x →
  runs (free me x) s (λ _ s', is_Some (th_tls (thread_at s' me)) ∧ ∃ G', goes s G s' G' (λ y m, block s G y m ∧ y ≠ x) ∧
    (Z.of_nat (length (cached G me r)) < btm_cache_max r.2 → cached G' me r = x :: cached G me r ∧ table_of s' = table_of s ∧
      ∀ f, df_canary = Some f → g_harden_mode s = true → 0 ≤ f x < 2 ^ 64 → looks_freed df_canary s' x)).
Proof.
  intros HA Hbd Hu [t Ht] Hnf. destruct (live_aligned _ _ r x (ao_sys _ _ HA) (proj1 Hu)) as (Hx0 & _ & _). unfold btm_free.
  rewrite (proj2 (Z.eqb_neq x 0)) by lia. destruct (resolve_slot s G me r x HA Hbd (proj1 Hu)) as (o & s1 & Hrun & -> & Hc0 & Hcl & HQ & Hsg & v & Hv & E1 & E2 & E3).
  pose proof (resolve_owner_tls _ _ _ _ _ Hrun) as Hth. apply (runs_step _ _ _ _ _ _ Hrun).
  rewrite (proj2 (Z.eqb_neq _ 0)), Hcl by done. apply (runs_step _ _ _ _ _ _ Hv). unfold get_tls. apply runs_gets.
  assert (Ht1 : is_Some (th_tls (thread_at s1 me))) by (apply Hth; rewrite Ht; by eexists). destruct Ht1 as [t1 Et1]. rewrite Et1.
  pose proof (go_ok _ _ _ _ _ (proj1 HQ)) as HA1. eapply runs_mono.
  - apply (free_cached_spec df_canary s1 G me r x v HA1 Hu); [by rewrite Et1|done..|]. by rewrite (looks_freed_quiet s G s1 G).
  - intros u s' (G' & HG & Ht' & Hroom). split; [done|]. exists G'. split.
    + eapply goes_iff; [eapply quiet_goes; [exact HQ|exact HG]|]. intros y m. rewrite (freed_blocks s1 G r x y m HA1 Hu). by rewrite (quiet_block s G s1 G).
    + intros Hlt. destruct (Hroom Hlt) as (Hc & Htab & Hcan). split; [done|]. split; [by rewrite Htab; apply HQ|].
      intros f Ef Eh. apply Hcan; [done|]. by rewrite (go_harden _ _ _ _ _ (proj1 HQ)).
Qed.

(** A foreign pointer is ignored. *)
Lemma free_foreign_spec s G me x :
  api_ok s G → oe_bound (table_of s) → user_addr x → ot_lookup (table_of s) x = 0 →
  runs (free me x) s (λ _ s', quiet s G s' G).
Proof.
  intros HA Hbd Hx Ho. unfold btm_free. destruct (x =? 0); [apply runs_ret; by apply quiet_refl|].
  apply (runs_bind _ _ _ _ _ (resolve_owner_spec s G me x HA Hbd Hx)). intros o s' (-> & HQ & _). rewrite Ho. by apply runs_ret.
Qed.

(** A slot that still carries its canary: the process stops. *)
Lemma free_twice_aborts s G me r x :
  api_ok s G → oe_bound (table_of s) → live_slot (gh_sys G) r x → is_Some (th_tls (thread_at s me)) →
  looks_freed df_canary s x → free me x s = Aborted.
Proof.
  intros HA Hbd Hx [t Ht] Hf. destruct (live_aligned _ _ r x (ao_sys _ _ HA) Hx) as (Hx0 & _). unfold btm_free.
  rewrite (proj2 (Z.eqb_neq x 0)) by lia. destruct (live_owner _ _ r x (ao_sys _ _ HA) Hx) as [_ Hu].
  destruct (resolve_owner_spec s G me x HA Hbd Hu) as (o2 & s2 & Hr2 & _ & _ & _ & _ & Hbins).
  destruct (resolve_slot s G me r x HA Hbd Hx) as (o & s1 & Hr & -> & Hc0 & Hcl & HQ & _ & v & Hv & E1 & E2 & E3).
  assert (s2 = s1) as -> by congruence. rewrite (run_bind _ _ _ _ _ Hr). rewrite (proj2 (Z.eqb_neq _ 0)), Hcl by done.
  rewrite (run_bind _ _ _ _ _ Hv). unfold get_tls. rewrite (run_bind _ _ _ _ _ (run_gets _ _)).
  specialize (Hbins me). rewrite Ht in Hbins. destruct (th_tls (thread_at s1 me)); [|discriminate Hbins].
  unfold free_cached, mbind at 1, M_bind at 1. pose proof (go_ok _ _ _ _ _ (proj1 HQ)) as HA1.
  by rewrite (proj1 (check_canary_run df_canary s1 (gh_sys G) r x (ao_sys _ _ HA1) Hx)) by (by apply (looks_freed_quiet s G s1 G)).
Qed.

(** ** malloc_usable_size *)
Lemma usable_size_spec s G me x n :
  api_ok s G → oe_bound (table_of s) → block s G x n →
  runs (btm_malloc_usable_size me x) s (λ m s', m = n ∧ quiet s G s' G).
Proof.
  intros HA Hbd Hb. destruct (block_facts s G x n HA Hb) as (Hx0 & _ & _). unfold btm_malloc_usable_size.
  rewrite (proj2 (Z.eqb_neq x 0)) by lia. destruct Hb as [(r & Hu & ->)|Hb].
  - apply (runs_bind _ _ _ _ _ (resolve_slot s G me r x HA Hbd (proj1 Hu))).
    intros o s1 (-> & Hc0 & -> & HQ & _ & v & Hv & _ & E2 & _). rewrite (proj2 (Z.eqb_neq _ 0)) by done. cbn [negb].
    apply (runs_step _ _ _ _ _ _ Hv). apply runs_ret. by rewrite E2.
  - apply (runs_bind _ _ _ _ _ (resolve_large s G me x n HA Hbd Hb)).
    intros o s1 (Ho & -> & HQ & Hp & hd & Hbh & -> & ->). rewrite (proj2 (Z.eqb_neq o 0)) by done. cbn [negb].
    exists (lh_map_len hd - lh_user_off hd), s1. split; [|done].
    by apply (large_usable_run s1 G (large_base o) hd (go_ok _ _ _ _ _ (proj1 HQ))).
Qed.

(** A forked child has the heap of its parent, and no maintenance thread. *)
Lemma fork_spec s G :
  api_ok s G → runs btm_atfork_child s (λ _ s', quiet s G s' G ∧ g_threads s' = g_threads s ∧ p_heap (g_pools s') = p_heap (g_pools s) ∧
    kernel_of s' = kernel_of s ∧ dispose_head (p_src (g_pools s')) = 0 ∧ bg_async (p_src (g_pools s')) = false ∧ g_bg_started s' = false).
Proof.
  intros HA. destruct (atfork_child_spec (chunks_of (gh_sys G)) (p_heap (g_pools s)) (p_src (g_pools s)) (so_src _ _ (ao_sys _ _ HA)))
    as (b' & Hrun & HS & Hst & Hk & Ht & _ & _ & Hd & Ha & _).
  apply (runs_step _ _ _ (set_pools (set_source (p_heap (g_pools s), b') (g_pools s)) s) tt).
  { unfold on_source, on_pools. erewrite run_zoom; [|erewrite run_zoom by exact Hrun; reflexivity]. done. }
  exists tt. eexists. split; [reflexivity|]. split; [|done].
  set (s1 := set_pools _ s). assert (HG : goes s G s1 G (block s G)) by (by apply source_step_goes; [|apply agree_on_refl|..]).
  pose proof (set_bg_started_ok s1 G false (go_ok _ _ _ _ _ HG)) as HQ2.
  refine (quiet_trans _ _ _ G _ _ _ HQ2). split; [exact HG|]. by split.
Qed.

(** Cold tiering sets flags of slabs that are full and idle, and the program sees nothing. *)
Lemma pageout_cold_spec s G :
  api_ok s G → runs btm_pageout_cold s (λ t s', quiet s G s' G ∧ ∃ L,
    evicts (p_epoch (g_pools s)) L (p_heap (g_pools s)) (p_heap (g_pools s')) ∧ p_epoch (g_pools s') = u32 (p_epoch (g_pools s) + 1) ∧ p_pools (g_pools s') = p_pools (g_pools s) ∧
    (∀ d, d ∈ L ↔ (∃ r, carved (gh_sys G) (p_heap (g_pools s)) r d) ∧ evictable (p_epoch (g_pools s)) (slab_at (p_heap (g_pools s)) d) = true) ∧ t = u64 (slab_bytes (p_heap (g_pools s)) L)).
Proof.
  intros HA. unfold btm_pageout_cold. apply runs_gets. rewrite (proj1 (ao_ready _ _ HA)). apply runs_gets, runs_zoom.
  eapply runs_mono; [apply (pageout_spec (g_pools s) (gh_sys G) (g_nparts s) (ao_sys _ _ HA))|].
  { intros r. rewrite (ao_pools _ _ HA). unfold in_range, valid_sc. unfold_geometry. lia. }
  intros t p' (h' & L & -> & E & HS & HL & ->). set (p' := mk_pstate _ _ _ _). split; [|by exists L].
  assert (HA' : api_ok (set_pools p' s) G).
  { replace G with (mk_ghost (gh_sys G) (gh_cache G)) by (by destruct G). apply pools_ok; [done..|]. intros t r x Hx.
    split; [by apply (cached_live HA t)|]. intros y _. cbn. by rewrite (ev_mem _ _ _ _ E). }
  split; [|split; [exact (ev_mem _ _ _ _ E)|done]].
  eapply goes_iff; [apply (goes_slots s G _ _ (in_use G) HA HA'); try done|done].
  all: intros; unfold mem_of; cbn; by rewrite (ev_mem _ _ _ _ E).
Qed.
End spec.
