(* ===== verification/ApiRealloc.v ===== *)
(** * ApiRealloc: realloc and the aligned allocations

    [realloc_move_spec]: allocate, copy, free; whatever the allocation did to the pools,
    the old block is still the program's with its bytes, so the copy and the release see
    it.  The specifications of [btm_realloc_at] follow case by case. *)

From stdpp Require Import prelude gmap.
From S2P Require Import Prelude Memory SizeClass Freelist Registry Engine Callsite Os Large Heap Memfd Dll Pool PoolInv PoolFrame PoolRun PoolRefill PoolSys PoolOps Space Background BgLaws Api ApiInv ApiStep ApiSmall ApiLarge ApiSpec.
Local Open Scope Z_scope.

Section realloc.
Context {F : FlOps} {FL : FlLaws F} {Krn : OS} {KL : OSLaws Krn} {T : Type} {OT : OwnerTable T} {OE : OwnerEngine T}
  {EL : OwnerEngineLaws T OT OE}.
Context (df_canary : option (Z → Z)) (env : environment) (meta_mmap : kstate → Z → bool) (spawn : kstate → bool).
Implicit Types (r : pool_ref) (s : astate T) (G : aghost).

Abbreviation malloc_at := (btm_malloc_at df_canary env meta_mmap spawn).
Abbreviation realloc_at := (btm_realloc_at df_canary env meta_mmap spawn).
Abbreviation free := (btm_free df_canary meta_mmap).

(** What is known of the block [x] when it is released: it and its bytes are as before,
    the table only grew. *)
Definition kept_block s G (x n : Z) s1 G1 : Prop :=
  api_ok s1 G1 ∧ block s1 G1 x n ∧ table_moves true (table_of s) (table_of s1) ∧ g_harden_mode s1 = g_harden_mode s ∧
  ∀ y, x ≤ y < x + n → byte_at (mem_of s1) y = byte_at (mem_of s) y.

(** The new block holds the copy and the old one is gone. *)
Lemma moved_gives s G x n size q k s2 G1 s' :
  block s G x n → (∀ m, ¬ block s G q m) → 0 < q → q mod BTM_ALIGNMENT = 0 → size ≤ k →
  goes s G s2 G1 (λ y m, block s G y m ∨ (y = q ∧ m = k)) →
  (∀ i, 0 ≤ i < Z.min n size → byte_at (mem_of s2) (q + i) = byte_at (mem_of s) (x + i)) →
  free_gives s2 G1 x s' → realloc_gives s G x n size q s'.
Proof.
  intros Hb Hfr Hq Hal Hk HG Hcopy (G' & HF). exists G'. right. split; [done|]. split; [done|]. exists k.
  assert (Hne : q ≠ x) by (intros ->; by apply (Hfr n)).
  split; [done|]. split; [by right|]. split.
  - eapply goes_iff; [apply (goes_trans s G s2 G1 s' G' _ _ HG HF)|].
    + intros y m _ [Hb2 _]. by apply HG.
    + intros y m. cbv beta. rewrite (go_blocks _ _ _ _ _ HG y m). split; [intros [[?|[-> ->]] ?]; tauto|].
      intros [?|[-> ->]]; [tauto|]. split; [by right|done].
  - intros i Hi. rewrite <-Hcopy by done. apply (go_bytes _ _ _ _ _ HF q k); [apply HG; by right| |lia].
    split; [apply HG; by right|done].
Qed.

Lemma quiet_realloc s G s1 G1 x n size q s' : quiet s G s1 G1 → realloc_gives s1 G1 x n size q s' → realloc_gives s G x n size q s'.
Proof.
  intros HQ (G' & [[-> HG]|(Hq & Hal & m & Hm & Hfr & HG & Hc)]); exists G'; [left|right].
  - split; [done|]. eapply goes_iff; [by eapply quiet_goes|]. intros y k. by apply quiet_block.
  - split_and!; [done..|]. exists m. split_and!; [done| | |].
    + destruct Hfr as [?|Hfr]; [by left|right]. intros k Hk. apply (Hfr k). by apply (quiet_block s G s1 G1).
    + eapply goes_iff; [by eapply quiet_goes|]. intros y k. cbv beta. by rewrite (quiet_block s G s1 G1).
    + intros i Hi. rewrite Hc by done. by rewrite (proj1 (proj2 HQ)).
Qed.

Lemma realloc_move_spec s G me x n size ra release :
  api_ok s G → block s G x n → 0 < size ≤ 2 ^ 46 → ra ≠ 0 →
  (∀ s1 G1, kept_block s G x n s1 G1 → runs release s1 (λ _ s', free_gives s1 G1 x s')) →
  runs (realloc_move df_canary env meta_mmap spawn me x n size ra release) s (realloc_gives s G x n size).
Proof.
  intros HA Hb Hs Hra Hrel. destruct (block_facts s G x n HA Hb) as (Hx0 & Hn0 & _). unfold realloc_move.
  apply (runs_bind _ _ _ _ _ (malloc_at_spec df_canary env meta_mmap spawn s G me size ra HA ltac:(lia) Hra)).
  intros q s1 (Ht & G1 & [[-> HG]|(Hq & Hal & k & Hk & Hfr & HG)]); [apply runs_ret; exists G1; by left|].
  rewrite (proj2 (Z.eqb_neq q 0)) by lia. pose proof (go_ok _ _ _ _ _ HG) as HA1.
  assert (Hbx : block s1 G1 x n) by (apply HG; by left). assert (Hbq : block s1 G1 q k) by (apply HG; by right).
  set (l := if n <? size then n else size). assert (Hl : l = Z.min n size) by (unfold l; destruct (Z.ltb_spec n size); lia).
  set (m' := memcpy (mem_of s1) q x l).
  assert (Hm : ∀ y, byte_at m' y = if decide (q ≤ y < q + l) then byte_at (mem_of s1) (x + (y - q)) else byte_at (mem_of s1) y) by (intros y; apply byte_at_memcpy; lia).
  assert (Hrun : c_memcpy q x l s1 = Ok (tt, set_mem m' s1)).
  { unfold c_memcpy. rewrite (block_accessible s1 G1 x n x l HA1 Hbx) by lia. apply (write_mem_run s1 q l (λ m, memcpy m q x l)). apply (block_accessible s1 G1 q k q l HA1 Hbq); lia. }
  apply (runs_step _ _ _ _ _ _ Hrun).
  assert (HG2 : goes s G (set_mem m' s1) G1 (λ y m, block s G y m ∨ (y = q ∧ m = k))).
  { apply (goes_write s G s1 G1 _ q k); [done|by right|done|]. intros y Hy. rewrite Hm. by rewrite decide_False by lia. }
  assert (Hap : disjoint_blocks q k x n).
  { destruct (blocks_apart s1 G1 q k x n HA1 Hbq Hbx) as [[-> ->]|]; [by destruct (Hfr n)|done]. }
  assert (Hkept : ∀ y, x ≤ y < x + n → byte_at m' y = byte_at (mem_of s) y).
  { intros y Hy. rewrite Hm, decide_False by (unfold disjoint_blocks in Hap; lia). apply (go_bytes _ _ _ _ _ HG x n); [done|by left|done]. }
  eapply runs_bind.
  - apply (Hrel (set_mem m' s1) G1). split; [apply HG2|]. split; [apply HG2; by left|]. split; [exact Ht|]. split; [apply HG|exact Hkept].
  - intros u s' HF. apply runs_ret. apply (moved_gives s G x n size q k (set_mem m' s1) G1 s'); try done.
    intros i Hi. cbn. rewrite Hm, decide_True by lia. replace (x + (q + i - q)) with (x + i) by lia.
    apply (go_bytes _ _ _ _ _ HG x n); [done|by left|lia].
Qed.

(** ** Releasing a block that was kept *)
Lemma kept_freed s G x n s1 G1 me :
  oe_bound (table_of s) → block s G x n → kept_block s G x n s1 G1 → 16 ≤ n → ¬ looks_freed df_canary s x →
  runs (free me x) s1 (λ _ s', free_gives s1 G1 x s').
Proof.
  intros Hbd Hb (HA1 & Hb1 & Ht & Eh & Hk) Hn Hnf. apply (free_spec df_canary meta_mmap s1 G1 me x n HA1); [|done|].
  - by apply (oe_bound_grow (table_of s)).
  - unfold looks_freed in *. rewrite Eh. intros (E1 & canary & E2 & E3). apply Hnf. split; [done|]. exists canary. split; [done|].
    rewrite <-E3. apply load64_ext. intros y Hy. symmetry. apply Hk. lia.
Qed.

Lemma kept_large s G base hd n s1 G1 :
  let x := base + lh_user_off hd in
  api_ok s G → large_at (large_view (g_pools s)) base hd → large_block (large_view (g_pools s)) x n → kept_block s G x n s1 G1 →
  runs (on_large (btm_large_free base)) s1 (λ _ s', free_gives s1 G1 x s').
Proof.
  intros x HA Hl Hb (HA1 & Hb1 & Ht & _). destruct (large_block_owner s G x n HA Hb) as (base0 & hd0 & Hl0 & Ex & _ & Ho & Hne & _ & Hlb0).
  assert (base0 = base) as ->.
  { destruct (sys_guests _ _ (ao_sys _ _ HA)) as (P & HG & _). destruct (gs_large _ _ HG base hd Hl) as [_ L1], (gs_large _ _ HG base0 hd0 Hl0) as [_ L2].
    pose proof (ll_off _ _ _ _ L1). pose proof (ll_off _ _ _ _ L2). unfold x in Ex. apply (guests_apart P _ base0 hd0 base hd x HG Hl0 Hl); unfold x; lia. }
  destruct (block_facts s1 G1 x n HA1 Hb1) as (_ & _ & Hu).
  assert (Ho1 : ot_lookup (table_of s1) x = Z.lor base 1).
  { rewrite (grow_lookup (table_of s)); [done|done|apply (evolves_live oe_table0); [apply HA|apply oe_live0]|done|by rewrite Ho]. }
  destruct Hb1 as [(r & [Hx _] & _)|Hb1].
  - destruct (live_owner _ _ r x (ao_sys _ _ HA1) Hx) as [E _]. destruct (live_chunk_space _ _ r x (ao_sys _ _ HA1) Hx) as (Hck & _).
    destruct (ck_base _ _ Hck) as (? & Hm & _). destruct (large_block_owner s G x n HA Hb) as (b2 & h2 & _ & _ & _ & Ho2 & _ & Hlg & _).
    pose proof (chunk_tag (chunk_of x) ltac:(lia) Hm) as Hc. unfold table_of in *. congruence.
  - destruct (large_block_owner s1 G1 x n HA1 Hb1) as (b2 & h2 & Hl2 & Ex2 & _ & Ho2 & _ & _ & Hlb2).
    assert (b2 = base) as -> by congruence. by apply (large_free_spec s1 G1 x base h2 HA1 Hl2).
Qed.

(** ** realloc *)
Lemma same_block_gives s G x n size :
  api_ok s G → block s G x n → x mod BTM_ALIGNMENT = 0 → size ≤ n → realloc_gives s G x n size x s.
Proof.
  intros HA Hb Hal Hs. destruct (block_facts s G x n HA Hb) as (Hx0 & Hn0 & _). exists G. right. split; [done|]. split; [done|].
  exists n. split; [done|]. split; [by left|]. split; [|done].
  eapply goes_iff; [apply (quiet_refl s G HA)|]. intros y k. split.
  - intros Hy. destruct (decide (y = x)) as [->|Hne]; [right|by left]. split; [done|].
    destruct (blocks_apart s G x n x k HA Hb Hy) as [[_ ->]|Hd]; [done|]. destruct (block_facts s G x k HA Hy) as (_ & ? & _).
    unfold disjoint_blocks in Hd. lia.
  - intros [[? _]|[-> ->]]; done.
Qed.

Lemma realloc_slot_spec s G me x r size ra :
  api_ok s G → oe_bound (table_of s) → in_use G x r → 0 < size ≤ 2 ^ 46 → ra ≠ 0 → ¬ looks_freed df_canary s x →
  runs (realloc_at me x size ra) s (realloc_gives s G x (btm_sc_to_size r.2) size).
Proof.
  intros HA Hbd Hu Hs Hra Hnf. destruct (live_aligned _ _ r x (ao_sys _ _ HA) (proj1 Hu)) as (Hx0 & _ & Hal). unfold btm_realloc_at.
  pose proof (live_size _ _ _ _ (ao_sys _ _ HA) (proj1 Hu)) as Hsz.
  rewrite (proj2 (Z.eqb_neq x 0)), (proj2 (Z.eqb_neq size 0)) by lia.
  apply (runs_bind _ _ _ _ _ (resolve_slot s G me r x HA Hbd (proj1 Hu))). intros o s1 (-> & Hc0 & -> & HQ & _ & v & Hv & _ & E2 & _).
  rewrite (proj2 (Z.eqb_neq _ 0)) by done. cbn [negb]. apply (runs_step _ _ _ _ _ _ Hv). rewrite E2.
  pose proof (go_ok _ _ _ _ _ (proj1 HQ)) as HA1. assert (Hb1 : block s1 G x (btm_sc_to_size r.2)) by (left; by exists r).
  assert (Hnf1 : ¬ looks_freed df_canary s1 x) by (by rewrite (looks_freed_quiet df_canary s G s1 G)).
  eapply runs_mono; [|intros q s'; by apply (quiet_realloc s G s1 G)]. destruct (Z.eqb_spec (btm_size_to_sc size) r.2) as [E|_].
  - apply runs_ret. apply same_block_gives; [done|done|done|]. destruct (decide (size ≤ BTM_SMALL_MAX_SIZE)).
    + destruct (size_to_sc_valid size ltac:(lia)) as [_ Hfit]. by rewrite E in Hfit.
    + rewrite size_to_sc_none in E by lia. destruct (live_in_range HA r x (proj1 Hu)) as [_ Hv2]. unfold valid_sc in Hv2. lia.
  - apply realloc_move_spec; [done..|]. intros s2 G2 HK.
    apply (kept_freed s1 G x (btm_sc_to_size r.2) s2 G2 me); [|done|done|lia|done]. by rewrite (proj2 (proj2 HQ)).
Qed.

(** A call before which only the cache of the owners changed. *)
Lemma quiet_displaced s G s1 x n size q s' :
  api_ok s G → quiet s G s1 G → g_pools s1 = g_pools s → realloc_displaced s1 G x n size q s' → realloc_displaced s G x n size q s'.
Proof.
  intros HA HQ Hp (base & hd & nbase & ntotal & D & Hq & Hq0 & Hqa & Hroom & Hfr & Hc & Hm & Ho & Ht).
  exists base, hd, nbase, ntotal. split; [by destruct D; rewrite Hp in *; split|]. split_and!; [done..| | |done| |].
  - intros k Hk. apply (Hfr k). by apply (quiet_block s G s1 G).
  - intros i Hi. rewrite Hc by done. unfold mem_of. by rewrite Hp.
  - intros y k z Hy Hne Hz. destruct (Ho y k z) as (? & E & ?); [by apply (quiet_block s G s1 G)|done..|]. split; [done|]. split; [|done].
    rewrite E. unfold mem_of. by rewrite Hp.
  - intros y Hy. rewrite Ht by done. unfold table_of. by rewrite Hp.
Qed.

Lemma realloc_large_spec s G me x n size ra :
  api_ok s G → oe_bound (table_of s) → large_block (large_view (g_pools s)) x n → 0 < size ≤ 2 ^ 46 → ra ≠ 0 →
  runs (realloc_at me x size ra) s (λ q s', realloc_gives s G x n size q s' ∨ realloc_displaced s G x n size q s').
Proof.
  intros HA Hbd Hb Hs Hra. destruct (block_facts s G x n HA (or_intror Hb)) as (Hx0 & _ & _). unfold btm_realloc_at.
  rewrite (proj2 (Z.eqb_neq x 0)), (proj2 (Z.eqb_neq size 0)) by lia.
  apply (runs_bind _ _ _ _ _ (resolve_large s G me x n HA Hbd Hb)). intros o s1 (Ho & -> & HQ & Hp & hd & Hl & Ex & En).
  rewrite (proj2 (Z.eqb_neq o 0)) by done. cbn [negb]. set (base := large_base o) in *.
  pose proof (go_ok _ _ _ _ _ (proj1 HQ)) as HA1. assert (Hb1 : large_block (large_view (g_pools s1)) x n) by (by rewrite Hp).
  apply (runs_step _ _ _ s1 n); [rewrite Ex, En; by apply (large_usable_run s1 G base hd)|]. destruct (Z.leb_spec size BTM_SMALL_MAX_SIZE).
  - eapply runs_mono; [|intros q s' Hg; left; by apply (quiet_realloc s G s1 G)].
    apply realloc_move_spec; [done|by right|done|done|]. intros s2 G2 HK. rewrite Ex in *. by apply (kept_large s1 G base hd n).
  - eapply runs_mono; [rewrite Ex; apply (large_realloc_spec s1 G base hd size HA1 Hl); lia|].
    intros q s'. rewrite <-Ex, <-En. intros [Hg|Hd]; [left; by apply (quiet_realloc s G s1 G)|right; by apply (quiet_displaced s G s1)].
Qed.

Lemma realloc_at_spec s G me x n size ra :
  api_ok s G → oe_bound (table_of s) → block s G x n → 0 < size ≤ 2 ^ 46 → ra ≠ 0 → ¬ looks_freed df_canary s x →
  runs (realloc_at me x size ra) s (λ q s', realloc_gives s G x n size q s' ∨ realloc_displaced s G x n size q s').
Proof.
  intros HA Hbd [(r & Hu & ->)|Hb] Hs Hra Hnf; [|by apply realloc_large_spec].
  eapply runs_mono; [by apply realloc_slot_spec|]. by left.
Qed.

(** [realloc (p, 0)] frees. *)
Lemma realloc_zero_spec s G me x n ra :
  api_ok s G → oe_bound (table_of s) → block s G x n → ¬ looks_freed df_canary s x →
  runs (realloc_at me x 0 ra) s (λ q s', q = 0 ∧ free_gives s G x s').
Proof.
  intros HA Hbd Hb Hnf. destruct (block_facts s G x n HA Hb) as (Hx0 & _ & _). unfold btm_realloc_at.
  rewrite (proj2 (Z.eqb_neq x 0)) by lia. cbn [Z.eqb].
  apply (runs_bind _ _ _ _ _ (free_spec df_canary meta_mmap s G me x n HA Hbd Hb Hnf)). intros u s' HF. by apply runs_ret.
Qed.

(** ** posix_memalign and aligned_alloc *)
Lemma is_pow2_log x : 0 < x < 2 ^ 64 → is_pow2 x = true → x = 2 ^ Z.log2 x.
Proof.
  intros Hx H. unfold is_pow2 in H. rewrite (proj2 (Z.eqb_neq x 0)), u64_small in H by lia. cbn [negb andb] in H. apply Z.eqb_eq in H.
  set (k := Z.log2 x). pose proof (Z.log2_nonneg x) as Hk. pose proof (Z.log2_spec x (proj1 Hx)) as [H1 H2]. fold k in Hk, H1, H2.
  destruct (decide (x = 2 ^ k)) as [|Hne]; [done|exfalso].
  assert (Hb : Z.testbit (Z.land x (x - 1)) k = true).
  { rewrite Z.land_spec. assert (E : ∀ y, 2 ^ k ≤ y < 2 ^ Z.succ k → Z.testbit y k = true).
    { intros y Hy. rewrite <-(Z.log2_unique y k Hk Hy). apply Z.bit_log2. assert (0 < 2 ^ k) by (by apply Z.pow_pos_nonneg). lia. }
    rewrite !E by lia. done. }
  rewrite H, Z.bits_0 in Hb. done.
Qed.

Lemma pow2_is_pow2 a : 0 ≤ a < 64 → is_pow2 (2 ^ a) = true.
Proof.
  intros Ha. assert (H : 0 < 2 ^ a < 2 ^ 64) by (split; [apply Z.pow_pos_nonneg; lia|apply Z.pow_lt_mono_r; lia]).
  unfold is_pow2. rewrite (proj2 (Z.eqb_neq _ 0)), u64_small by lia. cbn [negb andb]. rewrite land_mask by lia.
  rewrite Z.mod_same by lia. done.
Qed.

Lemma pow2_range x : 0 ≤ x ≤ 2 ^ 40 → x mod 8 = 0 → x = 2 ^ Z.log2 x → 3 ≤ Z.log2 x ≤ 40.
Proof.
  intros Hx H8 E. set (a := Z.log2 x) in *. pose proof (Z.log2_nonneg x : 0 ≤ a) as Ha.
  assert (a ≤ 40) by (rewrite <-(Z.log2_pow2 40) by lia; apply Z.log2_le_mono; lia).
  destruct (decide (3 ≤ a)); [lia|]. assert (Hc : a = 0 ∨ a = 1 ∨ a = 2) by lia.
  exfalso. rewrite E in H8. by destruct Hc as [->|[->| ->]].
Qed.

(** The allocation both functions end with. *)
Lemma aligned_spec s G me a size ra :
  api_ok s G → 0 ≤ a ≤ 40 → 0 < size ≤ 2 ^ 46 → ra ≠ 0 →
  runs (if 2 ^ a <=? BTM_ALIGNMENT then malloc_at me size ra else on_large (btm_large_alloc size (2 ^ a))) s
    (λ x s', malloc_gives s G size x s' ∧ x mod 2 ^ a = 0).
Proof.
  intros HA Ha Hs Hra. destruct (Z.leb_spec (2 ^ a) BTM_ALIGNMENT) as [Hle|Hgt].
  - assert (Ha4 : a ≤ 4). { destruct (decide (a ≤ 4)) as [|Hn]; [done|]. pose proof (Z.pow_lt_mono_r 2 4 a ltac:(lia) ltac:(lia) ltac:(lia)). unfold_geometry. lia. }
    eapply runs_mono; [apply (malloc_at_spec df_canary env meta_mmap spawn s G me size ra HA ltac:(lia) Hra)|]. intros x s' Hx. split; [done|].
    destruct Hx as (_ & G' & [[-> _]|(_ & Hal & _)]); [apply Z.mod_0_l, Z.pow_nonzero; lia|]. apply (mod_0_weaken x a 4); [lia|done].
  - eapply runs_mono; [apply (large_alloc_spec s G size a HA Ha Hs)|]. by intros x s' (? & ? & _).
Qed.

Lemma posix_memalign_spec s G me a size ra :
  api_ok s G → 3 ≤ a ≤ 40 → 0 < size ≤ 2 ^ 46 → ra ≠ 0 →
  runs (btm_posix_memalign df_canary env meta_mmap spawn me (2 ^ a) size ra) s (λ v s',
    (v = (ENOMEM, None) ∧ malloc_gives s G size 0 s') ∨
    ∃ x, v = (0, Some x) ∧ x ≠ 0 ∧ x mod 2 ^ a = 0 ∧ malloc_gives s G size x s').
Proof.
  intros HA Ha Hs Hra. unfold btm_posix_memalign. rewrite pow2_is_pow2 by lia.
  assert (H8 : 2 ^ a mod 8 = 0).
  { replace a with (3 + (a - 3)) by lia. rewrite Z.pow_add_r by lia. change (2 ^ 3) with 8. rewrite Z.mul_comm. apply Z.mod_mul. lia. }
  rewrite H8. cbn [negb orb Z.eqb]. rewrite (proj2 (Z.eqb_neq size 0)) by lia.
  apply (runs_step _ _ _ _ _ _ (ensure_init_run df_canary env meta_mmap s G HA)).
  apply (runs_bind _ _ _ _ _ (aligned_spec s G me a size ra HA ltac:(lia) Hs Hra)). intros x s' [Hg Hx].
  destruct (Z.eqb_spec x 0) as [->|Hne]; apply runs_ret; [by left|right]. by exists x.
Qed.

Lemma aligned_alloc_spec s G me a size ra :
  api_ok s G → 0 ≤ a ≤ 40 → 0 < size ≤ 2 ^ 46 → size mod 2 ^ a = 0 → ra ≠ 0 →
  runs (btm_aligned_alloc df_canary env meta_mmap spawn me (2 ^ a) size ra) s (λ x s', malloc_gives s G size x s' ∧ x mod 2 ^ a = 0).
Proof.
  intros HA Ha Hs Hm Hra. unfold btm_aligned_alloc. rewrite pow2_is_pow2 by lia. cbn [negb].
  rewrite (proj2 (Z.eqb_neq size 0)) by lia. rewrite Hm. cbn [negb Z.eqb].
  apply (runs_step _ _ _ _ _ _ (ensure_init_run df_canary env meta_mmap s G HA)). by apply aligned_spec.
Qed.

(** Requests the two functions refuse. *)
Lemma posix_memalign_invalid me alignment size ra s :
  0 ≤ alignment < 2 ^ 64 → (alignment mod 8 ≠ 0 ∨ ∀ a, 0 ≤ a → alignment ≠ 2 ^ a) →
  btm_posix_memalign df_canary env meta_mmap spawn me alignment size ra s = Ok ((EINVAL, None), s).
Proof.
  intros Hr H. unfold btm_posix_memalign. assert (E : negb (is_pow2 alignment) || negb (alignment mod 8 =? 0) = true); [|by rewrite E].
  destruct H as [H|H]; [by rewrite (proj2 (Z.eqb_neq _ _) H), orb_true_r|]. destruct (is_pow2 alignment) eqn:Ep; [exfalso|done].
  assert (0 < alignment) by (destruct (decide (alignment = 0)) as [->|]; [discriminate Ep|lia]).
  apply (H (Z.log2 alignment)); [apply Z.log2_nonneg|]. apply is_pow2_log; [lia|done].
Qed.
End realloc.
