(* ===== verification/Preload.v ===== *)
(** * Preload: the libc overrides of src/src/preload.c

    The functions a program calls when the library is preloaded.  Each is one call of the
    public API; those that go through btm_reallocarray, btm_posix_memalign and
    btm_aligned_alloc anchor on the wrapper instead of the program's call site. *)

From stdpp Require Import prelude gmap.
From S2P Require Import Prelude Memory SizeClass Freelist Registry Engine Callsite Os Large Heap Dll Pool PoolInv PoolFrame PoolRun PoolRefill PoolSys PoolOps Space Background BgLaws Api ApiInv Profile ApiStep ApiSmall ApiLarge ApiSpec ApiRealloc.
Local Open Scope Z_scope.

(** The wrappers whose own code is the call site that the allocator sees. *)
Inductive shim : Type := S_reallocarray | S_posix_memalign | S_aligned_alloc | S_memalign | S_valloc | S_pvalloc.

Module Preload.
Section preload.
Context {F : FlOps} {Krn : OS} {T : Type} {OT : OwnerTable T} {OE : OwnerEngine T}.
Context (df_canary : option (Z → Z)) (env : environment) (meta_mmap : kstate → Z → bool) (spawn : kstate → bool).
(** The return address of the call in each wrapper. *)
Context (shim_ra : shim → Z).

Definition malloc (me : nat) (size ra : Z) : M (astate T) Z := btm_malloc_at df_canary env meta_mmap spawn me size ra.
Definition free (me : nat) (ptr : Z) : M (astate T) unit := btm_free df_canary meta_mmap me ptr.
Definition calloc (me : nat) (n s ra : Z) : M (astate T) Z := btm_calloc_at df_canary env meta_mmap spawn me n s ra.
Definition realloc (me : nat) (p s ra : Z) : M (astate T) Z := btm_realloc_at df_canary env meta_mmap spawn me p s ra.
Definition reallocarray (me : nat) (p n s : Z) : M (astate T) Z :=
  btm_reallocarray df_canary env meta_mmap spawn me p n s (shim_ra S_reallocarray).

Definition libc_malloc (me : nat) (size ra : Z) : M (astate T) Z := btm_malloc_at df_canary env meta_mmap spawn me size ra.
Definition libc_free (me : nat) (ptr : Z) : M (astate T) unit := btm_free df_canary meta_mmap me ptr.
Definition libc_calloc (me : nat) (n s ra : Z) : M (astate T) Z := btm_calloc_at df_canary env meta_mmap spawn me n s ra.
Definition libc_realloc (me : nat) (p s ra : Z) : M (astate T) Z := btm_realloc_at df_canary env meta_mmap spawn me p s ra.

(** The result, and what is stored in [*out], which is not [NULL]. *)
Definition posix_memalign (me : nat) (align size : Z) : M (astate T) (Z * option Z) :=
  btm_posix_memalign df_canary env meta_mmap spawn me align size (shim_ra S_posix_memalign).
Definition aligned_alloc (me : nat) (align size : Z) : M (astate T) Z :=
  btm_aligned_alloc df_canary env meta_mmap spawn me align size (shim_ra S_aligned_alloc).
Definition memalign (me : nat) (align size : Z) : M (astate T) Z :=
  btm_aligned_alloc df_canary env meta_mmap spawn me align size (shim_ra S_memalign).

(** [(size + 4095) & ~(size_t)4095] *)
Definition whole_pages (size : Z) : Z := Z.land ((size +% 4095)%word) (not64 4095).
Definition valloc (me : nat) (size : Z) : M (astate T) Z :=
  btm_aligned_alloc df_canary env meta_mmap spawn me 4096 (whole_pages size) (shim_ra S_valloc).
Definition pvalloc (me : nat) (size : Z) : M (astate T) Z :=
  let r := whole_pages size in
  btm_aligned_alloc df_canary env meta_mmap spawn me 4096 r (shim_ra S_pvalloc).

Definition malloc_usable_size (me : nat) (ptr : Z) : M (astate T) Z := btm_malloc_usable_size me ptr.
Definition cfree (me : nat) (ptr : Z) : M (astate T) unit := btm_free df_canary meta_mmap me ptr.

(** The parameters are ignored. *)
Definition mallopt (param value : Z) : M (astate T) Z := mret 1.
Definition malloc_trim (pad : Z) : M (astate T) Z := mret 0.
Definition malloc_stats : M (astate T) (option (Z * list (Z * Z * Z) * Z)) := btm_heap_profile.

Lemma whole_pages_spec size : 0 ≤ size → size + 4096 ≤ 2 ^ 64 → whole_pages size mod 2 ^ 12 = 0 ∧ size ≤ whole_pages size < size + 2 ^ 12.
Proof.
  intros H0 Hs. replace (whole_pages size) with (round_up size (2 ^ 12)); [apply round_up_spec; lia|].
  unfold round_up, whole_pages. f_equal. unfold u64. rewrite Zminus_mod_idemp_l. f_equal. lia.
Qed.

(** The last page before 2^64 is rounded up to 0. *)
Lemma whole_pages_wraps size : 2 ^ 64 - 4096 < size < 2 ^ 64 → whole_pages size = 0.
Proof.
  intros Hs. unfold whole_pages. replace ((size +% 4095)%word) with (size + 4095 - 2 ^ 64).
  2: { unfold u64. rewrite <-(Z_mod_plus_full _ (-1) (2 ^ 64)). symmetry. rewrite Z.mod_small; lia. }
  set (x := size + 4095 - 2 ^ 64). assert (Hx : 0 ≤ x < 4096) by lia. apply Z.bits_inj_0. intros k.
  destruct (decide (0 ≤ k)); [|by rewrite Z.testbit_neg_r by lia]. rewrite Z.land_spec. destruct (decide (k < 12)).
  - replace (not64 4095) with (Z.ldiff (2 ^ 64 - 1) (Z.ones 12)) by reflexivity. rewrite Z.ldiff_spec, Z.ones_spec_low by lia. by rewrite !andb_false_r.
  - rewrite (Z.bits_above_log2 x k); [done|lia|]. destruct (decide (x = 0)) as [->|]; [cbn; lia|].
    enough (Z.log2 x < 12) by lia. apply Z.log2_lt_pow2; lia.
Qed.
End preload.
End Preload.
