(* ===== verification/MeshView.v ===== *)
(** * MeshView: a process in mesh mode, as compaction sees it

    [btm_compact] works on the bytes of the file and on the page table (Mesh.v), the rest
    of the library on the bytes at their addresses (Background.v).  [mesh_view] reads a
    process of the second kind as one of the first: the file from the chunks mapped on it,
    the page table from their offsets.  A consistent process is in order for compaction:
    every slab has its own pages of the file, and the bytes of the slots that are out are
    in no free slot. *)

From stdpp Require Import prelude gmap.
From S2P Require Import Prelude Memory SizeClass Freelist Registry Engine Callsite Os Large Heap Memfd Dll Pool PoolInv PoolFrame PoolRun PoolSlab PoolCount PoolSys PoolOps Tiering Mesh MeshMem MeshOps MeshInv MeshCompact Space Background BgLaws Api ApiInv.
Local Open Scope Z_scope.

(** ** The file and the page table of a process *)
Definition view_bytes (f : memfile) (h : heap) : gmap Z Z :=
  map_fold (λ c off m, move_keys c off BTM_CHUNK_SIZE (h_mem h) m) (h_mem (mf_rest f)) (mf_map f).

Definition view_pages (mp : gmap Z Z) : page_table :=
  map_fold (λ c off pt, map_pages BTM_PAGES_PER_CHUNK (c / BTM_PAGE_SIZE) (off / BTM_PAGE_SIZE) pt) ∅ mp.

Definition mesh_view {Krn : OS} {T : Type} (p : pstate (bstate T)) : mstate :=
  mk_pstate (heap_set_mem (view_bytes (b_file (p_src p)) (p_heap p)) (p_heap p)) (p_pools p) (p_epoch p) (view_pages (mf_map (b_file (p_src p)))).

(** Ranges of chunk size that do not overlap, in the address space and in the file. *)
Definition maps_apart (mp : gmap Z Z) : Prop := ∀ c1 c2 o1 o2, mp !! c1 = Some o1 → mp !! c2 = Some o2 → c1 ≠ c2 →
  (o1 + BTM_CHUNK_SIZE ≤ o2 ∨ o2 + BTM_CHUNK_SIZE ≤ o1) ∧ (c1 + BTM_CHUNK_SIZE ≤ c2 ∨ c2 + BTM_CHUNK_SIZE ≤ c1).

Lemma maps_apart_insert c off mp : mp !! c = None → maps_apart (<[c := off]> mp) →
  maps_apart mp ∧ ∀ c' o', mp !! c' = Some o' →
    (o' + BTM_CHUNK_SIZE ≤ off ∨ off + BTM_CHUNK_SIZE ≤ o') ∧ (c' + BTM_CHUNK_SIZE ≤ c ∨ c + BTM_CHUNK_SIZE ≤ c').
Proof.
  intros Hc H. assert (Hl : ∀ c' o', mp !! c' = Some o' → c' ≠ c ∧ (<[c := off]> mp) !! c' = Some o').
  { intros c' o' E. assert (c' ≠ c) by congruence. split; [done|]. by rewrite lookup_insert_ne. }
  split.
  - intros c1 c2 o1 o2 [_ H1]%Hl [_ H2]%Hl. by apply H.
  - intros c' o' [Hne E]%Hl. apply (H c' c o' off); [done|by rewrite lookup_insert_eq|done].
Qed.

(** A byte of the file is the byte the chunk shows. *)
Lemma view_bytes_at f h c off x : maps_apart (mf_map f) → mf_map f !! c = Some off → c ≤ x < c + BTM_CHUNK_SIZE →
  byte_at (view_bytes f h) (off + (x - c)) = byte_at (h_mem h) x.
Proof.
  intros Hap Hc Hx. unfold byte_at, view_bytes. f_equal. revert Hap Hc.
  apply (map_fold_weak_ind (λ m mp, maps_apart mp → mp !! c = Some off → m !! (off + (x - c)) = h_mem h !! x)).
  - by rewrite lookup_empty.
  - intros c' o' mp m Hn IH [Hap Hd]%maps_apart_insert Hc; [|done]. rewrite move_keys_lookup. apply lookup_insert_Some in Hc as [[<- <-]|[Hne Hc]].
    + rewrite decide_True by lia. f_equal. lia.
    + destruct (Hd c off Hc). rewrite decide_False by lia. auto.
Qed.

(** The pages of a chunk name the pages of its range. *)
Lemma view_pages_backed mp c off :
  (∀ c o, mp !! c = Some o → c mod BTM_PAGE_SIZE = 0 ∧ o mod BTM_PAGE_SIZE = 0) → maps_apart mp → mp !! c = Some off →
  backed (view_pages mp) c BTM_CHUNK_SIZE off.
Proof.
  unfold view_pages. intros Hal Hap Hc. revert Hal Hap Hc.
  apply (map_fold_weak_ind (λ pt mp, (∀ c o, mp !! c = Some o → c mod BTM_PAGE_SIZE = 0 ∧ o mod BTM_PAGE_SIZE = 0) → maps_apart mp → mp !! c = Some off →
    backed pt c BTM_CHUNK_SIZE off)); [by rewrite lookup_empty|].
  intros c' o' m pt Hn IH Hal [Hap Hd]%maps_apart_insert Hc; [|done].
  assert (Hpg : ∀ x, x mod BTM_PAGE_SIZE = 0 → x / BTM_PAGE_SIZE * BTM_PAGE_SIZE = x).
  { intros x Hx. pose proof (Z.div_mod x BTM_PAGE_SIZE ltac:(done)). lia. }
  destruct (Hal c' o' (lookup_insert_eq _ _ _)) as [Hc' Ho']. pose proof Hc as Hc0. apply lookup_insert_Some in Hc as [[-> ->]|[Hne Hc]].
  - pose proof (map_pages_backed BTM_PAGES_PER_CHUNK (c / BTM_PAGE_SIZE) (off / BTM_PAGE_SIZE) pt) as HB. by rewrite !Hpg in HB.
  - intros i Hi. rewrite map_pages_other.
    + apply IH; [|done..]. intros x o Hx. apply Hal. rewrite lookup_insert_ne; [done|]. intros ->. congruence.
    + destruct (Hd c off Hc). rewrite Z.mul_add_distr_r, Hpg by done. change (BTM_PAGES_PER_CHUNK * BTM_PAGE_SIZE) with BTM_CHUNK_SIZE. lia.
Qed.

(** ** The slabs of a process *)
Section view.
Context {F : FlOps} {FL : FlLaws F} {Krn : OS} {KL : OSLaws Krn} {T : Type} {OT : OwnerTable T} {OE : OwnerEngine T}
  {EL : OwnerEngineLaws T OT OE}.
Implicit Types (p : pstate (bstate T)) (A : asys) (r : pool_ref) (a : apool).

(** The slabs whose data is in place: all but the cold ones. *)
Definition kept_slabs r a : mslabs := (λ l, (r, l)) <$> filter (λ dl : Z * list Z, dl.1 ∉ a_cold a) (a_free a).
Definition view_slabs A : mslabs := map_fold (λ r a m, kept_slabs r a ∪ m) ∅ A.
Definition view_lists A : gmap pool_ref (list Z) := a_partial <$> A.

Lemma kept_slabs_lookup r a d r' l : kept_slabs r a !! d = Some (r', l) ↔ r' = r ∧ a_free a !! d = Some l ∧ (d ∉ a_cold a).
Proof.
  unfold kept_slabs. rewrite lookup_fmap, fmap_Some. setoid_rewrite map_lookup_filter_Some. split.
  - intros (l' & [? ?] & [= -> ->]). done.
  - intros (-> & ? & ?). by exists l.
Qed.

Lemma view_slabs_in A d r l : view_slabs A !! d = Some (r, l) → ∃ a, A !! r = Some a ∧ a_free a !! d = Some l ∧ (d ∉ a_cold a).
Proof.
  unfold view_slabs. apply (map_fold_weak_ind (λ m A, m !! d = Some (r, l) → ∃ a, A !! r = Some a ∧ a_free a !! d = Some l ∧ (d ∉ a_cold a))).
  { by rewrite lookup_empty. }
  intros r' a' A' m Hn IH [(-> & Hl & Hc)%kept_slabs_lookup|[_ H]]%lookup_union_Some_raw.
  - exists a'. by rewrite lookup_insert_eq.
  - destruct (IH H) as (a & Ha & Hrest). exists a. split; [|done]. rewrite lookup_insert_ne; [done|]. intros <-. congruence.
Qed.

Context {p : pstate (bstate T)} {A : asys} (HS : sys_ok p A) (Hmesh : btm_mesh_mode (b_file (p_src p)) = true).
Abbreviation v := (mesh_view p).
Abbreviation fl := (b_file (p_src p)).

(** A descriptor is of one pool. *)
Lemma slab_pool r1 a1 r2 a2 d l1 l2 : A !! r1 = Some a1 → A !! r2 = Some a2 → a_free a1 !! d = Some l1 → a_free a2 !! d = Some l2 → r1 = r2.
Proof.
  intros H1 H2 D1 D2. destruct (so_pool _ _ HS r1 a1 H1) as (pl1 & _ & I1), (so_pool _ _ HS r2 a2 H2) as (pl2 & _ & I2).
  apply (so_apart _ _ HS r1 a1 r2 a2 (chunk_of d)); [done|done|by apply (inv_slab_chunk r1 I1 d l1)|by apply (inv_slab_chunk r2 I2 d l2)].
Qed.

Lemma view_slabs_lookup d r l : view_slabs A !! d = Some (r, l) ↔ ∃ a, A !! r = Some a ∧ a_free a !! d = Some l ∧ (d ∉ a_cold a).
Proof.
  split; [apply view_slabs_in|]. intros (a & Ha & Hl & Hc).
  assert (Hsub : ∀ r' a', A !! r' = Some a' → ∀ l', a_free a' !! d = Some l' → r' = r) by (intros r' a' Ha' l' Hl'; by apply (slab_pool r' a' r a d l' l)).
  revert Ha Hsub. unfold view_slabs.
  apply (map_fold_weak_ind (λ m A, A !! r = Some a → (∀ r' a', A !! r' = Some a' → ∀ l', a_free a' !! d = Some l' → r' = r) → m !! d = Some (r, l))).
  { by rewrite lookup_empty. }
  intros r' a' A' m Hn IH Ha Hsub. apply lookup_insert_Some in Ha as [[-> ->]|[Hne Ha]].
  - apply lookup_union_Some_raw. left. by apply kept_slabs_lookup.
  - apply lookup_union_Some_raw. right. split.
    + destruct (kept_slabs r' a' !! d) as [[r2 l2]|] eqn:E; [|done]. apply kept_slabs_lookup in E as (_ & E & _).
      destruct Hne. apply (Hsub r' a' (lookup_insert_eq _ _ _) l2 E).
    + apply IH; [done|]. intros r2 a2 H2. apply Hsub. rewrite lookup_insert_ne; [done|]. intros ->. congruence.
Qed.

(** ** The chunks on the file *)
Lemma view_shared : ∃ P, shared_ok P (λ c, memfd_off (chunk_at (p_heap p) c)) fl ∧ (∀ c, P c → chunk_base c) ∧ ∀ c, c ∈ chunks_of A → P c.
Proof.
  destruct (so_src _ _ HS) as (W & D & Q & HI & _). exists (process_chunk (chunks_of A) W D Q).
  split; [by apply (si_file _ _ _ _ _ _ HI)|]. split; [apply (held_base HI)|by left].
Qed.

Lemma view_apart : maps_apart (mf_map fl).
Proof.
  destruct view_shared as (P & HF & Hb & _). intros c1 c2 o1 o2 H1 H2 Hne. pose proof (sh_dom _ _ _ HF c1 o1 H1) as P1. pose proof (sh_dom _ _ _ HF c2 o2 H2) as P2.
  pose proof (sh_off _ _ _ HF c1 P1) as E1. pose proof (sh_off _ _ _ HF c2 P2) as E2. rewrite H1 in E1. rewrite H2 in E2. injection E1 as ->. injection E2 as ->.
  split; [by apply (shared_apart HF)|]. destruct (Hb c1 P1) as (_ & M1 & _), (Hb c2 P2) as (_ & M2 & _).
  apply Z.mod_divide in M1 as [k1 ->], M2 as [k2 ->]; [|done..]. unfold BTM_CHUNK_SIZE in *. lia.
Qed.

(** A chunk of a pool is backed by its range, which holds what the chunk shows. *)
Lemma view_chunk c : c ∈ chunks_of A →
  let off := memfd_off (chunk_at (p_heap p) c) in
  backed (p_src v) c BTM_CHUNK_SIZE off ∧ off mod BTM_PAGE_SIZE = 0 ∧ ∀ x, c ≤ x < c + BTM_CHUNK_SIZE → vread v x = byte_at (h_mem (p_heap p)) x.
Proof.
  destruct view_shared as (P & HF & Hb & HP). intros Hc off. pose proof (sh_off _ _ _ HF c (HP c Hc)) as Ec. fold off in Ec.
  assert (Hal : ∀ c o, mf_map fl !! c = Some o → c mod BTM_PAGE_SIZE = 0 ∧ o mod BTM_PAGE_SIZE = 0).
  { intros x o Hx. pose proof (sh_dom _ _ _ HF x o Hx) as Px. pose proof (sh_off _ _ _ HF x Px) as Ex. rewrite Hx in Ex. injection Ex as ->.
    destruct (Hb x Px) as (_ & Mx & _), (shared_range HF x Px) as (_ & Mo & _).
    split; (apply (mod_0_weaken _ 12 21); [lia|done]). }
  pose proof (view_pages_backed (mf_map fl) c off Hal view_apart Ec) as HB. split; [exact HB|]. split; [by apply (Hal c off Ec)|].
  intros x Hx. unfold vread. rewrite (vbyte_backed _ _ _ _ _ x HB Hx). by apply view_bytes_at; [apply view_apart|..].
Qed.

(** ** In order for compaction *)
Lemma view_slab d r l : view_slabs A !! d = Some (r, l) → mslab v r d l.
Proof.
  intros (a & Ha & Hl & Hc)%view_slabs_lookup. destruct (so_pool _ _ HS r a Ha) as (pl & _ & I). pose proof (so_ref _ _ HS r a Ha) as Hr.
  pose proof (pi_slab _ _ _ _ _ I d l Hl) as [W1 W2 W3 W4 W5 W6]. pose proof (inv_slab_in r Hr I d l Hl) as Hd.
  assert (Hin : chunk_of d ∈ chunks_of A) by (apply elem_of_chunks_of; by exists r, a).
  destruct (view_chunk (chunk_of d) Hin) as (HB & Hoff & Hread). destruct (W6 Hc) as [Hhd Hfl]. destruct Hd as (Hcb & H7 & H512 & Hnp).
  split; try done; [apply Hr|by apply (inv_mapped r I d l)| | |].
  - assert (Hb : ∀ x y, x ∈ l → x ≤ y < x + 8 → vread v y = byte_at (h_mem (p_heap p)) y).
    { intros x y Hx Hy. apply Hread. pose proof (slot_bounds r (proj1 Hr) d x (inv_slab_in r Hr I d l Hl) (W5 _ Hx)). lia. }
    clear -Hfl Hb FL. induction l as [|x l IH]; cbn; [done|]. destruct Hfl as [Hx Hl]. split.
    + rewrite <-Hx. apply fl_get_ext. intros y Hy. rewrite byte_at_window by done. by apply (Hb x y); [left|].
    + apply IH; [done|]. intros z y Hz. apply Hb. by right.
  - unfold file_off. rewrite Z.mod_add by done. exact Hoff.
  - unfold file_off, data_of. apply (backed_sub _ _ BTM_CHUNK_SIZE); [exact HB|unfold_geometry; nia|]. unfold run_len. unfold_geometry. nia.
Qed.

Lemma view_virt d1 r1 l1 d2 r2 l2 : view_slabs A !! d1 = Some (r1, l1) → view_slabs A !! d2 = Some (r2, l2) → d1 ≠ d2 →
  disjoint_blocks (data_of d1) (run_len r1) (data_of d2) (run_len r2).
Proof.
  intros (a1 & H1 & D1 & _)%view_slabs_lookup (a2 & H2 & D2 & _)%view_slabs_lookup Hne.
  destruct (so_pool _ _ HS r1 a1 H1) as (pl1 & _ & I1), (so_pool _ _ HS r2 a2 H2) as (pl2 & _ & I2).
  pose proof (so_ref _ _ HS r1 a1 H1) as V1. pose proof (so_ref _ _ HS r2 a2 H2) as V2.
  pose proof (inv_slab_in r1 V1 I1 d1 l1 D1) as S1. pose proof (inv_slab_in r2 V2 I2 d2 l2 D2) as S2. unfold disjoint_blocks, run_len.
  destruct (decide (r1 = r2)) as [->|Hr].
  - assert (a1 = a2) as -> by congruence. apply (runs_disjoint r2 (p_heap p)); [done|done| | |done].
    + apply (pi_slab _ _ _ _ _ I1 d1 l1 D1).
    + apply (pi_slab _ _ _ _ _ I2 d2 l2 D2).
  - assert (Hcne : chunk_of d1 ≠ chunk_of d2).
    { intros E. apply Hr, (so_apart _ _ HS r1 a1 r2 a2 (chunk_of d1)); [done|done|by apply (inv_slab_chunk r1 I1 d1 l1)|]. rewrite E. by apply (inv_slab_chunk r2 I2 d2 l2). }
    destruct S1 as ((_ & M1 & _) & ? & ? & ?), S2 as ((_ & M2 & _) & ? & ? & ?). unfold data_of. unfold_geometry.
    apply Z.mod_divide in M1 as [k1 E1], M2 as [k2 E2]; [|lia..]. assert (k1 ≠ k2) by congruence. lia.
Qed.

Lemma view_file d1 r1 l1 d2 r2 l2 : view_slabs A !! d1 = Some (r1, l1) → view_slabs A !! d2 = Some (r2, l2) → d1 ≠ d2 →
  disjoint_blocks (file_off (p_heap v) d1) (run_len r1) (file_off (p_heap v) d2) (run_len r2).
Proof.
  intros H1 H2 Hne. pose proof (view_virt d1 r1 l1 d2 r2 l2 H1 H2 Hne) as Hv.
  apply view_slabs_lookup in H1 as (a1 & H1 & D1 & _), H2 as (a2 & H2 & D2 & _).
  destruct (so_pool _ _ HS r1 a1 H1) as (pl1 & _ & I1), (so_pool _ _ HS r2 a2 H2) as (pl2 & _ & I2).
  pose proof (inv_slab_in r1 (so_ref _ _ HS r1 a1 H1) I1 d1 l1 D1) as (_ & ? & ? & ?).
  pose proof (inv_slab_in r2 (so_ref _ _ HS r2 a2 H2) I2 d2 l2 D2) as (_ & ? & ? & ?).
  unfold disjoint_blocks, run_len, file_off, data_of in *. cbn [mesh_view p_heap]. destruct (decide (chunk_of d1 = chunk_of d2)) as [E|Hc].
  - rewrite E in *. unfold chunk_at. cbn. unfold_geometry. lia.
  - destruct view_shared as (P & HF & _ & HP). assert (Hin : ∀ r a d l pl, A !! r = Some a → a_free a !! d = Some l → pool_inv r (p_heap p) pl a [] → P (chunk_of d)).
    { intros r a d l pl Ha Hd I. apply HP, elem_of_chunks_of. exists r, a. split; [done|]. by apply (inv_slab_chunk r I d l). }
    destruct (shared_apart HF (chunk_of d1) (chunk_of d2)) as [Hap|Hap]; [by apply (Hin r1 a1 d1 l1 pl1)|by apply (Hin r2 a2 d2 l2 pl2)|done|..];
      unfold chunk_at in *; cbn; unfold_geometry; lia.
Qed.

Lemma view_ok : mesh_ok v (view_slabs A) (view_lists A) (MeshCompact.in_use (view_slabs A)).
Proof.
  apply (unmeshed_ok view_slab view_file view_virt).
  - intros r L (a & <- & Ha)%lookup_fmap_Some. destruct (so_pool _ _ HS r a Ha) as (pl & Hpl & I). exists pl.
    destruct (pi_lists _ _ _ _ _ I) as [L1 L2 _ _ _ _ _]. pose proof (mb_nodup _ _ _ _ (pi_member _ _ _ _ _ I)) as (Hnd & _ & _)%NoDup_app. by split_and!.
  - intros r L d (a & <- & Ha)%lookup_fmap_Some Hd. destruct (so_pool _ _ HS r a Ha) as (pl & Hpl & I).
    destruct (mb_dom _ _ _ _ (pi_member _ _ _ _ _ I) d ltac:(by apply elem_of_app; left)) as [l Hl].
    split; [pose proof (inv_slab_pos r (so_ref _ _ HS r a Ha) I d l Hl); lia|]. exists l. apply view_slabs_lookup. exists a. split; [done|]. split; [done|].
    pose proof (mb_nodup _ _ _ _ (pi_member _ _ _ _ _ I)) as (_ & Hap & _)%NoDup_app. intros Hc. apply (Hap d Hd), elem_of_app. by right.
Qed.

Lemma view_private r L d : view_lists A !! r = Some L → d ∈ L → private v (MeshCompact.in_use (view_slabs A)) r d.
Proof.
  intros HL Hd. destruct (mo_dom _ _ _ _ view_ok r L d HL Hd) as (_ & l & Hl). by apply (unmeshed_private view_slab view_file d r l).
Qed.

(** A slot that is out of its pool is in no cold slab: compaction counts as in use exactly
    the bytes of the slots that are out. *)
Lemma view_in_use y : MeshCompact.in_use (view_slabs A) y ↔ live_byte A y.
Proof.
  split.
  - intros (d & r & l & x & (a & Ha & Hl & _)%view_slabs_lookup & Hx & Hxl & Hy). exists r, a. split; [done|]. exists x. split; [|done]. by exists d, l.
  - intros (r & a & Ha & x & (d & l & Hl & Hx & Hxl) & Hy). exists d, r, l, x. split; [|done]. apply view_slabs_lookup. exists a. split; [done|]. split; [done|].
    intros Hc. destruct (so_pool _ _ HS r a Ha) as (pl & _ & I). pose proof (so_ref _ _ HS r a Ha) as Hr. pose proof (pi_slab _ _ _ _ _ I d l Hl) as W.
    assert (Hfull : Z.of_nat (length l) = slots_of_class r.2).
    { apply (mb_empty _ _ _ _ (pi_member _ _ _ _ _ I) d l Hl); [by intros ?%elem_of_nil|]. apply elem_of_app. by right. }
    apply Hxl. apply (full_slab r d l Hr (sw_nodup _ _ _ _ _ W) (sw_slots _ _ _ _ _ W) Hfull x Hx).
Qed.

(** ** Compaction of the process *)
Lemma view_compact (remap_ok : Z → Z → bool) np : (∀ r, in_range np r → is_Some (A !! r)) →
  ∃ reclaimed v', btm_compact remap_ok true np v = Ok (reclaimed, v') ∧
    (∃ (B : mslabs) P' host, mesh_ok v' B P' (MeshCompact.in_use (view_slabs A)) ∧ merged host v (view_slabs A) (view_lists A) v' B P') ∧ ∀ x, MeshCompact.in_use (view_slabs A) x → vread v' x = vread v x.
Proof.
  intros Hnp. apply (compact_pools_spec remap_ok _ (pool_refs np) v (view_slabs A) (view_lists A) 0 (pool_refs_NoDup np) view_ok).
  intros r Hr. assert (Hrr : in_range np r).
  { unfold pool_refs in Hr. apply list_elem_of_bind in Hr as (i & (sc & -> & Hsc%elem_of_seqZ)%list_elem_of_fmap & Hi%elem_of_seqZ).
    unfold in_range, valid_sc. cbn. unfold_geometry. lia. }
  destruct (Hnp r Hrr) as [a Ha]. exists (a_partial a). assert (HL : view_lists A !! r = Some (a_partial a)) by (unfold view_lists; by rewrite lookup_fmap, Ha).
  split; [done|]. intros d. by apply view_private.
Qed.

(** A slot that is out reads the same through the page table. *)
Lemma view_reads y : live_byte A y → vread v y = byte_at (h_mem (p_heap p)) y.
Proof.
  intros (r & a & Ha & x & Hx & Hy). destruct (live_place p A r x HS) as (a' & d & Ha' & _ & Hp & Hd & Hc & Hin); [by exists a|].
  pose proof (slot_bounds r (proj1 (so_ref _ _ HS r a' Ha')) d x Hd Hp) as (_ & _ & _ & L & U).
  apply (view_chunk (chunk_of d)); [|lia]. apply elem_of_chunks_of. by exists r, a'.
Qed.

(** ** A forked child

    MADV_DONTFORK keeps the chunks from the child: in mesh mode every access of the child
    to a slot of its parent faults, while the kernel's other mappings are inherited. *)
Lemma lost_in_fork_mapped h (b : bstate T) x : (∀ c o, mf_map (b_file b) !! c = Some o → c mod BTM_PAGE_SIZE = 0) →
  k_mapped (b_kernel (lost_in_fork (h, b)).2) x = true ↔
  k_mapped (b_kernel b) x = true ∧ ∀ c o, mf_map (b_file b) !! c = Some o → ¬ (c ≤ x < c + BTM_CHUNK_SIZE).
Proof.
  unfold lost_in_fork. cbn [snd].
  apply (map_fold_weak_ind (λ (s : heap * bstate T) (mp : gmap Z Z), (∀ c o, mp !! c = Some o → c mod BTM_PAGE_SIZE = 0) →
    k_mapped (b_kernel s.2) x = true ↔ k_mapped (b_kernel b) x = true ∧ ∀ c o, mp !! c = Some o → ¬ (c ≤ x < c + BTM_CHUNK_SIZE))).
  - intros _. cbn. split; [intros Hx; split; [done|intros c o; by rewrite lookup_empty]|by intros [? _]].
  - intros c o mp s Hn IH Hal. cbn [snd b_kernel set_kernel]. rewrite munmap_mapped by (done || by apply (Hal c o), lookup_insert_eq).
    assert (Hal' : ∀ c' o', mp !! c' = Some o' → c' mod BTM_PAGE_SIZE = 0).
    { intros c' o' Hc'. apply (Hal c' o'). rewrite lookup_insert_ne; [done|]. intros <-. congruence. }
    rewrite andb_true_iff, negb_true_iff, (IH Hal'). rewrite <-not_true_iff_false, within_spec. split.
    + intros (Hx & Hk & Hmp). split; [done|]. intros c' o' [[<- <-]|[_ Hc']]%lookup_insert_Some; [done|by apply (Hmp c' o')].
    + intros (Hk & Hmp). split; [apply (Hmp c o), lookup_insert_eq|]. split; [done|]. intros c' o' Hc'. apply (Hmp c' o'). rewrite lookup_insert_ne; [done|]. intros <-. congruence.
Qed.
End view.

(** The addresses in use may be described another way. *)
Lemma mesh_ok_ext {F : FlOps} (s : mstate) (B : mslabs) P (V V' : Z → Prop) : (∀ y, V y ↔ V' y) → mesh_ok s B P V → mesh_ok s B P V'.
Proof.
  intros HV [H1 H2 H3 H4 H5 H6 H7 H8]. split; try done.
  - intros a Ha%HV. by apply H6.
  - intros a o d r l x Ha%HV. by apply H7.
  - intros a d r l Ha%HV. by apply H8.
Qed.
