(* ===== verification/ApiExit.v ===== *)
(** * ApiExit: a thread goes away

    [btm_tls_destroy] takes the thread's block away first and then returns the slots of
    every bin to their pools.  In between the bins belong to nobody: the loop is verified
    on a virtual state that still holds them, with the bins already flushed emptied. *)

From stdpp Require Import prelude gmap.
From S2P Require Import Prelude Memory SizeClass Freelist Registry Engine Callsite Os Large Heap Memfd Dll Pool PoolInv PoolFrame PoolRun PoolRefill PoolSys PoolOps Space Background BgLaws Api ApiInv ApiStep ApiSmall.
Local Open Scope Z_scope.

Section exit.
Context {F : FlOps} {FL : FlLaws F} {Krn : OS} {KL : OSLaws Krn} {T : Type} {OT : OwnerTable T} {OE : OwnerEngine T}
  {EL : OwnerEngineLaws T OT OE}.
Implicit Types (r : pool_ref) (s : astate T) (G : aghost).

Lemma set_thread_twice me t1 t2 s : set_thread me t1 (set_thread me t2 s) = set_thread me t1 s.
Proof. unfold set_thread. cbn. by rewrite insert_insert_eq. Qed.

Lemma set_thread_pools me th p s : set_thread me th (set_pools p s) = set_pools p (set_thread me th s).
Proof. done. Qed.

(** The state in which the thread still has the block [t]. *)
Definition with_tls (me : nat) (t : tls T) s : astate T :=
  set_thread me (mk_thread (Some t) (th_intern (thread_at s me)) (th_errno (thread_at s me))) s.

Lemma with_tls_none me t s : th_tls (thread_at s me) = Some t →
  with_tls me t (set_thread me (mk_thread None (th_intern (thread_at s me)) (th_errno (thread_at s me))) s) = s.
Proof.
  intros Ht. unfold with_tls. rewrite thread_at_set, decide_True by done. cbn [th_intern th_errno]. rewrite set_thread_twice.
  unfold thread_at in *. destruct (g_threads s !! me) as [th|] eqn:E; [|discriminate Ht]. cbn in *. destruct s, th. cbn in *.
  subst. unfold set_thread. cbn. by rewrite insert_id.
Qed.

Lemma bin_at_with me t s r : bin_at (with_tls me t s) me r = Some (default zero_bin (bins t !! bin_index r.1 r.2)).
Proof. unfold bin_at, with_tls. by rewrite thread_at_set, decide_True. Qed.

(** Every index of the array of bins is the bin of one pool. *)
Lemma bin_of_index np i : 0 ≤ i < np * BTM_NUM_SIZE_CLASSES → ∃ r, in_range np r ∧ bin_index r.1 r.2 = i.
Proof.
  intros Hi. exists (i / BTM_NUM_SIZE_CLASSES, i mod BTM_NUM_SIZE_CLASSES). unfold in_range, valid_sc, bin_index. unfold_geometry. cbn [fst snd].
  pose proof (Z.div_mod i 36 ltac:(lia)). pose proof (Z.mod_pos_bound i 36 ltac:(lia)).
  assert (0 ≤ i / 36 < np) by (split; [apply Z.div_pos; lia|apply Z.div_lt_upper_bound; lia]). lia.
Qed.

(** All slots of one bin go back to the pool. *)
Lemma bin_flushed_ok s G me r b a' p' s' :
  api_ok s G → in_range (g_nparts s) r → let A' := <[r := a']> (gh_sys G) in
  flushed (gh_sys G) A' r (length (cached G me r)) (cached G me r) → keeps (live_byte A') (g_pools s) p' →
  same_source false (g_pools s) p' → sys_ok p' A' → bin_good (h_mem (p_heap p')) A' r b [] → bin_step s me r b s' → g_pools s' = p' →
  goes s G s' (gh_set A' me r [] G) (block s G).
Proof.
  intros HA Hr A' [Hdom Hlive] HK Hsrc HS HB Hst Hp'. rewrite firstn_all in Hlive. destruct (source_table false s (g_pools s) p' eq_refl Hsrc) as (Hh & Hl & Htab & Hmm).
  assert (Hold : ∀ r' z y, live_slot A' r' z → z ≤ y < z + btm_sc_to_size r'.2 → byte_at (mem_of s') y = byte_at (mem_of s) y).
  { intros r' z y Hz Hy. unfold mem_of at 1. rewrite Hp'. apply HK. by apply (in_use_byte A' r' z y p' HS). }
  assert (Hoth : ∀ t r' z, z ∈ cached G t r' → (t, r') ≠ (me, r) → live_slot A' r' z).
  { intros t r' z Hz Hne. apply Hlive. split; [by apply (cached_live HA t)|]. intros [-> Hin]. apply Hne. f_equal.
    by apply (ao_once _ _ HA t me r z). }
  assert (HA' : api_ok s' (gh_set A' me r [] G)).
  { apply (bin_step_ok s G me r b [] A'); try done; [by rewrite Hp'|unfold table_of; by rewrite Hp'|unfold mem_of; by rewrite Hp'| |].
    - intros t r' z Hne Hz. pose proof (Hoth t r' z Hz Hne) as Hz'. split; [done|]. intros y Hy.
      pose proof (live_size _ _ _ _ (ao_sys _ _ HA) (cached_live HA t r' z Hz)). apply (Hold r' z); [done|lia].
    - intros t z _ Hz. by apply elem_of_nil in Hz. }
  assert (HU : ∀ y r', in_use G y r' → live_slot A' r' y).
  { intros y r' [Hy Hn]. apply Hlive. split; [done|]. intros [-> Hin]. by apply (Hn me). }
  eapply goes_iff; [apply (goes_slots s G s' _ (in_use G)); try done; [by rewrite Hp'|unfold mesh_on; by rewrite Hp'|apply (bs_globals _ _ _ _ _ Hst)|unfold table_of; by rewrite Hp'| | |]|done].
  - intros y r'. split; [intros [Hy Hn]|intros Hu].
    + cbn in Hy. pose proof Hy as [Hy1 Hy2]%Hlive. split; [done|]. intros t Hin. apply (Hn t). rewrite cached_set.
      case_decide as E; [|done]. injection E as -> ->. by destruct Hy2.
    + split; [by apply HU|]. intros t. rewrite cached_set. case_decide; [apply not_elem_of_nil|apply Hu].
  - intros z r1 r2 y Hz _ Hy. apply (Hold r1 z); [by apply HU|done].
  - intros y Hy. unfold mem_of at 1. rewrite Hp'. by apply Hl.
Qed.

(** [me]'s bins below index [i] are empty. *)
Definition emptied s G (me : nat) (i : Z) : Prop :=
  ∀ r, in_range (g_nparts s) r → bin_index r.1 r.2 < i → cached G me r = [].

Lemma emptied_next s G me r i : in_range (g_nparts s) r → bin_index r.1 r.2 = i → emptied s G me i → cached G me r = [] → emptied s G me (i + 1).
Proof.
  intros Hr Hi He Hc r' Hr' Hlt. destruct (decide (bin_index r'.1 r'.2 = i)) as [E|]; [|apply He; [done|lia]].
  by rewrite (bin_index_inj (g_nparts s) r' r) by congruence.
Qed.

Definition exits me t s G s' : Prop := ∃ bs' G',
  goes (with_tls me t s) G (with_tls me (mk_tls (rcache t) bs') s') G' (block (with_tls me t s) G) ∧
  (∀ r, in_range (g_nparts s) r → cached G' me r = []) ∧ (∀ t' r, t' ≠ me → cached G' t' r = cached G t' r) ∧
  g_threads s' = g_threads s ∧ g_nparts s' = g_nparts s.

(** One bin of the loop. *)
Lemma destroy_bin_spec me t s G r i :
  api_ok (with_tls me t s) G → in_range (g_nparts s) r → bin_index r.1 r.2 = i → emptied s G me i →
  let b := default zero_bin (bins t !! i) in
  runs (if negb (b_count b =? 0) && bool_decide (is_Some (b_pool b)) then _ ← on_pools (btm_pool_flush b 0); mret tt else mret tt) s
    (λ _ s', ∃ bs' G', let t' := mk_tls (rcache t) bs' in
      goes (with_tls me t s) G (with_tls me t' s') G' (block (with_tls me t s) G) ∧ emptied s' G' me (i + 1) ∧
      (∀ j, j ≠ i → bs' !! j = bins t !! j) ∧ (∀ t' r', t' ≠ me → cached G' t' r' = cached G t' r') ∧
      g_threads s' = g_threads s ∧ g_nparts s' = g_nparts s).
Proof.
  intros HA Hr Hi He b. set (V := with_tls me t s) in *. pose proof (bin_at_with me t s r) as Hb. rewrite Hi in Hb. fold b V in Hb.
  pose proof (ao_bin _ _ HA me r Hr) as HB. unfold bin_inv in HB. rewrite Hb in HB. pose proof HB as [B1 B2 B3 B4 B5 B6 B7].
  assert (Hnone : cached G me r = [] → runs (mret tt : M (astate T) unit) s (λ _ s', ∃ bs' G', let t' := mk_tls (rcache t) bs' in
      goes V G (with_tls me t' s') G' (block V G) ∧ emptied s' G' me (i + 1) ∧ (∀ j, j ≠ i → bs' !! j = bins t !! j) ∧ (∀ t' r', t' ≠ me → cached G' t' r' = cached G t' r') ∧ g_threads s' = g_threads s ∧ g_nparts s' = g_nparts s)).
  { intros Hc. apply runs_ret. exists (bins t), G. destruct t as [c bs]. cbn [rcache bins]. split; [by apply quiet_refl|].
    split; [by apply (emptied_next s G me r i)|done]. }
  destruct (Z.eqb_spec (b_count b) 0) as [E0|E0]; [cbn [negb andb]; apply Hnone; rewrite B2 in E0; by destruct (cached G me r)|].
  destruct B6 as [Hbp|[_ Hc]]; [|rewrite B2, Hc in E0; done]. rewrite bool_decide_eq_true_2 by (by eexists). cbn [negb andb].
  destruct (proj2 (ao_pools _ _ HA r) Hr) as [a Ha]. pose proof (sc_cache_range r.2 (proj2 Hr)).
  destruct (sys_flush (g_pools s) (gh_sys G) r a b (cached G me r) 0 (ao_sys _ _ HA) Ha (bin_good_ok _ _ r a b _ Ha HB) Hbp)
    as (p' & a' & b' & Hrun & HS & HK & HB' & Hbp' & Hout & Hsrc); [lia..|].
  replace (Z.to_nat (b_count b - 0)) with (length (cached G me r)) in * by lia. rewrite skipn_all in HB'.
  apply (runs_step _ _ _ (set_pools p' s) b'); [by apply run_zoom|]. apply runs_ret.
  destruct (set_bin_run V me r b b' Hb Hr) as (s1 & Hs1 & Hst & Hp1 & _). pose proof (bin_step_pools V me r b' p' s1 Hst) as Hst'.
  assert (Es1 : set_pools p' s1 = with_tls me (mk_tls (rcache t) (<[i := b']> (bins t))) (set_pools p' s)).
  { unfold set_bin, V, with_tls in Hs1. rewrite thread_at_set, decide_True in Hs1 by done. cbn [th_tls] in Hs1.
    unfold set_tls in Hs1. rewrite run_modify in Hs1. injection Hs1 as <-. rewrite set_thread_twice, thread_at_set, decide_True by done.
    cbn [th_intern th_errno]. by rewrite Hi. }
  rewrite Es1 in Hst'. eexists _, (gh_set (<[r := a']> (gh_sys G)) me r [] G). split; [|split; [|split; [|split]]].
  - apply (bin_flushed_ok V G me r b' a' p' _ HA Hr (flushed_insert _ r a a' _ _ Ha Hout) HK Hsrc HS); [|done|done].
    apply (bin_ok_good _ _ r a'); [apply lookup_insert_eq|done|done|cbn; lia].
  - apply (emptied_next (set_pools p' s) _ me r i Hr Hi); [|by rewrite cached_set, decide_True].
    intros r' Hr' Hlt. rewrite cached_set. case_decide; [done|]. by apply He.
  - intros j Hj. by rewrite lookup_insert_ne.
  - intros t' r' Hne. rewrite cached_set, decide_False; [done|]. congruence.
  - done.
Qed.

Lemma destroy_loop_spec me k bs : ∀ i t s G,
  api_ok (with_tls me t s) G → 0 ≤ i → i + Z.of_nat k = g_nparts s * BTM_NUM_SIZE_CLASSES →
  (∀ j, i ≤ j → bs !! j = bins t !! j) → emptied s G me i →
  runs (destroy_loop k i bs) s (λ _ s', exits me t s G s').
Proof.
  induction k as [|k IH]; intros i t s G HA Hi Hk Hbs He.
  - apply runs_ret. exists (bins t), G. destruct t as [c b]. cbn [rcache bins]. split; [by apply quiet_refl|]. split; [|done].
    intros r Hr. apply He; [done|]. pose proof (bin_index_range _ r Hr). lia.
  - destruct (bin_of_index (g_nparts s) i) as (r & Hr & Hri); [lia|]. cbn [destroy_loop]. rewrite (Hbs i) by lia.
    apply (runs_bind _ _ _ _ _ (destroy_bin_spec me t s G r i HA Hr Hri He)). intros u s1 (bs1 & G1 & HG & He1 & Hb1 & Ho1 & Hth & Hn).
    eapply runs_mono; [apply (IH (i + 1) (mk_tls (rcache t) bs1) s1 G1 (go_ok _ _ _ _ _ HG)); [lia|rewrite Hn; lia| |done]|].
    + intros j Hj. cbn [bins]. rewrite Hb1 by lia. apply Hbs. lia.
    + intros u' s' (bs2 & G2 & HG2 & He2 & Ho2 & Hth2 & Hn2). exists bs2, G2. cbn [rcache] in HG2.
      split; [|split; [by rewrite <-Hn|split; [intros t' r' Hne; by rewrite Ho2, Ho1|split; congruence]]].
      eapply goes_trans; [exact HG|eapply goes_iff; [exact HG2|]|done]. intros x n. apply HG.
Qed.

(** Without the block, once its bins are empty. *)
Lemma without_tls_ok me t s G :
  api_ok (with_tls me t s) G → th_tls (thread_at s me) = None → (∀ r, in_range (g_nparts s) r → cached G me r = []) → api_ok s G.
Proof.
  intros [A1 A2 A3 A4 A6 A7 A8 A9 A10 A11 A12] Ht Hc.
  assert (Hat : ∀ x, x ≠ me → thread_at (with_tls me t s) x = thread_at s x) by (intros x Hx; unfold with_tls; by rewrite thread_at_set, decide_False).
  split; try done.
  - intros x r Hr. destruct (decide (x = me)) as [->|Hx]; [|specialize (A7 x r Hr); unfold bin_inv, bin_at in *; by rewrite Hat in A7].
    unfold bin_inv, bin_at. rewrite Ht. by apply Hc.
  - intros x y Hx. destruct (decide (x = me)) as [->|Hne]; [congruence|]. apply (A10 x y). by rewrite Hat.
  - intros x. specialize (A12 x). destruct (decide (x = me)) as [->|Hne]; [|by rewrite Hat in A12].
    unfold with_tls in A12. by rewrite thread_at_set, decide_True in A12.
Qed.

Lemma tls_destroy_spec s G me :
  api_ok s G →
  runs (btm_tls_destroy me) s (λ _ s', th_tls (thread_at s' me) = None ∧
    ∃ G', goes s G s' G' (block s G) ∧ (∀ r, cached G' me r = []) ∧ ∀ t r, t ≠ me → cached G' t r = cached G t r).
Proof.
  intros HA. unfold btm_tls_destroy, get_tls. apply runs_gets. destruct (th_tls (thread_at s me)) as [t|] eqn:Et.
  2: { apply runs_ret. split; [done|]. exists G. split; [by apply quiet_refl|]. split; [|done]. intros r.
    destruct (decide (in_range (g_nparts s) r)) as [Hr|Hr]; [|by apply (ao_out _ _ HA)].
    pose proof (ao_bin _ _ HA me r Hr) as HB. unfold bin_inv, bin_at in HB. by rewrite Et in HB. }
  unfold set_tls. apply runs_modify, runs_gets. set (s1 := set_thread _ _ s). assert (Hv : with_tls me t s1 = s) by (by apply with_tls_none).
  eapply runs_mono; [apply (destroy_loop_spec me _ (bins t) 0 t s1 G)|].
  - by rewrite Hv.
  - done.
  - destruct (ao_nparts _ _ HA) as (k & Hk & En). change (g_nparts s1) with (g_nparts s). rewrite En. unfold_geometry.
    assert (0 < 2 ^ k) by (apply Z.pow_pos_nonneg; lia). lia.
  - done.
  - intros r Hr Hlt. pose proof (bin_index_range _ r Hr). lia.
  - intros u s' (bs' & G' & HG & Hc & Ho & Hth & Hn). change (g_nparts s1) with (g_nparts s) in *. rewrite Hv in HG.
    assert (Ht' : th_tls (thread_at s' me) = None).
    { unfold thread_at. rewrite Hth. unfold s1, set_thread. cbn [g_threads]. by rewrite lookup_insert_eq. }
    split; [done|]. exists G'. pose proof (go_ok _ _ _ _ _ HG) as HA'.
    assert (HA2 : api_ok s' G').
    { apply (without_tls_ok me (mk_tls (rcache t) bs')); [done|done|]. intros r Hr. apply Hc. by rewrite Hn in Hr. }
    split; [|split; [|exact Ho]].
    + eapply goes_trans; [exact HG| |done]. eapply goes_iff; [by apply (quiet_same _ G' s' HA' HA2)|]. apply HG.
    + intros r. destruct (decide (in_range (g_nparts s') r)) as [Hr|Hr]; [by apply Hc; rewrite Hn in Hr|by apply (ao_out _ _ HA2)].
Qed.
End exit.
