(* ===== verification/ApiInit.v ===== *)
(** * ApiInit: the first call of a process

    From the globals' initial values, initialization gives a process in the invariant that
    owns no block: every pool of every partition is empty, no chunk is held, the owner
    table is empty. *)

From stdpp Require Import prelude gmap.
From S2P Require Import Prelude Memory SizeClass Freelist Registry Engine Callsite Os Large Heap Memfd Dll Pool PoolInv PoolFrame PoolRun PoolRefill PoolCount PoolSys PoolOps Space Background BgLaws Api ApiInv ApiStep ApiSpec.
Local Open Scope Z_scope.

(** ** An empty pool *)
Definition empty_apool : apool := mk_apool [] [] [] [] ∅ ∅.

Lemma empty_pool_ok {F : FlOps} r h : pool_inv r h zero_pool empty_apool [].
Proof.
  assert (Hno : ∀ d, ¬ is_Some (a_free empty_apool !! d)) by (intros d [l Hl]; simpl in Hl; by rewrite lookup_empty in Hl).
  assert (Hno' : ∀ d l, a_free empty_apool !! d ≠ Some l) by (intros d l Hl; by apply (Hno d); exists l).
  split.
  - split; [done|done|constructor|by left|done].
  - intros c Hc. by apply elem_of_nil in Hc.
  - by intros d l ?%Hno'.
  - by split.
  - split; simpl; [constructor|..|lia].
    + intros d Hd. by apply elem_of_nil in Hd.
    + by intros d ?%Hno.
    + intros d _. split; [intros Hd; by apply elem_of_empty in Hd|by intros [?%Hno _]].
    + by intros d l ?%Hno'.
    + by intros d l ?%Hno'.
Qed.

Lemma empty_pools_lookup np r pl : empty_pools np !! r = Some pl ↔ in_range np r ∧ pl = zero_pool.
Proof.
  unfold empty_pools. set (l := _ ≫= _).
  assert (Hl : ∀ r v, (r, v) ∈ l ↔ in_range np r ∧ v = zero_pool).
  { intros [i sc] v. unfold l. rewrite list_elem_of_bind. unfold in_range, valid_sc. cbn [fst snd]. split.
    - intros (i' & (sc' & [= -> -> ->] & Hsc%elem_of_seqZ)%list_elem_of_fmap & Hi%elem_of_seqZ). unfold_geometry. split; [lia|done].
    - intros [[Hi Hsc] ->]. exists i. split; [|apply elem_of_seqZ; lia]. apply list_elem_of_fmap. exists sc. split; [done|]. apply elem_of_seqZ. unfold_geometry. lia. }
  split; [intros H%elem_of_list_to_map_2; by apply Hl|]. intros [Hr ->].
  destruct (list_to_map l !! r) as [v|] eqn:E; [pose proof E as E2%elem_of_list_to_map_2; by apply Hl in E2 as [_ ->]|exfalso].
  apply not_elem_of_list_to_map_2 in E. apply E, list_elem_of_fmap. exists (r, zero_pool). split; [done|]. by apply Hl.
Qed.

Section init.
Context {F : FlOps} {FL : FlLaws F} {Krn : OS} {KL : OSLaws Krn} {T : Type} {OT : OwnerTable T} {OE : OwnerEngine T}
  {EL : OwnerEngineLaws T OT OE}.
Context (df_canary : option (Z → Z)) (env : environment) (meta_mmap : kstate → Z → bool) (spawn : kstate → bool).
Implicit Types (r : pool_ref) (s : astate T) (G : aghost).

Abbreviation ensure_init := (btm_ensure_init df_canary env meta_mmap).
Abbreviation malloc_at := (btm_malloc_at df_canary env meta_mmap spawn).

(** The chunk source before the first chunk: no chunk is mapped on the file. *)
Definition start_file (f : memfile) : Prop := mf_map f = ∅ ∧ (btm_mesh_mode f = true → memfd_ok (mf_fd f) ∅).
Abbreviation src_at k f := (mk_bstate k (oe_table0 : T) ∅ 0 0 0 false false BgIdle f).

Lemma source_start k f : start_file f → source_ok ∅ (mk_heap ∅ ∅ ∅) (src_at k f).
Proof.
  intros [Hmap Hfd]. exists [], [], []. split; [|done]. assert (Hno : ∀ c, ¬ process_chunk ∅ [] [] [] c).
  { intros c [Hc|Hc]; [by apply elem_of_empty in Hc|by apply elem_of_nil in Hc]. }
  split; [|done..|intros P HP; by apply elem_of_nil in HP|constructor|intros c Hc; by apply elem_of_nil in Hc|by intros c ?%Hno|].
  - split; [apply oe_live0|by intros c ?%Hno| |].
    + intros base hd Hb. unfold large_at in Hb. cbn in Hb. by rewrite lookup_empty in Hb.
    + intros p Hp Hne. destruct Hne. by apply oe_empty.
  - cbn [b_file]. intros Hm. split; rewrite ?Hmap; [rewrite map_img_empty_L; auto|..].
    + intros c1 c2 o H. by rewrite lookup_empty in H.
    + intros c o H. by rewrite lookup_empty in H.
    + by intros c ?%Hno.
Qed.

(** The mode is on when it is asked for and the memfd was created. *)
Lemma init_mesh_run k want h :
  ∃ f, init_mesh want (h, src_at k memfile0) = Ok (tt, (h, src_at k f)) ∧ start_file f ∧ btm_mesh_mode f = want && k_memfd_create k.
Proof.
  unfold init_mesh. destruct want; [|exists memfile0; by split_and!].
  unfold on_memfd, zoom, btm_mesh_enable, mbind, M_bind. cbn [fst snd b_kernel]. destruct (k_memfd_create k).
  - exists (mk_memfile true (mk_memfd true 0 0 [] 0) ∅ (mk_heap ∅ ∅ ∅)). split; [done|]. split; [|done]. split; [done|]. intros _.
    split; cbn; try done; [intros o Ho; by apply elem_of_nil in Ho|constructor].
  - exists memfile0. by split_and!.
Qed.

Definition empty_sys (np : Z) : asys := (λ _, empty_apool) <$> empty_pools np.

Lemma empty_sys_lookup np r a : empty_sys np !! r = Some a ↔ in_range np r ∧ a = empty_apool.
Proof.
  unfold empty_sys. rewrite lookup_fmap_Some. setoid_rewrite empty_pools_lookup. split; [by intros (pl & <- & ? & _)|].
  intros [? ->]. by exists zero_pool.
Qed.

Lemma sys_start np k ep f : 0 ≤ np ≤ 65536 → 0 ≤ ep < 2 ^ 32 → start_file f →
  sys_ok (mk_pstate (mk_heap ∅ ∅ ∅) (empty_pools np) ep (src_at k f)) (empty_sys np).
Proof.
  intros Hnp Hep Hf. split.
  - intros r a [[Hp Hsc] ->]%empty_sys_lookup. split; [done|lia].
  - intros r a [Hr ->]%empty_sys_lookup. exists zero_pool. split; [by apply empty_pools_lookup|apply empty_pool_ok].
  - assert (E : chunks_of (empty_sys np) = ∅); [|rewrite E; by apply source_start].
    apply set_eq. intros c. rewrite elem_of_chunks_of. split; [|set_solver].
    intros (r & a & [_ ->]%empty_sys_lookup & Hc). by apply elem_of_nil in Hc.
  - intros r1 a1 r2 a2 c [_ ->]%empty_sys_lookup [_ ->]%empty_sys_lookup Hc. by apply elem_of_nil in Hc.
  - intros r a [Hr ->]%empty_sys_lookup. exists 0. split; [|by apply counts_none].
    unfold counters. cbn. rewrite lookup_fmap, (proj2 (empty_pools_lookup np r zero_pool)) by done. done.
  - done.
Qed.

(** What initialization needs: a request it can round up, and its partition array. *)
Definition can_start (k : kstate) : Prop :=
  request_ok (env_partitions env) ∧ ∀ j, 0 ≤ j ≤ 12 → read_nparts_env 31 (env_partitions env) = Some (2 ^ j) → meta_mmap k (2 ^ j * sizeof_partition) = true.

Lemma ensure_init_start k : can_start k →
  ∃ s' G, ensure_init (process_start k) = Ok (tt, s') ∧ api_ok s' G ∧ (∀ x n, ¬ block s' G x n) ∧ g_threads s' = ∅ ∧ kernel_of s' = k ∧
    g_harden_mode s' = bool_decide (is_Some df_canary) && env_harden env ∧ mesh_on s' = env_mesh env && k_memfd_create k.
Proof.
  intros [Hreq Hmap]. destruct (nparts_run _ Hreq) as (j & Hj & Hnp). destruct (intern_init_run j Hj) as (i & Hi & Htbl).
  unfold btm_ensure_init. do 3 (erewrite run_bind by (apply run_gets || apply run_modify); cbn [g_ready g_once process_start]).
  unfold btm_do_init, kernel_of. rewrite Hnp. cbn [g_pools p_src b_kernel process_start]. rewrite (Hmap j Hj Hnp), Htbl.
  destruct (init_mesh_run k (env_mesh env) (mk_heap ∅ ∅ ∅)) as (f & Hrun & Hf & Hmode).
  erewrite run_bind by (apply run_zoom, run_zoom; exact Hrun). rewrite run_modify.
  eexists _, (mk_ghost (empty_sys (2 ^ j)) ∅). split; [reflexivity|].
  assert (H2 : 1 ≤ 2 ^ j ≤ 4096) by (split; [apply (Z.pow_le_mono_r 2 0)|apply (Z.pow_le_mono_r 2 j 12)]; lia).
  split; [|split; [|done]].
  - assert (Hc : ∀ t r, cached (mk_ghost (empty_sys (2 ^ j)) ∅) t r = []) by (intros t r; unfold cached; cbn; by rewrite lookup_total_empty).
    split; cbn [g_ready g_partitions g_nparts g_pools g_intern_mode g_intern]; try done.
    + by exists j.
    + apply sys_start; [lia|done|done].
    + intros r. cbn [gh_sys]. split; [intros [a Ha]; by apply empty_sys_lookup in Ha as [? _]|]. intros Hr. exists empty_apool. by apply empty_sys_lookup.
    + intros t1 t2 r x Hx. rewrite Hc in Hx. by apply elem_of_nil in Hx.
    + intros Hm. rewrite Hm. by apply intern_inv_empty.
    + intros t. unfold thread_at. cbn [g_threads process_start on_source on_pools set_pools]. rewrite lookup_empty. cbn. lia.
  - intros x n [(r & [(a & Ha & Hout) _] & _)|(base & hd & Hb & _)].
    + cbn [gh_sys] in Ha. apply empty_sys_lookup in Ha as [_ ->]. destruct Hout as (d & l & Hl & _). cbn in Hl. by rewrite lookup_empty in Hl.
    + unfold large_at in Hb. cbn in Hb. by rewrite lookup_empty in Hb.
Qed.

(** The first call initializes; it then behaves as on the initialized process. *)
Lemma malloc_at_start k s me size ra :
  ensure_init (process_start k) = Ok (tt, s) → g_ready s = true → g_threads s = ∅ → 0 < size →
  malloc_at me size ra (process_start k) = malloc_at me size ra s.
Proof.
  intros Hrun Hr Hth Hs. assert (Hrun' : ensure_init s = Ok (tt, s)) by (unfold btm_ensure_init; by erewrite run_bind by apply run_gets; rewrite Hr).
  assert (E : ∀ (A : Type) (f : unit → M (astate T) A), (x ← ensure_init; f x) (process_start k) = (x ← ensure_init; f x) s).
  { intros A f. by rewrite (run_bind _ _ _ _ _ Hrun), (run_bind _ _ _ _ _ Hrun'). }
  unfold btm_malloc_at. destruct (_ <? 0).
  - rewrite (proj2 (Z.eqb_neq size 0)) by lia. apply E.
  - unfold get_tls. rewrite !(run_bind _ _ _ _ _ (run_gets _ _)). unfold thread_at. rewrite Hth. cbn [process_start g_threads].
    rewrite lookup_empty. cbn. apply E.
Qed.

(** What a failed initialization leaves: the globals' initial values, and the flag of
    [pthread_once]. *)
Definition lost_process k : astate T :=
  mk_astate (mk_pstate (mk_heap ∅ ∅ ∅) ∅ 0 (src_at k memfile0)) false 1 false true false (mk_intern [] 0) false ∅ false ∅.

Lemma ensure_init_failed k j :
  read_nparts_env 31 (env_partitions env) = Some (2 ^ j) → meta_mmap k (2 ^ j * sizeof_partition) = false →
  ensure_init (process_start k) = Ok (tt, lost_process k).
Proof.
  intros Hnp Hm. unfold btm_ensure_init. do 3 (erewrite run_bind by (apply run_gets || apply run_modify); cbn [g_ready g_once process_start]).
  unfold btm_do_init, kernel_of. rewrite Hnp. cbn [g_pools p_src b_kernel process_start]. by rewrite Hm.
Qed.

(** The first miss of a thread reads the partition array. *)
Lemma malloc_small_unready s me sc ra t :
  g_nparts s = 1 → g_partitions s = false → g_intern_mode s = false → valid_sc sc → th_tls (thread_at s me) = Some t → bins t = ∅ →
  malloc_small me sc ra s = Fault.
Proof.
  intros Hn Hp Hm Hsc Ht Hb. unfold valid_sc in Hsc. unfold malloc_small, mbind at 1, M_bind at 1, partition_of, btm_partition_of. rewrite Hn, Hm.
  change (1 - 1) with 0. rewrite Z.land_0_r. set (s1 := set_thread _ _ _).
  assert (Ht1 : th_tls (thread_at s1 me) = Some t) by (unfold s1, thread_at at 1; cbn [g_threads set_thread]; by rewrite lookup_insert_eq).
  unfold mbind at 1, M_bind at 1, btm_tls_bin_at. rewrite Ht1, Hb, lookup_empty. change (g_nparts s1) with (g_nparts s). rewrite Hn.
  rewrite (proj2 (Z.ltb_lt _ _)) by (unfold bin_index; lia). cbn [default b_free_head zero_bin]. rewrite Z.eqb_refl.
  unfold malloc_miss, mbind at 1, M_bind at 1, set_bin. rewrite Ht1. unfold set_tls at 1, modify. cbv iota.
  unfold record_sample, sample_at, mbind, M_bind. cbn [g_partitions set_thread]. change (g_partitions s1) with (g_partitions s). by rewrite Hp.
Qed.

(** Initialization is not tried again, whatever the kernel would grant by now. *)
Lemma ensure_init_lost k : ensure_init (lost_process k) = Ok (tt, lost_process k).
Proof. unfold btm_ensure_init. do 2 (erewrite run_bind by apply run_gets; cbn [g_ready g_once lost_process]). done. Qed.

(** What a thread of such a process runs into. *)
Lemma malloc_lost_faults k me size ra :
  meta_mmap k (oe_sizeof + BTM_NUM_SIZE_CLASSES * sizeof_tls_bin) = true → 1 ≤ size ≤ BTM_SMALL_MAX_SIZE →
  malloc_at me size ra (lost_process k) = Fault.
Proof.
  intros Hok Hs. destruct (size_to_sc_valid size Hs) as [Hsc _]. unfold btm_malloc_at.
  rewrite (proj2 (Z.ltb_ge _ _) (proj1 Hsc)). unfold get_tls. rewrite (run_bind _ _ _ _ _ (run_gets _ _)).
  unfold thread_at at 1. cbn [lost_process g_threads]. rewrite lookup_empty. cbn [default option_map th_tls new_thread].
  rewrite (run_bind _ _ _ _ _ (ensure_init_lost k)). set (u := lost_process k).
  assert (Hg : ∃ u1, btm_tls_get meta_mmap me u = Ok (true, u1) ∧ g_nparts u1 = 1 ∧ g_partitions u1 = false ∧ g_intern_mode u1 = false ∧ th_tls (thread_at u1 me) = Some (mk_tls oe_new ∅)).
  { assert (Ht : th_tls (thread_at u me) = None) by (unfold thread_at, u; cbn [g_threads lost_process]; by rewrite lookup_empty).
    unfold btm_tls_get, get_tls. rewrite (run_bind _ _ _ _ _ (run_gets _ _)), Ht.
    rewrite (run_bind _ _ _ _ _ (run_gets _ _)). unfold btm_tls_bytes, kernel_of, u. cbn [g_nparts g_pools p_src b_kernel lost_process].
    rewrite Z.mul_1_l, Hok. eexists. split; [reflexivity|]. split_and!; [done..|]. unfold thread_at. cbn [g_threads set_thread]. by rewrite lookup_insert_eq. }
  destruct Hg as (u1 & Hg & Hn1 & Hp1 & Hm1 & Ht1). rewrite (run_bind _ _ _ _ _ Hg). cbv iota.
  assert (Hb : ∃ u2, btm_bg_ensure_started env spawn u1 = Ok (tt, u2) ∧ g_nparts u2 = 1 ∧ g_partitions u2 = false ∧ g_intern_mode u2 = false ∧ th_tls (thread_at u2 me) = Some (mk_tls oe_new ∅)).
  { unfold btm_bg_ensure_started. rewrite (run_bind _ _ _ _ _ (run_gets _ _)). destruct (g_bg_started u1); [by exists u1|].
    rewrite (run_bind _ _ _ _ _ (run_modify _ _)), (run_bind _ _ _ _ _ (run_gets _ _)). destruct (_ && _); eexists; (split; [reflexivity|done]). }
  destruct Hb as (u2 & Hb & Hn2 & Hp2 & Hm2 & Ht2). rewrite (run_bind _ _ _ _ _ Hb). by eapply malloc_small_unready.
Qed.
End init.
