(* ===== verification/Process.v ===== *)
(** * Process: the library as an allocator

    [perform]: what an event does to the modelled process.  [rep s G am]: the process [s]
    owns the blocks of the abstract allocator [am], with their bytes.  Every allowed event
    keeps [rep] and is answered as the abstract allocator may, unless it is a resizing the
    kernel displaces ([perform_refines]); so a program run on the library up to such a
    resizing is a run of the abstract allocator ([play_refines]). *)

From stdpp Require Import prelude gmap.
From S2P Require Import Prelude Memory SizeClass Freelist Registry Engine Callsite Os Large Heap Memfd Dll Pool PoolInv PoolFrame PoolRun PoolRefill PoolSys PoolOps Space Background Allocator BgLaws Api ApiInv ApiStep ApiSmall ApiLarge ApiSpec ApiRealloc ApiExit.
Local Open Scope Z_scope.

Section process.
Context {F : FlOps} {FL : FlLaws F} {Krn : OS} {KL : OSLaws Krn} {T : Type} {OT : OwnerTable T} {OE : OwnerEngine T}
  {EL : OwnerEngineLaws T OT OE}.
Context (df_canary : option (Z → Z)) (env : environment) (meta_mmap : kstate → Z → bool) (spawn : kstate → bool).
Implicit Types (r : pool_ref) (s : astate T) (G : aghost) (am : amem).

(** A write of the program: byte by byte, where it has access. *)
Definition client_write (a : Z) (l : list Z) : M (astate T) unit := write_mem a (Z.of_nat (length l)) (λ m, store_bytes m a l).

Definition perform (ev : event) : M (astate T) Z :=
  match ev with
  | EMalloc me size ra => btm_malloc df_canary env meta_mmap spawn me size ra
  | ECalloc me n size ra => btm_calloc df_canary env meta_mmap spawn me n size ra
  | ERealloc me ptr size ra => btm_realloc df_canary env meta_mmap spawn me ptr size ra
  | EMemalign me log size ra => '(_, out) ← btm_posix_memalign df_canary env meta_mmap spawn me (2 ^ log) size ra; mret (default 0 out)
  | EReallocarray me ptr n size ra => btm_reallocarray df_canary env meta_mmap spawn me ptr n size ra
  | EAligned me log size ra => btm_aligned_alloc df_canary env meta_mmap spawn me (2 ^ log) size ra
  | EFree me ptr => _ ← btm_free df_canary meta_mmap me ptr; mret 0
  | EUsable me ptr => btm_malloc_usable_size me ptr
  | EWrite a l => _ ← client_write a l; mret 0
  | EExit me => _ ← btm_tls_destroy me; mret 0
  | EPageout => btm_pageout_cold
  | EFork => _ ← on_source fork_memory; _ ← btm_atfork_child; mret 0
  | EMaintain uring_sqe => _ ← on_source (bg_step uring_sqe); mret 0
  end.

(** The program runs for at most [n] events. *)
Fixpoint play (n : nat) (prog : program) (tr : list (event * Z)) : M (astate T) (list (event * Z)) :=
  match n with
  | O => mret tr
  | S n' => match prog tr with
            | None => mret tr
            | Some ev => v ← perform ev; play n' prog (tr ++ [(ev, v)])
            end
  end.

Record rep s G am : Prop := {
  rp_ok : api_ok s G;
  rp_blocks x n : block s G x n ↔ am_blocks am !! x = Some n;
  rp_bytes x n y : block s G x n → x ≤ y < x + n → byte_at (mem_of s) y = byte_at (am_bytes am) y;
}.

(** The canary the process looks for. *)
Definition canary_of s : option (Z → Z) := if g_harden_mode s then df_canary else None.

(** ** From the specifications of the calls to abstract steps *)
Lemma rep_goes s G am s' G' (P : Z → Z → Prop) bl :
  rep s G am → goes s G s' G' P → (∀ x n, P x n ↔ bl !! x = Some n) →
  let am' := mk_amem bl (mem_of s') in
  rep s' G' am' ∧ (∀ x n y, am_blocks am !! x = Some n → bl !! x = Some n → x ≤ y < x + n → byte_at (mem_of s') y = byte_at (am_bytes am) y).
Proof.
  intros [R1 R2 R3] HG HP am'. split.
  - split; [apply HG| |done]. intros x n. rewrite (go_blocks _ _ _ _ _ HG). apply HP.
  - intros x n y Hx Hx' Hy. rewrite (go_bytes _ _ _ _ _ HG x n y); [|by apply R2|by apply HP|done]. apply (R3 x n); [by apply R2|done].
Qed.

(** Every allocation may fail. *)
Lemma request_may_keep ev q : request ev = Some q → may_keep ev 0.
Proof.
  destruct ev as [| |me ptr size ra|me ptr n size ra| | | | | | | | |]; cbn; try done.
  - destruct (Z.eqb_spec ptr 0); [|done]. intros _. split; [done|]. intros p k [= <- <-]. by left.
  - destruct (n * size <? 2 ^ 64); cbn; [|done]. destruct (Z.eqb_spec ptr 0); [|done]. intros _. split; [done|]. intros p k [= <- <-]. by left.
Qed.

(** The modes do not change after initialization. *)
Definition same_modes s s' : Prop := g_harden_mode s' = g_harden_mode s ∧ mesh_on s' = mesh_on s.

Lemma goes_modes s G s' G' (P : Z → Z → Prop) : goes s G s' G' P → same_modes s s'.
Proof. intros HG. split; apply HG. Qed.

(** A call of [ev] that ends as [Q] says refines the abstract step. *)
Definition refines s am ev (v : Z) s' : Prop := ∃ am' G', abs_step ev v am am' ∧ rep s' G' am' ∧ same_modes s s'.

Lemma refines_quiet s G am ev v s' G' :
  rep s G am → goes s G s' G' (block s G) →
  may_keep ev v →
  refines s am ev v s'.
Proof.
  intros HR HG Hev. destruct (rep_goes s G am s' G' _ (am_blocks am) HR HG (rp_blocks _ _ _ HR)) as [HR' Hb].
  eexists _, G'. split; [|split; [exact HR'|by eapply goes_modes]]. by apply abs_quiet.
Qed.

Lemma insert_blocks (bl : gmap Z Z) x n y m : bl !! y = None → <[y := m]> bl !! x = Some n ↔ bl !! x = Some n ∨ (x = y ∧ n = m).
Proof.
  intros Hy. rewrite lookup_insert_Some. split; [intros [[-> ->]|[_ ?]]; [by right|by left]|].
  intros [Hx|[-> ->]]; [|by left]. right. split; [congruence|done].
Qed.

Lemma rep_apart s G am s' G' P v n :
  rep s G am → goes s G s' G' P → P v n → (∀ y m, am_blocks am !! y = Some m → P y m → y ≠ v → disjoint_blocks v n y m).
Proof.
  intros HR HG Hv y m Hy HPy Hne. pose proof (go_ok _ _ _ _ _ HG) as HA'.
  destruct (blocks_apart s' G' v n y m HA') as [[<- _]|]; [by apply HG|by apply HG|done|done].
Qed.

Lemma refines_alloc s G am ev size log zero v s' :
  rep s G am → request ev = Some (size, log, zero) → malloc_gives s G size v s' → v mod 2 ^ log = 0 →
  (zero = true → v ≠ 0 → ∀ y, v ≤ y < v + size → byte_at (mem_of s') y = 0) → refines s am ev v s'.
Proof.
  intros HR Hrq (_ & G' & [[-> HG]|(Hv & Hal & n & Hn & Hfr & HG)]) Hlog Hz.
  { apply (refines_quiet s G am ev 0 s' G' HR HG). by apply (request_may_keep ev _ Hrq). }
  assert (Hnone : am_blocks am !! v = None).
  { destruct (am_blocks am !! v) as [m|] eqn:E; [|done]. apply (rp_blocks _ _ _ HR) in E. by destruct (Hfr m). }
  destruct (rep_goes s G am s' G' _ (<[v := n]> (am_blocks am)) HR HG) as [HR' Hb].
  { intros x m. rewrite insert_blocks by done. by rewrite (rp_blocks _ _ _ HR). }
  eexists _, G'. split; [|split; [exact HR'|by eapply goes_modes]]. apply (abs_alloc ev size log zero v n); try done.
  - intros y m Hy. apply (rep_apart s G am s' G' _ v n HR HG); [by right|done|left; by apply HR|congruence].
  - intros E. apply Hz; [done|lia].
Qed.

Lemma refines_free s G am ev ptr v s' :
  rep s G am → free_gives s G ptr s' → ptr ≠ 0 → (∃ me, ev = EFree me ptr) ∨ (resize ev = Some (ptr, 0) ∧ v = 0) →
  refines s am ev v s'.
Proof.
  intros HR (G' & HG) Hne Hev. destruct (rep_goes s G am s' G' _ (delete ptr (am_blocks am)) HR HG) as [HR' Hb].
  { intros x n. rewrite lookup_delete_Some, (rp_blocks _ _ _ HR). split; intros [? ?]; (split; [by try apply not_eq_sym|done]). }
  eexists _, G'. split; [|split; [exact HR'|by eapply goes_modes]]. by apply (abs_free ev v ptr).
Qed.

Lemma refines_realloc s G am ev ptr size n v s' :
  rep s G am → resize ev = Some (ptr, size) → am_blocks am !! ptr = Some n → 0 < size → realloc_gives s G ptr n size v s' →
  refines s am ev v s'.
Proof.
  intros HR Hev Hp Hs (G' & [[-> HG]|(Hv & Hal & m & Hm & Hfr & HG & Hc)]).
  { apply (refines_quiet s G am _ 0 s' G' HR HG). destruct ev; try done; (split; [done|]); intros p k Hr; right; congruence. }
  assert (Hnone : delete ptr (am_blocks am) !! v = None).
  { destruct Hfr as [->|Hfr]; [apply lookup_delete_eq|]. destruct (delete ptr (am_blocks am) !! v) as [k|] eqn:E; [|done].
    apply lookup_delete_Some in E as [_ E]. apply (rp_blocks _ _ _ HR) in E. by destruct (Hfr k). }
  assert (HP : ∀ x k, (block s G x k ∧ x ≠ ptr) ∨ (x = v ∧ k = m) ↔ <[v := m]> (delete ptr (am_blocks am)) !! x = Some k).
  { intros x k. rewrite insert_blocks, lookup_delete_Some, (rp_blocks _ _ _ HR) by done.
    split; (intros [[? ?]|?]; [left; split; [by try apply not_eq_sym|by try apply not_eq_sym]|by right]). }
  destruct (rep_goes s G am s' G' _ _ HR HG HP) as [HR' Hb].
  eexists _, G'. split; [|split; [exact HR'|by eapply goes_modes]]. apply (abs_realloc ev ptr size n v m); try done.
  - intros y k [Hne Hy]%lookup_delete_Some. destruct (decide (y = v)) as [->|Hyv].
    + exfalso. rewrite lookup_delete_ne in Hnone by done. congruence.
    + apply (rep_apart s G am s' G' _ v m HR HG); [by right|done|left|done]. split; [by apply HR|by apply not_eq_sym].
  - intros x k y _. apply Hb.
  - intros i Hi. rewrite Hc by done. apply (rp_bytes _ _ _ HR ptr n); [by apply HR|lia].
Qed.

(** The event is a resizing that the kernel answers with a place off the 2 MiB boundaries. *)
Definition displaced_event s ev : Prop := ∃ ptr size, resize ev = Some (ptr, size) ∧ displaced s ptr size.

(** A block has at least sixteen bytes. *)
Lemma block_size s G x n : api_ok s G → block s G x n → 16 ≤ n.
Proof.
  intros HA [(r & [Hx _] & ->)|(base & hd & Hb & -> & ->)]; [apply (live_size _ _ _ _ (ao_sys _ _ HA) Hx)|].
  destruct (sys_guests _ _ (ao_sys _ _ HA)) as (P & HG & _). destruct (gs_large _ _ HG base hd Hb) as [_ Hl].
  pose proof (ll_off _ _ _ _ Hl). pose proof (ll_align _ _ _ _ Hl) as H1. pose proof (ll_pages _ _ _ _ Hl) as H2.
  assert (H3 : lh_map_len hd mod 16 = 0) by (apply (mod_0_weaken _ 4 12); [lia|exact H2]).
  apply Z.mod_divide in H1 as [k1 E1], H3 as [k2 E2]; [|unfold_geometry; lia..]. unfold_geometry. lia.
Qed.

Lemma not_freed s G am x : rep s G am → owned (canary_of s) am x → ¬ looks_freed df_canary s x.
Proof.
  intros HR [[n Hn] Hc] (Em & f & Ef & Hf). apply (rp_blocks _ _ _ HR) in Hn as Hb. pose proof (block_size s G x n (rp_ok _ _ _ HR) Hb).
  apply (Hc f); [unfold canary_of; by rewrite Em|]. rewrite <-Hf. apply load64_ext. intros y Hy. symmetry. apply (rp_bytes _ _ _ HR x n y Hb). lia.
Qed.

Lemma owned_block s G am x : rep s G am → owned (canary_of s) am x → ∃ n, block s G x n ∧ am_blocks am !! x = Some n ∧ x ≠ 0.
Proof.
  intros HR [[n Hn] _]. exists n. assert (Hb : block s G x n) by (by apply HR). destruct (block_facts s G x n (rp_ok _ _ _ HR) Hb). split_and!; [done..|lia].
Qed.

(** ** Every allowed event refines the abstract allocator *)
Section events.
Context {s} {G : aghost} {am : amem} (HR : rep s G am) (Hbd : oe_bound (table_of s)).

Lemma malloc_mod16 size x s' : malloc_gives s G size x s' → x mod 2 ^ 4 = 0.
Proof. intros (_ & G' & [[-> _]|(_ & Hal & _)]); [done|exact Hal]. Qed.

Lemma malloc_refines me size ra ev :
  0 ≤ size ≤ max_request → ra ≠ 0 → request ev = Some (size, 4, false) →
  runs (btm_malloc_at df_canary env meta_mmap spawn me size ra) s (refines s am ev).
Proof.
  intros Hs Hra Hrq. eapply runs_mono; [apply (malloc_at_spec df_canary env meta_mmap spawn s G me size ra (rp_ok _ _ _ HR) Hs Hra)|].
  intros v s' Hg. apply (refines_alloc s G am ev size 4 false v s' HR Hrq Hg); [by apply (malloc_mod16 size v s')|done].
Qed.

Lemma calloc_refines me n size ra :
  allowed (canary_of s) (negb (mesh_on s)) am (ECalloc me n size ra) → runs (perform (ECalloc me n size ra)) s (refines s am (ECalloc me n size ra)).
Proof.
  intros (Hn & Hs & Hb & Hra). cbn [perform]. unfold btm_calloc. destruct Hb as [Hb|Hb].
  - eapply runs_mono; [apply (calloc_at_spec df_canary env meta_mmap spawn s G me n size ra (rp_ok _ _ _ HR) Hn Hs Hb Hra)|].
    intros v s' [Hg Hz]. apply (refines_alloc s G am (ECalloc me n size ra) (n * size) 4 true v s' HR eq_refl Hg); [by apply (malloc_mod16 (n * size) v s')|].
    intros _. exact Hz.
  - unfold btm_calloc_at, mul_overflow. rewrite (proj2 (Z.ltb_ge _ _)) by lia. apply runs_ret.
    apply (refines_quiet s G am _ 0 s G HR); [apply quiet_refl, HR|done].
Qed.

Lemma realloc_at_refines me ptr size ra ev :
  ptr = 0 ∨ owned (canary_of s) am ptr → 0 ≤ size ≤ max_request → ra ≠ 0 → resize ev = Some (ptr, size) →
  (ptr = 0 → request ev = Some (size, 4, false)) →
  runs (btm_realloc_at df_canary env meta_mmap spawn me ptr size ra) s (λ v s', refines s am ev v s' ∨ displaced_event s ev).
Proof.
  intros Hp Hs Hra Hev Hrq. destruct (decide (ptr = 0)) as [->|Hne].
  { unfold btm_realloc_at. rewrite Z.eqb_refl. eapply runs_mono; [apply malloc_refines; auto|]. by left. }
  destruct Hp as [|Hp]; [done|]. pose proof (not_freed s G am ptr HR Hp) as Hnf.
  destruct (owned_block s G am ptr HR Hp) as (n & Hb & Hl & _). pose proof (rp_ok _ _ _ HR) as HA. destruct (decide (size = 0)) as [->|].
  - eapply runs_mono; [by apply (realloc_zero_spec df_canary env meta_mmap spawn s G me ptr n ra HA Hbd Hb)|].
    intros v s' [-> HF]. left. apply (refines_free s G am _ ptr 0 s' HR HF Hne). by right.
  - eapply runs_mono; [apply (realloc_at_spec df_canary env meta_mmap spawn s G me ptr n size ra HA Hbd Hb); [unfold max_request in Hs; lia|done..]|].
    intros v s' [Hg|(base & hd & nbase & nt & D & _)]; [left; apply (refines_realloc s G am ev ptr size n v s' HR Hev Hl); [lia|done]|].
    right. exists ptr, size. split; [done|]. by exists base, hd, nbase, nt.
Qed.

Lemma realloc_refines me ptr size ra ev : ev = ERealloc me ptr size ra →
  allowed (canary_of s) (negb (mesh_on s)) am ev → runs (perform ev) s (λ v s', refines s am ev v s' ∨ displaced_event s ev).
Proof. intros -> (Hp & Hs & Hra). apply realloc_at_refines; [done..|]. by intros ->. Qed.

(** The errno of the calling thread is none of the blocks' business. *)
Lemma errno_refines me e ev v : may_keep ev v → runs (_ ← set_errno me e; mret v) s (refines s am ev).
Proof.
  intros Hev. apply runs_modify, runs_ret. by apply (refines_quiet s G am ev v _ G HR (proj1 (errno_ok s G me e (rp_ok _ _ _ HR)))).
Qed.

Lemma reallocarray_refines me ptr n size ra ev : ev = EReallocarray me ptr n size ra →
  allowed (canary_of s) (negb (mesh_on s)) am ev → runs (perform ev) s (λ v s', refines s am ev v s' ∨ displaced_event s ev).
Proof.
  intros -> (Hp & Hn & Hs & Hb & Hra). cbn [perform]. unfold btm_reallocarray, mul_overflow. destruct (Z.ltb_spec (n * size) (2 ^ 64)) as [Hlt|Hge].
  - assert (E : resize (EReallocarray me ptr n size ra) = Some (ptr, n * size)) by (cbn; by rewrite (proj2 (Z.ltb_lt _ _) Hlt)).
    apply realloc_at_refines; [done|nia|done|done|]. intros ->. cbn. by rewrite (proj2 (Z.ltb_lt _ _) Hlt).
  - eapply runs_mono; [apply (errno_refines me ENOMEM (EReallocarray me ptr n size ra))|by left].
    split; [done|]. intros p k. cbn. by rewrite (proj2 (Z.ltb_ge _ _) Hge).
Qed.

Lemma memalign_refines me log size ra :
  allowed (canary_of s) (negb (mesh_on s)) am (EMemalign me log size ra) → runs (perform (EMemalign me log size ra)) s (refines s am (EMemalign me log size ra)).
Proof.
  intros (Hlog & Hs & Hra). cbn [perform]. pose proof (rp_ok _ _ _ HR) as HA. destruct (decide (size = 0)) as [->|].
  - assert (E : ∃ v, btm_posix_memalign df_canary env meta_mmap spawn me (2 ^ log) 0 ra s = Ok (v, s) ∧ default 0 v.2 = 0).
    { unfold btm_posix_memalign. destruct (_ || _); [by eexists|]. rewrite Z.eqb_refl. by eexists. }
    destruct E as ([rc out] & E & Ev). apply (runs_step _ _ _ _ _ _ E). apply runs_ret. cbn in Ev. rewrite Ev.
    apply (refines_quiet s G am _ 0 s G HR); [apply quiet_refl, HR|done].
  - eapply runs_bind; [apply (posix_memalign_spec df_canary env meta_mmap spawn s G me log size ra HA); [lia|unfold max_request in Hs; lia|done]|].
    intros v s' [(-> & Hg)|(x & -> & Hx & Hal & Hg)]; apply runs_ret; cbn [default].
    + apply (refines_alloc s G am (EMemalign me log size ra) size log false 0 s' HR eq_refl Hg); [apply Z.mod_0_l, Z.pow_nonzero; lia|done].
    + by apply (refines_alloc s G am (EMemalign me log size ra) size log false x s' HR eq_refl Hg).
Qed.

Lemma aligned_refines me log size ra :
  allowed (canary_of s) (negb (mesh_on s)) am (EAligned me log size ra) → runs (perform (EAligned me log size ra)) s (refines s am (EAligned me log size ra)).
Proof.
  intros (Hlog & Hs & Hra). cbn [perform]. pose proof (rp_ok _ _ _ HR) as HA.
  assert (H0 : refines s am (EAligned me log size ra) 0 s) by (apply (refines_quiet s G am _ 0 s G HR); [by apply quiet_refl|done]).
  destruct (decide (size = 0)) as [->|]; [|destruct (decide (size mod 2 ^ log = 0)) as [Hm|Hm]].
  - unfold btm_aligned_alloc. rewrite pow2_is_pow2 by lia. by apply runs_ret.
  - eapply runs_mono; [apply (aligned_alloc_spec df_canary env meta_mmap spawn s G me log size ra HA Hlog); [unfold max_request in Hs; lia|done..]|].
    intros x s' [Hg Hal]. by apply (refines_alloc s G am (EAligned me log size ra) size log false x s' HR eq_refl Hg).
  - unfold btm_aligned_alloc. rewrite pow2_is_pow2, (proj2 (Z.eqb_neq size 0)), (proj2 (Z.eqb_neq _ 0) Hm) by lia. cbn [negb].
    by apply errno_refines.
Qed.

Lemma free_refines me ptr : allowed (canary_of s) (negb (mesh_on s)) am (EFree me ptr) → runs (perform (EFree me ptr)) s (refines s am (EFree me ptr)).
Proof.
  intros Hp. cbn [perform]. destruct (decide (ptr = 0)) as [->|Hne].
  - apply (runs_step _ _ _ s tt); [done|]. apply runs_ret. apply (refines_quiet s G am _ 0 s G HR); [apply quiet_refl, HR|done].
  - destruct Hp as [|Hp]; [done|]. destruct (owned_block s G am ptr HR Hp) as (n & Hb & _).
    apply (runs_bind _ _ _ _ _ (free_spec df_canary meta_mmap s G me ptr n (rp_ok _ _ _ HR) Hbd Hb (not_freed s G am ptr HR Hp))).
    intros u s' HF. apply runs_ret. apply (refines_free s G am _ ptr 0 s' HR HF Hne). left. by exists me.
Qed.

Lemma usable_refines me ptr : allowed (canary_of s) (negb (mesh_on s)) am (EUsable me ptr) → runs (perform (EUsable me ptr)) s (refines s am (EUsable me ptr)).
Proof.
  intros Hp. cbn [perform]. destruct (decide (ptr = 0)) as [->|Hne].
  - apply runs_ret. apply (refines_quiet s G am _ 0 s G HR); [apply quiet_refl, HR|done].
  - destruct Hp as [|[n Hn]]; [done|]. assert (Hb : block s G ptr n) by (by apply HR).
    eapply runs_mono; [by apply (usable_size_spec s G me ptr n (rp_ok _ _ _ HR) Hbd Hb)|]. intros v s' (-> & HQ).
    destruct (rep_goes s G am s' G _ (am_blocks am) HR (proj1 HQ) (rp_blocks _ _ _ HR)) as [HR' Hk].
    eexists _, G. split; [|split; [exact HR'|by eapply goes_modes, (proj1 HQ)]]. by apply abs_usable.
Qed.

Lemma write_refines a l : allowed (canary_of s) (negb (mesh_on s)) am (EWrite a l) → runs (perform (EWrite a l)) s (refines s am (EWrite a l)).
Proof.
  intros (x & n & Hx & Ha & Hl). assert (Hb : block s G x n) by (by apply HR). pose proof (rp_ok _ _ _ HR) as HA. cbn [perform]. eapply runs_step.
  { apply write_mem_run. apply (block_accessible s G x n); [done|done|lia|lia]. }
  apply runs_ret. set (m' := store_bytes (mem_of s) a l). eexists _, G. split; [apply abs_write|split; [|done]]. split.
  - apply (write_block_ok s G x n m' HA Hb). intros y Hy. unfold m'. rewrite byte_at_store_bytes. by rewrite decide_False by lia.
  - intros y k. apply HR.
  - intros y k z Hy Hz. change (mem_of (set_mem m' s)) with m'. unfold m'. cbn [am_bytes]. rewrite !byte_at_store_bytes.
    case_decide; [done|]. by apply (rp_bytes _ _ _ HR y k z).
Qed.

Lemma exit_refines me : runs (perform (EExit me)) s (refines s am (EExit me)).
Proof.
  cbn [perform]. apply (runs_bind _ _ _ _ _ (tls_destroy_spec s G me (rp_ok _ _ _ HR))). intros u s' (_ & G' & HG & _). apply runs_ret.
  apply (refines_quiet s G am _ 0 s' G' HR HG). done.
Qed.

Lemma maintain_refines f : runs (perform (EMaintain f)) s (refines s am (EMaintain f)).
Proof.
  cbn [perform]. destruct (bg_step_spec f _ _ _ (so_src _ _ (ao_sys _ _ (rp_ok _ _ _ HR)))) as (h' & b' & Hrun & Hag & Hst & HS).
  eapply runs_step; [apply run_zoom, run_zoom; exact Hrun|]. apply runs_ret.
  apply (refines_quiet s G am _ 0 _ G HR (source_step_goes s G h' b' (rp_ok _ _ _ HR) Hag Hst HS)). done.
Qed.

Lemma pageout_refines : runs (perform EPageout) s (refines s am EPageout).
Proof.
  cbn [perform]. eapply runs_mono; [apply (pageout_cold_spec s G (rp_ok _ _ _ HR))|]. intros v s' (HQ & _).
  by apply (refines_quiet s G am _ v s' G HR (proj1 HQ)).
Qed.

(** Without mesh mode a child has all the memory of its parent. *)
Lemma fork_memory_kept : mesh_on s = false → on_source fork_memory s = Ok (tt, s).
Proof.
  intros Hm. unfold mesh_on in Hm. assert (E : fork_memory (p_heap (g_pools s), p_src (g_pools s)) = Ok (tt, (p_heap (g_pools s), p_src (g_pools s)))).
  { unfold fork_memory, mesh_mode. rewrite (run_bind _ _ _ _ _ (run_gets _ _)). cbn [snd]. by rewrite Hm. }
  unfold on_source, on_pools. erewrite run_zoom; [|apply (run_zoom (λ p, (p_heap p, p_src p)) set_source _ _ _ _ E)].
  by destruct s as [[] ? ? ? ? ? ? ? ? ? ?].
Qed.

Lemma fork_refines : mesh_on s = false → runs (perform EFork) s (refines s am EFork).
Proof.
  intros Hm. cbn [perform]. eapply runs_step; [exact (fork_memory_kept Hm)|]. apply (runs_bind _ _ _ _ _ (fork_spec s G (rp_ok _ _ _ HR))). intros u s' (HQ & _). apply runs_ret.
  by apply (refines_quiet s G am _ 0 s' G HR (proj1 HQ)).
Qed.

Lemma perform_refines ev : allowed (canary_of s) (negb (mesh_on s)) am ev → runs (perform ev) s (λ v s', refines s am ev v s' ∨ displaced_event s ev).
Proof.
  intros Ha. assert (H : ∀ (m : M (astate T) Z), runs m s (refines s am ev) → runs m s (λ v s', refines s am ev v s' ∨ displaced_event s ev)).
  { intros m Hm. eapply runs_mono; [exact Hm|]. by left. }
  destruct ev as [me size ra|me n size ra|me ptr size ra|me ptr n size ra|me log size ra|me log size ra|me ptr|me ptr|a l|me| | |f];
    first [by eapply realloc_refines|by eapply reallocarray_refines|apply H].
  - apply malloc_refines; [apply Ha..|done].
  - by apply calloc_refines.
  - by apply memalign_refines.
  - by apply aligned_refines.
  - by apply free_refines.
  - by apply usable_refines.
  - by apply write_refines.
  - apply exit_refines.
  - apply pageout_refines.
  - apply fork_refines. by apply negb_true_iff.
  - apply maintain_refines.
Qed.
End events.

(** ** Whole programs *)

(** What is reached: the library represents the abstract allocator, and the program ran for
    [n] events or the next one is a displaced resizing. *)
Definition reached am0 (prog : program) (n m : nat) (tr : list (event * Z)) s G am : Prop :=
  rep s G am ∧ abs_run prog am0 tr am ∧ (m ≤ n)%nat ∧ (m = n ∨ ∃ ev, prog tr = Some ev ∧ displaced_event s ev).

Lemma play_refines am0 prog c forks : well_behaved c forks prog am0 → ∀ n tr s G am,
  rep s G am → canary_of s = c → mesh_on s = negb forks → abs_run prog am0 tr am →
  (∀ k tr' s', (k < n)%nat → play k prog tr s = Ok (tr', s') → oe_bound (table_of s')) →
  ∃ m, runs (play m prog tr) s (λ tr' s', ∃ G' am', reached am0 prog n m tr' s' G' am').
Proof.
  intros Hprog. induction n as [|n IH]; intros tr s G am HR Hc Hf Habs Hbd.
  { exists 0%nat. apply runs_ret. exists G, am. split_and!; auto. }
  destruct (prog tr) as [ev|] eqn:Ep.
  2: { exists (S n). cbn [play]. rewrite Ep. apply runs_ret. exists G, am. split_and!; auto. }
  assert (Hev : allowed (canary_of s) (negb (mesh_on s)) am ev) by (rewrite Hc, Hf, negb_involutive; by apply (Hprog tr)).
  assert (Hb0 : oe_bound (table_of s)) by (apply (Hbd 0%nat tr s); [lia|done]).
  destruct (perform_refines HR Hb0 ev Hev) as (v & s1 & Hrun & [(am1 & G1 & Hst & HR1 & Em & Emm)|Hd]).
  2: { exists 0%nat. apply runs_ret. exists G, am. split_and!; [done|done|lia|]. right. by exists ev. }
  destruct (IH (tr ++ [(ev, v)]) s1 G1 am1 HR1) as (m & Hm); [unfold canary_of in *; by rewrite Em|by rewrite Emm|by apply (abs_more prog am0 tr am)| |].
  { intros k tr' s' Hk Hplay. apply (Hbd (S k) tr' s'); [lia|]. cbn [play]. rewrite Ep. by erewrite run_bind by exact Hrun. }
  exists (S m). cbn [play]. rewrite Ep. apply (runs_step _ _ _ _ _ _ Hrun). eapply runs_mono; [exact Hm|].
  intros tr' s' (G' & am' & H1 & H2 & H3 & H4). exists G', am'. split_and!; [done|done|lia|]. destruct H4 as [->|]; auto.
Qed.
End process.
