(* ===== verification/ApiDemo.v ===== *)
(** * ApiDemo: a small process for the witnesses of the API

    The default engine on an address space whose mremap never moves, safe linking and
    double-free detection on, one partition: after initialization, after a first malloc,
    after its free. *)

From stdpp Require Import prelude gmap.
From S2P Require Import Prelude Memory SizeClass Freelist Registry Engine Callsite Os Large Heap Memfd Dll Pool PoolInv PoolFrame PoolRun PoolRefill PoolSys PoolOps Space Background Allocator BgLaws Api ApiInv ApiStep ApiSmall ApiLarge ApiSpec ApiRealloc ApiExit ApiInit Process.
Local Open Scope Z_scope.

(** ** An address space whose mappings stay where they are *)
Definition stay_mremap (k : list (Z * Z)) (a olen nlen : Z) : option Z * list (Z * Z) :=
  let k0 := ff_munmap k a olen in
  if (0 <? nlen) && ff_free k0 a nlen then (Some a, (a, a + nlen) :: k0) else (None, k).

#[export] Instance stay_os : OS := {|
  kstate := list (Z * Z);
  k_mapped := ff_mapped;
  k_mmap := ff_mmap;
  k_mmap_fixed k a len := (true, (a, a + len) :: k);
  k_munmap := ff_munmap;
  k_mremap := stay_mremap;
  k_memfd_create _ := true;
  k_ftruncate _ n := n <? 2 ^ 63;
  k_fd_stack _ _ := true;
|}.

#[export] Instance stay_laws : OSLaws stay_os.
Proof.
  destruct first_fit_laws as [L1 L2 L3 L4 L5 _ _ L8]. split; [exact L1|exact L2|exact L3|exact L4|exact L5| | |exact L8]; simpl.
  - intros k a olen nlen b k' _ _. unfold stay_mremap. destruct (Z.ltb_spec 0 nlen); [|done]. cbn [andb].
    destruct (ff_free (ff_munmap k a olen) a nlen) eqn:E; [|done]. intros [= <- <-].
    apply ff_free_spec in E as (? & ? & ? & Hf). split; [by split_and!|]. split.
    + intros x Hx. specialize (Hf x Hx). rewrite ff_mapped_munmap in Hf. destruct (within a olen x), (ff_mapped k x); auto.
    + intros x. by rewrite ff_mapped_cons, ff_mapped_munmap.
  - intros k a olen nlen k'. unfold stay_mremap. destruct (_ && _); [done|by intros [= <-]].
Qed.

(** ** Facts of outcomes, whatever they compute to *)
Definition is_found {A : Type} (o : option A) : bool := match o with Some _ => true | None => false end.
Lemma found {A : Type} (o : option A) : is_found o = true → is_Some o.
Proof. destruct o; [by eexists|done]. Qed.

Section outcomes.
Context {F : FlOps} {FL : FlLaws F} {Krn : OS} {KL : OSLaws Krn} {T : Type} {OT : OwnerTable T} {OE : OwnerEngine T}
  {EL : OwnerEngineLaws T OT OE}.
Context (df_canary : option (Z → Z)) (env : environment) (meta_mmap : kstate → Z → bool) (spawn : kstate → bool).
Implicit Types (s : astate T).

Definition after {A : Type} (o : outcome (A * astate T)) s : astate T := match o with Ok (_, s') => s' | _ => s end.
Definition answer (o : outcome (Z * astate T)) : Z := match o with Ok (v, _) => v | _ => 0 end.

Lemma started o s k :
  o = btm_ensure_init df_canary env meta_mmap (process_start k) → can_start env meta_mmap k →
  ∃ G, api_ok (after o s) G ∧ ∀ x n, ¬ block (after o s) G x n.
Proof.
  intros -> Hs. destruct (ensure_init_start df_canary env meta_mmap k Hs) as (s' & G & Hrun & HA & Hb & _). rewrite Hrun. by exists G.
Qed.

Lemma allocated o s G me size ra :
  api_ok s G → o = btm_malloc_at df_canary env meta_mmap spawn me size ra s → 0 ≤ size ≤ 2 ^ 46 → ra ≠ 0 → answer o ≠ 0 →
  ∃ G' n, api_ok (after o s) G' ∧ block (after o s) G' (answer o) n ∧ size ≤ n.
Proof.
  intros HA -> Hs Hra Hv. destruct (malloc_at_spec df_canary env meta_mmap spawn s G me size ra HA Hs Hra) as (x & s' & Hrun & _ & G' & Hcase).
  rewrite Hrun in *. cbn [after answer] in *. destruct Hcase as [[-> _]|(_ & _ & n & Hn & _ & HG)]; [done|]. exists G', n.
  split; [apply HG|]. split; [apply HG; by right|done].
Qed.

(** A block of a process without large objects is a slot of the pool its chunk names; the
    count of its bin is the number of slots cached there. *)
Lemma block_slot s G r x n :
  api_ok s G → block s G x n → b_hdrs (p_src (g_pools s)) = ∅ → c_pool <$> h_chunks (p_heap (g_pools s)) !! chunk_of x = Some (Some r) →
  in_use G x r.
Proof.
  intros HA [(r' & Hu & _)|(base & hd & Hl & _)] Hh Hc.
  - destruct (live_header _ _ r' x (ao_sys _ _ HA) (proj1 Hu)) as (v & Hv & Hp & _). rewrite Hv in Hc. cbn in Hc. congruence.
  - unfold large_at, large_view in Hl. cbn [l_hdrs] in Hl. by rewrite Hh, lookup_empty in Hl.
Qed.

Lemma bin_count s G r x me k : api_ok s G → in_use G x r → b_count <$> bin_at s me r = Some k → Z.of_nat (length (cached G me r)) = k.
Proof.
  intros HA Hu Hk. pose proof (ao_bin _ _ HA me r (live_in_range HA _ _ (proj1 Hu))) as HB. unfold bin_inv in HB.
  destruct (bin_at s me r) as [b|]; [|done]. cbn in Hk. injection Hk as <-. by rewrite <-(bg_count _ _ _ _ _ HB).
Qed.
End outcomes.

(** ** The process *)
Definition key : Z := 12345.
#[export] Instance demo_fl : FlOps := hardened_fl key.
#[export] Instance demo_fl_laws : FlLaws demo_fl.
Proof. apply hardened_fl_laws. done. Qed.

Definition canary : option (Z → Z) := Some (btm_df_canary key).
Definition env1 : environment := mk_env (Some 1) false true true false.
Definition tables_ok (k : kstate) (len : Z) : bool := true.
Definition no_thread (k : kstate) : bool := false.

Abbreviation state := (astate (Krn := stay_os) registry).
Definition start : state := process_start (Krn := stay_os) (T := registry) ([] : list (Z * Z)).

Lemma can_start1 : can_start (Krn := stay_os) env1 tables_ok ([] : list (Z * Z)).
Proof. split; [vm_compute; split; [|intros _]; discriminate|done]. Qed.

Definition run0 := btm_ensure_init (Krn := stay_os) (T := registry) canary env1 tables_ok start.
Definition st0 : state := after run0 start.

Lemma ok_st0 : ∃ G, api_ok (EL := registry_laws) st0 G ∧ ∀ x n, ¬ block st0 G x n.
Proof. apply (started (EL := registry_laws) canary env1 tables_ok run0 start [] eq_refl can_start1). Qed.

Lemma bound_st0 : oe_bound (OwnerEngineLaws := registry_laws) (table_of st0).
Proof. vm_compute. reflexivity. Qed.

(** A block of 100 bytes, and one of 100000. *)
Definition run_small := btm_malloc_at (Krn := stay_os) (T := registry) canary env1 tables_ok no_thread 0 100 7 st0.
Definition st_small : state := after run_small st0.
Definition p_small : Z := answer run_small.

Lemma p_small_val : p_small = 4226896.
Proof. vm_compute. reflexivity. Qed.

Lemma bound_small : oe_bound (OwnerEngineLaws := registry_laws) (table_of st_small).
Proof. vm_compute. reflexivity. Qed.

Lemma ok_small : ∃ G n, api_ok (EL := registry_laws) st_small G ∧ block st_small G p_small n ∧ 100 ≤ n.
Proof.
  destruct ok_st0 as (G & HA & _).
  apply (allocated (EL := registry_laws) canary env1 tables_ok no_thread run_small st0 G 0 100 7 HA eq_refl); [done|done|].
  fold p_small. by rewrite p_small_val.
Qed.

Lemma not_freed_small : ¬ looks_freed canary st_small p_small.
Proof.
  intros (_ & f & [= <-] & E). assert (H : (load64 (mem_of st_small) (p_small + 8) =? btm_df_canary key p_small) = false) by (vm_compute; reflexivity).
  by rewrite E, Z.eqb_refl in H.
Qed.

(** The block is a slot of the pool of its size class, and the bin has room. *)
Lemma chunk_small : c_pool <$> h_chunks (p_heap (g_pools st_small)) !! chunk_of p_small = Some (Some (0, 6)).
Proof. vm_compute. reflexivity. Qed.

Lemma no_large_small : b_hdrs (p_src (g_pools st_small)) = ∅.
Proof. vm_compute. reflexivity. Qed.

Lemma count_small : (b_count <$> bin_at st_small 0%nat (0, 6)) = Some 35.
Proof. vm_compute. reflexivity. Qed.

Lemma tls_small : is_Some (th_tls (thread_at st_small 0%nat)).
Proof. apply found. vm_compute. reflexivity. Qed.

Lemma slot_small G n :
  api_ok (EL := registry_laws) st_small G → block st_small G p_small n →
  in_use G p_small (0, 6) ∧ Z.of_nat (length (cached G 0 (0, 6))) = 35.
Proof.
  intros HA Hb. pose proof (block_slot (EL := registry_laws) st_small G (0, 6) p_small n HA Hb no_large_small chunk_small) as Hu.
  split; [exact Hu|]. exact (bin_count (EL := registry_laws) st_small G (0, 6) p_small 0 35 HA Hu count_small).
Qed.
