(* ===== verification/MeshProps.v ===== *)
(** * MeshProps: the properties of compaction

    Four slabs with one object each are the witness of the first compaction, and what a
    second one destroys; two half-full slabs show a recipient that is left without slots. *)

From stdpp Require Import prelude gmap.
From S2P Require Import Prelude Memory SizeClass Freelist Registry Os Large Heap Dll Pool PoolInv PoolFrame PoolRun PoolSys Tiering Mesh MeshMem MeshOps MeshInv MeshPair MeshCompact Space Memfd.
Local Open Scope Z_scope.

(** ** Four slabs

    One chunk at 4 MiB, at offset 0 of the memfd, with four slabs of the class of 512
    bytes in partition 0; slab number [i] has one slot out, its slot [i]. *)
Definition fl12345 : FlOps := hardened_fl 12345.
#[local] Existing Instance fl12345.
#[local] Instance fl12345_laws : FlLaws fl12345.
Proof. apply hardened_fl_laws. done. Qed.

Definition base : Z := 4194304.
Definition r15 : pool_ref := (0, 15).
Definition desc (i : Z) : Z := btm_chunk_desc base (7 + 2 * i).
Definition run (i : Z) : Z := base + (7 + 2 * i) * BTM_PAGE_SIZE.
(** The free slots when those in [out] are out. *)
Definition free_but (out : Z → bool) (i : Z) : list Z := (λ k, run i + k * 512) <$> filter (λ k, out k = false) (seqZ 0 16).
Definition frees (i : Z) : list Z := free_but (λ k, k =? i) i.

Fixpoint link_slots (l : list Z) (m : gmap Z Z) : gmap Z Z :=
  match l with
  | [] => m
  | x :: l' => set_link (link_slots l' m) (x - base) x (hd0 l')
  end.
(** The object of slab [i] begins with the byte 40 + i. *)
Definition object (i : Z) : Z := run i + i * 512.

(** [n] slabs with the free slots [fr], on the partial list one after the other. *)
Definition hdr (n : Z) (fr : Z → list Z) (i : Z) : btm_slab :=
  mk_slab (hd0 (fr i)) (if i =? n - 1 then 0 else desc (i + 1)) (if i =? 0 then 0 else desc (i - 1)) 16 (Z.of_nat (length (fr i))) 15 2 0
    (7 + 2 * i) true false false false 0.
Definition bytes_of (n : Z) (fr : Z → list Z) : gmap Z Z :=
  foldr (λ i m, <[object i - base := 40 + i]> (link_slots (fr i) m)) ∅ (seqZ 0 n).
Definition lists_of (n : Z) (r : pool_ref) : list Z := if decide (r = r15) then desc <$> seqZ 0 n else [].
Definition keyed {K : Type} (f : pool_ref → K) : gmap pool_ref K := list_to_map ((λ r, (r, f r)) <$> pool_refs 1).
Definition state_of (n : Z) (fr : Z → list Z) : mstate :=
  mk_pstate (mk_heap (bytes_of n fr) {[base := mk_chunk BTM_CHUNK_MAGIC (Some r15) 15 0 0 0 (7 + 2 * n) n 0 []]} (list_to_map ((λ i, (desc i, hdr n fr i)) <$> seqZ 0 n)))
    (keyed (λ r, mk_pool (hd0 (lists_of n r)) 0 0 0 0 0 0 0)) 0 (map_pages 512 (base / BTM_PAGE_SIZE) 0 ∅).
Definition lists4 : pool_ref → list Z := lists_of 4.
Definition state4 : mstate := state_of 4 frees.
Definition slabs4 : mslabs := list_to_map ((λ i, (desc i, (r15, frees i))) <$> seqZ 0 4).
Definition pools4 : gmap pool_ref (list Z) := keyed lists4.

Definition granted : Z → Z → bool := λ _ _, true.

(** ** They are in order *)
Lemma keyed_lookup {K : Type} (f : pool_ref → K) r k : keyed f !! r = Some k ↔ r ∈ pool_refs 1 ∧ k = f r.
Proof.
  assert (HN : NoDup ((λ r, (r, f r)) <$> pool_refs 1).*1).
  { rewrite <-list_fmap_compose. cbn. rewrite list_fmap_id. apply pool_refs_NoDup. }
  unfold keyed. rewrite <-elem_of_list_to_map by done. rewrite list_elem_of_fmap. split.
  - intros (r' & [= -> ->] & Hr). done.
  - intros [Hr ->]. by exists r.
Qed.

Lemma slabs4_cases d r l : slabs4 !! d = Some (r, l) → ∃ i, i ∈ seqZ 0 4 ∧ d = desc i ∧ r = r15 ∧ l = frees i.
Proof. intros H%elem_of_list_to_map_2. apply list_elem_of_fmap in H as (i & [= -> -> ->] & Hi). by exists i. Qed.

Lemma slabs4_lookup i : i ∈ seqZ 0 4 → slabs4 !! desc i = Some (r15, frees i).
Proof. intros Hi. apply elem_of_list_to_map_1; [vm_compute; apply (bool_decide_unpack _); vm_compute; done|]. apply list_elem_of_fmap. by exists i. Qed.

(** A check of the four slabs. *)
Lemma each4 (P : Z → Prop) : P 0 → P 1 → P 2 → P 3 → ∀ i, i ∈ seqZ 0 4 → P i.
Proof. intros H0 H1 H2 H3 i Hi. change (seqZ 0 4) with [0; 1; 2; 3] in Hi. repeat (apply elem_of_cons in Hi as [->|Hi]; [done|]). by apply elem_of_nil in Hi. Qed.

Lemma backed4 a n : 0 ≤ a → a + n ≤ BTM_CHUNK_SIZE → backed (p_src state4) (base + a) n a.
Proof.
  intros Ha Hn. replace a with (0 + a) at 2 by lia. apply (backed_sub _ _ (512 * BTM_PAGE_SIZE)); [|done|unfold_geometry; lia].
  apply (map_pages_backed 512 (base / BTM_PAGE_SIZE) 0 ∅).
Qed.

Lemma mslab4 i : i ∈ seqZ 0 4 → mslab state4 r15 (desc i) (frees i).
Proof.
  assert (HB : ∀ i, i ∈ seqZ 0 4 → backed (p_src state4) (data_of (desc i)) (run_len r15) (file_off (p_heap state4) (desc i))).
  { apply each4; [apply (backed4 28672 8192)|apply (backed4 36864 8192)|apply (backed4 45056 8192)|apply (backed4 53248 8192)]; by vm_compute. }
  intros Hi. split; [by vm_compute| | | | | | | | |by apply HB]; revert i Hi; apply each4.
  all: try (vm_compute; reflexivity).
  all: try (split; vm_compute; reflexivity).
  all: try (vm_compute; by split_and!).
  all: try (by vm_compute; eexists).
  all: by apply (bool_decide_unpack _); vm_compute.
Qed.

Lemma slabs4_ok d (r : pool_ref) l : slabs4 !! d = Some (r, l) → mslab state4 r d l.
Proof. intros (i & Hi & -> & -> & ->)%slabs4_cases. by apply mslab4. Qed.

Lemma slabs4_apart (f : Z → Z) : (∀ i j, i ∈ seqZ 0 4 → j ∈ seqZ 0 4 → i ≠ j → disjoint_blocks (f (desc i)) 8192 (f (desc j)) 8192) →
  ∀ d1 (r1 : pool_ref) l1 d2 (r2 : pool_ref) l2, slabs4 !! d1 = Some (r1, l1) → slabs4 !! d2 = Some (r2, l2) → d1 ≠ d2 →
    disjoint_blocks (f d1) (run_len r1) (f d2) (run_len r2).
Proof.
  intros H d1 r1 l1 d2 r2 l2 (i & Hi & -> & -> & ->)%slabs4_cases (j & Hj & -> & -> & ->)%slabs4_cases Hne.
  apply H; [done..|]. by intros ->.
Qed.

Lemma run4 i : i ∈ seqZ 0 4 → data_of (desc i) = run i ∧ file_off (p_heap state4) (desc i) = run i - base.
Proof. revert i. apply each4; split; vm_compute; reflexivity. Qed.

Lemma file4 d1 (r1 : pool_ref) l1 d2 (r2 : pool_ref) l2 : slabs4 !! d1 = Some (r1, l1) → slabs4 !! d2 = Some (r2, l2) → d1 ≠ d2 →
  disjoint_blocks (file_off (p_heap state4) d1) (run_len r1) (file_off (p_heap state4) d2) (run_len r2).
Proof.
  apply (slabs4_apart (file_off (p_heap state4))). intros i j Hi Hj Hne. rewrite (proj2 (run4 i Hi)), (proj2 (run4 j Hj)).
  apply elem_of_seqZ in Hi, Hj. unfold disjoint_blocks, run, base, BTM_PAGE_SIZE. lia.
Qed.

Lemma virt4 d1 (r1 : pool_ref) l1 d2 (r2 : pool_ref) l2 : slabs4 !! d1 = Some (r1, l1) → slabs4 !! d2 = Some (r2, l2) → d1 ≠ d2 →
  disjoint_blocks (data_of d1) (run_len r1) (data_of d2) (run_len r2).
Proof.
  apply (slabs4_apart data_of). intros i j Hi Hj Hne. rewrite (proj1 (run4 i Hi)), (proj1 (run4 j Hj)).
  apply elem_of_seqZ in Hi, Hj. unfold disjoint_blocks, run, base, BTM_PAGE_SIZE. lia.
Qed.

Lemma pools4_cases r L : pools4 !! r = Some L → (r = r15 ∧ L = desc <$> seqZ 0 4) ∨ L = [].
Proof. intros [_ ->]%keyed_lookup. unfold lists4, lists_of. case_decide; [by left|by right]. Qed.

Lemma state4_ok : mesh_ok state4 slabs4 pools4 (in_use slabs4).
Proof.
  apply (unmeshed_ok slabs4_ok file4 virt4).
  - intros r L HL. eexists. split; [apply keyed_lookup; split; [by apply keyed_lookup in HL as [? _]|reflexivity]|].
    cbn [partial]. change (lists_of 4 r) with (lists4 r). rewrite <-(proj2 (proj1 (keyed_lookup _ _ _) HL)). split; [done|]. destruct (pools4_cases r L HL) as [[_ ->]| ->]; [|split; [constructor|done]].
    split; [apply (bool_decide_unpack _)|]; vm_compute; [done|by split_and!].
  - intros r L d HL Hd. destruct (pools4_cases r L HL) as [[-> ->]| ->]; [|by apply elem_of_nil in Hd].
    apply list_elem_of_fmap in Hd as (i & -> & Hi). split; [|exists (frees i); by apply slabs4_lookup]. revert i Hi. by apply each4.
Qed.

Lemma private4 r L d : pools4 !! r = Some L → d ∈ L → private state4 (in_use slabs4) r d.
Proof.
  intros HL Hd. destruct (mo_dom _ _ _ _ state4_ok r L d HL Hd) as (_ & l & Hl). by apply (unmeshed_private slabs4_ok file4 d r l).
Qed.

Lemma object3_in_use : in_use slabs4 (object 3).
Proof.
  exists (desc 3), r15, (frees 3), (object 3). split; [apply slabs4_lookup, elem_of_seqZ; lia|]. split; [by apply (bool_decide_unpack _); vm_compute|].
  split; [by apply (bool_decide_unpack _); vm_compute|]. change (btm_sc_to_size r15.2) with 512. lia.
Qed.

(** ** The properties *)



(** What two calls in a row do: the bytes of the four objects after each. *)
Definition objects_of (s : mstate) : list Z := (λ i, vread s (object i)) <$> seqZ 0 4.
Definition compact_twice (s : mstate) : option (list Z * list Z) :=
  match btm_compact granted true 1 s with
  | Ok (_, s1) => match btm_compact granted true 1 s1 with Ok (_, s2) => Some (objects_of s1, objects_of s2) | _ => None end
  | _ => None
  end.

(** C31. A second [btm_compact] destroys live objects.  Four sparse slabs, no two objects
    in slots of one number: the first call meshes the second slab into the first and the
    fourth into the third, and all four objects read as before; nothing marks the third
    slab as a recipient, so the second call meshes it into the first and punches its
    pages out of the memfd.  The addresses of the fourth slab still name these pages: its
    object, which the program never freed, reads as zero. *)
Theorem compact_twice_loses_data :
  mesh_ok state4 slabs4 pools4 (in_use slabs4) ∧ in_use slabs4 (object 3) ∧ objects_of state4 = [40; 41; 42; 43] ∧
  compact_twice state4 = Some ([40; 41; 42; 43], [40; 41; 42; 0]).
Proof.
  split; [exact state4_ok|]. split; [exact object3_in_use|split; vm_compute; reflexivity].
Qed.

(** ** A full recipient *)

(** Two slabs, the even slots of one and the odd slots of the other out. *)
Definition state2 : mstate := state_of 2 (λ i, free_but (λ k, k mod 2 =? i) i).

(** A chunk source that faults when it is asked for anything. *)
Definition no_source : ChunkSource page_table := {| btm_chunk_obtain _ _ _ := Fault; btm_chunk_dispose _ _ _ := Fault; btm_release_pages _ _ _ h b := (h, b) |}.

(** What a refill of an empty bin answers after a compaction, and the slots then free in the slab on the list. *)
Definition refill_after_compact (s : mstate) : option (Z * Z) :=
  match btm_compact granted true 1 s with
  | Ok (_, s1) =>
      match btm_pool_refill (CS := no_source) r15 (mk_bin 0 (Some r15) 0) 16 s1 with
      | Ok ((p, _), _) => Some (p, free_count (slab_at (p_heap s1) (desc 0)))
      | _ => None
      end
  | _ => None
  end.

(** Two half-full slabs with complementary slots are meshed into a slab without free slots,
    which stays on the partial list.  The next refill finds no slot in it and answers
    NULL, without a look at the other slabs or asking for a chunk; no link is read. *)
Lemma compact_exhausts_recipient : refill_after_compact state2 = Some (0, 0).
Proof. vm_compute. reflexivity. Qed.

