(* ===== verification/ApiProps.v ===== *)
(** * ApiProps: the properties of the public API

    The theorems a user of the library relies on: each operation of src/src/btmalloc.c in
    any state of the invariant, thread exit, initialization, the refinement of the abstract
    allocator by whole programs, and the owners the registry knows after such runs; with
    their witnesses on the process of ApiDemo. *)

From stdpp Require Import prelude gmap.
From S2P Require Import Prelude Memory SizeClass Freelist Registry Engine Callsite Os Large Heap Memfd Dll Pool PoolInv PoolFrame PoolRun PoolRefill PoolCount PoolSys PoolOps Tiering Mesh MeshInv Space Background Allocator BgLaws Api ApiInv MeshView Profile CTypes ApiStep ApiSmall ApiLarge ApiSpec ApiRealloc Preload ApiExit ApiInit Process ApiDemo.
Local Open Scope Z_scope.

(** The blocks of [s'] are those described by [P]; the blocks of [s] that stay keep their
    bytes, and no two blocks of [s'] overlap. *)
Definition owns_after {F : FlOps} {FL : FlLaws F} {Krn : OS} {KL : OSLaws Krn} {T : Type} {OT : OwnerTable T} {OE : OwnerEngine T}
    {EL : OwnerEngineLaws T OT OE} (s : astate T) (G : aghost) (s' : astate T) (G' : aghost) (P : Z → Z → Prop) : Prop :=
  api_ok s' G' ∧ (∀ x n, block s' G' x n ↔ P x n) ∧
  (∀ x n y, block s G x n → P x n → x ≤ y < x + n → byte_at (mem_of s') y = byte_at (mem_of s) y) ∧
  (∀ x n y m, block s' G' x n → block s' G' y m → (x = y ∧ n = m) ∨ disjoint_blocks x n y m).

Section props.
Context {F : FlOps} {FL : FlLaws F} {Krn : OS} {KL : OSLaws Krn} {T : Type} {OT : OwnerTable T} {OE : OwnerEngine T}
  {EL : OwnerEngineLaws T OT OE}.
Context (df_canary : option (Z → Z)) (env : environment) (meta_mmap : kstate → Z → bool) (spawn : kstate → bool).
Implicit Types (r : pool_ref) (s : astate T) (G : aghost).

Lemma goes_owns s G s' G' P : goes s G s' G' P → owns_after s G s' G' P.
Proof. intros [H1 H2 H3 _ _]. split; [done|]. split; [done|]. split; [done|]. intros x n y m Hx Hy. by apply (blocks_apart s' G'). Qed.

(** ** Runs of whole programs *)
Definition library_run (k : kstate) (prog : program) (n : nat) : outcome (list (event * Z) * astate T) :=
  (_ ← btm_ensure_init df_canary env meta_mmap; play df_canary env meta_mmap spawn n prog []) (process_start k).

Abbreviation library_canary := (if env_harden env then df_canary else None).
Abbreviation library_meshes k := (env_mesh env && k_memfd_create k).

Lemma library_reaches k prog n :
  can_start env meta_mmap k → well_behaved library_canary (negb (library_meshes k)) prog (mk_amem ∅ ∅) →
  (∀ i tr s, (i < n)%nat → library_run k prog i = Ok (tr, s) → oe_bound (table_of s)) →
  ∃ m tr s G am, library_run k prog m = Ok (tr, s) ∧ reached (mk_amem ∅ ∅) prog n m tr s G am.
Proof.
  intros Hst Hwb Hbd. destruct (ensure_init_start df_canary env meta_mmap k Hst) as (s0 & G0 & Hrun & HA & Hno & _ & _ & Eh & Em).
  assert (Hw : ∀ i, library_run k prog i = play df_canary env meta_mmap spawn i prog [] s0) by (intros i; unfold library_run; by rewrite (run_bind _ _ _ _ _ Hrun)).
  assert (HR : rep s0 G0 (mk_amem ∅ ∅)).
  { split; [done|intros x m; cbn; rewrite lookup_empty; split; [intros Hb; by destruct (Hno x m)|done]|]. intros x m y Hb. by destruct (Hno x m). }
  assert (Hc : canary_of df_canary s0 = library_canary) by (unfold canary_of; rewrite Eh; destruct df_canary, (env_harden env); done).
  destruct (play_refines df_canary env meta_mmap spawn (mk_amem ∅ ∅) prog _ _ Hwb n [] s0 G0 (mk_amem ∅ ∅) HR Hc ltac:(by rewrite negb_involutive) (abs_start prog _)) as (m & tr & s & Hplay & G & am & Hre).
  { intros i tr' s' Hi Hp. apply (Hbd i tr' s' Hi). by rewrite Hw. }
  exists m, tr, s, G, am. split; [by rewrite Hw|done].
Qed.

(** C1. The library is an allocator.  From the start of a process, run any program that
    only asks what an abstract allocator allows: the mallocs, callocs, reallocs, reallocarrays,
    aligned allocations, frees and writes of its threads, cold tiering, thread exits, and the
    steps of the maintenance thread, in any order; with the chunks on memory of their own or,
    in mesh mode, on the file; and, in a process that is not in mesh mode, forks, after which
    the run is that of the child.  The run is correct for all its events, or up to the first
    resizing of a large object that the kernel answers with a place that is not on a 2 MiB
    boundary, which mremap may do (C4, C30).  Correct: no call faults, aborts or
    runs out of fuel; the answers are answers of the abstract allocator; at the end the
    program's blocks are disjoint, mapped, and hold the bytes the abstract allocator says. *)
Theorem library_refines_allocator k prog n :
  can_start env meta_mmap k → well_behaved library_canary (negb (library_meshes k)) prog (mk_amem ∅ ∅) →
  (∀ i tr s, (i < n)%nat → library_run k prog i = Ok (tr, s) → oe_bound (table_of s)) →
  ∃ m tr s am, library_run k prog m = Ok (tr, s) ∧ abs_run prog (mk_amem ∅ ∅) tr am ∧ pairwise_apart (am_blocks am) ∧
    (∀ x l y, am_blocks am !! x = Some l → x ≤ y < x + l →
      k_mapped (kernel_of s) y = true ∧ byte_at (mem_of s) y = byte_at (am_bytes am) y) ∧
    (m ≤ n)%nat ∧ (m = n ∨ ∃ ev, prog tr = Some ev ∧ displaced_event s ev).
Proof.
  intros Hst Hwb Hbd. destruct (library_reaches k prog n Hst Hwb Hbd) as (m & tr & s & G & am & Hrun & HR & Habs & Hm).
  exists m, tr, s, am. split; [done|]. split; [done|]. split; [apply (abs_run_apart prog _ _ _ Habs); intros ? ? ? ? H; cbn in H; by rewrite lookup_empty in H|].
  split; [|done]. intros x l y Hx Hy. apply (rp_blocks _ _ _ HR) in Hx. split; [|by apply (rp_bytes _ _ _ HR x l)].
  pose proof (block_accessible s G x l y 1 (rp_ok _ _ _ HR) Hx ltac:(lia) ltac:(lia)) as Hacc.
  unfold accessible in Hacc. rewrite forallb_forall in Hacc. apply Hacc, list_elem_of_In, elem_of_seqZ. lia.
Qed.

(** C2. malloc, for requests up to 2^46 bytes: it ends normally with NULL and the program's
    blocks as they were, or with a new block at a 16-byte aligned address, at least as
    large as asked for and apart from every other block; no byte of another block changes. *)
Theorem malloc_correct s G me size ra :
  api_ok s G → 0 ≤ size ≤ 2 ^ 46 → ra ≠ 0 →
  ∃ x s' G', btm_malloc df_canary env meta_mmap spawn me size ra s = Ok (x, s') ∧
    ((x = 0 ∧ owns_after s G s' G' (block s G)) ∨
     (0 < x ∧ x mod BTM_ALIGNMENT = 0 ∧ ∃ n, size ≤ n ∧ (∀ m, ¬ block s G x m) ∧
      owns_after s G s' G' (λ y m, block s G y m ∨ (y = x ∧ m = n)))).
Proof.
  intros HA Hs Hra. destruct (malloc_at_spec df_canary env meta_mmap spawn s G me size ra HA Hs Hra) as (x & s' & Hrun & _ & G' & Hcase).
  exists x, s', G'. split; [done|]. destruct Hcase as [[-> HG]|(Hx & Hal & n & Hn & Hfr & HG)]; [left|right].
  - split; [done|]. by apply goes_owns.
  - split; [done|]. split; [done|]. exists n. split; [done|]. split; [done|]. by apply goes_owns.
Qed.

(** C3. calloc: as malloc for the product of its arguments, and the block is zero; a
    product that does not fit [size_t] is refused with the state as it was. *)
Theorem calloc_correct s G me n size ra :
  api_ok s G → 0 ≤ n → 0 ≤ size → n * size ≤ 2 ^ 46 ∨ 2 ^ 64 ≤ n * size → ra ≠ 0 →
  ∃ x s' G', btm_calloc df_canary env meta_mmap spawn me n size ra s = Ok (x, s') ∧ (2 ^ 64 ≤ n * size → x = 0 ∧ s' = s) ∧
    ((x = 0 ∧ owns_after s G s' G' (block s G)) ∨
     (0 < x ∧ x mod BTM_ALIGNMENT = 0 ∧ (∀ y, x ≤ y < x + n * size → byte_at (mem_of s') y = 0) ∧
      ∃ m, n * size ≤ m ∧ (∀ k, ¬ block s G x k) ∧ owns_after s G s' G' (λ y k, block s G y k ∨ (y = x ∧ k = m)))).
Proof.
  intros HA Hn Hs Hb Hra. destruct (decide (2 ^ 64 ≤ n * size)) as [Ho|Ho].
  - exists 0, s, G. unfold btm_calloc, btm_calloc_at, mul_overflow. rewrite (proj2 (Z.ltb_ge _ _)) by lia.
    split; [done|]. split; [done|]. left. split; [done|]. apply goes_owns. by apply quiet_refl.
  - assert (Hle : n * size ≤ 2 ^ 46) by (destruct Hb; [done|lia]).
    destruct (calloc_at_spec df_canary env meta_mmap spawn s G me n size ra HA Hn Hs Hle Hra) as (x & s' & Hrun & (_ & G' & Hcase) & Hz).
    exists x, s', G'. split; [done|]. split; [intros ?; lia|]. destruct Hcase as [[-> HG]|(Hx & Hal & m & Hm & Hfr & HG)]; [left|right].
    + split; [done|]. by apply goes_owns.
    + split; [done|]. split; [done|]. split; [apply Hz; lia|]. exists m. split; [done|]. split; [done|]. by apply goes_owns.
Qed.

(** C4. realloc of a block that was not freed ends in one of three ways.  NULL, with
    everything as it was.  Or a block of the new size that holds the old bytes up to the
    shorter length, in place of the old block, with the other blocks and their bytes kept;
    the block may stay a slot, move between slots and large objects, or be remapped.  Or,
    when the kernel moves the mapping of a large object to a page that is not a 2 MiB
    boundary: the new place is mapped, apart from all other blocks, and holds the bytes; the
    other blocks are mapped and keep theirs; but every pointer of the 2 MiB regions the new
    place touches now resolves to the object, other owners or not. *)
Theorem realloc_correct s G me x n size ra :
  api_ok s G → oe_bound (table_of s) → block s G x n → 0 < size ≤ 2 ^ 46 → ra ≠ 0 → ¬ looks_freed df_canary s x →
  ∃ q s', btm_realloc df_canary env meta_mmap spawn me x size ra s = Ok (q, s') ∧
    ((∃ G', q = 0 ∧ owns_after s G s' G' (block s G)) ∨
     (∃ G' m, 0 < q ∧ q mod BTM_ALIGNMENT = 0 ∧ size ≤ m ∧ (q = x ∨ ∀ k, ¬ block s G q k) ∧
      owns_after s G s' G' (λ y k, (block s G y k ∧ y ≠ x) ∨ (y = q ∧ k = m)) ∧
      ∀ i, 0 ≤ i < Z.min n size → byte_at (mem_of s') (q + i) = byte_at (mem_of s) (x + i)) ∨
     realloc_displaced s G x n size q s').
Proof.
  intros HA Hbd Hb Hs Hra Hnf.
  destruct (realloc_at_spec df_canary env meta_mmap spawn s G me x n size ra HA Hbd Hb Hs Hra Hnf) as (q & s' & Hrun & [(G' & Hcase)|Hd]);
    exists q, s'; (split; [done|]); [|by right; right].
  destruct Hcase as [[-> HG]|(Hq & Hal & m & Hm & Hfr & HG & Hc)]; [left|right; left]; exists G'.
  - split; [done|]. by apply goes_owns.
  - exists m. split_and!; [done..|by apply goes_owns|done].
Qed.

(** C5. free of a block, by any thread: exactly this block goes, the other blocks keep
    their bytes; NULL and pointers the library does not own are ignored. *)
Theorem free_correct s G me x :
  api_ok s G → oe_bound (table_of s) → user_addr x →
  (∀ n, block s G x n → ¬ looks_freed df_canary s x →
   ∃ s' G', btm_free df_canary meta_mmap me x s = Ok (tt, s') ∧ owns_after s G s' G' (λ y m, block s G y m ∧ y ≠ x)) ∧
  (x = 0 ∨ ot_lookup (table_of s) x = 0 →
   ∃ s', btm_free df_canary meta_mmap me x s = Ok (tt, s') ∧ owns_after s G s' G (block s G) ∧ mem_of s' = mem_of s).
Proof.
  intros HA Hbd Hx. split.
  - intros n Hb Hnf. destruct (free_spec df_canary meta_mmap s G me x n HA Hbd Hb Hnf) as (u & s' & Hrun & G' & HG).
    destruct u. exists s', G'. split; [done|]. by apply goes_owns.
  - intros Hcase. assert (H : runs (btm_free df_canary meta_mmap me x) s (λ _ s', quiet s G s' G)).
    { destruct Hcase as [->|Ho]; [exists tt, s; split; [done|by apply quiet_refl]|by apply free_foreign_spec]. }
    destruct H as ([] & s' & Hrun & HG & Hm & _). exists s'. split; [done|]. split; [by apply goes_owns|done].
Qed.

(** C6. A double free is caught: with detection on, freeing a slot and freeing it again on
    the same thread, with nothing in between and room in the thread's bin, aborts. *)
Theorem double_free_aborts s G me r x f :
  api_ok s G → oe_bound (table_of s) → in_use G x r → is_Some (th_tls (thread_at s me)) → ¬ looks_freed df_canary s x →
  Z.of_nat (length (cached G me r)) < btm_cache_max r.2 → g_harden_mode s = true → df_canary = Some f → 0 ≤ f x < 2 ^ 64 →
  ∃ s', btm_free df_canary meta_mmap me x s = Ok (tt, s') ∧ btm_free df_canary meta_mmap me x s' = Aborted.
Proof.
  intros HA Hbd Hu Ht Hnf Hroom Eh Ef Hf.
  destruct (free_slot_spec df_canary meta_mmap s G me r x HA Hbd Hu Ht Hnf) as ([] & s' & Hrun & Ht' & G' & HG & Hr).
  destruct (Hr Hroom) as (Hc & Htab & Hcan). exists s'. split; [done|].
  apply (free_twice_aborts df_canary meta_mmap s' G' me r x (go_ok _ _ _ _ _ HG)); [by rewrite Htab| |done|by apply (Hcan f)].
  apply (cached_live (go_ok _ _ _ _ _ HG) me). rewrite Hc. left.
Qed.

(** C7. posix_memalign: an alignment that is no power of two or no multiple of eight is
    refused with EINVAL and the state as it was; otherwise the call stores a block at an
    address of that alignment, or returns ENOMEM and leaves the blocks alone. *)
Theorem posix_memalign_correct s G me alignment size ra :
  api_ok s G → 0 ≤ alignment ≤ 2 ^ 40 → 0 < size ≤ 2 ^ 46 → ra ≠ 0 →
  ∃ v s' G', btm_posix_memalign df_canary env meta_mmap spawn me alignment size ra s = Ok (v, s') ∧
    ((v = (EINVAL, None) ∧ s' = s ∧ (alignment mod 8 ≠ 0 ∨ ∀ a, 0 ≤ a → alignment ≠ 2 ^ a)) ∨
     (alignment mod 8 = 0 ∧ (∃ a, 0 ≤ a ∧ alignment = 2 ^ a) ∧
      ((v = (ENOMEM, None) ∧ owns_after s G s' G' (block s G)) ∨
       ∃ x n, v = (0, Some x) ∧ 0 < x ∧ x mod alignment = 0 ∧ size ≤ n ∧ (∀ m, ¬ block s G x m) ∧
         owns_after s G s' G' (λ y m, block s G y m ∨ (y = x ∧ m = n))))).
Proof.
  intros HA Ha Hs Hra. assert (Hr : 0 ≤ alignment < 2 ^ 64) by lia.
  destruct (decide (alignment mod 8 = 0)) as [H8|H8].
  2: { exists (EINVAL, None), s, G. split; [apply posix_memalign_invalid; [done|by left]|]. left. auto. }
  destruct (decide (alignment = 2 ^ Z.log2 alignment)) as [Ep|Np].
  2: { assert (Hn : ∀ a, 0 ≤ a → alignment ≠ 2 ^ a) by (intros a Ha0 ->; apply Np; by rewrite Z.log2_pow2).
    exists (EINVAL, None), s, G. split; [apply posix_memalign_invalid; [done|by right]|]. left. auto. }
  set (a := Z.log2 alignment) in *. assert (Hal : 3 ≤ a ≤ 40) by (by apply (pow2_range alignment)).
  destruct (posix_memalign_spec df_canary env meta_mmap spawn s G me a size ra HA Hal Hs Hra) as (v & s' & Hrun & Hcase). rewrite <-Ep in *.
  destruct Hcase as [(-> & _ & G' & Hg)|(x & -> & Hx & Hxa & _ & G' & Hg)]; destruct Hg as [[E HG]|(Hx0 & _ & n & Hn & Hfr & HG)]; try done;
    eexists _, s', G'; (split; [exact Hrun|]); right; (split; [done|]); (split; [exists a; split; [lia|done]|]).
  - left. split; [done|]. by apply goes_owns.
  - right. exists x, n. split_and!; try done; by apply goes_owns.
Qed.

(** C8. malloc_usable_size: the size of the block, with the blocks and every byte as they
    were; and the program may write all of it, which changes nothing else. *)
Theorem usable_size_correct s G me x n :
  api_ok s G → oe_bound (table_of s) → block s G x n →
  ∃ s', btm_malloc_usable_size me x s = Ok (n, s') ∧ owns_after s G s' G (block s G) ∧ mem_of s' = mem_of s ∧
    ∀ l, Z.of_nat (length l) ≤ n →
      ∃ s2, client_write x l s' = Ok (tt, s2) ∧ api_ok s2 G ∧ (∀ y m, block s2 G y m ↔ block s G y m) ∧
        ∀ y, byte_at (mem_of s2) y = if decide (x ≤ y < x + Z.of_nat (length l)) then l !!! Z.to_nat (y - x) else byte_at (mem_of s) y.
Proof.
  intros HA Hbd Hb. destruct (usable_size_spec s G me x n HA Hbd Hb) as (m & s' & Hrun & -> & HQ). exists s'. split; [done|].
  split; [apply goes_owns, HQ|]. split; [apply HQ|]. intros l Hl. pose proof (go_ok _ _ _ _ _ (proj1 HQ)) as HA'.
  assert (Hb' : block s' G x n) by (by apply (quiet_block s G s' G)). set (m' := store_bytes (mem_of s') x l). exists (set_mem m' s').
  assert (Hm : ∀ y, byte_at m' y = if decide (x ≤ y < x + Z.of_nat (length l)) then l !!! Z.to_nat (y - x) else byte_at (mem_of s) y).
  { intros y. unfold m'. rewrite byte_at_store_bytes. by rewrite (proj1 (proj2 HQ)). }
  split; [apply (write_mem_run s' x _ (λ m, store_bytes m x l)); apply (block_accessible s' G x n); [done|done|lia|lia]|]. split; [|split; [|exact Hm]].
  - apply (write_block_ok s' G x n m' HA' Hb'). intros y Hy. rewrite Hm, decide_False by lia. by rewrite (proj1 (proj2 HQ)).
  - intros y k. by apply (quiet_block s G s' G).
Qed.

(** C9. The exit of a thread: its block is gone, every slot it had cached is back in its
    pool, the caches of the other threads and the program's blocks are untouched. *)
Theorem thread_exit_correct s G me :
  api_ok s G →
  ∃ s' G', btm_tls_destroy me s = Ok (tt, s') ∧ th_tls (thread_at s' me) = None ∧ owns_after s G s' G' (block s G) ∧
    (∀ r x, x ∈ cached G me r → ¬ live_slot (gh_sys G') r x) ∧ (∀ t r, t ≠ me → cached G' t r = cached G t r).
Proof.
  intros HA. destruct (tls_destroy_spec s G me HA) as ([] & s' & Hrun & Ht & G' & HG & Hc & Ho). exists s', G'.
  split; [done|]. split; [done|]. split; [by apply goes_owns|]. split; [|done]. intros r x Hx Hl. pose proof (go_ok _ _ _ _ _ HG) as HA'.
  assert (Hn : ∀ t, x ∉ cached G' t r).
  { intros t Hin. destruct (decide (t = me)) as [->|Hne]; [rewrite Hc in Hin; by apply elem_of_nil in Hin|]. rewrite Ho in Hin by done.
    apply Hne. by apply (ao_once _ _ HA t me r x). }
  apply (cached_no_block s G me r x (btm_sc_to_size r.2) HA Hx). apply (go_blocks _ _ _ _ _ HG). left. by exists r.
Qed.

(** C19. Cold tiering evicts exactly the full idle slabs, and the program sees nothing.  A
    call changes no byte and no block.  Of the slabs of the process it flags those without a
    free slot, not yet evicted and last touched before the current epoch, all of them and no
    other; whatever it flags is a full slab in service carved in a chunk of a pool.  It
    returns the bytes of these slabs and moves the epoch on; every other descriptor stays as
    it was. *)
Theorem pageout_cold_correct s G :
  api_ok s G →
  let h := p_heap (g_pools s) in let e := p_epoch (g_pools s) in
  ∃ t s' L, btm_pageout_cold s = Ok (t, s') ∧ owns_after s G s' G (block s G) ∧ mem_of s' = mem_of s ∧ NoDup L ∧
    (∀ r a d l, gh_sys G !! r = Some a → a_free a !! d = Some l →
       d ∈ L ↔ l = [] ∧ paged_out (slab_at h d) = false ∧ epoch (slab_at h d) < e) ∧
    (∀ d, d ∈ L → (∃ r, carved (gh_sys G) h r d) ∧ free_count (slab_at h d) = 0 ∧ retired (slab_at h d) = false ∧
       paged_out (slab_at h d) = false ∧ epoch (slab_at h d) < e) ∧
    (∀ d, slab_at (p_heap (g_pools s')) d = if decide (d ∈ L) then slab_set_paged_out true (slab_at h d) else slab_at h d) ∧
    h_chunks (p_heap (g_pools s')) = h_chunks h ∧ p_pools (g_pools s') = p_pools (g_pools s) ∧
    t = u64 (slab_bytes h L) ∧ p_epoch (g_pools s') = u32 (e + 1).
Proof.
  intros HA h e. destruct (pageout_cold_spec s G HA) as (t & s' & Hrun & (HG & Hm & _) & L & E & He & Hp & HL & Ht). exists t, s', L.
  split; [done|]. split; [by apply goes_owns|]. split; [done|]. split; [apply E|]. split; [|split; [|split; [|split; [apply E|done]]]].
  - intros r a d l Ha Hl. rewrite HL. exact (slab_evicted _ _ r a d l e (ao_sys _ _ HA) Ha Hl).
  - intros d [Hc Hi]%HL. split; [done|]. by apply evictable_spec.
  - intros d. case_decide; [by apply (ev_set _ _ _ _ E)|by apply (ev_same _ _ _ _ E)].
Qed.

(** A thread with a cached slot is among the keys of the ghost state. *)
Lemma cached_key G (t : nat) r (x : Z) : x ∈ cached G t r → t ∈ (map_to_list (gh_cache G)).*1.*1.
Proof.
  unfold cached. rewrite lookup_total_alt. destruct (gh_cache G !! (t, r)) as [l|] eqn:E; [|by intros ?%elem_of_nil]. intros _.
  apply list_elem_of_fmap. exists (t, r). split; [done|]. apply list_elem_of_fmap. exists ((t, r), l). split; [done|]. by apply elem_of_map_to_list.
Qed.

(** C15. The heap profile is exact.  The call changes nothing; it has one row for every
    partition that holds memory, in order, with the number of bytes of the slots of this
    partition that are out of the pools, in the program's hands or in a thread's cache,
    and the partition's sample call site; the total is the number of all these bytes.
    No sum wraps. *)
Theorem heap_profile_exact s G :
  api_ok s G →
  ∃ (f : Z → Z) total,
    btm_heap_profile s =
      Ok (Some (g_nparts s, (λ j, (j, f j, default 0 (g_sample s !! j))) <$> filter (λ j, f j ≠ 0) (seqZ 0 (g_nparts s)), total), s) ∧
    (∀ j, 0 ≤ j < g_nparts s → measures (λ y, ∃ r, r.1 = j ∧ ∃ x, live_slot (gh_sys G) r x ∧ x ≤ y < x + btm_sc_to_size r.2) (f j)) ∧
    measures (λ y, ∃ r x, live_slot (gh_sys G) r x ∧ x ≤ y < x + btm_sc_to_size r.2) total ∧
    ∀ r x, live_slot (gh_sys G) r x ↔ in_use G x r ∨ ∃ t, x ∈ cached G t r.
Proof.
  intros HA. destruct (heap_profile_run HA) as (f & total & E & Hf & Ht). exists f, total. split; [exact E|]. split; [exact Hf|]. split; [exact Ht|].
  intros r x. split; [|intros [[? _]|[t Hc]]; [done|by apply (cached_live HA t r x)]]. intros Hx.
  destruct (decide (Exists (λ t, x ∈ cached G t r) ((map_to_list (gh_cache G)).*1.*1))) as [He|Hn].
  - right. apply Exists_exists in He as (t & _ & Ht'). by exists t.
  - left. split; [done|]. intros t Hc. apply Hn, Exists_exists. exists t. split; [|done]. by apply (cached_key G t r x Hc).
Qed.

(** C16. Every stored count and index fits its C type.  In a consistent process the integer
    fields of all carved descriptors, of the chunks of all pools, of the pools and of the
    cache bins, and the tier epoch, are values of the types internal.h declares for them:
    counts, class and partition indices, page numbers, epochs, the offset in the memfd and
    each of the 512 entries of the page table.  There is room: no descriptor counts more
    free slots than it has, no chunk more live slabs than pages, no page table names a page
    outside the chunk, no pool keeps more than two warm slabs, and no bin more than the cap
    of its class. *)
Theorem fields_fit_types s G :
  api_ok s G →
  (∀ r a d l, gh_sys G !! r = Some a → a_free a !! d = Some l → slab_typed (slab_at (p_heap (g_pools s)) d)) ∧
  (∀ r a c, gh_sys G !! r = Some a → c ∈ a_chunks a → chunk_typed (chunk_at (p_heap (g_pools s)) c)) ∧
  (∀ r, in_range (g_nparts s) r → ∃ pl, p_pools (g_pools s) !! r = Some pl ∧ pool_typed pl) ∧
  (∀ t r b, in_range (g_nparts s) r → bin_at s t r = Some b → bin_typed r b) ∧ fits 32 (p_epoch (g_pools s)).
Proof.
  intros HA. split; [|split; [|split; [|split]]].
  - intros r a d l Ha Hl. destruct (process_pool HA r a Ha) as (Hr & pl & _ & I). exact (pool_slab_typed r _ pl a d l Hr I Hl).
  - exact (process_chunk_typed HA).
  - intros r Hr. pose proof Hr as [a Ha]%(ao_pools _ _ HA). destruct (process_pool HA r a Ha) as (_ & pl & Hpl & _).
    exists pl. split; [done|]. exact (process_pool_typed HA r pl Hr Hpl).
  - intros t r b. exact (process_bin_typed HA t r b).
  - exact (so_epoch _ _ (ao_sys _ _ HA)).
Qed.

(** C20. valloc, pvalloc and memalign of the preloaded library.  valloc and pvalloc give
    NULL and leave the blocks alone, or a new block at a page boundary with room for the
    size in whole pages; sizes in the last page before 2^64 wrap to 0, which is answered
    with NULL.  memalign is aligned_alloc: it refuses with EINVAL every size that is no
    multiple of the alignment. *)
Theorem preload_aligned_correct (shim_ra : shim → Z) s G me size :
  api_ok s G → (∀ w, shim_ra w ≠ 0) → 0 ≤ size < 2 ^ 64 →
  (0 < size ≤ 2 ^ 45 → ∀ f, f = Preload.valloc df_canary env meta_mmap spawn shim_ra ∨ f = Preload.pvalloc df_canary env meta_mmap spawn shim_ra →
    ∃ x s' G', f me size s = Ok (x, s') ∧
      ((x = 0 ∧ owns_after s G s' G' (block s G)) ∨
       (0 < x ∧ x mod 4096 = 0 ∧ ∃ n, size ≤ Preload.whole_pages size ≤ n ∧ (∀ m, ¬ block s G x m) ∧
        owns_after s G s' G' (λ y m, block s G y m ∨ (y = x ∧ m = n))))) ∧
  (2 ^ 64 - 4096 < size → Preload.valloc df_canary env meta_mmap spawn shim_ra me size s = Ok (0, s)) ∧
  ∀ log, 0 ≤ log < 64 → size mod 2 ^ log ≠ 0 →
    ∃ s', Preload.memalign df_canary env meta_mmap spawn shim_ra me (2 ^ log) size s = Ok (0, s') ∧
      owns_after s G s' G (block s G) ∧ th_errno (thread_at s' me) = EINVAL.
Proof.
  intros HA Hra Hsz. split; [|split].
  - intros Hs f Hf. destruct (Preload.whole_pages_spec size) as [Hm Hb]; [lia..|].
    assert (Hrun : ∃ ra, ra ≠ 0 ∧ f me size = btm_aligned_alloc df_canary env meta_mmap spawn me (2 ^ 12) (Preload.whole_pages size) ra).
    { destruct Hf as [-> | ->]; [exists (shim_ra S_valloc)|exists (shim_ra S_pvalloc)]; done. }
    destruct Hrun as (ra & Hr & ->). set (sz := Preload.whole_pages size) in *.
    destruct (aligned_alloc_spec df_canary env meta_mmap spawn s G me 12 sz ra HA ltac:(lia) ltac:(lia) Hm Hr) as (x & s' & Hrun & (_ & G' & Hcase) & Hal).
    exists x, s', G'. split; [done|]. destruct Hcase as [[-> HG]|(Hx & _ & n & Hn & Hfr & HG)]; [left|right].
    + split; [done|]. by apply goes_owns.
    + split; [done|]. split; [exact Hal|]. exists n. split; [lia|]. split; [done|]. by apply goes_owns.
  - intros Hw. unfold Preload.valloc. by rewrite Preload.whole_pages_wraps by lia.
  - intros log Hl Hm. unfold Preload.memalign, btm_aligned_alloc. rewrite pow2_is_pow2 by lia. cbn [negb].
    destruct (Z.eqb_spec size 0) as [->|_]; [by rewrite Z.mod_0_l in Hm by (apply Z.pow_nonzero; lia)|].
    rewrite (proj2 (Z.eqb_neq _ 0) Hm). cbn [negb]. eexists. split; [reflexivity|]. split; [apply goes_owns, errno_ok, HA|].
    rewrite thread_at_set. by rewrite decide_True.
Qed.

(** C12. Compaction of a process in mesh mode.  Any consistent process, read as the file and
    the page table its chunks make, is in order for [btm_compact]: every slab has pages of
    the file of its own, and every byte of the slots that are out, in the program's hands
    or in a thread's cache, reads the same through the page table.  The call returns,
    whatever the kernel answers to the remappings; every one of these bytes still reads
    the same, through the same address.  The slabs in question are those of the process
    whose data is in place, the lists its partial lists: afterwards each slab is in
    service, free exactly where every slab it now holds was free, or retired and off its
    list, the lists being otherwise those of before. *)
Theorem process_compacts (remap_ok : Z → Z → bool) s G :
  api_ok s G → mesh_on s = true →
  let v := mesh_view (g_pools s) in
  mesh_ok v (view_slabs (gh_sys G)) (view_lists (gh_sys G)) (live_byte (gh_sys G)) ∧ (∀ y, live_byte (gh_sys G) y → vread v y = byte_at (mem_of s) y) ∧
  ∃ reclaimed v', btm_compact remap_ok (mesh_on s && g_ready s) (g_nparts s) v = Ok (reclaimed, v') ∧
    (∃ B P host, mesh_ok v' B P (live_byte (gh_sys G)) ∧ merged host v (view_slabs (gh_sys G)) (view_lists (gh_sys G)) v' B P) ∧
    ∀ y, live_byte (gh_sys G) y → vread v' y = byte_at (mem_of s) y.
Proof.
  intros HA Hm v. pose proof (ao_sys _ _ HA) as HS. pose proof (view_in_use HS) as HV. split; [|split].
  - exact (mesh_ok_ext _ _ _ _ _ HV (view_ok HS Hm)).
  - exact (view_reads HS Hm).
  - rewrite Hm, (proj1 (ao_ready _ _ HA)). destruct (view_compact HS Hm remap_ok (g_nparts s)) as (n & v' & Hrun & (B & P & host & HM & HH) & Hk).
    { intros r Hr. by apply (ao_pools _ _ HA). }
    exists n, v'. split; [exact Hrun|]. split; [exists B, P, host; split; [exact (mesh_ok_ext _ _ _ _ _ HV HM)|exact HH]|].
    intros y Hy. rewrite Hk by (by apply HV). by apply (view_reads HS Hm).
Qed.

(** C10. The first malloc of a process initializes it: from the initial globals the call
    behaves as in an initialized process, so it returns NULL, or the only block. *)
Theorem first_malloc_initializes k me size ra :
  can_start env meta_mmap k → 0 < size ≤ 2 ^ 46 → ra ≠ 0 →
  ∃ x s' G', btm_malloc df_canary env meta_mmap spawn me size ra (process_start k : astate T) = Ok (x, s') ∧ api_ok s' G' ∧
    ((x = 0 ∧ ∀ y m, ¬ block s' G' y m) ∨
     (0 < x ∧ x mod BTM_ALIGNMENT = 0 ∧ ∃ n, size ≤ n ∧ ∀ y m, block s' G' y m ↔ y = x ∧ m = n)).
Proof.
  intros Hst Hs Hra. destruct (ensure_init_start df_canary env meta_mmap k Hst) as (s & G & Hrun & HA & Hno & Hth & _).
  unfold btm_malloc. rewrite (malloc_at_start df_canary env meta_mmap spawn k s me size ra Hrun (proj1 (ao_ready _ _ HA)) Hth (proj1 Hs)).
  destruct (malloc_at_spec df_canary env meta_mmap spawn s G me size ra HA ltac:(lia) Hra) as (x & s' & Hm & _ & G' & Hcase).
  exists x, s', G'. split; [done|]. destruct Hcase as [[-> HG]|(Hx & Hal & n & Hn & Hfr & HG)]; (split; [apply HG|]); [left|right].
  - split; [done|]. intros y m Hb. apply (go_blocks _ _ _ _ _ HG) in Hb. by apply (Hno y m).
  - split; [done|]. split; [done|]. exists n. split; [done|]. intros y m. rewrite (go_blocks _ _ _ _ _ HG).
    split; [intros [Hb|?]; [by destruct (Hno y m)|done]|by right].
Qed.

(** C40. When the kernel refuses the partition array, the process is lost: initialization
    returns without the library being ready, and it is not tried again, whatever the
    kernel would grant later ([later]); so every small malloc, now or then, with memory
    for the block of its thread, reads the array at NULL. *)
Theorem failed_init_faults k j :
  read_nparts_env 31 (env_partitions env) = Some (2 ^ j) → meta_mmap k (2 ^ j * sizeof_partition) = false →
  ∃ s', btm_ensure_init df_canary env meta_mmap (process_start k : astate T) = Ok (tt, s') ∧ g_ready s' = false ∧
    ∀ later : kstate → Z → bool, btm_ensure_init df_canary env later s' = Ok (tt, s') ∧
      ∀ me size ra, later k (oe_sizeof + BTM_NUM_SIZE_CLASSES * sizeof_tls_bin) = true → 1 ≤ size ≤ BTM_SMALL_MAX_SIZE →
        btm_malloc df_canary env later spawn me size ra s' = Fault.
Proof.
  intros Hnp Hm. exists (lost_process k). split; [by apply (ensure_init_failed df_canary env meta_mmap k j)|]. split; [done|].
  intros later. split; [apply ensure_init_lost|]. intros me size ra Hok Hs. by apply malloc_lost_faults.
Qed.
End props.

(** ** Who owns an address *)
Section owners.
Context {F : FlOps} {FL : FlLaws F} {Krn : OS} {KL : OSLaws Krn} {T : Type} {OT : OwnerTable T} {OE : OwnerEngine T}
  {EL : OwnerEngineLaws T OT OE}.
Implicit Types (s : astate T) (G : aghost).

(** The address [p] lies in a chunk of the heap, header in place and all of it mapped. *)
Definition in_chunk s (p : Z) : Prop :=
  has_chunk (p_heap (g_pools s)) (chunk_of p) ∧ ∀ y, chunk_of p ≤ y < chunk_of p + BTM_CHUNK_SIZE → k_mapped (kernel_of s) y = true.

(** The 2 MiB region of [p] holds a page of the large object [base]. *)
Definition near_large s (base : Z) (hd : btm_large_hdr) (p : Z) : Prop :=
  large_at (large_view (g_pools s)) base hd ∧ in_span base (lh_map_len hd) (region_of p).

Lemma owned_cases s G p :
  api_ok s G → user_addr p → ot_lookup (table_of s) p ≠ 0 →
  (ot_lookup (table_of s) p = chunk_of p ∧ in_chunk s p) ∨ ∃ base hd, near_large s base hd p.
Proof.
  intros HA Hp Hne. destruct (so_src _ _ (ao_sys _ _ HA)) as (W & D & Q & HI & _).
  destruct (gs_owned _ _ (si_space _ _ _ _ _ _ HI) p Hp Hne) as [Hc|(base & hd & Hl & Hin)]; [left|right; by exists base, hd].
  pose proof (held_space HI _ Hc) as Hck. destruct (chunk_of_le p Hp) as (? & ? & _).
  split; [apply (ck_owner _ _ Hck); lia|]. split; [by apply (held_header HI)|exact (ck_mapped _ _ Hck)].
Qed.

Lemma near_large_owner s G base hd p : api_ok s G → user_addr p → near_large s base hd p → ot_lookup (table_of s) p = Z.lor base 1.
Proof.
  intros HA Hp [Hl Hin]. destruct (sys_guests _ _ (ao_sys _ _ HA)) as (P & HG & _).
  destruct (gs_large _ _ HG base hd Hl) as [_ Hlv]. by apply (ll_owner _ _ _ _ Hlv).
Qed.

(** The owner of the bytes of a block leads to its size: by the header of its chunk to its
    size class, or to the header of the large object. *)
Definition leads_to s (o x l : Z) : Prop :=
  (∃ v r, o = chunk_of x ∧ h_chunks (p_heap (g_pools s)) !! o = Some v ∧ c_pool v = Some r ∧ l = btm_sc_to_size r.2) ∨
  (∃ base hd, o = Z.lor base 1 ∧ large_at (large_view (g_pools s)) base hd ∧ x = base + lh_user_off hd ∧ x + l = base + lh_map_len hd).

Lemma block_owner s G x l p : api_ok s G → block s G x l → x ≤ p < x + l → user_addr p ∧ leads_to s (ot_lookup (table_of s) p) x l.
Proof.
  intros HA Hb Hp. destruct Hb as [(r & [Hx _] & ->)|(base & hd & Hl & -> & ->)].
  - destruct (live_header _ _ r x (ao_sys _ _ HA) Hx) as (v & Hv & Hpl & _). destruct (live_chunk_space _ _ r x (ao_sys _ _ HA) Hx) as (Hck & H1 & H2).
    destruct (ck_base _ _ Hck) as (? & _ & ?). split; [unfold user_addr; lia|left]. exists v, r.
    assert (E : ot_lookup (table_of s) p = chunk_of x) by (apply (ck_owner _ _ Hck); lia). by rewrite E.
  - destruct (sys_guests _ _ (ao_sys _ _ HA)) as (P & HG & _). destruct (gs_large _ _ HG base hd Hl) as [Hm Hlv]. pose proof (ll_off _ _ _ _ Hlv).
    assert (Hu : user_addr p) by (apply (large_user _ _ _ _ p Hlv); lia). split; [done|right]. exists base, hd.
    split; [|split; [done|lia]]. apply (near_large_owner s G base hd p HA Hu). split; [done|]. apply (large_in_span _ _ _ _ p Hm Hlv). lia.
Qed.
End owners.

(** C25. The registry knows every owner, and no other.  Run any program as in C1 on the
    radix table.  Every byte of every block then resolves to an owner from which the size of
    the block is read: the chunk whose header names its pool, or the tagged base of the
    large object.  Every address of the 2 MiB regions of a large object resolves to this
    object.  And an address with an owner lies in a chunk in service, which is the
    owner, or in the regions of a large object. *)
Theorem owners_exact {F : FlOps} {FL : FlLaws F} {Krn : OS} {KL : OSLaws Krn} df_canary env meta_mmap spawn k prog n :
  let run := library_run (T := registry) df_canary env meta_mmap spawn k prog in
  can_start env meta_mmap k →
  well_behaved (if env_harden env then df_canary else None) (negb (env_mesh env && k_memfd_create k)) prog (mk_amem ∅ ∅) →
  (∀ i tr s, (i < n)%nat → run i = Ok (tr, s) → btm_registry_gen (table_of s) < 2 ^ 64) →
  ∃ m tr s am, run m = Ok (tr, s) ∧ abs_run prog (mk_amem ∅ ∅) tr am ∧
    (m ≤ n)%nat ∧ (m = n ∨ ∃ ev, prog tr = Some ev ∧ displaced_event s ev) ∧
    (∀ x l p, am_blocks am !! x = Some l → x ≤ p < x + l → leads_to s (btm_registry_lookup (table_of s) p) x l) ∧
    (∀ base hd p, user_addr p → near_large s base hd p → btm_registry_lookup (table_of s) p = Z.lor base 1) ∧
    (∀ p, user_addr p → btm_registry_lookup (table_of s) p ≠ 0 →
       (btm_registry_lookup (table_of s) p = chunk_of p ∧ in_chunk s p) ∨ ∃ base hd, near_large s base hd p).
Proof.
  intros run Hst Hwb Hbd.
  destruct (library_reaches (EL := registry_laws) df_canary env meta_mmap spawn k prog n Hst Hwb Hbd) as (m & tr & s & G & am & Hrun & HR & Habs & Hm).
  pose proof (rp_ok _ _ _ HR) as HA. exists m, tr, s, am. destruct Hm as [Hm1 Hm2]. split; [exact Hrun|]. split; [exact Habs|]. split; [exact Hm1|]. split; [exact Hm2|]. split; [|split].
  - intros x l p Hx Hp. exact (proj2 (block_owner (EL := registry_laws) s G x l p HA (proj2 (rp_blocks _ _ _ HR x l) Hx) Hp)).
  - intros base hd p. exact (near_large_owner (EL := registry_laws) s G base hd p HA).
  - intros p. exact (owned_cases (EL := registry_laws) s G p HA).
Qed.

(** ** Witnesses *)

(** A program that mallocs, writes its block, and frees it. *)
Definition env2 : environment := mk_env (Some 1) true false true false.
Definition prog2 : program := λ tr,
  match tr with
  | [] => Some (EMalloc 0 100 7)
  | [(_, v)] => if v =? 0 then None else Some (EWrite v [1; 2; 3])
  | [(_, v); _] => Some (EFree 1 v)
  | _ => None
  end.

Lemma prog2_long tr a b c : prog2 (((tr ++ [a]) ++ [b]) ++ [c]) = None.
Proof. by destruct tr as [|[? ?] [|[? ?] [|[? ?] ?]]], a, b. Qed.

Lemma prog2_ok : well_behaved None true prog2 (mk_amem ∅ ∅).
Proof.
  intros tr am ev Hrun Hp. destruct Hrun as [|tr am1 ev1 v1 am Hrun1 Hp1 Hs1]; [injection Hp as <-; cbn; unfold max_request; split; [lia|done]|].
  destruct Hrun1 as [|tr am0 ev0 v0 am1 Hrun0 Hp0 Hs0]; cbn in Hp1.
  - injection Hp1 as <-. cbn in Hp. destruct (Z.eqb_spec v1 0) as [|Hv]; [done|]. injection Hp as <-.
    inversion Hs1 as [|? size log zero ? n ? ? Hrq ? ? ? ? ? Hbl| | | |]; simplify_eq/=; try naive_solver.
    exists v1, n. rewrite Hbl, lookup_insert_eq. split_and!; [done|lia|lia].
  - destruct Hrun0 as [|? ? ? ? ? Hrun0 _ _]; [|by rewrite prog2_long in Hp]. cbn in Hp, Hp0, Hp1. injection Hp0 as <-. injection Hp as <-.
    destruct (v0 =? 0); [done|]. injection Hp1 as <-. inversion Hs1; simplify_eq/=; [naive_solver|naive_solver|].
    inversion Hs0 as [|? size log zero ? n ? ? Hrq ? ? ? ? ? Hbl| | | |]; simplify_eq/=; [left; naive_solver| |naive_solver].
    right. split; [cbn; rewrite Hbl, lookup_insert_eq; by eexists|]. by intros f Hf.
Qed.

Definition gen_bounded {A : Type} (o : outcome (A * state)) : bool :=
  match o with Ok (_, s) => btm_registry_gen (table_of s) <? 2 ^ 64 | _ => true end.

Lemma bounded_outcome {A : Type} (o : outcome (A * state)) v s :
  gen_bounded o = true → o = Ok (v, s) → oe_bound (OwnerEngineLaws := registry_laws) (table_of s).
Proof. intros Hb ->. by apply Z.ltb_lt in Hb. Qed.

Definition whole2 (n : nat) : outcome (list (event * Z) * state) :=
  library_run canary env2 tables_ok no_thread ([] : list (Z * Z)) prog2 n.

Lemma whole2_bounded i tr s : (i < 3)%nat → whole2 i = Ok (tr, s) → oe_bound (OwnerEngineLaws := registry_laws) (table_of s).
Proof.
  intros Hi. apply bounded_outcome. assert (H : forallb (λ i, gen_bounded (whole2 i)) [0; 1; 2]%nat = true) by (vm_compute; reflexivity).
  rewrite forallb_forall in H. apply H. destruct i as [|[|[|i]]]; cbn; [auto..|lia].
Qed.

Lemma can_start2 : can_start (Krn := stay_os) env2 tables_ok ([] : list (Z * Z)).
Proof. split; [vm_compute; split; [|intros _]; discriminate|done]. Qed.

Lemma library_refines_allocator_witness :
  ∃ m tr s am, whole2 m = Ok (tr, s) ∧ abs_run prog2 (mk_amem ∅ ∅) tr am ∧ pairwise_apart (am_blocks am) ∧
    (∀ x l y, am_blocks am !! x = Some l → x ≤ y < x + l → k_mapped (kernel_of s) y = true ∧ byte_at (mem_of s) y = byte_at (am_bytes am) y) ∧
    (m ≤ 3)%nat ∧ (m = 3%nat ∨ ∃ ev, prog2 tr = Some ev ∧ displaced_event s ev).
Proof.
  exact (library_refines_allocator (EL := registry_laws) canary env2 tables_ok no_thread ([] : list (Z * Z)) prog2 3
    can_start2 prog2_ok whole2_bounded).
Defined.

Lemma owners_exact_witness :
  ∃ m tr s am, whole2 m = Ok (tr, s) ∧ abs_run prog2 (mk_amem ∅ ∅) tr am ∧
    (m ≤ 3)%nat ∧ (m = 3%nat ∨ ∃ ev, prog2 tr = Some ev ∧ displaced_event s ev) ∧
    (∀ x l p, am_blocks am !! x = Some l → x ≤ p < x + l → leads_to s (btm_registry_lookup (table_of s) p) x l) ∧
    (∀ base hd p, user_addr p → near_large s base hd p → btm_registry_lookup (table_of s) p = Z.lor base 1) ∧
    (∀ p, user_addr p → btm_registry_lookup (table_of s) p ≠ 0 →
       (btm_registry_lookup (table_of s) p = chunk_of p ∧ in_chunk s p) ∨ ∃ base hd, near_large s base hd p).
Proof.
  exact (owners_exact canary env2 tables_ok no_thread ([] : list (Z * Z)) prog2 3 can_start2 prog2_ok whole2_bounded).
Defined.

Lemma malloc_correct_witness : ∃ G x s' G', btm_malloc canary env1 tables_ok no_thread 0 100 7 st0 = Ok (x, s') ∧
  ((x = 0 ∧ owns_after (EL := registry_laws) st0 G s' G' (block st0 G)) ∨
   (0 < x ∧ x mod BTM_ALIGNMENT = 0 ∧ ∃ n, 100 ≤ n ∧ (∀ m, ¬ block st0 G x m) ∧
    owns_after (EL := registry_laws) st0 G s' G' (λ y m, block st0 G y m ∨ (y = x ∧ m = n)))).
Proof.
  destruct ok_st0 as (G & HA & _). exists G.
  exact (malloc_correct (EL := registry_laws) canary env1 tables_ok no_thread st0 G 0 100 7 HA ltac:(lia) ltac:(lia)).
Defined.

Lemma calloc_correct_witness : ∃ G x s' G', btm_calloc canary env1 tables_ok no_thread 0 10 30 7 st0 = Ok (x, s') ∧ (2 ^ 64 ≤ 10 * 30 → x = 0 ∧ s' = st0) ∧
  ((x = 0 ∧ owns_after (EL := registry_laws) st0 G s' G' (block st0 G)) ∨
   (0 < x ∧ x mod BTM_ALIGNMENT = 0 ∧ (∀ y, x ≤ y < x + 10 * 30 → byte_at (mem_of s') y = 0) ∧
    ∃ m, 10 * 30 ≤ m ∧ (∀ k, ¬ block st0 G x k) ∧ owns_after (EL := registry_laws) st0 G s' G' (λ y k, block st0 G y k ∨ (y = x ∧ k = m)))).
Proof.
  destruct ok_st0 as (G & HA & _). exists G.
  exact (calloc_correct (EL := registry_laws) canary env1 tables_ok no_thread st0 G 0 10 30 7 HA ltac:(lia) ltac:(lia) ltac:(lia) ltac:(lia)).
Defined.

Lemma realloc_correct_witness : ∃ G n q s', btm_realloc canary env1 tables_ok no_thread 0 p_small 5000 7 st_small = Ok (q, s') ∧
  ((∃ G', q = 0 ∧ owns_after (EL := registry_laws) st_small G s' G' (block st_small G)) ∨
   (∃ G' m, 0 < q ∧ q mod BTM_ALIGNMENT = 0 ∧ 5000 ≤ m ∧ (q = p_small ∨ ∀ k, ¬ block st_small G q k) ∧
    owns_after (EL := registry_laws) st_small G s' G' (λ y k, (block st_small G y k ∧ y ≠ p_small) ∨ (y = q ∧ k = m)) ∧
    ∀ i, 0 ≤ i < Z.min n 5000 → byte_at (mem_of s') (q + i) = byte_at (mem_of st_small) (p_small + i)) ∨
   realloc_displaced st_small G p_small n 5000 q s').
Proof.
  destruct ok_small as (G & n & HA & Hb & _). exists G, n.
  exact (realloc_correct (EL := registry_laws) canary env1 tables_ok no_thread st_small G 0 p_small n 5000 7 HA bound_small Hb
    ltac:(lia) ltac:(lia) not_freed_small).
Defined.

Lemma user_small : user_addr p_small.
Proof. rewrite p_small_val. unfold user_addr. lia. Qed.

Lemma free_correct_witness : ∃ G s' G', btm_free canary tables_ok 1 p_small st_small = Ok (tt, s') ∧
  owns_after (EL := registry_laws) st_small G s' G' (λ y m, block st_small G y m ∧ y ≠ p_small).
Proof.
  destruct ok_small as (G & n & HA & Hb & _). exists G.
  destruct (free_correct (EL := registry_laws) canary tables_ok st_small G 1 p_small HA bound_small user_small) as [H _].
  exact (H n Hb not_freed_small).
Defined.

Lemma canary_small : 0 ≤ btm_df_canary key p_small < 2 ^ 64.
Proof. rewrite p_small_val. vm_compute. split; [discriminate|reflexivity]. Qed.

Lemma harden_small : g_harden_mode st_small = true.
Proof. vm_compute. reflexivity. Qed.

Lemma double_free_aborts_witness : ∃ s', btm_free canary tables_ok 0 p_small st_small = Ok (tt, s') ∧ btm_free canary tables_ok 0 p_small s' = Aborted.
Proof.
  destruct ok_small as (G & n & HA & Hb & _). destruct (slot_small G n HA Hb) as [Hu Hc].
  assert (Hroom : Z.of_nat (length (cached G 0 (0, 6))) < btm_cache_max (0, 6).2) by (rewrite Hc; reflexivity).
  exact (double_free_aborts (EL := registry_laws) canary tables_ok st_small G 0 (0, 6) p_small (btm_df_canary key) HA bound_small Hu tls_small
    not_freed_small Hroom harden_small eq_refl canary_small).
Defined.

Lemma posix_memalign_correct_witness : ∃ G v s' G', btm_posix_memalign canary env1 tables_ok no_thread 0 4096 100 7 st0 = Ok (v, s') ∧
  ((v = (EINVAL, None) ∧ s' = st0 ∧ (4096 mod 8 ≠ 0 ∨ ∀ a, 0 ≤ a → 4096 ≠ 2 ^ a)) ∨
   (4096 mod 8 = 0 ∧ (∃ a, 0 ≤ a ∧ 4096 = 2 ^ a) ∧
    ((v = (ENOMEM, None) ∧ owns_after (EL := registry_laws) st0 G s' G' (block st0 G)) ∨
     ∃ x n, v = (0, Some x) ∧ 0 < x ∧ x mod 4096 = 0 ∧ 100 ≤ n ∧ (∀ m, ¬ block st0 G x m) ∧
       owns_after (EL := registry_laws) st0 G s' G' (λ y m, block st0 G y m ∨ (y = x ∧ m = n))))).
Proof.
  destruct ok_st0 as (G & HA & _). exists G.
  exact (posix_memalign_correct (EL := registry_laws) canary env1 tables_ok no_thread st0 G 0 4096 100 7 HA ltac:(lia) ltac:(lia) ltac:(lia)).
Defined.

Lemma usable_size_correct_witness : ∃ G n s', btm_malloc_usable_size 0 p_small st_small = Ok (n, s') ∧ 100 ≤ n ∧
  owns_after (EL := registry_laws) st_small G s' G (block st_small G).
Proof.
  destruct ok_small as (G & n & HA & Hb & Hn).
  destruct (usable_size_correct (EL := registry_laws) st_small G 0 p_small n HA bound_small Hb) as (s' & Hrun & Ho & _).
  exists G, n, s'. exact (conj Hrun (conj Hn Ho)).
Defined.

Lemma thread_exit_correct_witness : ∃ G s' G', btm_tls_destroy 0 st_small = Ok (tt, s') ∧ th_tls (thread_at s' 0%nat) = None ∧
  owns_after (EL := registry_laws) st_small G s' G' (block st_small G) ∧
  (∀ r x, x ∈ cached G 0 r → ¬ live_slot (gh_sys G') r x) ∧ (∀ t r, t ≠ 0%nat → cached G' t r = cached G t r).
Proof.
  destruct ok_small as (G & n & HA & _). exists G. exact (thread_exit_correct (EL := registry_laws) st_small G 0 HA).
Defined.

(** After a first call the slab of the block, all of its slots out, is idle. *)
Definition run_idle := btm_pageout_cold st_small.
Definition st_idle : state := after run_idle st_small.
Definition d_small : Z := btm_chunk_desc (chunk_of p_small) 7.

Lemma ok_idle : ∃ G, api_ok (EL := registry_laws) st_idle G.
Proof.
  destruct ok_small as (G & n & HA & _). exists G. destruct (pageout_cold_spec (EL := registry_laws) st_small G HA) as (t & s' & Hrun & (HG & _) & _).
  unfold st_idle, run_idle. rewrite Hrun. exact (go_ok _ _ _ _ _ HG).
Qed.

(** The outcome [o] of a call answers [n] and leaves the flag of [d] set. *)
Definition flags (o : outcome (Z * state)) (n d : Z) : bool :=
  match o with Ok (t, s') => (t =? n) && paged_out (slab_at (p_heap (g_pools s')) d) | _ => false end.

Lemma flags_spec o n d t s' : flags o n d = true → o = Ok (t, s') → t = n ∧ paged_out (slab_at (p_heap (g_pools s')) d) = true.
Proof. intros H ->. apply andb_true_iff in H as [->%Z.eqb_eq H]. done. Qed.

Lemma pageout_cold_correct_witness : ∃ s' (L : list Z), btm_pageout_cold st_idle = Ok (4096, s') ∧ mem_of s' = mem_of st_idle ∧ d_small ∈ L ∧
  free_count (slab_at (p_heap (g_pools st_idle)) d_small) = 0 ∧
  slab_at (p_heap (g_pools s')) d_small = slab_set_paged_out true (slab_at (p_heap (g_pools st_idle)) d_small).
Proof.
  destruct ok_idle as (G & HA).
  destruct (pageout_cold_correct (EL := registry_laws) st_idle G HA) as (t & s' & L & Hrun & _ & Hm & _ & _ & Hs & He & _).
  destruct (flags_spec (btm_pageout_cold st_idle) 4096 d_small t s' ltac:(vm_compute; reflexivity) Hrun) as [Et Ef].
  assert (HL : d_small ∈ L).
  { destruct (decide (d_small ∈ L)) as [|Hn]; [assumption|exfalso]. specialize (He d_small). rewrite decide_False in He by exact Hn. rewrite He in Ef.
    revert Ef. generalize (eq_refl : paged_out (slab_at (p_heap (g_pools st_idle)) d_small) = false). intros ->. discriminate. }
  exists s', L. split; [rewrite <-Et; exact Hrun|]. split; [exact Hm|]. split; [exact HL|]. split; [exact (proj1 (proj2 (Hs d_small HL)))|].
  specialize (He d_small). rewrite decide_True in He by exact HL. exact He.
Defined.

Lemma heap_profile_exact_witness : ∃ G (f : Z → Z) total,
  btm_heap_profile st_small =
    Ok (Some (g_nparts st_small, (λ j, (j, f j, default 0 (g_sample st_small !! j))) <$> filter (λ j, f j ≠ 0) (seqZ 0 (g_nparts st_small)), total), st_small) ∧
  (∀ j, 0 ≤ j < g_nparts st_small → measures (λ y, ∃ r, r.1 = j ∧ ∃ x, live_slot (gh_sys G) r x ∧ x ≤ y < x + btm_sc_to_size r.2) (f j)) ∧
  measures (λ y, ∃ r x, live_slot (gh_sys G) r x ∧ x ≤ y < x + btm_sc_to_size r.2) total ∧
  ∀ r x, live_slot (gh_sys G) r x ↔ in_use G x r ∨ ∃ t, x ∈ cached G t r.
Proof.
  destruct ok_small as (G & n & HA & _). exists G. exact (heap_profile_exact (EL := registry_laws) st_small G HA).
Defined.

Lemma fields_fit_types_witness : ∃ G,
  (∀ r a d l, gh_sys G !! r = Some a → a_free a !! d = Some l → slab_typed (slab_at (p_heap (g_pools st_small)) d)) ∧
  (∀ r a c, gh_sys G !! r = Some a → c ∈ a_chunks a → chunk_typed (chunk_at (p_heap (g_pools st_small)) c)) ∧
  (∀ r, in_range (g_nparts st_small) r → ∃ pl, p_pools (g_pools st_small) !! r = Some pl ∧ pool_typed pl) ∧
  (∀ t r b, in_range (g_nparts st_small) r → bin_at st_small t r = Some b → bin_typed r b) ∧ fits 32 (p_epoch (g_pools st_small)).
Proof.
  destruct ok_small as (G & n & HA & _). exists G. exact (fields_fit_types (EL := registry_laws) st_small G HA).
Defined.

(** One block of 112 bytes in the program's hands, and 35 slots its thread caches. *)
Lemma profile_small : match btm_heap_profile st_small with Ok (Some (np, rows, total), _) => Some (np, rows, total) | _ => None end = Some (1, [(0, 4032, 7)], 4032).
Proof. vm_compute. reflexivity. Qed.

Lemma preload_aligned_correct_witness : ∃ G, api_ok (EL := registry_laws) st0 G ∧
  (0 < 100 ≤ 2 ^ 45 → ∀ f, f = Preload.valloc canary env1 tables_ok no_thread (λ _, 7) ∨ f = Preload.pvalloc canary env1 tables_ok no_thread (λ _, 7) →
    ∃ x s' G', f 0%nat 100 st0 = Ok (x, s') ∧
      ((x = 0 ∧ owns_after (EL := registry_laws) st0 G s' G' (block st0 G)) ∨
       (0 < x ∧ x mod 4096 = 0 ∧ ∃ n, 100 ≤ Preload.whole_pages 100 ≤ n ∧ (∀ m, ¬ block st0 G x m) ∧
        owns_after (EL := registry_laws) st0 G s' G' (λ y m, block st0 G y m ∨ (y = x ∧ m = n))))) ∧
  (2 ^ 64 - 4096 < 100 → Preload.valloc canary env1 tables_ok no_thread (λ _, 7) 0 100 st0 = Ok (0, st0)) ∧
  ∀ log, 0 ≤ log < 64 → 100 mod 2 ^ log ≠ 0 →
    ∃ s', Preload.memalign canary env1 tables_ok no_thread (λ _, 7) 0 (2 ^ log) 100 st0 = Ok (0, s') ∧
      owns_after (EL := registry_laws) st0 G s' G (block st0 G) ∧ th_errno (thread_at s' 0%nat) = EINVAL.
Proof.
  destruct ok_st0 as (G & HA & _). exists G. split; [exact HA|].
  exact (preload_aligned_correct (EL := registry_laws) canary env1 tables_ok no_thread (λ _, 7) st0 G 0 100 HA ltac:(done) ltac:(lia)).
Defined.

Lemma first_malloc_initializes_witness : ∃ x s' G', btm_malloc canary env1 tables_ok no_thread 0 100000 7 start = Ok (x, s') ∧ api_ok (EL := registry_laws) s' G' ∧
  ((x = 0 ∧ ∀ y m, ¬ block s' G' y m) ∨
   (0 < x ∧ x mod BTM_ALIGNMENT = 0 ∧ ∃ n, 100000 ≤ n ∧ ∀ y m, block s' G' y m ↔ y = x ∧ m = n)).
Proof.
  exact (first_malloc_initializes (EL := registry_laws) canary env1 tables_ok no_thread [] 0 100000 7 can_start1 ltac:(lia) ltac:(lia)).
Defined.

(** A kernel that grants small tables only. *)
Definition small_tables (k : kstate) (len : Z) : bool := len <? 2000.

Lemma failed_init_faults_witness :
  ∃ s', btm_ensure_init canary env1 small_tables start = Ok (tt, s') ∧ btm_ensure_init canary env1 tables_ok s' = Ok (tt, s') ∧
    btm_malloc canary env1 tables_ok no_thread 0 100 7 s' = Fault.
Proof.
  destruct (failed_init_faults (Krn := stay_os) (T := registry) canary env1 small_tables no_thread [] 0) as (s' & Hrun & _ & H);
    [vm_compute; reflexivity|vm_compute; reflexivity|]. exists s'. split; [exact Hrun|]. destruct (H tables_ok) as [H1 H2]. split; [exact H1|].
  apply H2; [reflexivity|]. unfold BTM_SMALL_MAX_SIZE. lia.
Defined.

(** A process in mesh mode with one small block. *)
Definition env3 : environment := mk_env (Some 1) false true true true.
Definition run_mesh0 := btm_ensure_init (Krn := stay_os) (T := registry) canary env3 tables_ok start.
Definition st_mesh0 : state := after run_mesh0 start.
Definition run_mesh := btm_malloc_at (Krn := stay_os) (T := registry) canary env3 tables_ok no_thread 0 1000 7 st_mesh0.
Definition st_mesh : state := after run_mesh st_mesh0.
Definition p_mesh : Z := answer run_mesh.

Lemma can_start3 : can_start (Krn := stay_os) env3 tables_ok ([] : list (Z * Z)).
Proof. split; [vm_compute; split; [|intros _]; discriminate|done]. Qed.

Lemma mesh_process : mesh_on st_mesh = true ∧ ∃ G, api_ok (EL := registry_laws) st_mesh G ∧ live_byte (gh_sys G) p_mesh.
Proof.
  split; [vm_compute; reflexivity|].
  destruct (started (EL := registry_laws) canary env3 tables_ok run_mesh0 start [] eq_refl can_start3) as (G0 & HA0 & _).
  destruct (allocated (EL := registry_laws) canary env3 tables_ok no_thread run_mesh st_mesh0 G0 0 1000 7 HA0 eq_refl) as (G & n & HA & Hb & Hn);
    [done|done|vm_compute; discriminate|]. fold st_mesh p_mesh in HA, Hb. exists G. split; [exact HA|].
  destruct (block_slot (EL := registry_laws) st_mesh G (0, 19) p_mesh n HA Hb) as [(a & Ha & Ho) _]; [vm_compute; reflexivity..|].
  exists (0, 19), a. split; [exact Ha|]. exists p_mesh. split; [exact Ho|]. change (btm_sc_to_size (0, 19).2) with 1024. lia.
Qed.

Lemma process_compacts_witness :
  ∃ reclaimed v', btm_compact (λ _ _, true) true 1 (mesh_view (g_pools st_mesh)) = Ok (reclaimed, v') ∧ vread v' p_mesh = byte_at (mem_of st_mesh) p_mesh.
Proof.
  destruct mesh_process as (Hm & G & HA & Hp).
  destruct (process_compacts (EL := registry_laws) (λ _ _, true) st_mesh G HA Hm) as (_ & _ & n & v' & Hrun & _ & Hk).
  exists n, v'. split; [|exact (Hk p_mesh Hp)]. rewrite <-Hrun. rewrite Hm. f_equal; vm_compute; reflexivity.
Defined.
