(* ===== verification/Demo.v ===== *)
(** * Demo: a small process for the witnesses

    One pool of 16-byte slots with safe linking, over the chunk source of
    src/src/background.c with the radix table and a first-fit kernel: before its first
    allocation, and after one refill.  The witnesses apply the theorems here. *)

From stdpp Require Import prelude gmap.
From S2P Require Import Prelude Memory SizeClass Freelist Registry Os Large Heap Memfd Dll Pool PoolInv PoolFrame PoolRun PoolRefill PoolCount PoolSys PoolOps Space Background BgLaws.
Local Open Scope Z_scope.

(** ** The results of a refill *)
Section refilled.
Context {F : FlOps} {FL : FlLaws F} {B : Type} {CS : ChunkSource B} {CL : ChunkSourceLaws B CS}.
Implicit Types (o : outcome (Z * btm_tls_bin * pstate B)).

Definition state_of o (s : pstate B) : pstate B := match o with Ok (_, s') => s' | _ => s end.
Definition bin_of o (bin : btm_tls_bin) : btm_tls_bin := match o with Ok ((_, bin'), _) => bin' | _ => bin end.
Definition slot_of o : Z := match o with Ok ((p, _), _) => p | _ => 0 end.

(** A process of one pool after a refill of an empty bin that found memory. *)
Lemma refilled_ok o s r a bin want :
  sys_ok s {[r := a]} → bin_ok r (h_mem (p_heap s)) a bin [] → o = btm_pool_refill r bin want s → 1 ≤ want < 2 ^ 32 → slot_of o ≠ 0 →
  ∃ a' q, sys_ok (state_of o s) {[r := a']} ∧ bin_ok r (h_mem (p_heap (state_of o s))) a' (bin_of o bin) q ∧
    outstanding_slot r a' (slot_of o) ∧ (slot_of o ∉ q) ∧ Z.of_nat (length q) < want ∧ b_pool (bin_of o bin) = b_pool bin.
Proof.
  intros HS HB Ho Hw Hp. assert (Hlook : ({[r := a]} : asys) !! r = Some a) by apply lookup_singleton_eq.
  destruct (sys_refill true s {[r := a]} r a bin [] want HS Hlook HB) as [(s' & Hrun & _)|(p & q & s' & a' & bin' & Hrun & HS' & _ & T & HB' & Hn & Hb & _)];
    [lia|simpl; lia|rewrite Hrun in Ho; by subst o|].
  rewrite Hrun in Ho. subst o. cbn [state_of bin_of slot_of] in *.
  rewrite app_nil_r in HB'. rewrite insert_singleton_eq in HS'. exists a', q. split_and!; try done.
  - apply (tk_out _ _ _ _ T). right. by left.
  - pose proof (tk_nodup _ _ _ _ T) as [? _]%NoDup_cons. done.
  - cbn [length] in Hn. lia.
Qed.
End refilled.

(** ** A process of one pool that has no memory yet *)
#[export] Instance fl : FlOps := hardened_fl 12345.
#[export] Instance fl_laws : FlLaws fl.
Proof. apply hardened_fl_laws. done. Qed.

#[export] Instance source : ChunkSource (bstate (Krn := first_fit_os) registry) :=
  background_source (Krn := first_fit_os) (T := registry).
#[export] Instance source_laws : ChunkSourceLaws (bstate (Krn := first_fit_os) registry) source :=
  background_laws (Krn := first_fit_os) (KL := first_fit_laws) (T := registry).

Definition src0 : bstate (Krn := first_fit_os) registry :=
  mk_bstate (Krn := first_fit_os) ([] : list (Z * Z)) (mk_registry ∅ 0) ∅ 0 0 0 false false BgIdle memfile0.
Definition r0 : pool_ref := (0, 0).
Definition s0 : pstate (bstate (Krn := first_fit_os) registry) :=
  mk_pstate (mk_heap ∅ ∅ ∅) {[r0 := zero_pool]} 0 src0.
Definition a0 : apool := mk_apool [] [] [] [] ∅ ∅.
Definition A0 : asys := {[r0 := a0]}.
Definition bin0 : btm_tls_bin := mk_bin 0 (Some r0) 0.

Lemma empty_pool_inv : pool_inv r0 (mk_heap ∅ ∅ ∅) zero_pool a0 [].
Proof.
  assert (Hno : ∀ d, ¬ is_Some (a_free a0 !! d)) by (intros d [l Hl]; simpl in Hl; by rewrite lookup_empty in Hl).
  assert (Hno' : ∀ d l, a_free a0 !! d ≠ Some l) by (intros d l Hl; by apply (Hno d); exists l).
  split.
  - split; [done|done|constructor|by left|done].
  - intros c Hc. by apply elem_of_nil in Hc.
  - by intros d l ?%Hno'.
  - by split.
  - split; simpl; [constructor|..|lia].
    + intros d Hd. by apply elem_of_nil in Hd.
    + by intros d ?%Hno.
    + intros d _. split; [intros Hd; by apply elem_of_empty in Hd|by intros [?%Hno _]].
    + by intros d l ?%Hno'.
    + by intros d l ?%Hno'.
Qed.

Lemma src_ok0 : source_ok ∅ (mk_heap ∅ ∅ ∅) src0.
Proof.
  exists [], [], []. split; [|done]. assert (Hno : ∀ c, ¬ process_chunk ∅ [] [] [] c).
  { intros c [Hc|Hc]; [by apply elem_of_empty in Hc|by apply elem_of_nil in Hc]. }
  split; [|done..|intros P HP; by apply elem_of_nil in HP|constructor|intros c Hc; by apply elem_of_nil in Hc|by intros c ?%Hno|done].
  split; [done|by intros c ?%Hno| |].
  - intros base hd Hb. unfold large_at in Hb. cbn in Hb. by rewrite lookup_empty in Hb.
  - intros p Hp Hne. by destruct Hne.
Qed.

Lemma ok0 : sys_ok s0 A0.
Proof.
  assert (Hl : ∀ r a, A0 !! r = Some a → r = r0 ∧ a = a0) by (unfold A0; intros r a [<- <-]%lookup_singleton_Some; done).
  split.
  - by intros r a [-> ->]%Hl.
  - intros r a [-> ->]%Hl. exists zero_pool. split; [by apply lookup_singleton_eq|apply empty_pool_inv].
  - assert (E : chunks_of A0 = ∅); [|rewrite E; apply src_ok0].
    apply set_eq. intros c. rewrite elem_of_chunks_of. split; [|set_solver].
    intros (r & a & [-> ->]%Hl & Hc). by apply elem_of_nil in Hc.
  - by intros r1 a1 r2 a2 c [-> ->]%Hl [-> ->]%Hl.
  - intros r a [-> ->]%Hl. exists 0. split; [vm_compute; reflexivity|by apply counts_none].
  - done.
Qed.

Lemma bin_ok0 : bin_ok r0 (h_mem (p_heap s0)) a0 bin0 [].
Proof. split; try done; [constructor|]. intros x Hx. by apply elem_of_nil in Hx. Qed.

Lemma look0 : A0 !! r0 = Some a0.
Proof. apply lookup_singleton_eq. Qed.

(** After one refill of eight slots. *)
Definition run1 := btm_pool_refill r0 bin0 8 s0.
Definition s1 := state_of run1 s0.
Definition bin1 := bin_of run1 bin0.
Definition p1 : Z := slot_of run1.

Lemma p1_val : p1 = 4223088.
Proof. vm_compute. reflexivity. Qed.

Lemma ok1 : ∃ a q, sys_ok s1 {[r0 := a]} ∧ bin_ok r0 (h_mem (p_heap s1)) a bin1 q ∧ outstanding_slot r0 a p1 ∧ (p1 ∉ q) ∧
  Z.of_nat (length q) < 8 ∧ b_pool bin1 = Some r0.
Proof.
  apply (refilled_ok run1 s0 r0 a0 bin0 8 ok0 bin_ok0 eq_refl); [done|]. fold p1. by rewrite p1_val.
Qed.

(** After one chunk went to a client. *)
Section obtained.
Context {Krn : OS} {KL : OSLaws Krn} {T : Type} {OT : OwnerTable T} {TL : OwnerTableLaws T OT}.

Definition gstate_of (o : outcome (Z * gstate T)) (s : gstate T) : gstate T := match o with Ok (_, s') => s' | _ => s end.
Definition chunk_val (o : outcome (Z * gstate T)) : Z := match o with Ok (c, _) => c | _ => 0 end.

Lemma obtained_ok (o : outcome (Z * gstate T)) C h (b : bstate T) r :
  source_ok C h b → o = Background.chunk_obtain r (h, b) → chunk_val o ≠ 0 →
  source_ok ({[chunk_val o]} ∪ C) (gstate_of o (h, b)).1 (gstate_of o (h, b)).2.
Proof.
  intros (W & D & Q & HS & Hpc) Ho Hc.
  destruct (chunk_obtain_spec C h b W D Q r HS) as (c & h' & b' & W' & Hrun & _ & _ & Hat & Hcase).
  rewrite Hrun in Ho. subst o. cbn [chunk_val gstate_of fst snd] in *. destruct Hcase as [[-> _]|(_ & _ & _ & HS')]; [done|].
  exists W', D, Q. by rewrite Hat.
Qed.
End obtained.

Definition run_c := Background.chunk_obtain (Krn := first_fit_os) (T := registry) r0 (mk_heap ∅ ∅ ∅, src0).
Definition hc : heap := (gstate_of (Krn := first_fit_os) run_c (mk_heap ∅ ∅ ∅, src0)).1.
Definition bc : bstate (Krn := first_fit_os) registry := (gstate_of (Krn := first_fit_os) run_c (mk_heap ∅ ∅ ∅, src0)).2.

Lemma chunk_c : chunk_val (Krn := first_fit_os) run_c = 4194304.
Proof. vm_compute. reflexivity. Qed.

Lemma src_ok_c : source_ok {[4194304]} hc bc.
Proof.
  rewrite <-(union_empty_r_L {[4194304]}), <-chunk_c.
  apply (obtained_ok run_c ∅ (mk_heap ∅ ∅ ∅) src0 r0 src_ok0 eq_refl). by rewrite chunk_c.
Qed.
