(* ===== verification/BgProps.v ===== *)
(** * BgProps: the properties of the chunk source and of the shared address space

    Theorems on src/src/background.c, which shares the owner table and the address space
    with src/src/large.c, with their witnesses on the first-fit kernel. *)

From stdpp Require Import prelude gmap.
From S2P Require Import Prelude Memory SizeClass Freelist Registry Os Large Heap Memfd Dll Pool PoolInv PoolFrame Space Background BgLaws Demo.
Local Open Scope Z_scope.

(** ** Runs of the maintenance thread *)
Section run.
Context {Krn : OS} {KL : OSLaws Krn} {T : Type} {OT : OwnerTable T} {TL : OwnerTableLaws T OT}.
Context (uring_sqe : Z → bool).
Implicit Types (h : heap) (b : bstate T).

Fixpoint bg_steps (n : nat) : M (gstate T) unit :=
  match n with
  | O => mret tt
  | S n' => _ ← bg_step uring_sqe; bg_steps n'
  end.

Lemma bg_steps_ok C n : ∀ h b, source_ok C h b → bg_ok C h b (bg_steps n (h, b)).
Proof.
  induction n as [|n IH]; intros h b HS; cbn [bg_steps].
  - exists h, b. split_and!; [done|apply agree_on_refl|apply src_step_refl|done].
  - destruct (bg_step_spec uring_sqe C h b HS) as (h1 & b1 & Hrun & Hag & Hst & HS1). erewrite run_bind by exact Hrun.
    apply (bg_ok_after C h b h1 b1); [done..|]. by apply IH.
Qed.

Lemma bg_steps_app n1 n2 s s1 : bg_steps n1 s = Ok (tt, s1) → bg_steps (n1 + n2) s = bg_steps n2 s1.
Proof.
  revert s. induction n1 as [|n1 IH]; intros s; cbn [bg_steps Nat.add]; [by intros [= ->]|].
  intros (u & s0 & Hrun & Hrest)%run_bind_inv. destruct u. erewrite run_bind by exact Hrun. by apply IH.
Qed.

(** The thread comes back to its wait within [n] steps. *)
Definition idles C h b (n : nat) : Prop :=
  ∃ k h' b', (k ≤ n)%nat ∧ bg_steps k (h, b) = Ok (tt, (h', b')) ∧ bg_at b' = BgIdle ∧ source_ok C h' b'.

Lemma idles_step C h b h1 b1 n :
  bg_step uring_sqe (h, b) = Ok (tt, (h1, b1)) → idles C h1 b1 n → idles C h b (S n).
Proof.
  intros Hrun (k & h' & b' & Hk & Hs & Hat & HS). exists (S k), h', b'. split_and!; [lia| |done|done].
  cbn [bg_steps]. by erewrite run_bind by exact Hrun.
Qed.

Lemma idles_weaken C h b n m : (n ≤ m)%nat → idles C h b n → idles C h b m.
Proof. intros Hnm (k & h' & b' & Hk & H). exists k, h', b'. split; [lia|done]. Qed.

Lemma idles_refill C n : ∀ h b z, source_ok C h b → bg_at b = BgRefill z → (Z.to_nat z ≤ n)%nat → idles C h b (S n).
Proof.
  induction n as [|n IH]; intros h b z HS Eat Hz;
    destruct (bg_step_spec uring_sqe C h b HS) as (h1 & b1 & Hrun & _ & _ & HS1); apply (idles_step C h b h1 b1); try done;
    unfold bg_step in Hrun; erewrite !run_bind in Hrun by (apply run_gets); cbn [fst snd] in Hrun; rewrite Eat in Hrun.
  - rewrite (proj2 (Z.leb_le z 0)) in Hrun by lia. injection Hrun as <- <-. by exists 0%nat, h, (mk_bstate (b_kernel b) (b_table b) (b_hdrs b) (warm_head b) (warm_count b) (dispose_head b) (bg_async b) (bg_ring_ok b) BgIdle (b_file b)).
  - destruct (Z.leb_spec z 0).
    { injection Hrun as <- <-. exists 0%nat. eexists _, _. split; [lia|]. split_and!; [reflexivity|done|done]. }
    apply run_bind_inv in Hrun as (c & [h2 b2] & Hm & Hrun). destruct (c =? 0).
    + injection Hrun as <- <-. exists 0%nat. eexists _, _. split; [lia|]. split_and!; [reflexivity|done|done].
    + apply run_bind_inv in Hrun as ([] & [h3 b3] & Hp & Hrun). injection Hrun as <- <-.
      apply (IH _ _ (z - 1)); [done|done|lia].
Qed.

Lemma give_off_run off (s s' : gstate T) : give_off off s = Ok (tt, s') → ∃ f, s' = (s.1, set_memfile f s.2).
Proof.
  unfold give_off, mesh_mode. rewrite (run_bind _ _ _ _ _ (run_gets _ _)). destruct (btm_mesh_mode (b_file s.2)).
  - unfold free_off, on_memfd, zoom. destruct (memfd_free_off _ _ _) as [[[] m]| | |]; [|done..]. intros [= <-]. by eexists.
  - intros [= <-]. exists (b_file s.2). by destruct s as [? []].
Qed.

Lemma drop_chunk_size c h : has_chunk h c → (size (h_chunks (drop_chunk c h)) < size (h_chunks h))%nat.
Proof.
  intros [v Hv]. apply map_subset_size, map_subset_alt. split.
  - apply map_subseteq_spec. intros x w. cbn. rewrite clear_keys_lookup. by case_decide.
  - exists c. cbn. rewrite clear_keys_lookup, decide_True by (unfold BTM_CHUNK_SIZE; lia). split; [done|by exists v].
Qed.

Lemma unmap_chunk_frees c h b h' b' : has_chunk h c → unmap_chunk c (h, b) = Ok (tt, (h', b')) → h' = drop_chunk c h ∧ bg_at b' = bg_at b.
Proof.
  intros Hc. unfold unmap_chunk. erewrite run_bind by (by apply run_g_chunk). do 3 (erewrite run_bind by (apply run_modify)).
  cbn [fst snd]. intros (f & [= -> ->])%give_off_run. done.
Qed.

Lemma idles_trim C n : ∀ h b trim z, source_ok C h b → bg_at b = BgTrim trim z → size (h_chunks h) = n → ∃ m, idles C h b m.
Proof.
  induction n as [n IH] using lt_wf_ind; intros h b trim z HS Eat Hn.
  destruct (bg_step_spec uring_sqe C h b HS) as (h1 & b1 & Hrun & _ & _ & HS1). pose proof Hrun as Hrun0.
  unfold bg_step in Hrun; erewrite !run_bind in Hrun by (apply run_gets); cbn [fst snd] in Hrun; rewrite Eat in Hrun.
  destruct (trim =? 0).
  - assert (Eat1 : bg_at b1 = BgRefill z) by (injection Hrun as <- <-; done).
    exists (S (S (Z.to_nat z))). apply (idles_step C h b h1 b1); [done|]. by apply (idles_refill C _ h1 b1 z).
  - apply run_bind_inv in Hrun as (v & [h2 b2] & Hg & Hrun). unfold g_chunk in Hg.
    cbn [fst] in Hg. destruct (h_chunks h !! trim) as [v'|] eqn:Ev; [|done]. injection Hg as <- <- <-.
    apply run_bind_inv in Hrun as ([] & [h2 b2] & Hu & Hrun). injection Hrun as <- <-.
    apply unmap_chunk_frees in Hu as [-> Hat]; [|by exists v'].
    assert (Hlt : (size (h_chunks (drop_chunk trim h)) < n)%nat).
    { subst n. by apply drop_chunk_size; exists v'. }
    destruct (IH _ Hlt _ _ (c_next v') z HS1 eq_refl eq_refl) as (m & Hm). exists (S m).
    by apply (idles_step C h b (drop_chunk trim h) _ m Hrun0).
Qed.

Lemma idles_some C h b : source_ok C h b → ∃ m, idles C h b m.
Proof.
  assert (Hone : ∀ h b pc', source_ok C h b → (∀ h1 b1, bg_step uring_sqe (h, b) = Ok (tt, (h1, b1)) → ∃ x, bg_at b1 = pc' x) →
    (∀ h1 b1 (x : Z), source_ok C h1 b1 → bg_at b1 = pc' x → ∃ m, idles C h1 b1 m) → ∃ m, idles C h b m).
  { intros h0 b0 pc' HS Hpc Hnext. destruct (bg_step_spec uring_sqe C h0 b0 HS) as (h1 & b1 & Hrun & _ & _ & HS1).
    destruct (Hpc h1 b1 Hrun) as (x & Hx). destruct (Hnext h1 b1 x HS1 Hx) as (m & Hm). exists (S m). by apply (idles_step C h0 b0 h1 b1). }
  assert (Hrec : ∀ h b d, source_ok C h b → bg_at b = BgRecycle d → ∃ m, idles C h b m).
  { intros h0 b0 d HS Eat. destruct (bg_step_spec uring_sqe C h0 b0 HS) as (h1 & b1 & Hrun & _ & _ & HS1). pose proof Hrun as Hrun0.
    unfold bg_step in Hrun; erewrite !run_bind in Hrun by (apply run_gets); cbn [fst snd] in Hrun; rewrite Eat in Hrun.
    apply run_bind_inv in Hrun as (t & s2 & _ & Hrun). erewrite run_bind in Hrun by (apply run_gets). injection Hrun as Eh Eb.
    destruct (idles_trim C _ h1 b1 t (BTM_WARM_LOW - warm_count s2.2) HS1 ltac:(by rewrite <-Eb) eq_refl) as (m & Hm).
    exists (S m). by apply (idles_step C h0 b0 h1 b1). }
  intros HS. destruct (bg_at b) as [|d|d|t z|z] eqn:Eat.
  - by exists 0%nat, 0%nat, h, b.
  - apply (Hone h b BgRecycle HS); [|intros; by eapply Hrec]. intros h1 b1 Hrun.
    unfold bg_step in Hrun; erewrite !run_bind in Hrun by (apply run_gets); cbn [fst snd] in Hrun; rewrite Eat in Hrun.
    apply run_bind_inv in Hrun as ([] & s2 & _ & Hrun). injection Hrun as _ <-. by exists d.
  - by eapply Hrec.
  - by eapply idles_trim.
  - exists (S (Z.to_nat z)). by apply (idles_refill C _ h b z).
Qed.
(** At the head of the loop the thread waits exactly when there is nothing to do. *)
Lemma waits_iff h b : bg_at b = BgIdle →
  bg_step uring_sqe (h, b) = Ok (tt, (h, b)) ↔ dispose_head b = 0 ∧ BTM_WARM_LOW ≤ warm_count b.
Proof.
  intros Eat. unfold bg_step. erewrite !run_bind by (apply run_gets). cbn [fst snd]. rewrite Eat. erewrite !run_bind by (apply run_gets). cbn [snd].
  destruct (Z.eqb_spec (dispose_head b) 0) as [Hd|Hd], (Z.leb_spec BTM_WARM_LOW (warm_count b)) as [Hw|Hw]; cbn [andb].
  - done.
  - split; [|lia]. intros E. injection E as E. apply (f_equal bg_at) in E. cbn in E. congruence.
  - split; [|lia]. intros E. injection E as E. apply (f_equal bg_at) in E. cbn in E. congruence.
  - split; [|lia]. intros E. injection E as E. apply (f_equal bg_at) in E. cbn in E. congruence.
Qed.

(** A refusal of the kernel leaves all but the allocator of the file's ranges as it was. *)
Lemma refused_fresh C h b : source_ok C h b → k_mmap (b_kernel b) (BTM_CHUNK_SIZE * 2) = (None, b_kernel b) →
  ∃ f, map_fresh (h, b) = Ok (0, (h, set_memfile f b)) ∧ (btm_mesh_mode (b_file b) = false → f = b_file b).
Proof.
  intros (W & D & Q & HS & _) Hk. assert (Eb : ∀ f, set_memfile f (set_kernel (b_kernel b) b) = set_memfile f b) by (intros f; by destruct b).
  assert (Er : ∀ f, reserve_chunk (h, set_memfile f b) = Ok (None, (h, set_memfile f (set_kernel (b_kernel b) b)))).
  { intros f. unfold reserve_chunk. cbv zeta. cbn [fst snd b_kernel set_memfile]. by rewrite Hk. }
  destruct (take_off C h b W D Q HS) as (off & f1 & Eoff & Hcase). unfold map_fresh.
  unfold mesh_mode in *. rewrite (run_bind _ _ _ _ _ (run_gets _ _)) in Eoff. rewrite (run_bind _ _ _ _ _ (run_gets _ _)). cbn [snd] in *.
  destruct (btm_mesh_mode (b_file b)) eqn:Em.
  - erewrite run_bind by exact Eoff. destruct Hcase as [(_ & -> & _)|[Hmax Ht]].
    { rewrite Z.eqb_refl. by exists f1. }
    rewrite (proj2 (Z.eqb_neq off UINT64_MAX)) by (apply Hmax; by rewrite (proj1 Ht)). cbn [andb]. rewrite (run_bind _ _ _ _ _ (Er f1)).
    destruct (give_back C h b W D Q off f1 (b_kernel b) HS Ht) as (f2 & Eg & _). rewrite (run_bind _ _ _ _ _ Eg), Eb. by exists f2.
  - exists (b_file b). split; [|done]. erewrite run_bind by reflexivity. cbn [andb].
    assert (E0 : (h, b) = (h, set_memfile (b_file b) b)) by (by destruct b). rewrite E0 at 1. rewrite (run_bind _ _ _ _ _ (Er (b_file b))), Eb, <-E0.
    unfold give_off, mesh_mode. erewrite run_bind; [reflexivity|]. rewrite (run_bind _ _ _ _ _ (run_gets _ _)). cbn [snd]. by rewrite Em.
Qed.

Lemma refused_round C h b : source_ok C h b → bg_at b = BgIdle → dispose_head b = 0 → warm_count b < BTM_WARM_LOW →
  k_mmap (b_kernel b) (BTM_CHUNK_SIZE * 2) = (None, b_kernel b) →
  ∃ f, bg_steps 5 (h, b) = Ok (tt, (h, set_memfile f b)) ∧ (btm_mesh_mode (b_file b) = false → f = b_file b).
Proof.
  intros HS Eat Hd Hw Hk. set (st := λ pc, (h, mk_bstate (b_kernel b) (b_table b) (b_hdrs b) (warm_head b) (warm_count b) 0 (bg_async b) (bg_ring_ok b) pc (b_file b))).
  assert (E0 : (h, b) = st BgIdle) by (clear HS Hk Hw; subst st; destruct b; cbn in *; congruence).
  assert (E1 : bg_step uring_sqe (st BgIdle) = Ok (tt, st (BgDecommit 0))).
  { unfold bg_step, st. erewrite !run_bind by (apply run_gets). cbn [fst snd bg_at]. erewrite !run_bind by (apply run_gets). cbn [snd dispose_head warm_count].
    by rewrite (proj2 (Z.leb_gt _ _) Hw). }
  assert (E2 : bg_step uring_sqe (st (BgDecommit 0)) = Ok (tt, st (BgRecycle 0))).
  { unfold bg_step, st. erewrite !run_bind by (apply run_gets). cbn [fst snd bg_at]. by destruct (size _). }
  assert (E3 : bg_step uring_sqe (st (BgRecycle 0)) = Ok (tt, st (BgTrim 0 (BTM_WARM_LOW - warm_count b)))).
  { unfold bg_step, st. erewrite !run_bind by (apply run_gets). cbn [fst snd bg_at]. by destruct (size _). }
  assert (E4 : bg_step uring_sqe (st (BgTrim 0 (BTM_WARM_LOW - warm_count b))) = Ok (tt, st (BgRefill (BTM_WARM_LOW - warm_count b)))) by done.
  pose proof (bg_steps_ok C 4 h b HS) as (h4 & b4 & Hrun & _ & _ & HS4).
  rewrite E0 in Hrun. cbn [bg_steps] in Hrun. rewrite (run_bind _ _ _ _ _ E1), (run_bind _ _ _ _ _ E2), (run_bind _ _ _ _ _ E3), (run_bind _ _ _ _ _ E4) in Hrun.
  injection Hrun as <- <-. destruct (refused_fresh _ _ _ HS4 Hk) as (f & E & Ef). exists f. split; [|exact Ef].
  assert (E5 : bg_step uring_sqe (st (BgRefill (BTM_WARM_LOW - warm_count b))) = Ok (tt, (h, set_memfile f b))).
  { unfold bg_step. erewrite !run_bind by (apply run_gets). unfold st. cbn [fst snd bg_at]. rewrite (proj2 (Z.leb_gt _ _)) by lia.
    rewrite (run_bind _ _ _ _ _ E). transitivity (Ok (tt, (h, set_memfile f (st BgIdle).2))); [done|]. by rewrite <-E0. }
  rewrite E0. cbn [bg_steps]. rewrite (run_bind _ _ _ _ _ E1), (run_bind _ _ _ _ _ E2), (run_bind _ _ _ _ _ E3), (run_bind _ _ _ _ _ E4).
  by rewrite (run_bind _ _ _ _ _ E5).
Qed.
End run.

(** ** Properties *)

(** C21. Obtaining a chunk from the warm pool or from the kernel, whatever the maintenance
    thread is doing: the caller gets NULL, or a 2 MiB aligned chunk that no client holds,
    mapped, resolving to itself, its header ready to carve for the pool; the clients'
    chunks and the large objects keep every byte. *)
Theorem chunk_obtain_correct {Krn : OS} {KL : OSLaws Krn} {T : Type} {OT : OwnerTable T} {TL : OwnerTableLaws T OT}
    C h (b : bstate T) r :
  source_ok C h b →
  ∃ c h' b', Background.chunk_obtain r (h, b) = Ok (c, (h', b')) ∧ agree_on (λ x, x ∈ C) h h' ∧
    (∀ x, large_byte (bview h b) x → byte_at (h_mem h') x = byte_at (h_mem h) x) ∧ b_hdrs b' = b_hdrs b ∧
    ((c = 0 ∧ source_ok C h' b') ∨
     ((c ∉ C) ∧ chunk_base c ∧ (∃ v, h_chunks h' !! c = Some v ∧ fresh_header r v) ∧
      (∀ x, c ≤ x < c + BTM_CHUNK_SIZE → k_mapped (b_kernel b') x = true ∧ ot_lookup (b_table b') x = c) ∧
      source_ok ({[c]} ∪ C) h' b')).
Proof.
  intros (W & D & Q & HS & Hpc).
  destruct (chunk_obtain_spec C h b W D Q r HS) as (c & h' & b' & W' & Hrun & Hag & Hst & Hat & Hcase). destruct (Hst false) as [Hh Hb Ht].
  exists c, h', b'. split_and!; [done..|]. destruct Hcase as [[-> HS']|(Hn & Hcb & Hv & HS')]; [left|right].
  - split; [done|]. exists W', D, Q. by rewrite Hat.
  - assert (Hin : process_chunk ({[c]} ∪ C) W' D Q c) by (left; set_solver). pose proof (held_space HS' c Hin) as [_ Hm Ho].
    split_and!; [done..| |exists W', D, Q; by rewrite Hat]. intros x Hx. split; [by apply Hm|by apply Ho].
Qed.

(** C22. Disposing of a chunk a client gives back, in the asynchronous and in the
    synchronous mode: it never faults, leaves the other chunks and the large objects as
    they are, and the chunk is warm, queued for the maintenance thread, or unmapped and
    unregistered, never lost and never still a client's. *)
Theorem chunk_dispose_correct {Krn : OS} {KL : OSLaws Krn} {T : Type} {OT : OwnerTable T} {TL : OwnerTableLaws T OT}
    C h (b : bstate T) c :
  source_ok C h b → c ∈ C →
  ∃ h' b', Background.chunk_dispose c (h, b) = Ok (tt, (h', b')) ∧ agree_on (λ x, x ∈ C ∧ x ≠ c) h h' ∧
    (∀ x, large_byte (bview h b) x → byte_at (h_mem h') x = byte_at (h_mem h) x) ∧ b_hdrs b' = b_hdrs b ∧
    source_ok (C ∖ {[c]}) h' b' ∧
    (warm_head b' = c ∨ dispose_head b' = c ∨
     (h_chunks h' !! c = None ∧ ∀ x, c ≤ x < c + BTM_CHUNK_SIZE → k_mapped (b_kernel b') x = false ∧ ot_lookup (b_table b') x = 0)).
Proof.
  intros (W & D & Q & HS & Hpc) Hc. pose proof (held_header HS c (or_introl Hc)) as Hh.
  pose proof (held_base HS c (or_introl Hc)) as Hcb.
  destruct (chunk_dispose_spec C h b W D Q c HS Hc) as (h' & b' & W' & D' & Hrun & Hag & [Hst1 Hst2 _] & Hat & HS').
  exists h', b'. split_and!; [done..|exists W', D', Q; by rewrite Hat|].
  unfold chunk_dispose in Hrun. erewrite run_bind in Hrun by (apply run_gets). cbn [snd] in Hrun. destruct (bg_async b).
  - erewrite run_bind in Hrun by (apply run_gets). erewrite run_bind in Hrun by (apply run_g_upd, Hh). injection Hrun as <- <-.
    right. by left.
  - destruct (decommit_run C h b W D Q c HS (or_introl Hc)) as (f & Hrun1 & _ & _ & HS1).
    set (h1 := heap_zero _ _ _) in *. erewrite run_bind in Hrun by exact Hrun1. erewrite run_bind in Hrun by (apply run_gets).
    cbn [fst snd warm_count set_memfile] in Hrun. destruct (warm_count b <? BTM_WARM_HIGH).
    + rewrite run_warm_push in Hrun by (apply (held_header HS1); by left). injection Hrun as <- <-. by left.
    + destruct (run_unmap_chunk C h1 (set_memfile f b) W D Q c HS1 Hc) as (f2 & Hrun2 & _).
      rewrite Hrun2 in Hrun. injection Hrun as <- <-. right; right. split.
      { cbn. rewrite clear_keys_lookup, decide_True; [done|]. unfold BTM_CHUNK_SIZE. lia. }
      intros x Hx. cbn. destruct Hcb as (H0 & Hm & H47). split.
      * rewrite munmap_mapped; [by rewrite (proj2 (within_spec _ _ _))|by apply (mod_0_weaken c 12 21); [lia|]|done].
      * assert (user_addr x) by (unfold user_addr; lia).
        rewrite ot_lookup_remove; [|apply (si_space _ _ _ _ _ _ HS)|by apply chunk_user_span|done].
        rewrite decide_True; [done|]. by apply in_span_chunk.
Qed.

(** C23. The maintenance thread, taken in its steps between critical sections, never faults
    and is invisible: after any number of its steps, at any point between operations, the
    clients' chunks and the large objects are byte for byte as they were and the source
    keeps its interface. *)
Theorem maintenance_invisible {Krn : OS} {KL : OSLaws Krn} {T : Type} {OT : OwnerTable T} {TL : OwnerTableLaws T OT}
    uring_sqe C h (b : bstate T) n :
  source_ok C h b →
  ∃ h' b', bg_steps uring_sqe n (h, b) = Ok (tt, (h', b')) ∧ agree_on (λ x, x ∈ C) h h' ∧
    (∀ x, large_byte (bview h b) x → byte_at (h_mem h') x = byte_at (h_mem h) x) ∧ b_hdrs b' = b_hdrs b ∧ source_ok C h' b'.
Proof.
  intros HS. destruct (bg_steps_ok uring_sqe C n h b HS) as (h' & b' & Hrun & Hag & [H1 H2 _] & HS'). by exists h', b'.
Qed.

(** C24. The maintenance thread always comes back to the head of its loop: from any of its
    states it gets there in finitely many steps, whatever the kernel answers.  There it
    waits exactly when no chunk is queued and the warm pool is not low.  In particular it
    does not wait while the kernel refuses it memory: with a low warm pool and every
    mapping refused, five steps lead from the head of the loop to the same state, but for
    the allocator of the file's ranges in mesh mode, and the thread runs without end. *)
Theorem maintenance_terminates {Krn : OS} {KL : OSLaws Krn} {T : Type} {OT : OwnerTable T} {TL : OwnerTableLaws T OT}
    uring_sqe C h (b : bstate T) :
  source_ok C h b →
  (∃ n h' b', bg_steps uring_sqe n (h, b) = Ok (tt, (h', b')) ∧ bg_at b' = BgIdle ∧ source_ok C h' b') ∧
  (bg_at b = BgIdle → bg_step uring_sqe (h, b) = Ok (tt, (h, b)) ↔ dispose_head b = 0 ∧ BTM_WARM_LOW ≤ warm_count b) ∧
  (bg_at b = BgIdle → dispose_head b = 0 → warm_count b < BTM_WARM_LOW →
   k_mmap (b_kernel b) (BTM_CHUNK_SIZE * 2) = (None, b_kernel b) →
   ∃ f, bg_steps uring_sqe 5 (h, b) = Ok (tt, (h, set_memfile f b)) ∧ (btm_mesh_mode (b_file b) = false → f = b_file b)).
Proof.
  intros HS. split; [|split].
  - destruct (idles_some uring_sqe C h b HS) as (m & k & h' & b' & _ & Hrun & Hat & HS'). by exists k, h', b'.
  - apply waits_iff.
  - by apply (refused_round uring_sqe C).
Qed.

Lemma chunk_obtain_correct_witness :
  ∃ c h' b', Background.chunk_obtain r0 (mk_heap ∅ ∅ ∅, src0) = Ok (c, (h', b')).
Proof.
  destruct (chunk_obtain_correct (Krn := first_fit_os) (KL := first_fit_laws) ∅ (mk_heap ∅ ∅ ∅) src0 r0 src_ok0) as (c & h' & b' & Hrun & _).
  exists c, h', b'. exact Hrun.
Defined.

Lemma chunk_dispose_correct_witness :
  ∃ h' b', Background.chunk_dispose 4194304 (hc, bc) = Ok (tt, (h', b')) ∧ source_ok ({[4194304]} ∖ {[4194304]}) h' b'.
Proof.
  destruct (chunk_dispose_correct (Krn := first_fit_os) (KL := first_fit_laws) {[4194304]} hc bc 4194304 src_ok_c) as (h' & b' & Hrun & _ & _ & _ & HS & _).
  - by apply elem_of_singleton.
  - exists h', b'. exact (conj Hrun HS).
Defined.

Lemma maintenance_invisible_witness :
  ∃ h' b', bg_steps (Krn := first_fit_os) (T := registry) (λ _, true) 20 (hc, bc) = Ok (tt, (h', b')) ∧ source_ok {[4194304]} h' b'.
Proof.
  destruct (maintenance_invisible (Krn := first_fit_os) (KL := first_fit_laws) (λ _, true) {[4194304]} hc bc 20 src_ok_c) as (h' & b' & Hrun & _ & _ & _ & HS).
  exists h', b'. exact (conj Hrun HS).
Defined.

Lemma maintenance_terminates_witness :
  ∃ n h' b', bg_steps (Krn := first_fit_os) (T := registry) (λ _, true) n (hc, bc) = Ok (tt, (h', b')) ∧ bg_at b' = BgIdle.
Proof.
  destruct (maintenance_terminates (Krn := first_fit_os) (KL := first_fit_laws) (λ _, true) {[4194304]} hc bc src_ok_c) as [(n & h' & b' & Hrun & Hat & _) _].
  exists n, h', b'. exact (conj Hrun Hat).
Defined.
