(* ===== verification/PoolProps.v ===== *)
(** * PoolProps: the properties of the slab pools

    The theorems on refill, flush and direct frees, for any link encoding, any chunk
    source that keeps its interface, and any number of pools; with their witnesses on the
    process of Demo.v. *)

From stdpp Require Import prelude gmap.
From S2P Require Import Prelude Memory SizeClass Freelist Registry Os Heap Dll Pool PoolInv PoolFrame PoolRun PoolCarve PoolRefill PoolReclaim PoolFlush PoolSys PoolOps Space Background BgLaws Demo.
Local Open Scope Z_scope.

Section props.
Context {F : FlOps} {FL : FlLaws F} {B : Type} {CS : ChunkSource B} {CL : ChunkSourceLaws B CS}.
Implicit Types (s : pstate B) (A : asys) (r : pool_ref) (a : apool).

(** C17. Refilling a thread's bin, in any process of pools: it never faults, and either it
    returns NULL with the pools, the bin and every live byte as they were, or it returns a
    16-byte aligned slot and puts at most [want - 1] further ones in front of the bin; the
    slots taken overlap no slot that was in use or cached, exactly they leave the pool, no
    byte of a slot in use or cached changes, and all pools keep their invariant. *)
Theorem pool_refill_correct s A r a bin lb want :
  sys_ok s A → A !! r = Some a → bin_ok r (h_mem (p_heap s)) a bin lb → 1 ≤ want → want + Z.of_nat (length lb) < 2 ^ 32 →
  ∃ p bin' s', btm_pool_refill r bin want s = Ok ((p, bin'), s') ∧ keeps (live_byte A) s s' ∧
    ((p = 0 ∧ bin' = bin ∧ sys_ok s' A) ∨
     ∃ q a', 0 < p ∧ p mod BTM_ALIGNMENT = 0 ∧ sys_ok s' (<[r := a']> A) ∧ bin_ok r (h_mem (p_heap s')) a' bin' (q ++ lb) ∧
       Z.of_nat (length (p :: q)) ≤ want ∧ b_pool bin' = b_pool bin ∧
       (∀ x, outstanding_slot r a' x ↔ outstanding_slot r a x ∨ x ∈ p :: q) ∧
       (∀ x r' y, x ∈ p :: q → live_slot A r' y → disjoint_blocks x (btm_sc_to_size r.2) y (btm_sc_to_size r'.2))).
Proof.
  intros HS Hr HB Hw Hlen.
  destruct (sys_refill true s A r a bin lb want HS Hr HB Hw Hlen)
    as [(s' & Hrun & HS' & K & _)|(p & q & s' & a' & bin' & Hrun & HS' & K & T & HB' & Hn & Hb & _)].
  - exists 0, bin, s'. split_and!; [done|done|by left].
  - exists p, bin', s'. split_and!; [done|done|]. right. exists q, a'.
    pose proof (λ x, taken_fresh s' A r a a' (p :: q) x Hr T HS') as Hfr.
    destruct (Hfr p ltac:(by left)) as [Hlive _].
    destruct (live_aligned s' (<[r := a']> A) r p HS' Hlive) as (? & _ & ?).
    split_and!; try done; [apply T|]. intros x r' y Hx. by apply Hfr.
Qed.

(** C18. Flushing a bin down to [keep] slots: the first slots of the bin, and only they, go
    back to their slabs; the bin keeps the rest in order; no byte of a slot that stays in
    use or cached changes, whatever slabs and chunks are reclaimed on the way. *)
Theorem pool_flush_correct s A r a bin lb keep :
  sys_ok s A → A !! r = Some a → bin_ok r (h_mem (p_heap s)) a bin lb → b_pool bin = Some r →
  Z.of_nat (length lb) < 2 ^ 32 → 0 ≤ keep →
  let k := Z.to_nat (b_count bin - keep) in
  ∃ s' a' bin', btm_pool_flush bin keep s = Ok (bin', s') ∧ sys_ok s' (<[r := a']> A) ∧
    keeps (live_byte (<[r := a']> A)) s s' ∧ bin_ok r (h_mem (p_heap s')) a' bin' (drop k lb) ∧ b_pool bin' = Some r ∧
    (∀ x, outstanding_slot r a' x ↔ outstanding_slot r a x ∧ x ∉ take k lb).
Proof.
  intros HS Hr HB Hb Hlen Hk k.
  destruct (sys_flush s A r a bin lb keep HS Hr HB Hb Hlen Hk) as (s' & a' & bin' & Hrun & HS' & K & HB' & Hb' & Hout & _).
  by exists s', a', bin'.
Qed.

(** A direct free, the path of a thread without a cache: the slot's descriptor is found
    through its chunk's page table, and freeing it there takes exactly this slot out of
    use and changes no byte of another. *)
Theorem pool_free_one_correct s A r p :
  sys_ok s A → live_slot A r p →
  ∃ d s' a a', btm_slab_of (p_heap s) (chunk_of p) p = Some d ∧ A !! r = Some a ∧
    btm_pool_free_one d p s = Ok (tt, s') ∧ sys_ok s' (<[r := a']> A) ∧ keeps (live_byte (<[r := a']> A)) s s' ∧
    (∀ x, outstanding_slot r a' x ↔ outstanding_slot r a x ∧ x ≠ p).
Proof.
  intros HS Hp. destruct (sys_slab_of s A r p HS Hp) as (d & Hd). destruct Hp as (a & Ha & Hp).
  destruct (sys_free_one s A r a p d HS Ha Hp Hd) as (s' & a' & Hrun & HS' & K & Hout & _).
  exists d, s', a, a'. by split_and!.
Qed.

(** Slots in use or cached never overlap each other, be they of one pool or of two, and
    each is 16-byte aligned. *)
Theorem pools_never_overlap s A r1 r2 p1 p2 :
  sys_ok s A → live_slot A r1 p1 → live_slot A r2 p2 → (r1, p1) ≠ (r2, p2) →
  disjoint_blocks p1 (btm_sc_to_size r1.2) p2 (btm_sc_to_size r2.2) ∧ p1 mod BTM_ALIGNMENT = 0.
Proof. intros HS H1 H2 Hne. split; [by apply (live_disjoint s A)|by apply (live_aligned s A r1 p1)]. Qed.
End props.

Lemma pool_refill_correct_witness :
  ∃ p bin' s', btm_pool_refill r0 bin0 8 s0 = Ok ((p, bin'), s') ∧ keeps (live_byte A0) s0 s'.
Proof.
  assert (H1 : 1 ≤ 8) by lia. assert (H32 : 8 + Z.of_nat (length ([] : list Z)) < 2 ^ 32) by (simpl; lia).
  destruct (pool_refill_correct s0 A0 r0 a0 bin0 [] 8 ok0 look0 bin_ok0 H1 H32) as (p & bin' & s' & Hrun & K & _).
  exists p, bin', s'. exact (conj Hrun K).
Defined.

Lemma pool_flush_correct_witness : ∃ s' bin', btm_pool_flush bin1 0 s1 = Ok (bin', s').
Proof.
  destruct ok1 as (a & q & HS & HB & _ & _ & Hq & Hb).
  assert (Hl : ({[r0 := a]} : asys) !! r0 = Some a) by apply lookup_singleton_eq.
  assert (Hq' : Z.of_nat (length q) < 2 ^ 32) by lia.
  destruct (pool_flush_correct s1 {[r0 := a]} r0 a bin1 q 0 HS Hl HB Hb Hq' ltac:(done)) as (s' & a' & bin' & Hrun & _).
  exists s', bin'. exact Hrun.
Defined.

Lemma pool_free_one_correct_witness :
  ∃ d s', btm_slab_of (p_heap s1) (chunk_of p1) p1 = Some d ∧ btm_pool_free_one d p1 s1 = Ok (tt, s').
Proof.
  destruct ok1 as (a & q & HS & _ & Hp & _).
  assert (Hl : live_slot {[r0 := a]} r0 p1) by (exists a; by rewrite lookup_singleton_eq).
  destruct (pool_free_one_correct s1 {[r0 := a]} r0 p1 HS Hl) as (d & s' & _ & _ & Hd & _ & Hrun & _). exists d, s'. exact (conj Hd Hrun).
Defined.

Lemma pools_never_overlap_witness : ∃ y, y ≠ p1 ∧ disjoint_blocks p1 16 y 16.
Proof.
  destruct ok1 as (a & q & HS & HB & Hp & Hpq & _).
  assert (Hx : b_free_head bin1 = 4223072) by (vm_compute; reflexivity).
  pose proof (bn_head _ _ _ _ _ HB) as Hh. rewrite Hx in Hh. clear Hx. destruct q as [|y q]; [done|]. clear Hh. exists y.
  assert (Hy : y ≠ p1) by (intros E; apply Hpq; rewrite E; left).
  assert (Hne : (r0, p1) ≠ (r0, y)) by (intros E%(f_equal snd); cbn [snd] in E; by apply Hy).
  assert (H1 : live_slot {[r0 := a]} r0 p1) by (exists a; by rewrite lookup_singleton_eq).
  assert (H2 : live_slot {[r0 := a]} r0 y).
  { exists a. rewrite lookup_singleton_eq. split; [done|]. apply (bn_out _ _ _ _ _ HB). left. }
  destruct (pools_never_overlap s1 {[r0 := a]} r0 r0 p1 y HS H1 H2 Hne) as [H _]. exact (conj Hy H).
Defined.
